(* ===== verification/_CoqProject ===== *)
-Q . S2P
Prelude.v
GoStd.v
GoStrings.v
Types.v
Prog.v
Retry.v
Kube.v
Conditions.v
Evaluation.v
EvaluationFacts.v
TargetURI.v
Naming.v
AgentRequestController.v
ControllerSpec.v
ControllerRefines.v
Cluster.v
LifecycleFacts.v
AuditTrail.v
SinglePhase.v
LifecycleExamples.v
GoFloat.v
Registration.v
GatewayAuth.v
Gateway.v
GatewayCreate.v
GatewayMatch.v
GatewayHandlers.v
GatewayFacts.v
CreateFacts.v
GC.v
GCFacts.v
GatewayExamples.v
GCExamples.v
GovernedResourceController.v
TrustKube.v
AccuracyController.v
AccuracyFacts.v
GoSort.v
TrustProfileController.v
TrustFacts.v
TrustExamples.v
Jwt.v
McpServers.v
Mcp.v
McpFacts.v
McpRuns.v
Credential.v
CredentialFacts.v
CredentialExamples.v
McpServerController.v
McpServerFacts.v
JwtKey.v
Stream.v
Schema.v
CelAdmission.v
Admin.v
AdminFacts.v
Recompute.v
Fetchers.v
KeyPair.v
Watches.v
Routes.v
GatewayServe.v
GatewayMain.v
GatewayRuns.v
ManagerMain.v
Dashboard.v
GatewayWrites.v
System.v
SystemFacts.v
SystemRuns.v
