(* ===== verification/Prelude.v ===== *)
(** * AIP Kubernetes control plane: a verification development

    The program governs what autonomous agents do to a cluster.  An agent asks
    the gateway ([src/cmd/gateway]) for an action on a target; the gateway
    authenticates the caller, finds the GovernedResource that governs the
    target, checks the agent's trust level and creates an AgentRequest.  The
    AgentRequest controller ([src/internal/controller/agentrequest_controller.go])
    evaluates the SafetyPolicies ([src/internal/evaluation]), waits for a human
    where a policy asks for one, takes a lease on the target (the OpsLock) and
    moves the request through its phases, writing an audit record for each
    change.  Verdicts that reviewers give are counted by the accuracy
    controller; the trust-profile controller turns accuracy and executions
    into a trust level, which the gateway reads at the next request.  An
    approved request is worth a signed token ([src/internal/jwt]), with which a
    tool of an MCP server may be called through the gateway.  A garbage
    collector ([src/internal/gc]) removes old requests.  Administrators manage
    policies, resources and registrations through the gateway, too, and a
    dashboard ([src/cmd/dashboard]) passes a browser's requests on to it.

    ** How programs are modelled

    Code that talks to the outside is a [prog] (file [Prog]): a tree of calls
    whose answers are arbitrary.  A component has a signature of calls (the
    API server, the clock, caches shared with other goroutines, upstream
    servers) and one definition per function of the source, composed as the
    source composes them; Go errors are values.  [runs] and [emits] are the
    complete and the cut-short executions, so a theorem about [emits] holds
    for a process that may crash after any call, and for every interleaving
    with other processes, since nothing is assumed of an answer unless a
    theorem says so.  [safe] is the logic: every call is allowed by the
    history before it, and every result satisfies a postcondition.  State
    that lives in the process (caches) is a record with pure operations, and
    a step relation where goroutines share it.

    ** Files

    - [Prelude], [GoStd], [GoStrings], [GoFloat], [GoSort]: strings, errors,
      SHA-256, URL parsing, durations, [float64] and [sort.Slice] as far as
      the sources use them.  [Types], [Naming]: the custom resources and the
      names and labels derived from identities ([src/api/v1alpha1],
      [src/cmd/gateway/server.go]).
    - [Prog], [Retry], [Kube], [Conditions]: programs, retried updates,
      the controller's calls, status conditions.
    - [Evaluation], [EvaluationFacts]: [evaluator.go] and [cel.go]; the CEL
      library is a class.  [TargetURI]: [target_context.go].
    - [AgentRequestController]: [Reconcile] and all it calls.
      [ControllerSpec] is the abstract specification, which call is allowed
      after which history; [ControllerRefines] proves that every execution
      follows it, one lemma per function; [LifecycleFacts], [AuditTrail] and
      [SinglePhase] read the properties off it.  [Cluster],
      [LifecycleExamples]: runs.
    - [Registration]: [registration_watch.go].  [GatewayAuth]: [oidc.go].
      [Gateway], [GatewayMatch]: calls, matching, glob cache and trust gate
      ([server.go], [governed_resource.go]).  [GatewayCreate],
      [CreateFacts]: [agent_request_handlers.go].  [GatewayHandlers],
      [GatewayFacts]: the lifecycle, review and token handlers.
      [GatewayExamples]: runs.
    - [GC], [GCFacts], [GCExamples]: [src/internal/gc].
      [GovernedResourceController]: [governedresource_controller.go].
    - [TrustKube], [AccuracyController], [AccuracyFacts]:
      [accuracy_controller.go].  [TrustProfileController], [TrustFacts],
      [TrustExamples]: [agenttrustprofile_controller.go].
    - [Jwt]: [src/internal/jwt/manager.go], over an abstract signature
      library.  [McpServers]: the server cache of [mcp_watch.go] and the
      session state of [mcp_registry.go], as a heap, because handlers write
      through the pointers they hold.  [Mcp], [McpFacts], [McpRuns]: the two
      MCP endpoints and the governance tool ([mcp_handler.go],
      [mcp_proxy.go], [mcp_aip_tools.go], [src/internal/mcp]).
    - [Credential], [CredentialFacts], [CredentialExamples]: the providers of
      [src/internal/credential], with executions of several goroutines as
      lists of their calls in the order in which they took effect.
      [McpServerController], [McpServerFacts]: [mcpserver_controller.go].
      [JwtKey]: [jwtkey_controller.go].  [KeyPair]: generation, files and the
      watcher of keys ([src/internal/jwt/manager.go]).
    - [Stream]: [sse.go].  [Schema], [CelAdmission]: validation and evolution
      of context schemas, admission of policies ([schema_validation.go],
      [cel_validation.go], [governed_resource_handlers.go]).  [Admin],
      [AdminFacts]: the administration handlers, trust profiles and audit
      records.  [Recompute]: [accuracy_handlers.go].
    - [Fetchers]: [k8s_fetcher.go], [mock_fetcher.go] and
      [src/internal/evaluation/fetchers].
      [Watches]: the predicates, maps and indexes of [SetupWithManager].
    - [Routes]: the gateway's patterns and [http.ServeMux].  [GatewayServe]:
      all handlers behind their routes, with the middlewares of [oidc.go],
      [metrics.go] and [server.go] on a heap of request objects.
      [GatewayMain]: [main] of the gateway and the MCP registry of its
      environment ([mcp_registry.go]).  [GatewayRuns]: runs.  [ManagerMain]:
      [src/cmd/main.go].  [Dashboard]: [src/cmd/dashboard/main.go], in front
      of the gateway.
    - [GatewayWrites]: one specification of what the gateway's operations
      write to AgentRequests.  [System]: a transition system in which the
      reconciles of the manager and the operations of the gateway, the very
      programs of the files above, run interleaved, one call at a time,
      against one API server.  [SystemFacts]: its invariant and what follows;
      [SystemRuns]: a request from submission to completion.

    ** The assumptions of [System]

    The controller's reads of an AgentRequest are live, as
    [agent_request_reconciler] of [ManagerMain] configures them; reads through
    a cache give any version ever stored under the name.  A merge patch is
    applied to the object as it is then, without a precondition; an answer may
    be lost.  There is one reconcile of a name at a time, which is what
    controller-runtime promises; everything may be deleted, and every process
    may stop, at any time.  A name is used once: a deduplicated name that is
    used again after its request was deleted, while a decision on the deleted
    one is still under way, is outside [System].

    ** What the theorems show

    - System: whatever the interleaving and however stale the caches, a
      stored request that is Approved or Executing was passed by an evaluation
      of the policies listed or approved by a reviewer, and the trust gate let
      it execute; a decision is by a reviewer who is not its agent; from one
      stored version to the next the phase follows the graph.
    - Lifecycle: the controller refines its specification; Approved needs the
      lock and an evaluation or a human; phases follow the graph and terminal
      ones are final; leases are not stolen; denials are explained; changes of
      phase are audited; untrusted requests never execute; what a status write
      may change.
    - Evaluation: the loops with their cache compute the most severe verdict.
    - Gateway: who may have a request created and under which resource and
      gate; matching does not depend on the order of the list or on the
      cache; reviewers, agents and tokens are checked before each write;
      duplicates collide; the registration cache and its lookups; what an
      event stream tells; with which configuration the gateway starts, who
      reaches a handler through middlewares and routes, and that the roles of
      the API reference are enforced, the MCP endpoints apart; nobody is
      impersonated through the dashboard.
    - Administration: writes are by administrators, of checked objects;
      the top-level fields of context schemas only grow, under any
      interleaving; validation accepts the restricted schemas; a recompute
      tallies the reviewed requests.
    - Tools and tokens: tool calls need a token for that tool and target and
      a credential registered for the agent; what the endpoints may write;
      tokens are accepted only under the current or just replaced key and
      round-trip until they expire; pointers to servers are stable; a
      credential is never another caller's, and how old it may be; tools are
      read-only only as the spec says; when the signing key is replaced.
    - Trust: each verdict is counted once; the window is the most recent
      one; levels change only for the stated reasons and with an audit;
      changes reach the reconcilers they concern.
    - Collection: only due requests go, all of them do, in bounded pages.

    ** Bounds

    Loops that end only when something outside does take a number of rounds:
    [poll_loop] (polls of a phase until the deadline or a final phase),
    [scan] and [audit_pages] (pages of a listing), [await_events] (events of
    a watch), [stream_events] (events of a stream; no result means that it has
    not ended yet).  The theorems hold for every bound, so for every number of
    rounds; [gc_scan_ends] shows that on listings of finitely many pages the
    collector comes to a result.  [RetryOnConflict] is a class whose law
    is that it runs its closure some number of times and returns the last
    result; [CountedRetry] is an instance.  Bounds of parsers and of SHA-256 are
    the length of their input, which each round shortens.

    ** Not modelled

    Libraries are classes with their documented laws, or calls with arbitrary
    answers: [encoding/json], CEL, glob matching, signatures, [singleflight],
    [net], controller-runtime's client, caches and event handling, Prometheus,
    flag parsing and the serving of files.  Of [http.ServeMux] there is what
    the patterns use.  Left out are the text of log lines, the generated
    copy functions, demos, scripts and test helpers, which are not part of the
    system. *)

From stdpp Require Export base list strings gmap option pretty.
From Stdlib Require Export ZArith Lia.

Declare Scope aip_scope.
Delimit Scope aip_scope with aip.
Global Open Scope aip_scope.
Global Open Scope Z_scope.

(** ** Go strings

    A Go [string] is a byte sequence; [String.string] is one too.  Comparison
    in the source is [==] on bytes. *)

Notation "s ==? t" := (String.eqb s t) (at level 70, no associativity) : aip_scope.
Notation "s <>? t" := (negb (String.eqb s t)) (at level 70, no associativity) : aip_scope.

(** Reading a Go [map[string]string] at a missing key gives [""]. *)
Definition map_str (m : gmap string string) (k : string) : string := default ""%string (m !! k).

(** ** Go errors

    [errors.IsNotFound] and friends look through wrapping ([%w]), so an error
    keeps the API status it wraps. *)
Inductive api_status :=
| NotFound
| AlreadyExists
| Conflict
| Invalid
| BadRequest
| NoMatch
| OtherStatus (code : Z).

Inductive error :=
| EApi (s : api_status)
| EMsg (msg : string)
| EWrap (msg : string) (e : error)
| EPanic (msg : string).

#[export] Instance api_status_eq_dec : EqDecision api_status.
Proof. solve_decision. Defined.
#[export] Instance error_eq_dec : EqDecision error.
Proof. solve_decision. Defined.

Fixpoint err_status (e : error) : option api_status :=
  match e with
  | EApi s => Some s
  | EWrap _ e' => err_status e'
  | EMsg _ | EPanic _ => None
  end.

Definition IsNotFound (e : error) : bool := bool_decide (err_status e = Some NotFound).
Definition IsAlreadyExists (e : error) : bool := bool_decide (err_status e = Some AlreadyExists).
Definition IsConflict (e : error) : bool := bool_decide (err_status e = Some Conflict).

(** [err.Error()]; the text of an error made with [fmt.Errorf] is that text. *)
Class ErrorText := { err_v : error → string; err_v_msg : ∀ m, err_v (EMsg m) = m }.

(** A Go [(T, error)] pair of which one side is meaningful. *)
Inductive res (A : Type) :=
| Ok (a : A)
| Err (e : error).
Arguments Ok {A} _.
Arguments Err {A} _.

(** [client.IgnoreNotFound]. *)
Definition IgnoreNotFound (e : error) : option error := if IsNotFound e then None else Some e.

(** ** Durations and times

    [time.Duration] is nanoseconds; instants are nanoseconds since the epoch. *)
Definition Second : Z := 1000000000.
Definition Minute : Z := 60 * Second.
Definition Hour : Z := 60 * Minute.

(** Go's [int32(x)] and [int64(x)] conversions. *)
Definition wrap (w x : Z) : Z := (x + 2 ^ (w - 1)) mod 2 ^ w - 2 ^ (w - 1).
Definition int32 (x : Z) : Z := wrap 32 x.
Definition int64 (x : Z) : Z := wrap 64 x.

(** ** Automation *)

Create HintDb aip.

(** Split the boolean tests of a goal and of its hypotheses into cases. *)
Ltac case_bool :=
  match goal with
  | |- context [if ?b then _ else _] =>
      lazymatch type of b with bool => let E := fresh "E" in destruct b eqn:E end
  | H : context [if ?b then _ else _] |- _ =>
      lazymatch type of b with bool => let E := fresh "E" in destruct b eqn:E end
  end.

(** Turn string tests into equations. *)
Ltac str_tests :=
  repeat match goal with
  | H : (_ ==? _) = true |- _ => apply String.eqb_eq in H
  | H : (_ ==? _) = false |- _ => apply String.eqb_neq in H
  | H : negb _ = true |- _ => apply negb_true_iff in H
  | H : negb _ = false |- _ => apply negb_false_iff in H
  | H : _ && _ = true |- _ => apply andb_prop in H as [? ?]
  | H : _ || _ = false |- _ => apply orb_false_elim in H as [? ?]
  end.

(** ** Shared lemmas *)

Lemma wrap_id w x : 0 < w → - 2 ^ (w - 1) ≤ x < 2 ^ (w - 1) → wrap w x = x.
Proof.
  intros Hw Hx. unfold wrap.
  assert (2 ^ w = 2 * 2 ^ (w - 1)) as Hp.
  { replace w with (Z.succ (w - 1)) at 1 by lia. rewrite Z.pow_succ_r by lia. lia. }
  rewrite Z.mod_small; lia.
Qed.

Lemma wrap_range w x : 0 < w → - 2 ^ (w - 1) ≤ wrap w x < 2 ^ (w - 1).
Proof.
  intros Hw. unfold wrap.
  assert (2 ^ w = 2 * 2 ^ (w - 1)) as Hp.
  { replace w with (Z.succ (w - 1)) at 1 by lia. rewrite Z.pow_succ_r by lia. lia. }
  pose proof (Z.mod_pos_bound (x + 2 ^ (w - 1)) (2 ^ w)) as H.
  assert (0 < 2 ^ (w - 1)) by (apply Z.pow_pos_nonneg; lia). lia.
Qed.

(** Existence over concatenations. *)
Lemma exists_app {A} (P : A → Prop) (l k : list A) :
  (∃ x, x ∈ l ++ k ∧ P x) ↔ (∃ x, x ∈ l ∧ P x) ∨ (∃ x, x ∈ k ∧ P x).
Proof. setoid_rewrite elem_of_app. naive_solver. Qed.

Lemma exists_bind {A B} (P : B → Prop) (f : A → list B) (l : list A) :
  (∃ x, x ∈ (l ≫= f) ∧ P x) ↔ ∃ a, a ∈ l ∧ ∃ x, x ∈ f a ∧ P x.
Proof. setoid_rewrite list_elem_of_bind. naive_solver. Qed.
