(* ===== verification/GoStrings.v ===== *)
(** * Go's [strings], [time.Duration] and [net/url], as far as the sources use them

    Strings are byte sequences, as in Go.  [url_Parse] follows
    [net/url.Parse]: scheme, authority (user information, host and port,
    bracketed addresses), path and their percent escapes, with the errors that
    reject a URL; query and fragment are split off. *)

From Stdlib Require Import Ascii.
From S2P Require Import Prelude GoStd.

Definition chr (n : Z) : ascii := Ascii.ascii_of_N (Z.to_N n).
Definition ord (a : ascii) : Z := byte_of_ascii a.

Definition is_lower (a : ascii) : bool := (97 <=? ord a) && (ord a <=? 122).
Definition is_upper (a : ascii) : bool := (65 <=? ord a) && (ord a <=? 90).
Definition is_digit (a : ascii) : bool := (48 <=? ord a) && (ord a <=? 57).
Definition is_alpha (a : ascii) : bool := is_lower a || is_upper a.

Definition lower_char (a : ascii) : ascii := if is_upper a then chr (ord a + 32) else a.

(** [strings.ToLower] on ASCII; other bytes are kept. *)
Definition ToLower_ascii : string → string := fix go s :=
  match s with
  | EmptyString => EmptyString
  | String a s' => String (lower_char a) (go s')
  end.

Fixpoint all_chars (f : ascii → bool) (s : string) : bool :=
  match s with
  | EmptyString => true
  | String a s' => f a && all_chars f s'
  end.

Definition contains_char (c : ascii) (s : string) : bool := negb (all_chars (λ a, negb (Ascii.eqb a c)) s).

(** [strings.CutPrefix]: the remainder after a prefix. *)
Fixpoint cut_prefix (p s : string) : option string :=
  match p, s with
  | EmptyString, _ => Some s
  | String a p', String b s' => if Ascii.eqb a b then cut_prefix p' s' else None
  | String _ _, EmptyString => None
  end.

Definition HasPrefix (s p : string) : bool := bool_decide (is_Some (cut_prefix p s)).
Definition TrimPrefix (s p : string) : string := default s (cut_prefix p s).

(** [strings.Cut] at the first occurrence of a byte. *)
Fixpoint cut (c : ascii) (s : string) : option (string * string) :=
  match s with
  | EmptyString => None
  | String a s' =>
      if Ascii.eqb a c then Some (""%string, s')
      else match cut c s' with Some (l, r) => Some (String a l, r) | None => None end
  end.

(** Cut at the last occurrence of a byte ([strings.LastIndex]). *)
Fixpoint cut_last (c : ascii) (s : string) : option (string * string) :=
  match s with
  | EmptyString => None
  | String a s' =>
      match cut_last c s' with
      | Some (l, r) => Some (String a l, r)
      | None => if Ascii.eqb a c then Some (""%string, s') else None
      end
  end.

(** [strings.Split] by one byte: never empty. *)
Fixpoint split (c : ascii) (s : string) : list string :=
  match s with
  | EmptyString => [""%string]
  | String a s' =>
      if Ascii.eqb a c then ""%string :: split c s'
      else match split c s' with
           | seg :: segs => String a seg :: segs
           | [] => [String a ""]
           end
  end.

Fixpoint count_char (c : ascii) (s : string) : nat :=
  match s with
  | EmptyString => 0
  | String a s' => (if Ascii.eqb a c then 1 else 0) + count_char c s'
  end.

(** [strings.Join]. *)
Definition Join (l : list string) (sep : string) : string := String.concat sep l.

Definition slash : ascii := "/"%char.

(** ** [time.Duration.String] *)

(** Digits of a fraction of width [prec], trailing zeros dropped. *)
Fixpoint frac_digits (prec : nat) (v : Z) (acc : string) : string :=
  match prec with
  | O => acc
  | S p =>
      let d := v mod 10 in
      frac_digits p (v / 10)
        (if (d =? 0) && (acc ==? "") then acc else String (chr (48 + d)) acc)
  end.

Definition fmt_frac (prec : nat) (v : Z) : string :=
  let f := frac_digits prec v "" in
  (FormatInt10 (v / 10 ^ Z.of_nat prec) +:+ (if f ==? "" then "" else "." +:+ f))%string.

Definition Duration_abs_String (u : Z) : string :=
  if u =? 0 then "0s"%string
  else if u <? 1000 then (FormatInt10 u +:+ "ns")%string
  else if u <? 1000000 then (fmt_frac 3 u +:+ String (chr 194) (String (chr 181) "s"))%string
  else if u <? 1000000000 then (fmt_frac 6 u +:+ "ms")%string
  else
    let secs := u / 1000000000 in
    let s := (fmt_frac 9 (u - secs / 60 * 60 * 1000000000) +:+ "s")%string in
    let mins := secs / 60 in
    if mins =? 0 then s
    else
      let m := (FormatInt10 (mins mod 60) +:+ "m" +:+ s)%string in
      let hrs := mins / 60 in
      if hrs =? 0 then m else (FormatInt10 hrs +:+ "h" +:+ m)%string.

Definition Duration_String (d : Z) : string :=
  if d <? 0 then ("-" +:+ Duration_abs_String (- d))%string else Duration_abs_String d.

(** [Time.Sub]: saturates at the range of [int64]. *)
Definition time_Sub (t u : Z) : Z := Z.max (- 2 ^ 63) (Z.min (2 ^ 63 - 1) (t - u)).

(** ** [net/url] *)

Record URL := mkURL { u_Scheme : string; u_Host : string; u_Path : string; u_RawQuery : string }.

Definition unhex (a : ascii) : option Z :=
  if is_digit a then Some (ord a - 48)
  else if (97 <=? ord a) && (ord a <=? 102) then Some (ord a - 87)
  else if (65 <=? ord a) && (ord a <=? 70) then Some (ord a - 55)
  else None.

Inductive encoding := encodePath | encodeHost | encodeZone | encodeUserPassword | encodeFragment.

(** Bytes that may stand for themselves in a host or zone ([shouldEscape]
    is false). *)
Definition host_char (a : ascii) : bool :=
  is_alpha a || is_digit a ||
  existsb (Ascii.eqb a) (String.list_ascii_of_string "-_.~!$&'()*+,;=:[]<>") || Ascii.eqb a dquote.

Fixpoint unescape (m : encoding) (s : string) : option string :=
  match s with
  | EmptyString => Some ""%string
  | String a s' =>
      if Ascii.eqb a "%" then
        match s' with
        | String h (String l rest) =>
            match unhex h, unhex l with
            | Some x, Some y =>
                let v := 16 * x + y in
                let ok :=
                  match m with
                  | encodeHost => (8 <=? x) || (v =? 37)
                  | encodeZone => (v =? 37) || (v =? 32) || host_char (chr v)
                  | _ => true
                  end in
                if ok then String (chr v) <$> unescape m rest else None
            | _, _ => None
            end
        | _ => None
        end
      else
        match m with
        | encodeHost | encodeZone =>
            if (128 <=? ord a) || host_char a then String a <$> unescape m s' else None
        | _ => String a <$> unescape m s'
        end
  end.

(** [getScheme]: [None] is the missing-scheme error; the result is the scheme
    (as written) and the rest. *)
Fixpoint getScheme_go (i : nat) (s : string) : option (option (string * string)) :=
  match s with
  | EmptyString => Some None
  | String a s' =>
      let continue_ :=
        match getScheme_go (S i) s' with
        | Some (Some (sch, rest)) => Some (Some (String a sch, rest))
        | r => r
        end in
      if is_alpha a then continue_
      else if is_digit a || existsb (Ascii.eqb a) (String.list_ascii_of_string "+-.") then
        match i with O => Some None | _ => continue_ end
      else if Ascii.eqb a ":" then
        match i with O => None | _ => Some (Some (""%string, s')) end
      else Some None
  end.

Definition getScheme (s : string) : option (string * string) :=
  match getScheme_go 0 s with
  | None => None
  | Some None => Some (""%string, s)
  | Some (Some p) => Some p
  end.

(** [validOptionalPort]: empty, or a colon and digits. *)
Definition validOptionalPort (s : string) : bool :=
  match s with
  | EmptyString => true
  | String a s' => Ascii.eqb a ":" && all_chars is_digit s'
  end.

(** Split a bracketed address at its zone, which starts with [%25]. *)
Fixpoint cut_zone (s : string) : option (string * string) :=
  match s with
  | EmptyString => None
  | String a s' =>
      if HasPrefix s "%25" then Some (""%string, s)
      else match cut_zone s' with Some (l, r) => Some (String a l, r) | None => None end
  end.

Definition parseHost (host : string) : option string :=
  match host with
  | String a body =>
      if Ascii.eqb a "[" then
        match cut_last "]" body with
        | None => None
        | Some (addr, colonPort) =>
            if validOptionalPort colonPort then
              match cut_zone addr with
              | Some (a1, zone) =>
                  match unescape encodeHost a1, unescape encodeZone zone with
                  | Some h1, Some h2 => Some ("[" +:+ h1 +:+ h2 +:+ "]" +:+ colonPort)%string
                  | _, _ => None
                  end
              | None => unescape encodeHost host
              end
            else None
        end
      else
        match cut_last ":" host with
        | Some (_, port) =>
            if all_chars is_digit port then unescape encodeHost host else None
        | None => unescape encodeHost host
        end
  | EmptyString => Some ""%string
  end.

Definition userinfo_char (a : ascii) : bool :=
  is_alpha a || is_digit a ||
  existsb (Ascii.eqb a) (String.list_ascii_of_string "-._:~!$&'()*+,;=%@").

Definition parseAuthority (authority : string) : option string :=
  match cut_last "@" authority with
  | None => parseHost authority
  | Some (userinfo, host) =>
      match parseHost host with
      | None => None
      | Some h =>
          if all_chars userinfo_char userinfo then
            match cut ":" userinfo with
            | None => (λ _, h) <$> unescape encodeUserPassword userinfo
            | Some (user, pass) =>
                match unescape encodeUserPassword user, unescape encodeUserPassword pass with
                | Some _, Some _ => Some h
                | _, _ => None
                end
            end
          else None
      end
  end.

Definition is_ctl (a : ascii) : bool := (ord a <? 32) || (ord a =? 127).

(** The scheme, authority and path of a URL without its fragment. *)
Definition parse_nofrag (rawURL : string) : option URL :=
  if negb (all_chars (λ a, negb (is_ctl a)) rawURL) then None
  else if rawURL ==? "*" then Some (mkURL "" "" "*" "")
  else
    match getScheme rawURL with
    | None => None
    | Some (sch, rest) =>
        let scheme := ToLower_ascii sch in
        let '(rest, query) := default (rest, ""%string) (cut "?" rest) in
        if negb (HasPrefix rest "/") then
          if scheme <>? "" then Some (mkURL scheme "" "" query)
          else if contains_char ":" (fst (default (rest, ""%string) (cut slash rest))) then None
          else (λ p, mkURL scheme "" p query) <$> unescape encodePath rest
        else if ((scheme <>? "") || negb (HasPrefix rest "///")) && HasPrefix rest "//" then
          let auth_rest := TrimPrefix rest "//" in
          let '(authority, path) :=
            match cut slash auth_rest with
            | Some (a, p) => (a, String slash p)
            | None => (auth_rest, ""%string)
            end in
          match parseAuthority authority, unescape encodePath path with
          | Some h, Some p => Some (mkURL scheme h p query)
          | _, _ => None
          end
        else (λ p, mkURL scheme "" p query) <$> unescape encodePath rest
    end.

(** [url.Parse]; [None] is an error. *)
Definition url_Parse (rawURL : string) : option URL :=
  match cut "#" rawURL with
  | None => parse_nofrag rawURL
  | Some (u, frag) =>
      match parse_nofrag u with
      | Some r => (λ _, r) <$> unescape encodeFragment frag
      | None => None
      end
  end.

(** ** Facts *)

Lemma duration_examples :
  Duration_String (60 * Second) = "1m0s"%string ∧ Duration_String (5 * Minute) = "5m0s"%string ∧
  Duration_String (90 * Minute + 1500000000 - Second) = "1h30m0.5s"%string ∧
  Duration_String 1500000 = "1.5ms"%string ∧ Duration_String 0 = "0s"%string.
Proof. vm_compute. done. Qed.

Lemma url_examples :
  url_Parse "k8s://prod/default/deployment/payment-api" =
    Some (mkURL "k8s" "prod" "/default/deployment/payment-api" "") ∧
  url_Parse "GitHub://u:p@Host:80/a%2Fb?x=1#f" = Some (mkURL "github" "Host:80" "/a/b" "x=1") ∧
  url_Parse "k8s:opaque" = Some (mkURL "k8s" "" "" "") ∧
  url_Parse "k8s://h:p/x" = None ∧ url_Parse ":x" = None ∧ url_Parse "a:b/%zz" = Some (mkURL "a" "" "" "").
Proof. vm_compute. done. Qed.

Lemma str_cons_app a (s t : string) : (String a s +:+ t)%string = String a (s +:+ t)%string.
Proof. done. Qed.

Lemma str_nil_app (t : string) : ("" +:+ t)%string = t.
Proof. done. Qed.

Create Rewrite HintDb strs.
#[export] Hint Rewrite str_cons_app str_nil_app : strs.

Lemma app_empty_r (s : string) : (s +:+ "")%string = s.
Proof. induction s as [|a s IH]; autorewrite with strs; simpl; [done|]. by rewrite IH. Qed.

Lemma string_app_assoc (s t u : string) : ((s +:+ t) +:+ u)%string = (s +:+ (t +:+ u))%string.
Proof. induction s as [|a s IH]; autorewrite with strs; simpl; [done|]. by rewrite IH. Qed.

Lemma all_chars_app f s t : all_chars f (s +:+ t) = all_chars f s && all_chars f t.
Proof. induction s as [|a s IH]; autorewrite with strs; simpl; [done|]. by rewrite IH, andb_assoc. Qed.

Lemma all_chars_impl f g s : (∀ a, f a = true → g a = true) → all_chars f s = true → all_chars g s = true.
Proof.
  intros Hi. induction s as [|a s IH]; autorewrite with strs; simpl; [done|].
  rewrite !andb_true_iff. intros [Ha Hs]. auto.
Qed.

(** Cutting at a byte that does not occur in the first part. *)
Lemma cut_app c s t :
  all_chars (λ a, negb (Ascii.eqb a c)) s = true → cut c (s +:+ String c t) = Some (s, t).
Proof.
  induction s as [|a s IH]; autorewrite with strs; simpl.
  - by rewrite Ascii.eqb_refl.
  - rewrite andb_true_iff, negb_true_iff. intros [-> Hs]. by rewrite IH.
Qed.

Lemma cut_none c s : all_chars (λ a, negb (Ascii.eqb a c)) s = true → cut c s = None.
Proof.
  induction s as [|a s IH]; autorewrite with strs; simpl; [done|].
  rewrite andb_true_iff, negb_true_iff. intros [-> Hs]. by rewrite IH.
Qed.

Lemma cut_last_none c s : all_chars (λ a, negb (Ascii.eqb a c)) s = true → cut_last c s = None.
Proof.
  induction s as [|a s IH]; autorewrite with strs; simpl; [done|].
  rewrite andb_true_iff, negb_true_iff. intros [Ha Hs]. by rewrite (IH Hs), Ha.
Qed.

(** A byte splits what the rest of the string concatenates. *)
Lemma split_none c s : all_chars (λ a, negb (Ascii.eqb a c)) s = true → split c s = [s].
Proof.
  induction s as [|a s IH]; autorewrite with strs; simpl; [done|].
  rewrite andb_true_iff, negb_true_iff. intros [-> Hs]. by rewrite (IH Hs).
Qed.

Lemma split_app c s t :
  all_chars (λ a, negb (Ascii.eqb a c)) s = true → split c (s +:+ String c t) = s :: split c t.
Proof.
  induction s as [|a s IH]; autorewrite with strs; simpl.
  - by rewrite Ascii.eqb_refl.
  - rewrite andb_true_iff, negb_true_iff. intros [-> Hs]. by rewrite (IH Hs).
Qed.

Lemma cut_prefix_app p s : cut_prefix p (p +:+ s) = Some s.
Proof. induction p as [|a p IH]; autorewrite with strs; simpl; [done|]. by rewrite Ascii.eqb_refl. Qed.

Lemma trim_prefix_app p s : TrimPrefix (p +:+ s) p = s.
Proof. unfold TrimPrefix. by rewrite cut_prefix_app. Qed.

Lemma has_prefix_app p s : HasPrefix (p +:+ s) p = true.
Proof. unfold HasPrefix. rewrite cut_prefix_app. by apply bool_decide_eq_true. Qed.

(** ** Hexadecimal names *)

Definition is_hex_lower (a : ascii) : bool :=
  is_digit a || ((97 <=? ord a) && (ord a <=? 102)).

Lemma substring_all f n m s : all_chars f s = true → all_chars f (String.substring n m s) = true.
Proof.
  revert n m. induction s as [|a s IH]; intros n m; [by destruct n, m|].
  cbn [all_chars]. rewrite andb_true_iff. intros [Ha Hs].
  destruct n as [|n]; cbn [String.substring]; [|by apply IH].
  destruct m as [|m]; [done|]. cbn [all_chars]. rewrite Ha. by apply IH.
Qed.

Lemma substring_length n s :
  (n <= String.length s)%nat → String.length (String.substring 0 n s) = n.
Proof.
  revert n. induction s as [|a s IH]; intros [|n] Hn; cbn in *; try lia. rewrite IH; lia.
Qed.

Lemma hex_lower bs : Forall (λ b, 0 ≤ b < 256) bs → all_chars is_hex_lower (hex bs) = true.
Proof.
  assert (∀ d, 0 ≤ d < 16 → is_hex_lower (hex_digit d) = true) as Hd.
  { intros d Hd.
    assert (d ∈ seqZ 0 16) as Hin by (apply elem_of_seqZ; lia).
    clear Hd. revert d Hin. apply Forall_forall. vm_compute. repeat constructor. }
  induction 1 as [|b bs Hb _ IH]; cbn [hex all_chars]; [done|].
  rewrite !Hd, IH; [done| |].
  - apply Z.mod_pos_bound. lia.
  - split; [apply Z.div_pos; lia|]. apply Z.div_lt_upper_bound; lia.
Qed.

Lemma be_bytes_range n x : Forall (λ b, 0 ≤ b < 256) (Sha256.be_bytes n x).
Proof.
  induction n as [|n IH]; cbn [Sha256.be_bytes]; [done|]. constructor; [|done].
  apply Z.mod_pos_bound. lia.
Qed.

Lemma sha256_hex_lower s : all_chars is_hex_lower (sha256_hex s) = true.
Proof.
  unfold sha256_hex, sha256_sum, Sha256.digest. apply hex_lower.
  repeat (apply Forall_app; split); apply be_bytes_range.
Qed.

(** Fields of a name's input do not run into each other: a separator that
    does not occur in them can be undone. *)
Lemma sep_inj c s1 s2 t1 t2 :
  all_chars (λ a, negb (Ascii.eqb a c)) s1 = true → all_chars (λ a, negb (Ascii.eqb a c)) s2 = true →
  (s1 +:+ String c t1)%string = (s2 +:+ String c t2)%string → s1 = s2 ∧ t1 = t2.
Proof.
  intros H1 H2 Heq. pose proof (cut_app c s1 t1 H1) as E1. pose proof (cut_app c s2 t2 H2) as E2.
  rewrite Heq, E2 in E1. by injection E1 as -> ->.
Qed.

(** The last separator can be undone when the right parts are free of it. *)
Lemma cut_last_app c s t :
  all_chars (λ a, negb (Ascii.eqb a c)) t = true → cut_last c (s +:+ String c t) = Some (s, t).
Proof.
  intros Ht. induction s as [|a s IH].
  - rewrite str_nil_app. cbn [cut_last]. by rewrite (cut_last_none _ _ Ht), Ascii.eqb_refl.
  - rewrite str_cons_app. cbn [cut_last]. by rewrite IH.
Qed.
