(* ===== verification/Types.v ===== *)
(** * The custom resources of [api/v1alpha1]

    One record per Go struct, with the Go field names behind a short prefix
    (Rocq projections share one name space).  Pointers are [option], maps are
    [gmap], [metav1.Time] is an instant in nanoseconds, [apiextensionsv1.JSON]
    keeps its raw bytes.  [TypeMeta], list wrappers and the status of the CRDs
    whose status nothing reads are left out.  Functional updates [set_*] are
    the field assignments of the Go code. *)

From Stdlib Require Import SpecFloat.
From S2P Require Import Prelude.

(** ** Shared API machinery types *)

(** [metav1.OwnerReference]. *)
Record OwnerReference := mkOwner {
  ow_Kind : string;
  ow_Name : string;
  ow_UID : string;
  ow_Controller : bool }.

Record ObjectMeta := mkMeta {
  om_Name : string;
  om_GenerateName : string;
  om_Namespace : string;
  om_UID : string;
  om_Labels : gmap string string;
  om_Annotations : gmap string string;
  om_Generation : Z;
  om_ResourceVersion : Z;
  om_CreationTimestamp : Z;
  om_DeletionTimestamp : option Z;
  om_Finalizers : list string;
  om_OwnerReferences : list OwnerReference }.

(** [types.NamespacedName]. *)
Record NamespacedName := NN { nn_Namespace : string; nn_Name : string }.

Definition key_of (m : ObjectMeta) : NamespacedName := NN (om_Namespace m) (om_Name m).

Record Condition := mkCond {
  cond_Type : string;
  cond_Status : string;
  cond_Reason : string;
  cond_Message : string;
  cond_LastTransitionTime : Z }.

Definition ConditionTrue : string := "True".
Definition ConditionFalse : string := "False".

(** [apiextensionsv1.JSON]. *)
Record JSON := mkJSON { Raw : string }.

Record LabelSelectorRequirement := mkReq { lsr_Key : string; lsr_Operator : string; lsr_Values : list string }.
Record LabelSelector := mkSel {
  ls_MatchLabels : gmap string string;
  ls_MatchExpressions : list LabelSelectorRequirement }.

(** ** AgentRequest: specification *)

Record GovernedResourceRef := mkGRRef { ref_Name : string; ref_Generation : Z }.

Record HumanApproval := mkHA {
  ha_Decision : string;
  ha_Reason : string;
  ha_ForGeneration : Z;
  ha_ApprovedBy : string }.

Record Target := mkTarget {
  tgt_URI : string;
  tgt_ResourceType : option string;
  tgt_Attributes : gmap string string }.

Record AffectedTarget := mkAffected { aff_URI : string; aff_EffectType : string }.

Record CascadeModel := mkCascade {
  cm_AffectedTargets : list AffectedTarget;
  cm_ModelSourceTrust : option string;
  cm_ModelSourceID : option string }.

Record ReasoningTrace := mkTrace {
  rt_ConfidenceScore : option spec_float;
  rt_ComponentConfidence : gmap string spec_float;
  rt_CalibrationEvidence : option string;
  rt_TraceReference : option string;
  rt_Alternatives : list string }.

Record ScopeBounds := mkScope {
  sb_PermittedActions : list string;
  sb_PermittedTargetPatterns : list string;
  sb_TimeBoundSeconds : Z }.

Record AgentRequestSpec := mkSpec {
  spec_AgentIdentity : string;
  spec_Action : string;
  spec_Target : Target;
  spec_Reason : string;
  spec_Mode : string;
  spec_Classification : string;
  spec_DedupKey : string;
  spec_IntentPlanRef : option string;
  spec_Priority : option Z;
  spec_CascadeModel : option CascadeModel;
  spec_ReasoningTrace : option ReasoningTrace;
  spec_Interruptibility : option bool;
  spec_Parameters : option JSON;
  spec_ExecutionMode : option string;
  spec_ScopeBounds : option ScopeBounds;
  spec_HumanApproval : option HumanApproval;
  spec_GovernedResourceRef : option GovernedResourceRef }.

(** ** AgentRequest: status *)

Record PolicyResult := mkPR {
  pr_PolicyName : string;
  pr_RuleName : string;
  pr_Result : string;
  pr_PolicyGeneration : Z }.

Record DenialResponse := mkDenial {
  dn_Code : string;
  dn_Message : string;
  dn_PolicyResults : list PolicyResult;
  dn_RetryAfterSeconds : option Z }.

Record ControlPlaneVerification := mkCPV {
  cpv_EvaluatedStateFingerprint : string;
  cpv_TargetExists : bool;
  cpv_HasActiveEndpoints : bool;
  cpv_ActiveEndpointCount : Z;
  cpv_ReadyReplicas : Z;
  cpv_SpecReplicas : Z;
  cpv_DownstreamServices : list string;
  cpv_FetchedAt : Z }.

Record AgentRequestResult := mkResult { rs_URL : string; rs_Summary : string }.

Record AgentRequestStatus := mkStatus {
  st_Phase : string;
  st_Conditions : list Condition;
  st_Denial : option DenialResponse;
  st_LeaseName : string;
  st_EvaluationGeneration : Z;
  st_ControlPlaneVerification : option ControlPlaneVerification;
  st_ProviderContext : option JSON;
  st_Verdict : string;
  st_VerdictReasonCode : string;
  st_VerdictNote : string;
  st_VerdictBy : string;
  st_VerdictAt : option Z;
  st_GovernedResourceRef : option GovernedResourceRef;
  st_Result : option AgentRequestResult }.

Record AgentRequest := mkAR {
  ar_Meta : ObjectMeta;
  ar_Spec : AgentRequestSpec;
  ar_Status : AgentRequestStatus }.

(** ** SafetyPolicy *)

Record Rule := mkRule {
  rule_Name : string;
  rule_Type : string;
  rule_Action : string;
  rule_Message : option string;
  rule_Expression : string;
  rule_Config : option JSON }.

Record SafetyPolicySpec := mkSPSpec {
  sp_GovernedResourceSelector : LabelSelector;
  sp_ContextType : string;
  sp_Rules : list Rule;
  sp_FailureMode : option string }.

Record SafetyPolicy := mkSP { sp_Meta : ObjectMeta; sp_Spec : SafetyPolicySpec }.

(** ** GovernedResource *)

Record TrustRequirements := mkTrustReq { tr_MinTrustLevel : string; tr_MaxAutonomyLevel : string }.

Record GovernedResourceSpec := mkGRSpec {
  gr_URIPattern : string;
  gr_PermittedActions : list string;
  gr_PermittedAgents : list string;
  gr_ContextFetcher : string;
  gr_ContextSchema : option JSON;
  gr_Description : string;
  gr_SoakMode : bool;
  gr_TrustRequirements : option TrustRequirements }.

Record GovernedResource := mkGR { gr_Meta : ObjectMeta; gr_Spec : GovernedResourceSpec }.

Definition GovernedResourceFinalizer : string := "governance.aip.io/active-requests".

(** ** AuditRecord *)

Record PhaseTransition := mkPT { pt_From : string; pt_To : string }.

Record AuditPolicyEvaluation := mkAPE {
  ape_PolicyName : string;
  ape_RuleName : string;
  ape_Result : string;
  ape_Reason : string }.

(** [Details] is the JSON encoding of an [AgentRequestResult]: the only value
    the controllers put there, and [json.Marshal] of two strings cannot fail. *)
Record AuditRecordSpec := mkAudit {
  au_Timestamp : Z;
  au_AgentIdentity : string;
  au_AgentRequestRef : string;
  au_Event : string;
  au_Action : string;
  au_TargetURI : string;
  au_Reason : string;
  au_PhaseTransition : option PhaseTransition;
  au_PolicyEvaluations : list AuditPolicyEvaluation;
  au_Annotations : gmap string string;
  au_Details : option AgentRequestResult }.

Record AuditRecord := mkAuditRecord { au_Meta : ObjectMeta; au_Spec : AuditRecordSpec }.

(** ** AgentGraduationPolicy, AgentTrustProfile, DiagnosticAccuracySummary *)

Record AccuracyBand := mkAccuracyBand {
  ab_Min : option spec_float;
  ab_Max : option spec_float;
  ab_DemotionBuffer : option spec_float }.

Record ExecutionBand := mkExecutionBand { eb_Min : option Z; eb_Max : option Z }.

Record GraduationLevel := mkLevel {
  lv_Name : string;
  lv_CanExecute : bool;
  lv_RequiresHumanApproval : bool;
  lv_Accuracy : option AccuracyBand;
  lv_Executions : option ExecutionBand }.

Record DemotionPolicy := mkDemotion {
  dp_AccuracyDropThreshold : spec_float;
  dp_WindowSize : Z;
  dp_GracePeriod : string }.

Record AgentGraduationPolicySpec := mkGPSpec {
  gp_EvaluationWindowCount : Z;
  gp_AwaitingVerdictTTL : string;
  gp_Levels : list GraduationLevel;
  gp_DemotionPolicy : DemotionPolicy }.

Record AgentGraduationPolicy := mkGP { gp_Meta : ObjectMeta; gp_Spec : AgentGraduationPolicySpec }.

Record AgentTrustProfileStatus := mkATPStatus {
  atp_TrustLevel : string;
  atp_DiagnosticAccuracy : option spec_float;
  atp_RecentAccuracy : option spec_float;
  atp_TotalReviewed : Z;
  atp_TotalExecutions : Z;
  atp_SuccessRate : option spec_float;
  atp_LastPromotedAt : option Z;
  atp_LastDemotedAt : option Z;
  atp_LastEvaluatedAt : option Z }.

Record AgentTrustProfile := mkATP {
  atp_Meta : ObjectMeta;
  atp_AgentIdentity : string;
  atp_Status : AgentTrustProfileStatus }.

Record DiagnosticAccuracySummaryStatus := mkDASStatus {
  das_TotalReviewed : Z;
  das_CorrectCount : Z;
  das_PartialCount : Z;
  das_IncorrectCount : Z;
  das_DiagnosticAccuracy : option spec_float;
  das_LastUpdatedAt : option Z;
  das_RecentVerdicts : list string }.

Record DiagnosticAccuracySummary := mkDAS {
  das_Meta : ObjectMeta;
  das_AgentIdentity : string;
  das_Status : DiagnosticAccuracySummaryStatus }.

(** ** AgentRegistration *)

Record StaticSecretCredential := mkStaticSecret {
  ss_Name : string; ss_Key : string; ss_Namespace : string }.

Record AzureWorkloadIdentityCredential := mkAzure {
  az_TenantID : string; az_ClientID : string; az_Scope : string }.

Record AWSWebIdentityCredential := mkAWS {
  aws_RoleARN : string; aws_RoleSessionName : string; aws_Region : string;
  aws_DurationSeconds : option Z; aws_STSEndpoint : string }.

Record KubernetesOIDCCredential := mkKOIDC { ko_TokenExchangeURL : string; ko_Audience : string }.

Record KubernetesTokenRequestCredential := mkKTR {
  ktr_ServiceAccountName : string; ktr_ServiceAccountNamespace : string;
  ktr_ExpirationSeconds : option Z; ktr_Audiences : list string }.

Record ExternalIdentityBinding := mkBinding {
  eib_Service : string;
  eib_Type : string;
  eib_StaticSecret : option StaticSecretCredential;
  eib_AzureWorkloadIdentity : option AzureWorkloadIdentityCredential;
  eib_AWSWebIdentity : option AWSWebIdentityCredential;
  eib_KubernetesOIDC : option KubernetesOIDCCredential;
  eib_KubernetesTokenRequest : option KubernetesTokenRequestCredential }.

Record AgentRegistrationOIDC := mkRegOIDC {
  ro_Issuer : string; ro_SubjectClaim : string; ro_AllowedSubjects : list string }.

Record AgentRegistrationSpec := mkRegSpec {
  reg_AgentIdentity : string;
  reg_Mode : string;
  reg_RequestedServices : list string;
  reg_OIDC : option AgentRegistrationOIDC;
  reg_ExternalIdentities : list ExternalIdentityBinding }.

Record AgentRegistrationStatus := mkRegStatus {
  regst_Phase : string;
  regst_RegisteredBy : string;
  regst_ApprovedServices : list string;
  regst_ApprovedAt : option Z;
  regst_Conditions : list Condition }.

Record AgentRegistration := mkReg {
  reg_Meta : ObjectMeta;
  reg_Spec : AgentRegistrationSpec;
  reg_Status : AgentRegistrationStatus }.

Definition ExternalIdentityStaticSecret : string := "StaticSecret".
Definition ExternalIdentityAzureWorkloadIdentity : string := "AzureWorkloadIdentity".
Definition ExternalIdentityAWSWebIdentity : string := "AWSWebIdentity".
Definition ExternalIdentityKubernetesOIDC : string := "KubernetesOIDC".
Definition ExternalIdentityKubernetesTokenRequest : string := "KubernetesTokenRequest".

(** ** Leases ([coordination.k8s.io/v1]) *)

Record Lease := mkLease {
  lease_Meta : ObjectMeta;
  lease_HolderIdentity : option string;
  lease_LeaseDurationSeconds : option Z;
  lease_AcquireTime : option Z;
  lease_RenewTime : option Z }.

(** ** Constants *)

Definition PhasePending : string := "Pending".
Definition PhaseApproved : string := "Approved".
Definition PhaseDenied : string := "Denied".
Definition PhaseExecuting : string := "Executing".
Definition PhaseCompleted : string := "Completed".
Definition PhaseFailed : string := "Failed".
Definition PhaseAwaitingVerdict : string := "AwaitingVerdict".
Definition PhaseExpired : string := "Expired".
Definition PhaseObserved : string := "Observed".
Definition ModeObserve : string := "observe".
Definition ModeGovern : string := "govern".
Definition TrustLevelObserver : string := "Observer".
Definition TrustLevelAdvisor : string := "Advisor".
Definition TrustLevelSupervised : string := "Supervised".
Definition TrustLevelTrusted : string := "Trusted".
Definition TrustLevelAutonomous : string := "Autonomous".
Definition ConditionPolicyEvaluated : string := "PolicyEvaluated".
Definition ConditionApproved : string := "Approved".
Definition ConditionLockAcquired : string := "LockAcquired".
Definition ConditionRequiresApproval : string := "RequiresApproval".
Definition ConditionExecuting : string := "Executing".
Definition ConditionCompleted : string := "Completed".
Definition ConditionFailed : string := "Failed".
Definition DenialCodePolicyViolation : string := "POLICY_VIOLATION".
Definition DenialCodeLockContention : string := "LOCK_CONTENTION".
Definition DenialCodeLockTimeout : string := "LOCK_TIMEOUT".
Definition DenialCodeRateLimited : string := "RATE_LIMITED".
Definition DenialCodeEvaluationFailure : string := "EVALUATION_FAILURE".
Definition DenialCodeIdentityInvalid : string := "IDENTITY_INVALID".
Definition DenialCodePlanAborted : string := "PLAN_ABORTED".
Definition DenialCodeActionNotPermitted : string := "ACTION_NOT_PERMITTED".
Definition DenialCodeCascadeDenied : string := "CASCADE_DENIED".
Definition DenialCodeApprovalRevoked : string := "APPROVAL_REVOKED".
Definition DenialCodeStateDrifted : string := "STATE_DRIFTED".
Definition DenialCodeGenerationMismatch : string := "GENERATION_MISMATCH".
Definition DenialCodeScopeTooBroad : string := "SCOPE_TOO_BROAD".
Definition DenialCodeGovernedResourceDeleted : string := "GOVERNED_RESOURCE_DELETED".
Definition ResultAllow : string := "Allow".
Definition ResultDeny : string := "Deny".
Definition ResultLog : string := "Log".
Definition ResultRequireApproval : string := "RequireApproval".
Definition ResultEvaluationFailed : string := "EvaluationFailed".
Definition AuditEventRequestSubmitted : string := "request.submitted".
Definition AuditEventRequestObserved : string := "request.observed".
Definition AuditEventRequestApproved : string := "request.approved".
Definition AuditEventRequestDenied : string := "request.denied".
Definition AuditEventRequestExecuting : string := "request.executing".
Definition AuditEventRequestCompleted : string := "request.completed".
Definition AuditEventRequestFailed : string := "request.failed".
Definition AuditEventRequestRevoked : string := "request.revoked".
Definition AuditEventRequestExpired : string := "request.expired".
Definition AuditEventVerdictSubmitted : string := "verdict.submitted".
Definition AuditEventLockAcquired : string := "lock.acquired".
Definition AuditEventLockReleased : string := "lock.released".
Definition AuditEventLockExpired : string := "lock.expired".
Definition AuditEventPolicyEvaluated : string := "policy.evaluated".
Definition AuditEventCascadeMismatch : string := "cascade.mismatch".
Definition AuditEventHeartbeatTimeout : string := "heartbeat.timeout".
Definition AuditEventStateDrifted : string := "state.drifted".
Definition AuditEventStateDriftedVerify : string := "state.drifted.verify".
Definition AuditEventTrustProfileUpdated : string := "agent.trustprofile.updated".
Definition AnnotationEffectiveTrustLevel : string := "governance.aip.io/effective-trust-level".
Definition AnnotationRequiresHumanApproval : string := "governance.aip.io/requires-human-approval".
Definition AnnotationCanExecute : string := "governance.aip.io/can-execute".
Definition AnnotationGatewayDenied : string := "governance.aip.io/gateway-denied".

(** [trustLevelOrder] and [TrustLevelRank]. *)
Definition trustLevelOrder : gmap string Z :=
  list_to_map [(TrustLevelObserver, 0); (TrustLevelAdvisor, 1); (TrustLevelSupervised, 2);
               (TrustLevelTrusted, 3); (TrustLevelAutonomous, 4)].

Definition TrustLevelRank (level : string) : Z * bool :=
  match trustLevelOrder !! level with
  | Some rank => (rank, true)
  | None => (-1, false)
  end.

(** ** Decidable equality *)

#[export] Instance spec_float_eq_dec : EqDecision spec_float.
Proof. solve_decision. Defined.
#[export] Instance OwnerReference_eq_dec : EqDecision OwnerReference.
Proof. solve_decision. Defined.
#[export] Instance ObjectMeta_eq_dec : EqDecision ObjectMeta.
Proof. solve_decision. Defined.
#[export] Instance NamespacedName_eq_dec : EqDecision NamespacedName.
Proof. solve_decision. Defined.
#[export] Instance Condition_eq_dec : EqDecision Condition.
Proof. solve_decision. Defined.
#[export] Instance JSON_eq_dec : EqDecision JSON.
Proof. solve_decision. Defined.
#[export] Instance LabelSelectorRequirement_eq_dec : EqDecision LabelSelectorRequirement.
Proof. solve_decision. Defined.
#[export] Instance LabelSelector_eq_dec : EqDecision LabelSelector.
Proof. solve_decision. Defined.
#[export] Instance GovernedResourceRef_eq_dec : EqDecision GovernedResourceRef.
Proof. solve_decision. Defined.
#[export] Instance HumanApproval_eq_dec : EqDecision HumanApproval.
Proof. solve_decision. Defined.
#[export] Instance Target_eq_dec : EqDecision Target.
Proof. solve_decision. Defined.
#[export] Instance AffectedTarget_eq_dec : EqDecision AffectedTarget.
Proof. solve_decision. Defined.
#[export] Instance CascadeModel_eq_dec : EqDecision CascadeModel.
Proof. solve_decision. Defined.
#[export] Instance ReasoningTrace_eq_dec : EqDecision ReasoningTrace.
Proof. solve_decision. Defined.
#[export] Instance ScopeBounds_eq_dec : EqDecision ScopeBounds.
Proof. solve_decision. Defined.
#[export] Instance AgentRequestSpec_eq_dec : EqDecision AgentRequestSpec.
Proof. solve_decision. Defined.
#[export] Instance PolicyResult_eq_dec : EqDecision PolicyResult.
Proof. solve_decision. Defined.
#[export] Instance DenialResponse_eq_dec : EqDecision DenialResponse.
Proof. solve_decision. Defined.
#[export] Instance ControlPlaneVerification_eq_dec : EqDecision ControlPlaneVerification.
Proof. solve_decision. Defined.
#[export] Instance AgentRequestResult_eq_dec : EqDecision AgentRequestResult.
Proof. solve_decision. Defined.
#[export] Instance AgentRequestStatus_eq_dec : EqDecision AgentRequestStatus.
Proof. solve_decision. Defined.
#[export] Instance AgentRequest_eq_dec : EqDecision AgentRequest.
Proof. solve_decision. Defined.
#[export] Instance PhaseTransition_eq_dec : EqDecision PhaseTransition.
Proof. solve_decision. Defined.
#[export] Instance AuditPolicyEvaluation_eq_dec : EqDecision AuditPolicyEvaluation.
Proof. solve_decision. Defined.
#[export] Instance AuditRecordSpec_eq_dec : EqDecision AuditRecordSpec.
Proof. solve_decision. Defined.
#[export] Instance AuditRecord_eq_dec : EqDecision AuditRecord.
Proof. solve_decision. Defined.
#[export] Instance Lease_eq_dec : EqDecision Lease.
Proof. solve_decision. Defined.
#[export] Instance Rule_eq_dec : EqDecision Rule.
Proof. solve_decision. Defined.
#[export] Instance SafetyPolicySpec_eq_dec : EqDecision SafetyPolicySpec.
Proof. solve_decision. Defined.
#[export] Instance SafetyPolicy_eq_dec : EqDecision SafetyPolicy.
Proof. solve_decision. Defined.
#[export] Instance TrustRequirements_eq_dec : EqDecision TrustRequirements.
Proof. solve_decision. Defined.
#[export] Instance GovernedResourceSpec_eq_dec : EqDecision GovernedResourceSpec.
Proof. solve_decision. Defined.
#[export] Instance GovernedResource_eq_dec : EqDecision GovernedResource.
Proof. solve_decision. Defined.

#[export] Instance NamespacedName_countable : Countable NamespacedName.
Proof.
  apply (inj_countable' (λ n, (nn_Namespace n, nn_Name n)) (λ p, NN p.1 p.2)).
  by intros [].
Defined.

(** ** Field assignments *)

Definition set_st_Phase (v : string) (r : AgentRequestStatus) : AgentRequestStatus :=
  mkStatus v (st_Conditions r) (st_Denial r) (st_LeaseName r) (st_EvaluationGeneration r) (st_ControlPlaneVerification r) (st_ProviderContext r) (st_Verdict r) (st_VerdictReasonCode r) (st_VerdictNote r) (st_VerdictBy r) (st_VerdictAt r) (st_GovernedResourceRef r) (st_Result r).
Definition set_st_Conditions (v : list Condition) (r : AgentRequestStatus) : AgentRequestStatus :=
  mkStatus (st_Phase r) v (st_Denial r) (st_LeaseName r) (st_EvaluationGeneration r) (st_ControlPlaneVerification r) (st_ProviderContext r) (st_Verdict r) (st_VerdictReasonCode r) (st_VerdictNote r) (st_VerdictBy r) (st_VerdictAt r) (st_GovernedResourceRef r) (st_Result r).
Definition set_st_Denial (v : option DenialResponse) (r : AgentRequestStatus) : AgentRequestStatus :=
  mkStatus (st_Phase r) (st_Conditions r) v (st_LeaseName r) (st_EvaluationGeneration r) (st_ControlPlaneVerification r) (st_ProviderContext r) (st_Verdict r) (st_VerdictReasonCode r) (st_VerdictNote r) (st_VerdictBy r) (st_VerdictAt r) (st_GovernedResourceRef r) (st_Result r).
Definition set_st_ControlPlaneVerification (v : option ControlPlaneVerification) (r : AgentRequestStatus) : AgentRequestStatus :=
  mkStatus (st_Phase r) (st_Conditions r) (st_Denial r) (st_LeaseName r) (st_EvaluationGeneration r) v (st_ProviderContext r) (st_Verdict r) (st_VerdictReasonCode r) (st_VerdictNote r) (st_VerdictBy r) (st_VerdictAt r) (st_GovernedResourceRef r) (st_Result r).
Definition set_st_ProviderContext (v : option JSON) (r : AgentRequestStatus) : AgentRequestStatus :=
  mkStatus (st_Phase r) (st_Conditions r) (st_Denial r) (st_LeaseName r) (st_EvaluationGeneration r) (st_ControlPlaneVerification r) v (st_Verdict r) (st_VerdictReasonCode r) (st_VerdictNote r) (st_VerdictBy r) (st_VerdictAt r) (st_GovernedResourceRef r) (st_Result r).
Definition set_st_GovernedResourceRef (v : option GovernedResourceRef) (r : AgentRequestStatus) : AgentRequestStatus :=
  mkStatus (st_Phase r) (st_Conditions r) (st_Denial r) (st_LeaseName r) (st_EvaluationGeneration r) (st_ControlPlaneVerification r) (st_ProviderContext r) (st_Verdict r) (st_VerdictReasonCode r) (st_VerdictNote r) (st_VerdictBy r) (st_VerdictAt r) v (st_Result r).
Definition set_st_Result (v : option AgentRequestResult) (r : AgentRequestStatus) : AgentRequestStatus :=
  mkStatus (st_Phase r) (st_Conditions r) (st_Denial r) (st_LeaseName r) (st_EvaluationGeneration r) (st_ControlPlaneVerification r) (st_ProviderContext r) (st_Verdict r) (st_VerdictReasonCode r) (st_VerdictNote r) (st_VerdictBy r) (st_VerdictAt r) (st_GovernedResourceRef r) v.
Definition set_st_VerdictFields (verdict code note by_ : string) (at_ : option Z) (r : AgentRequestStatus)
  : AgentRequestStatus :=
  mkStatus (st_Phase r) (st_Conditions r) (st_Denial r) (st_LeaseName r) (st_EvaluationGeneration r)
    (st_ControlPlaneVerification r) (st_ProviderContext r) verdict code note by_ at_
    (st_GovernedResourceRef r) (st_Result r).
Definition set_spec_HumanApproval (v : option HumanApproval) (r : AgentRequestSpec) : AgentRequestSpec :=
  mkSpec (spec_AgentIdentity r) (spec_Action r) (spec_Target r) (spec_Reason r) (spec_Mode r) (spec_Classification r) (spec_DedupKey r) (spec_IntentPlanRef r) (spec_Priority r) (spec_CascadeModel r) (spec_ReasoningTrace r) (spec_Interruptibility r) (spec_Parameters r) (spec_ExecutionMode r) (spec_ScopeBounds r) v (spec_GovernedResourceRef r).
Definition set_spec_GovernedResourceRef (v : option GovernedResourceRef) (r : AgentRequestSpec) : AgentRequestSpec :=
  mkSpec (spec_AgentIdentity r) (spec_Action r) (spec_Target r) (spec_Reason r) (spec_Mode r) (spec_Classification r) (spec_DedupKey r) (spec_IntentPlanRef r) (spec_Priority r) (spec_CascadeModel r) (spec_ReasoningTrace r) (spec_Interruptibility r) (spec_Parameters r) (spec_ExecutionMode r) (spec_ScopeBounds r) (spec_HumanApproval r) v.
Definition set_om_OwnerReferences (v : list OwnerReference) (r : ObjectMeta) : ObjectMeta :=
  mkMeta (om_Name r) (om_GenerateName r) (om_Namespace r) (om_UID r) (om_Labels r) (om_Annotations r) (om_Generation r) (om_ResourceVersion r) (om_CreationTimestamp r) (om_DeletionTimestamp r) (om_Finalizers r) v.
Definition set_ar_Meta (v : ObjectMeta) (r : AgentRequest) : AgentRequest :=
  mkAR v (ar_Spec r) (ar_Status r).
Definition set_ar_Spec (v : AgentRequestSpec) (r : AgentRequest) : AgentRequest :=
  mkAR (ar_Meta r) v (ar_Status r).
Definition set_ar_Status (v : AgentRequestStatus) (r : AgentRequest) : AgentRequest :=
  mkAR (ar_Meta r) (ar_Spec r) v.

(** Update of an object's status in place: [obj.Status.X = v]. *)
Definition upd_status (f : AgentRequestStatus → AgentRequestStatus) (a : AgentRequest) : AgentRequest :=
  set_ar_Status (f (ar_Status a)) a.

Definition phase (a : AgentRequest) : string := st_Phase (ar_Status a).
Definition conditions (a : AgentRequest) : list Condition := st_Conditions (ar_Status a).
Definition set_phase (p : string) : AgentRequest → AgentRequest := upd_status (set_st_Phase p).
Definition set_conditions (cs : list Condition) : AgentRequest → AgentRequest :=
  upd_status (set_st_Conditions cs).
Definition set_denial (d : option DenialResponse) : AgentRequest → AgentRequest :=
  upd_status (set_st_Denial d).

Definition set_lease_HolderIdentity (v : option string) (r : Lease) : Lease :=
  mkLease (lease_Meta r) v (lease_LeaseDurationSeconds r) (lease_AcquireTime r) (lease_RenewTime r).
Definition set_lease_RenewTime (v : option Z) (r : Lease) : Lease :=
  mkLease (lease_Meta r) (lease_HolderIdentity r) (lease_LeaseDurationSeconds r) (lease_AcquireTime r) v.
Definition set_au_PhaseTransition (v : option PhaseTransition) (r : AuditRecordSpec) : AuditRecordSpec :=
  mkAudit (au_Timestamp r) (au_AgentIdentity r) (au_AgentRequestRef r) (au_Event r) (au_Action r) (au_TargetURI r) (au_Reason r) v (au_PolicyEvaluations r) (au_Annotations r) (au_Details r).
Definition set_au_Details (v : option AgentRequestResult) (r : AuditRecordSpec) : AuditRecordSpec :=
  mkAudit (au_Timestamp r) (au_AgentIdentity r) (au_AgentRequestRef r) (au_Event r) (au_Action r) (au_TargetURI r) (au_Reason r) (au_PhaseTransition r) (au_PolicyEvaluations r) (au_Annotations r) v.
Definition set_au_Meta (v : ObjectMeta) (r : AuditRecord) : AuditRecord :=
  mkAuditRecord v (au_Spec r).
Definition set_au_Spec (v : AuditRecordSpec) (r : AuditRecord) : AuditRecord :=
  mkAuditRecord (au_Meta r) v.

(** ** Facts *)

Lemma trust_rank_range level rank :
  TrustLevelRank level = (rank, true) → 0 ≤ rank ≤ 4.
Proof.
  unfold TrustLevelRank, trustLevelOrder. cbn [list_to_map foldr fst snd uncurry].
  repeat (rewrite lookup_insert; case_decide; [intros [= <-]; lia|]).
  rewrite lookup_empty. discriminate.
Qed.

Lemma trust_rank_inj l1 l2 r :
  TrustLevelRank l1 = (r, true) → TrustLevelRank l2 = (r, true) → l1 = l2.
Proof.
  unfold TrustLevelRank, trustLevelOrder. cbn [list_to_map foldr fst snd uncurry].
  repeat (rewrite !lookup_insert; repeat case_decide; subst; try (intros; simplify_eq; done)).
Qed.
