(* ===== verification/Prog.v ===== *)
(** * Programs that make calls, and reasoning about them

    Reconcilers and handlers reach the API server, the clock, the metrics
    registry and other services through calls whose answers they do not
    control.  Such code is modelled as a finite interaction tree [prog S A]:
    a result, or a call of the signature [S] with one continuation per
    possible answer.  Nothing about the answers is built in: a statement about
    a [prog] holds for every cluster, every interleaving with other writers,
    every stale cache and every fault, unless it says what it assumes.

    [safe] is the weakest precondition over call histories; [runs] and
    [emits] are the complete and partial executions; [safe_emits] and
    [safe_runs] connect them. *)

From S2P Require Import Prelude.

(** The calls of a component and the answer type of each. *)
Record sig := mkSig { op : Type; ans : op → Type }.

(** ** Programs *)

Inductive prog (S : sig) (A : Type) : Type :=
| Ret (a : A)
| Vis (c : op S) (k : ans S c → prog S A).
Arguments Ret {S A} _.
Arguments Vis {S A} _ _.

Fixpoint bind {S A B} (p : prog S A) (f : A → prog S B) : prog S B :=
  match p with
  | Ret a => f a
  | Vis c k => Vis c (λ r, bind (k r) f)
  end.

Definition trigger (S : sig) (c : op S) : prog S (ans S c) := Vis c Ret.

Declare Scope prog_scope.
Delimit Scope prog_scope with prog.

(** [x <- p ;; q] runs [p]; [x <-! p ;; q] also returns [p]'s error, the Go
    idiom [if err != nil { return ..., err }]. *)
Notation "x <- p ;; q" := (bind p (λ x, q))
  (at level 100, p at next level, right associativity) : prog_scope.
Notation "x <-! p ;; q" :=
  (bind p (λ r, match r with Ok x => q | Err e => Ret (Err e) end))
  (at level 100, p at next level, right associativity) : prog_scope.
Notation "p ;;; q" := (bind p (λ _, q)) (at level 100, right associativity) : prog_scope.
Notation "p ;;! q" :=
  (bind p (λ r, match r with Ok _ => q | Err e => Ret (Err e) end))
  (at level 100, right associativity) : prog_scope.
Global Open Scope prog_scope.

(** ** Executions *)

Inductive event (S : sig) := Ev (c : op S) (r : ans S c).
Arguments Ev {S} _ _.

Definition ev_call {S} (e : event S) : op S := let 'Ev c _ := e in c.

(** [runs p t a]: answered with the answers in [t], [p] makes exactly the
    calls of [t] and returns [a]. *)
Fixpoint runs {S A} (p : prog S A) (t : list (event S)) (a : A) : Prop :=
  match p with
  | Ret a' => t = [] ∧ a' = a
  | Vis c k => ∃ r t', t = Ev c r :: t' ∧ runs (k r) t' a
  end.

(** [emits p t]: [t] is the beginning of an execution of [p] (the process may
    stop at any point). *)
Fixpoint emits {S A} (p : prog S A) (t : list (event S)) : Prop :=
  t = [] ∨
  match p with
  | Ret _ => False
  | Vis c k => ∃ r t', t = Ev c r :: t' ∧ emits (k r) t'
  end.

(** ** Weakest preconditions over call histories

    [P h c] is what must hold when the history is [h] and the next call is
    [c]; [Q h a] is what must hold at the end.  [R] restricts the answers
    considered; [any] considers all of them. *)
Fixpoint safe {S A} (R : event S → Prop) (P : list (event S) → op S → Prop) (h : list (event S))
  (p : prog S A) (Q : list (event S) → A → Prop) : Prop :=
  match p with
  | Ret a => Q h a
  | Vis c k => P h c ∧ ∀ r, R (Ev c r) → safe R P (h ++ [Ev c r]) (k r) Q
  end.

Definition any {S} : event S → Prop := λ _, True.

(** ** Facts *)

Lemma bind_assoc {S A B C} (p : prog S A) (f : A → prog S B) (g : B → prog S C) t c :
  runs (bind (bind p f) g) t c ↔ runs (bind p (λ a, bind (f a) g)) t c.
Proof.
  revert t. induction p as [a|cl k IH]; intros t; simpl; [done|].
  split; intros (r & t' & -> & H); exists r, t'; split; [done|by apply IH|done|by apply IH].
Qed.

Lemma runs_bind {S A B} (p : prog S A) (f : A → prog S B) t b :
  runs (bind p f) t b ↔ ∃ a t1 t2, t = t1 ++ t2 ∧ runs p t1 a ∧ runs (f a) t2 b.
Proof.
  revert t. induction p as [a|c k IH]; intros t; simpl.
  - split.
    + intros H. exists a, [], t. done.
    + intros (a' & t1 & t2 & -> & [-> ->] & H). done.
  - split.
    + intros (r & t' & -> & H). apply IH in H as (a & t1 & t2 & -> & H1 & H2).
      exists a, (Ev c r :: t1), t2. split; [done|]. split; [|done]. eauto.
    + intros (a & t1 & t2 & -> & (r & t' & -> & H1) & H2).
      exists r, (t' ++ t2). split; [done|]. apply IH. by exists a, t', t2.
Qed.

Lemma safe_bind {S A B} R P h (p : prog S A) (f : A → prog S B) Q :
  safe R P h (bind p f) Q ↔ safe R P h p (λ h' a, safe R P h' (f a) Q).
Proof.
  revert h. induction p as [a|c k IH]; intros h; simpl; [done|].
  split; intros [HP Hk]; (split; [done|]); intros r Hr; apply IH; auto.
Qed.

Lemma safe_mono {S A} (R R' : event S → Prop) (P P' : list (event S) → op S → Prop) h (p : prog S A)
  (Q Q' : list (event S) → A → Prop) :
  (∀ e, R' e → R e) → (∀ h c, P h c → P' h c) → (∀ h a, Q h a → Q' h a) →
  safe R P h p Q → safe R' P' h p Q'.
Proof.
  intros HR HP HQ. revert h. induction p as [a|c k IH]; intros h; simpl; [auto|].
  intros [H1 H2]. split; auto.
Qed.

Lemma safe_post {S A} R P h (p : prog S A) (Q Q' : list (event S) → A → Prop) :
  (∀ h a, Q h a → Q' h a) → safe R P h p Q → safe R P h p Q'.
Proof. by apply safe_mono. Qed.

(** Rules to walk through a program: a call first, a call last, a subprogram
    first.  The history only grows. *)
Lemma safe_call {S B} R P h c (k : ans S c → prog S B) Q :
  P h c →
  (∀ x h', R (Ev c x) → h ⊆ h' → Ev c x ∈ h' → safe R P h' (k x) Q) →
  safe R P h (bind (trigger S c) k) Q.
Proof. intros Hc Hk. split; [done|]. intros x Hx. apply Hk; [done|set_solver..]. Qed.

Lemma safe_last {S} (R : event S → Prop) P h c Q :
  P h c →
  (∀ x h', R (Ev c x) → h ⊆ h' → Ev c x ∈ h' → Q h' x) →
  safe R P h (trigger S c) Q.
Proof. intros Hc Hk. split; [done|]. intros x Hx. apply Hk; [done|set_solver..]. Qed.

Lemma safe_sub {S A B} R P h (p : prog S A) (φ : list (event S) → A → Prop) (k : A → prog S B) Q :
  safe R P h p (λ h' x, h ⊆ h' ∧ φ h' x) →
  (∀ x h', h ⊆ h' → φ h' x → safe R P h' (k x) Q) →
  safe R P h (bind p k) Q.
Proof. intros Hp Hk. apply safe_bind. eapply safe_post; [|exact Hp]. intros h' x [Hs Hφ]. auto. Qed.

(** Every call of a partial execution is made in a history that allows it. *)
Lemma safe_emits {S A} R P h (p : prog S A) Q t1 c (r : ans S c) t2 :
  safe R P h p Q → Forall R t1 → emits p (t1 ++ Ev c r :: t2) → P (h ++ t1) c.
Proof.
  revert h t1. induction p as [a|c' k IH]; intros h t1 Hs HR [Ht|He].
  - by destruct t1.
  - done.
  - by destruct t1.
  - destruct He as (r' & t' & Heq & He). destruct Hs as [HP Hk].
    destruct t1 as [|e t1]; cbn in Heq.
    + apply (f_equal (λ l, ev_call <$> head l)) in Heq. cbn in Heq.
      rewrite app_nil_r. congruence.
    + injection Heq as -> <-. apply Forall_cons in HR as [HR1 HR].
      change (h ++ Ev c' r' :: t1) with (h ++ [Ev c' r'] ++ t1). rewrite app_assoc.
      eapply IH; [apply Hk, HR1|exact HR|exact He].
Qed.

Lemma safe_runs {S A} R P h (p : prog S A) Q t a :
  safe R P h p Q → Forall R t → runs p t a → Q (h ++ t) a.
Proof.
  revert h t. induction p as [a'|c k IH]; intros h t Hs HR Hr; simpl in *.
  - destruct Hr as [-> ->]. by rewrite app_nil_r.
  - destruct Hr as (r & t' & -> & Hr). destruct Hs as [_ Hk].
    apply Forall_cons in HR as [HR1 HR].
    change (h ++ Ev c r :: t') with (h ++ [Ev c r] ++ t'). rewrite app_assoc. eauto.
Qed.

(** If every call satisfies [P], so does every event of an execution. *)
Lemma safe_calls {S A} (P : op S → Prop) h (p : prog S A) Q t a :
  safe any (λ _ c, P c) h p Q → runs p t a → Forall (λ e, P (ev_call e)) t.
Proof.
  revert h t. induction p as [a'|c k IH]; intros h t Hs Hr; simpl in *.
  - by destruct Hr as [-> _].
  - destruct Hr as (r & t' & -> & Hr), Hs as [Hc Hk]. constructor; [done|]. by eapply IH; [apply Hk|].
Qed.

Lemma any_all {S} (t : list (event S)) : Forall any t.
Proof. by apply Forall_forall. Qed.

Lemma runs_emits {S A} (p : prog S A) t1 t2 a : runs p (t1 ++ t2) a → emits p t1.
Proof.
  revert t1. induction p as [a'|c k IH]; intros t1 Hr; simpl in *.
  - destruct Hr as [Ht _]. left. by destruct t1.
  - destruct Hr as (r & t' & Ht & Hr). destruct t1 as [|e t1]; [by left|right].
    cbn in Ht. injection Ht as -> <-. eauto.
Qed.

(** A call that a subprogram never makes is made after it. *)
Lemma runs_skip {S A B} (N : op S → Prop) (p : prog S A) (f : A → prog S B) t1 c (x : ans S c) t2 b :
  safe any (λ _ c, ~ N c) [] p (λ _ _, True) → N c →
  runs (bind p f) (t1 ++ Ev c x :: t2) b →
  ∃ a s1 s2, t1 = s1 ++ s2 ∧ runs p s1 a ∧ runs (f a) (s2 ++ Ev c x :: t2) b.
Proof.
  intros Hs Hc (a & u1 & u2 & Ht & Hp & Hf)%runs_bind.
  pose proof (safe_calls (λ c, ~ N c) [] p _ u1 a Hs Hp) as Hu.
  exists a. apply app_eq_inv in Ht as [(k & E & Ht)|(k & E & Ht)]; [exists u1, k; by subst|].
  destruct k as [|e k]; cbn in Ht.
  - exists u1, []. rewrite app_nil_r in *. by subst.
  - injection Ht as <- _. rewrite E, Forall_app, Forall_cons in Hu. by destruct Hu as [_ [[] _]].
Qed.

(** ** Executions against a fixed environment

    [play o p] answers every call with [o]. *)
Fixpoint play {S A} (o : ∀ c : op S, ans S c) (p : prog S A) : list (event S) * A :=
  match p with
  | Ret a => ([], a)
  | Vis c k => let r := play o (k (o c)) in (Ev c (o c) :: r.1, r.2)
  end.

Lemma play_runs {S A} (o : ∀ c : op S, ans S c) (p : prog S A) : runs p (play o p).1 (play o p).2.
Proof. induction p as [a|c k IH]; cbn; [done|]. eauto. Qed.

(** Answers of the environment are what it guarantees for each call. *)
Lemma play_answers {S A} (R : event S → Prop) (o : ∀ c : op S, ans S c) (p : prog S A) :
  (∀ c, R (Ev c (o c))) → Forall R (play o p).1.
Proof. intros Ho. induction p as [a|c k IH]; cbn; constructor; auto. Qed.

Lemma play_emits {S A} (o : ∀ c : op S, ans S c) (p : prog S A) t1 t2 :
  (play o p).1 = t1 ++ t2 → emits p (t1 ++ t2).
Proof.
  intros E. pose proof (play_runs o p) as H. rewrite E, <- (app_nil_r (t1 ++ t2)) in H.
  by eapply runs_emits.
Qed.

(** The [n]-th call of such an execution is reached. *)
Lemma play_reaches {S A} (o : ∀ c : op S, ans S c) (p : prog S A) n c :
  ev_call <$> (play o p).1 !! n = Some c →
  emits p (take n (play o p).1 ++ Ev c (o c) :: drop (1 + n) (play o p).1).
Proof.
  intros Hc. destruct ((play o p).1 !! n) as [e|] eqn:He; [|done].
  assert (e = Ev c (o c)) as ->.
  { assert (∀ e, e ∈ (play o p).1 → e = Ev (ev_call e) (o (ev_call e))) as Hall.
    { clear. induction p as [a|c k IH]; cbn; [set_solver|]. intros e [->|Hin]%elem_of_cons; [done|eauto]. }
    injection Hc as <-. apply Hall. by eapply list_elem_of_lookup_2. }
  apply (play_emits o). symmetry. by apply take_drop_middle.
Qed.
