(* ===== verification/Retry.v ===== *)
(** * Retried updates ([k8s.io/client-go/util/retry])

    [RetryOnConflict] is a library's: the operation of the class [RetryLib],
    with the behaviour its documentation states as a law, and an
    implementation that satisfies it for witnesses. *)

From S2P Require Import Prelude Prog.

(** [retry.RetryOnConflict(retry.DefaultRetry, fn)].  The attempt returns the
    variables it assigns in its closure and its error; the last attempt's are
    what the caller sees.  Documented behaviour: an attempt is repeated only
    after a conflict, and giving up returns the last attempt's error.  The law
    is the loop rule this gives: an invariant kept by attempts that end in a
    conflict holds at the start of every attempt. *)
Class RetryLib (S : sig) := {
  RetryOnConflict : ∀ {A}, prog S (A * option error) → prog S (A * option error);
  retry_rule : ∀ {A} (R : event S → Prop) (P : list (event S) → op S → Prop)
      (I : list (event S) → Prop) (Q : list (event S) → A * option error → Prop)
      (p : prog S (A * option error)),
    (∀ h, I h → safe R P h p (λ h' r, Q h' r ∧ ∀ e, r.2 = Some e → IsConflict e = true → I h')) →
    ∀ h, I h → safe R P h (RetryOnConflict p) Q }.

(** An implementation with [n] retries. *)
Module CountedRetry.

Fixpoint retry {S} (n : nat) {A} (p : prog S (A * option error)) : prog S (A * option error) :=
  match n with
  | O => p
  | Datatypes.S n' =>
      r <- p ;;
      match r.2 with
      | Some e => if IsConflict e then retry n' p else Ret r
      | None => Ret r
      end
  end.

Lemma retry_rule {S} n {A} (R : event S → Prop) P I Q (p : prog S (A * option error)) :
  (∀ h, I h → safe R P h p (λ h' r, Q h' r ∧ ∀ e, r.2 = Some e → IsConflict e = true → I h')) →
  ∀ h, I h → safe R P h (retry n p) Q.
Proof.
  intros Hp. induction n as [|n IH]; intros h Hh; cbn.
  - eapply safe_post; [|by apply Hp]. by intros h' r [? _].
  - apply safe_bind. eapply safe_post; [|by apply Hp]. intros h' r [HQ HI].
    destruct (r.2) as [e|] eqn:E; [|done]. destruct (IsConflict e) eqn:Ec; [|done]. by eapply IH, HI.
Qed.

Definition counted (S : sig) (n : nat) : RetryLib S :=
  {| RetryOnConflict := @retry S n; Retry.retry_rule := @retry_rule S n |}.

End CountedRetry.

(** ** Closures that assign a captured variable

    The same loop where the closure reads and assigns a variable of its
    caller: an attempt gets the value the previous one left. *)
Class RetryStateLib (S : sig) := {
  RetryOnConflict_state : ∀ {T}, (T → prog S (T * option error)) → T → prog S (T * option error);
  retry_state_rule : ∀ {T} (R : event S → Prop) (P : list (event S) → op S → Prop)
      (I : list (event S) → T → Prop) (Q : list (event S) → T * option error → Prop)
      (p : T → prog S (T * option error)),
    (∀ h x, I h x → safe R P h (p x) (λ h' r, Q h' r ∧ ∀ e, r.2 = Some e → IsConflict e = true → I h' r.1)) →
    ∀ h x, I h x → safe R P h (RetryOnConflict_state p x) Q }.

Module CountedRetryState.

Fixpoint retry {S} (n : nat) {T} (p : T → prog S (T * option error)) (x : T) : prog S (T * option error) :=
  match n with
  | O => p x
  | Datatypes.S n' =>
      r <- p x ;;
      match r.2 with
      | Some e => if IsConflict e then retry n' p r.1 else Ret r
      | None => Ret r
      end
  end.

Lemma retry_state_rule {S} n {T} (R : event S → Prop) P (I : list (event S) → T → Prop) Q
  (p : T → prog S (T * option error)) :
  (∀ h x, I h x → safe R P h (p x) (λ h' r, Q h' r ∧ ∀ e, r.2 = Some e → IsConflict e = true → I h' r.1)) →
  ∀ h x, I h x → safe R P h (retry n p x) Q.
Proof.
  intros Hp. induction n as [|n IH]; intros h x Hh; cbn.
  - eapply safe_post; [|by apply Hp]. by intros h' r [? _].
  - apply safe_bind. eapply safe_post; [|by apply Hp]. intros h' r [HQ HI].
    destruct (r.2) as [e|] eqn:E; [|done]. destruct (IsConflict e) eqn:Ec; [|done]. by eapply IH, HI.
Qed.

Definition counted (S : sig) (n : nat) : RetryStateLib S :=
  {| RetryOnConflict_state := @retry S n; Retry.retry_state_rule := @retry_state_rule S n |}.

End CountedRetryState.
