(* ===== verification/Kube.v ===== *)
(** * The request controller's calls

    [Cached] reads go through the informer cache ([r.Get], [r.List]);
    [Live] reads go to the API server ([r.APIReader]).  [CNow] is [r.now()]
    (an injectable clock), [CWallNow] the wall clock that
    [meta.SetStatusCondition] reads. *)

From S2P Require Import Prelude Types Prog.

(** ** Live state of a target, as the control plane fetches it
    ([evaluation.TargetContext]) *)
Record TargetContext := mkTC {
  tc_Exists : bool;
  tc_HasActiveEndpoints : bool;
  tc_ActiveEndpointCount : Z;
  tc_ReadyReplicas : Z;
  tc_SpecReplicas : Z;
  tc_DownstreamServices : list string;
  tc_StateFingerprint : string }.

Definition TargetContext_zero : TargetContext := mkTC false false 0 0 0 [] "".

(** ** Prometheus instruments ([internal/controller/metrics.go]) *)
Inductive metric :=
| agentRequestActive_Inc
| agentRequestActive_Dec
| agentRequestTotal_Inc (phase : string)
| agentRequestDeniedTotal_Inc (code : string)
| opsLockActive_Inc
| opsLockActive_Dec
| opsLockContentionTotal_Inc
| opsLockExpiredTotal_Inc
| agentRequestEvalDuration_Observe.

Inductive reader := Cached | Live.

(** ** Calls and their answers

    A [Patch] call carries the object before and after the in-memory
    mutation, as [client.MergeFrom(base)] does; its answer is the object as
    the server stored it, which controller-runtime copies back. *)
Inductive call :=
| CNow
| CWallNow
| CMetric (m : metric)
| CGetAR (rd : reader) (nn : NamespacedName)
| CPatchARStatus (base new : AgentRequest)
| CGetGR (rd : reader) (name : string)
| CListPolicies (rd : reader) (ns : string)
| CGetLease (rd : reader) (nn : NamespacedName)
| CCreateLease (l : Lease)
| CPatchLease (base new : Lease)
| CDeleteLease (l : Lease)
| CCreateAudit (a : AuditRecord)
| CListAudits (rd : reader) (ns : string) (labels : gmap string string)
| CPatchAudit (base new : AuditRecord)
| CFetchTarget (uri ns : string)
| CFetchProvider (fetcher uri : string).

Definition resp (c : call) : Type :=
  match c with
  | CNow | CWallNow => Z
  | CMetric _ => unit
  | CGetAR _ _ | CPatchARStatus _ _ => res AgentRequest
  | CGetGR _ _ => res GovernedResource
  | CListPolicies _ _ => res (list SafetyPolicy)
  | CGetLease _ _ | CCreateLease _ | CPatchLease _ _ => res Lease
  | CDeleteLease _ => res unit
  | CCreateAudit _ | CPatchAudit _ _ => res AuditRecord
  | CListAudits _ _ _ => res (list AuditRecord)
  | CFetchTarget _ _ => option TargetContext * option error
  | CFetchProvider _ _ => res JSON
  end.

Definition ctl : sig := mkSig call resp.

Abbreviation call_ c := (trigger ctl c).

Definition metric_ (m : metric) : prog ctl unit := call_ (CMetric m).
