(* ===== verification/Conditions.v ===== *)
(** * Status conditions ([k8s.io/apimachinery/pkg/api/meta])

    The four functions the sources call are a library's: they are the
    operations of the class [MetaConditions], with the behaviour their
    documentation states as laws.  [list_conditions] is an implementation that
    satisfies the laws; witnesses use it. *)

From S2P Require Import Prelude Types.

(** A condition literal as the sources write it: no [LastTransitionTime]. *)
Definition cond (ty st reason msg : string) : Condition := mkCond ty st reason msg 0.

Class MetaConditions := {
  (** [SetStatusCondition cs c now]: [now] is the wall clock it reads. *)
  SetStatusCondition : list Condition → Condition → Z → list Condition;
  FindStatusCondition : list Condition → string → option Condition;
  IsStatusConditionTrue : list Condition → string → bool;
  RemoveStatusCondition : list Condition → string → list Condition;
  (** "sets the corresponding condition in conditions to newCondition";
      "LastTransitionTime is set to now if the new status differs from the old
      status", and when the condition is new. *)
  find_set_eq : ∀ cs ty st reason msg now,
    FindStatusCondition (SetStatusCondition cs (cond ty st reason msg) now) ty =
    Some (mkCond ty st reason msg
            match FindStatusCondition cs ty with
            | Some old => if cond_Status old ==? st then cond_LastTransitionTime old else now
            | None => now
            end);
  find_nil : ∀ ty, FindStatusCondition [] ty = None;
  find_set_ne : ∀ cs c now ty, ty ≠ cond_Type c →
    FindStatusCondition (SetStatusCondition cs c now) ty = FindStatusCondition cs ty;
  find_remove_eq : ∀ cs ty, FindStatusCondition (RemoveStatusCondition cs ty) ty = None;
  find_remove_ne : ∀ cs ty ty', ty' ≠ ty →
    FindStatusCondition (RemoveStatusCondition cs ty) ty' = FindStatusCondition cs ty';
  (** "returns true when the conditionType is present and set to ConditionTrue" *)
  is_true_find : ∀ cs ty,
    IsStatusConditionTrue cs ty =
    match FindStatusCondition cs ty with
    | Some c => cond_Status c ==? ConditionTrue
    | None => false
    end }.

(** ** An implementation *)

Module ListConditions.

Fixpoint find_cond (cs : list Condition) (ty : string) : option Condition :=
  match cs with
  | [] => None
  | c :: cs' => if cond_Type c ==? ty then Some c else find_cond cs' ty
  end.

Definition stamp (c : Condition) (now : Z) : Condition :=
  mkCond (cond_Type c) (cond_Status c) (cond_Reason c) (cond_Message c)
    (if cond_LastTransitionTime c =? 0 then now else cond_LastTransitionTime c).

Definition update (old c : Condition) (now : Z) : Condition :=
  if cond_Status old ==? cond_Status c
  then mkCond (cond_Type c) (cond_Status c) (cond_Reason c) (cond_Message c) (cond_LastTransitionTime old)
  else stamp c now.

Fixpoint set_cond (cs : list Condition) (c : Condition) (now : Z) : list Condition :=
  match cs with
  | [] => [stamp c now]
  | old :: cs' =>
      if cond_Type old ==? cond_Type c then update old c now :: cs' else old :: set_cond cs' c now
  end.

Definition remove_cond (cs : list Condition) (ty : string) : list Condition :=
  filter (λ c, cond_Type c ≠ ty) cs.

Definition is_true (cs : list Condition) (ty : string) : bool :=
  match find_cond cs ty with
  | Some c => cond_Status c ==? ConditionTrue
  | None => false
  end.

Lemma find_set_cond cs c now ty :
  find_cond (set_cond cs c now) ty =
  if cond_Type c ==? ty
  then Some match find_cond cs ty with Some old => update old c now | None => stamp c now end
  else find_cond cs ty.
Proof.
  assert (∀ old, cond_Type (update old c now) = cond_Type c) as Hty
    by (intros old; unfold update; by destruct (_ ==? _)).
  induction cs as [|old cs IH]; cbn [set_cond find_cond].
  - simpl. by destruct (String.eqb_spec (cond_Type c) ty).
  - destruct (String.eqb_spec (cond_Type old) (cond_Type c)) as [E|E]; cbn [find_cond].
    + rewrite Hty, E. by destruct (String.eqb_spec (cond_Type c) ty).
    + destruct (String.eqb_spec (cond_Type old) ty) as [E'|E']; [|done].
      destruct (String.eqb_spec (cond_Type c) ty); [congruence|done].
Qed.

Lemma find_remove_cond cs ty ty' :
  find_cond (remove_cond cs ty) ty' = if ty ==? ty' then None else find_cond cs ty'.
Proof.
  unfold remove_cond. induction cs as [|c cs IH]; cbn [find_cond].
  - by destruct (ty ==? ty').
  - rewrite filter_cons. case_decide as Hd.
    + cbn [find_cond]. rewrite IH.
      destruct (String.eqb_spec (cond_Type c) ty'); [|done].
      destruct (String.eqb_spec ty ty'); [congruence|done].
    + rewrite IH, Hd. by destruct (ty ==? ty').
Qed.

End ListConditions.

Definition list_conditions : MetaConditions.
Proof.
  refine {| SetStatusCondition := ListConditions.set_cond;
            FindStatusCondition := ListConditions.find_cond;
            IsStatusConditionTrue := ListConditions.is_true;
            RemoveStatusCondition := ListConditions.remove_cond |}.
  - intros. rewrite ListConditions.find_set_cond. cbn [cond_Type cond]. rewrite String.eqb_refl.
    f_equal. destruct (ListConditions.find_cond cs ty) as [old|]; [|done].
    unfold ListConditions.update. cbn. by destruct (_ ==? _).
  - done.
  - intros cs c now ty Hne. rewrite ListConditions.find_set_cond.
    destruct (String.eqb_spec (cond_Type c) ty); [congruence|done].
  - intros. rewrite ListConditions.find_remove_cond. by rewrite String.eqb_refl.
  - intros cs ty ty' Hne. rewrite ListConditions.find_remove_cond.
    destruct (String.eqb_spec ty ty'); [congruence|done].
  - done.
Defined.

Section facts.
Context `{MetaConditions}.

(** Setting a condition to true makes it true, and leaves the others. *)
Lemma is_true_set_eq cs ty st reason msg now :
  IsStatusConditionTrue (SetStatusCondition cs (cond ty st reason msg) now) ty = (st ==? ConditionTrue).
Proof. by rewrite is_true_find, find_set_eq. Qed.

Lemma is_true_set_ne cs c now ty :
  ty ≠ cond_Type c → IsStatusConditionTrue (SetStatusCondition cs c now) ty = IsStatusConditionTrue cs ty.
Proof. intros. by rewrite !is_true_find, find_set_ne. Qed.

Lemma is_true_remove_eq cs ty : IsStatusConditionTrue (RemoveStatusCondition cs ty) ty = false.
Proof. by rewrite is_true_find, find_remove_eq. Qed.

Lemma is_true_remove_ne cs ty ty' :
  ty' ≠ ty → IsStatusConditionTrue (RemoveStatusCondition cs ty) ty' = IsStatusConditionTrue cs ty'.
Proof. intros. by rewrite !is_true_find, find_remove_ne. Qed.
End facts.

Create Rewrite HintDb conds.
#[export] Hint Rewrite @is_true_set_eq @is_true_remove_eq : conds.
