(* ===== verification/Evaluation.v ===== *)
(** * Policy evaluation ([internal/evaluation])

    [cel.go]: the expression environment with its program cache, and the
    variables an expression sees.  [evaluator.go]: [Evaluate], which runs the
    rules of every selected policy and resolves conflicts by priority, and
    [evaluateCascade], which runs them again for each declared side effect.

    The CEL engine, the unstructured converter and the JSON decoder are
    libraries: they are the fields of the class [CEL].  Their answers are
    arbitrary; only their determinism (they are functions) is used. *)

From S2P Require Import Prelude GoStd Types Kube.

(** ** Dynamic values ([any]) *)
#[warnings="-register-all"]
Inductive value :=
| VNull
| VBool (b : bool)
| VInt (n : Z)
| VStr (s : string)
| VList (l : list value)
| VMap (m : gmap string value).

Abbreviation vars := (gmap string value).

(** What a CEL program returns: an error, an error value, or a value with its
    Go type name. *)
Inductive cel_val :=
| CelError (msg : string)
| CelBool (b : bool)
| CelOther (ty : string).

Class CEL := {
  Ast : Type;
  Program : Type;
  cel_Compile : string → string + Ast;
  cel_Program : Ast → string + Program;
  cel_Eval : Program → vars → string + cel_val;
  ToUnstructured : AgentRequest → option value;
  json_Unmarshal_map : JSON → option (gmap string value) }.

(** ** [cel.go] *)

Module Cel.
Section cel.
Context `{CEL}.

Record CELEnvironment := mkEnv {
  astCache : gmap string Ast;
  prgCache : gmap string Program }.

Definition NewCELEnvironment : CELEnvironment := mkEnv ∅ ∅.

Definition AsMap (t : TargetContext) : gmap string value :=
  list_to_map
    [("exists"%string, VBool (tc_Exists t));
     ("hasActiveEndpoints"%string, VBool (tc_HasActiveEndpoints t));
     ("activeEndpointCount"%string, VInt (int64 (tc_ActiveEndpointCount t)));
     ("readyReplicas"%string, VInt (int64 (tc_ReadyReplicas t)));
     ("specReplicas"%string, VInt (int64 (tc_SpecReplicas t)));
     ("downstreamServices"%string, VList (VStr <$> tc_DownstreamServices t))].

(** The variables of the request under evaluation; [None] when the request
    cannot be converted. *)
Definition PrepareVariables (req : AgentRequest) (targetCtx : option TargetContext) : option vars :=
  match ToUnstructured req with
  | None => None
  | Some unstructuredMap =>
      let targetMap := AsMap (default TargetContext_zero targetCtx) in
      let targetMap :=
        match st_ProviderContext (ar_Status req) with
        | Some pc =>
            match json_Unmarshal_map pc with
            | Some providerCtxMap => providerCtxMap ∪ targetMap
            | None => targetMap
            end
        | None => targetMap
        end in
      Some (list_to_map [("request"%string, unstructuredMap); ("target"%string, VMap targetMap)])
  end.

(** Compile and instantiate on a cache miss, then run.  The left side of the
    answer is the Go error's text. *)
Definition EvaluateExpression (e : CELEnvironment) (expr : string) (vs : vars)
  : (string + bool) * CELEnvironment :=
  let run prg e' :=
    (match cel_Eval prg vs with
     | inl err => inl ("evaluation error for " +:+ quote expr +:+ ": " +:+ err)%string
     | inr (CelError msg) => inl ("CEL result error: " +:+ msg)%string
     | inr (CelBool b) => inr b
     | inr (CelOther ty) => inl ("CEL expression did not return a boolean, got: " +:+ ty)%string
     end, e') in
  match prgCache e !! expr with
  | Some prg => run prg e
  | None =>
      match cel_Compile expr with
      | inl err => (inl ("failed to compile CEL expression " +:+ quote expr +:+ ": " +:+ err)%string, e)
      | inr ast =>
          match cel_Program ast with
          | inl err => (inl ("failed to instantiate CEL program " +:+ quote expr +:+ ": " +:+ err)%string, e)
          | inr p => run p (mkEnv (<[expr := ast]> (astCache e)) (<[expr := p]> (prgCache e)))
          end
      end
  end.

(** What an expression means, with no cache. *)
Definition meaning (expr : string) (vs : vars) : string + bool :=
  (EvaluateExpression NewCELEnvironment expr vs).1.

(** Every cached program is the one its expression compiles to. *)
Definition coherent (e : CELEnvironment) : Prop :=
  ∀ expr p, prgCache e !! expr = Some p →
    ∃ ast, cel_Compile expr = inr ast ∧ cel_Program ast = inr p.

Lemma coherent_new : coherent NewCELEnvironment.
Proof. intros expr p. unfold NewCELEnvironment. cbn [prgCache]. by rewrite lookup_empty. Qed.

Lemma evaluate_expression_sound e expr vs :
  coherent e →
  (EvaluateExpression e expr vs).1 = meaning expr vs ∧ coherent (EvaluateExpression e expr vs).2.
Proof.
  intros Hc. unfold meaning, EvaluateExpression, NewCELEnvironment. cbn [prgCache astCache].
  rewrite lookup_empty.
  destruct (prgCache e !! expr) as [p|] eqn:E.
  - destruct (Hc _ _ E) as (ast & -> & ->). done.
  - destruct (cel_Compile expr) as [err|ast] eqn:EC; [done|].
    destruct (cel_Program ast) as [err|p] eqn:EP; [done|].
    split; [done|]. intros expr' p'. cbn [snd prgCache]. rewrite lookup_insert.
    case_decide as Hd; [|apply Hc]. intros [= <-]. subst. eauto.
Qed.

End cel.
End Cel.

(** ** [evaluator.go] *)

Record Result := mkRes {
  res_Action : string;
  res_Code : string;
  res_Message : string;
  res_PolicyResults : list PolicyResult }.

(** The evaluator as the reconciler sees it: [evaluation.Evaluator]. *)
Class Evaluator := {
  Evaluate : AgentRequest → list SafetyPolicy → option TargetContext →
             gmap string TargetContext → res Result }.

Module Evaluator_.
Import Cel.
Section evaluator.
Context `{CEL}.

Definition failModeClosed : string := "FailClosed".

Definition actionPriorityMap : gmap string Z :=
  list_to_map [(ResultAllow, 1); ("Log"%string, 2); (ResultRequireApproval, 3); (ResultDeny, 4)].

Definition actionPriority (a : string) : Z := default 0 (actionPriorityMap !! a).

(** The variables of [Evaluate] that its loops assign. *)
Record acc := mkAcc {
  a_env : CELEnvironment;
  a_highest : Z;
  a_action : string;
  a_code : string;
  a_msg : string;
  a_results : list PolicyResult }.

Definition append_result (pr : PolicyResult) (a : acc) : acc :=
  mkAcc (a_env a) (a_highest a) (a_action a) (a_code a) (a_msg a) (a_results a ++ [pr]).

Definition deny (code msg : string) (a : acc) : acc :=
  if a_highest a <? actionPriority ResultDeny
  then mkAcc (a_env a) (actionPriority ResultDeny) ResultDeny code msg (a_results a)
  else a.

Definition failure_mode (policy : SafetyPolicy) : string :=
  default failModeClosed (sp_FailureMode (sp_Spec policy)).

Definition policy_name (policy : SafetyPolicy) : string := om_Name (sp_Meta policy).

Definition mk_pr (policy : SafetyPolicy) (rule : Rule) (result : string) : PolicyResult :=
  mkPR (policy_name policy) (rule_Name rule) result 0.

Definition policy_rule_text (prefix : string) (policy : SafetyPolicy) (rule : Rule) : string :=
  (prefix +:+ policy_name policy +:+ " rule: " +:+ rule_Name rule)%string.

(** A matching rule whose action has the highest priority so far takes over. *)
Definition raise_to (policy : SafetyPolicy) (rule : Rule) (a : acc) : acc :=
  let prio := actionPriority (rule_Action rule) in
  if a_highest a <? prio then
    let '(code, msg) :=
      if rule_Action rule ==? ResultDeny then
        (DenialCodePolicyViolation,
         default (policy_rule_text "Denied by policy: " policy rule) (rule_Message rule))
      else if rule_Action rule ==? ResultRequireApproval then
        (a_code a,
         default (policy_rule_text "Approval required by policy: " policy rule) (rule_Message rule))
      else (a_code a, a_msg a) in
    mkAcc (a_env a) prio (rule_Action rule) code msg (a_results a)
  else a.

(** Body of the rule loop of [Evaluate]. *)
Definition eval_rule (reqVars : vars) (policy : SafetyPolicy) (a : acc) (rule : Rule) : acc :=
  let '(r, env') := EvaluateExpression (a_env a) (rule_Expression rule) reqVars in
  let a := mkAcc env' (a_highest a) (a_action a) (a_code a) (a_msg a) (a_results a) in
  match r with
  | inl err =>
      if failure_mode policy ==? failModeClosed then
        append_result (mk_pr policy rule "EvaluationFailed (Deny)")
          (deny DenialCodeEvaluationFailure ("CEL evaluation failed (FailClosed): " +:+ err)%string a)
      else append_result (mk_pr policy rule "EvaluationFailed") a
  | inr match_ =>
      let result := if match_ then rule_Action rule else ResultAllow in
      let a := if match_ then raise_to policy rule a else a in
      if (result <>? "Allow") && (result <>? "") then append_result (mk_pr policy rule result) a else a
  end.

Definition eval_policy (reqVars : vars) (a : acc) (policy : SafetyPolicy) : acc :=
  fold_left (eval_rule reqVars policy) (sp_Rules (sp_Spec policy)) a.

(** Body of the rule loop of [evaluateCascade]. *)
Definition cascade_rule (cascadeVars : vars) (policy : SafetyPolicy) (a : acc) (rule : Rule) : acc :=
  let '(r, env') := EvaluateExpression (a_env a) (rule_Expression rule) cascadeVars in
  let a := mkAcc env' (a_highest a) (a_action a) (a_code a) (a_msg a) (a_results a) in
  match r with
  | inl err =>
      if failure_mode policy ==? failModeClosed then
        append_result (mk_pr policy rule "EvaluationFailed (Cascade Deny)")
          (deny DenialCodeEvaluationFailure
             ("Cascade CEL evaluation failed (FailClosed): " +:+ err)%string a)
      else a
  | inr match_ =>
      if match_ && (rule_Action rule ==? ResultDeny) then
        append_result (mk_pr policy rule "CascadeDeny")
          (deny DenialCodeCascadeDenied
             (policy_rule_text "Cascade effect denied by policy: " policy rule) a)
      else a
  end.

Definition cascade_policy (cascadeVars : vars) (a : acc) (policy : SafetyPolicy) : acc :=
  fold_left (cascade_rule cascadeVars policy) (sp_Rules (sp_Spec policy)) a.

(** The stand-in request a side effect is evaluated as. *)
Definition cascadeVars (cascadeCtxs : gmap string TargetContext) (t : AffectedTarget) : vars :=
  list_to_map
    [("request"%string,
       VMap (list_to_map
         [("spec"%string,
            VMap (list_to_map
              [("action"%string, VStr (aff_EffectType t));
               ("target"%string, VMap (list_to_map [("uri"%string, VStr (aff_URI t))]))]))]));
     ("target"%string, VMap (AsMap (default TargetContext_zero (cascadeCtxs !! aff_URI t))))].

(** The side effects that are evaluated: none for an escalation. *)
Definition cascade_targets (req : AgentRequest) : list AffectedTarget :=
  match spec_CascadeModel (ar_Spec req) with
  | Some cm =>
      if bool_decide (cm_AffectedTargets cm = []) then []
      else if spec_Action (ar_Spec req) ==? "escalate" then []
      else cm_AffectedTargets cm
  | None => []
  end.

Definition evaluateCascade (req : AgentRequest) (policies : list SafetyPolicy)
  (cascadeCtxs : gmap string TargetContext) (a : acc) : acc :=
  fold_left (λ a t, fold_left (cascade_policy (cascadeVars cascadeCtxs t)) policies a)
    (cascade_targets req) a.

Definition finish (a : acc) : Result :=
  if a_action a ==? ResultDeny then mkRes (a_action a) (a_code a) (a_msg a) (a_results a)
  else if a_action a ==? "RequireApproval" then mkRes (a_action a) "" (a_msg a) (a_results a)
  else if (a_action a ==? "Allow") && (a_msg a ==? "") then
    mkRes (a_action a) "" "All policies passed" (a_results a)
  else mkRes (a_action a) "" "" (a_results a).

(** [defaultEvaluator.Evaluate], with the environment it leaves behind. *)
Definition Evaluate_env (e : CELEnvironment) (req : AgentRequest) (policies : list SafetyPolicy)
  (targetCtx : option TargetContext) (cascadeCtxs : gmap string TargetContext)
  : Result * CELEnvironment :=
  match PrepareVariables req targetCtx with
  | None =>
      (mkRes ResultDeny DenialCodeEvaluationFailure
         "Failed to parse AgentRequest variables for evaluation" [], e)
  | Some reqVars =>
      let a := mkAcc e (actionPriority ResultAllow) ResultAllow "" "" [] in
      let a := fold_left (eval_policy reqVars) policies a in
      let a := evaluateCascade req policies cascadeCtxs a in
      (finish a, a_env a)
  end.

End evaluator.
End Evaluator_.
