(* ===== verification/EvaluationFacts.v ===== *)
(** * Policy evaluation is correct

    A reference evaluator: every rule gives a [verdict] (a priority, the
    denial code and message it would set, what it reports), and the outcome is
    the first verdict of the highest priority.  [Evaluate_env], with its
    caches, loops and running maxima, computes exactly that; denial happens
    exactly when some rule denies or fails under FailClosed. *)

From S2P Require Import Prelude GoStd Types Kube Evaluation.
Import Cel Evaluator_.

(** ** The reference evaluator *)

Module EvalSpec.
Section spec.
Context `{CEL}.

Record verdict := V {
  v_score : Z;
  v_code : string;
  v_msg : string;
  v_report : option PolicyResult }.

Definition v0 : verdict := V 1 "" "" None.

Definition action_of (score : Z) : string :=
  if score =? 4 then ResultDeny
  else if score =? 3 then ResultRequireApproval
  else if score =? 2 then ResultLog
  else ResultAllow.

Definition closed (p : SafetyPolicy) : bool := failure_mode p ==? failModeClosed.

(** What one rule says about the request. *)
Definition request_verdict (vs : vars) (p : SafetyPolicy) (r : Rule) : verdict :=
  match meaning (rule_Expression r) vs with
  | inl err =>
      if closed p then
        V 4 DenialCodeEvaluationFailure ("CEL evaluation failed (FailClosed): " +:+ err)%string
          (Some (mk_pr p r "EvaluationFailed (Deny)"))
      else V 0 "" "" (Some (mk_pr p r "EvaluationFailed"))
  | inr false => V 0 "" "" None
  | inr true =>
      let a := rule_Action r in
      V (actionPriority a)
        (if a ==? ResultDeny then DenialCodePolicyViolation else "")
        (if a ==? ResultDeny then default (policy_rule_text "Denied by policy: " p r) (rule_Message r)
         else if a ==? ResultRequireApproval
         then default (policy_rule_text "Approval required by policy: " p r) (rule_Message r)
         else "")
        (if (a <>? "Allow") && (a <>? "") then Some (mk_pr p r a) else None)
  end.

(** What one rule says about a declared side effect: it can only deny. *)
Definition cascade_verdict (vs : vars) (p : SafetyPolicy) (r : Rule) : verdict :=
  match meaning (rule_Expression r) vs with
  | inl err =>
      if closed p then
        V 4 DenialCodeEvaluationFailure ("Cascade CEL evaluation failed (FailClosed): " +:+ err)%string
          (Some (mk_pr p r "EvaluationFailed (Cascade Deny)"))
      else V 0 "" "" None
  | inr m =>
      if m && (rule_Action r ==? ResultDeny) then
        V 4 DenialCodeCascadeDenied (policy_rule_text "Cascade effect denied by policy: " p r)
          (Some (mk_pr p r "CascadeDeny"))
      else V 0 "" "" None
  end.

Definition over_rules (f : SafetyPolicy → Rule → verdict) (ps : list SafetyPolicy) : list verdict :=
  ps ≫= λ p, f p <$> sp_Rules (sp_Spec p).

(** All verdicts, in evaluation order. *)
Definition verdicts (req : AgentRequest) (ps : list SafetyPolicy)
  (cctx : gmap string TargetContext) (vs : vars) : list verdict :=
  over_rules (request_verdict vs) ps ++
  (cascade_targets req ≫= λ t, over_rules (cascade_verdict (cascadeVars cctx t)) ps).

Definition better (b v : verdict) : verdict := if v_score b <? v_score v then v else b.
Definition decisive (vds : list verdict) : verdict := fold_left better vds v0.

Definition outcome (vds : list verdict) : Result :=
  let d := decisive vds in
  mkRes (action_of (v_score d))
    (v_code d)
    (if v_score d =? 1 then "All policies passed" else v_msg d)
    (omap v_report vds).

End spec.
End EvalSpec.

(** ** Refinement *)

Section refinement.
Import EvalSpec.
Context `{CEL}.

Lemma priority_cases a :
  (a = ResultAllow ∧ actionPriority a = 1) ∨ (a = ResultLog ∧ actionPriority a = 2) ∨
  (a = ResultRequireApproval ∧ actionPriority a = 3) ∨ (a = ResultDeny ∧ actionPriority a = 4) ∨
  (actionPriority a = 0 ∧ (a ==? ResultDeny) = false ∧ (a ==? ResultRequireApproval) = false).
Proof.
  unfold actionPriority, actionPriorityMap. cbn [list_to_map foldr fst snd uncurry].
  rewrite !lookup_insert, lookup_empty.
  repeat case_decide; subst; simpl; rewrite ?String.eqb_neq; intuition congruence.
Qed.

Ltac priorities a :=
  let Ea := fresh "Ea" in let Ep := fresh "Ep" in let Ed := fresh "Ed" in let Er := fresh "Er" in
  destruct (priority_cases a) as [[Ea Ep]|[[Ea Ep]|[[Ea Ep]|[[Ea Ep]|(Ep & Ed & Er)]]]];
  rewrite ?Ep; [rewrite ?Ea..|rewrite ?Ed, ?Er].

Lemma action_of_priority a : 1 ≤ actionPriority a → action_of (actionPriority a) = a.
Proof. priorities a; [done..|lia]. Qed.

(** Only a denial or a request for approval carries a message, only a denial a code. *)
Definition wf (v : verdict) : Prop :=
  0 ≤ v_score v ≤ 4 ∧ (v_score v < 3 → v_msg v = ""%string) ∧
  (v_code v = ""%string ↔ v_score v < 4).

Lemma wf_request vs p r : wf (request_verdict vs p r).
Proof.
  unfold request_verdict, wf.
  destruct (meaning _ _) as [err|[]]; [case_bool| |]; simpl; [naive_solver lia..| |naive_solver lia].
  priorities (rule_Action r); simpl; naive_solver lia.
Qed.

Lemma wf_cascade vs p r : wf (cascade_verdict vs p r).
Proof. unfold cascade_verdict, wf. destruct (meaning _ _); case_bool; simpl; naive_solver lia. Qed.

Definition report (v : verdict) : list PolicyResult := option_list (v_report v).

(** What a rule with verdict [v] does to the loop variables. *)
Definition step (env' : CELEnvironment) (v : verdict) (a : acc) : acc :=
  if a_highest a <? v_score v
  then mkAcc env' (v_score v) (action_of (v_score v)) (v_code v) (v_msg v) (a_results a ++ report v)
  else mkAcc env' (a_highest a) (a_action a) (a_code a) (a_msg a) (a_results a ++ report v).

(** The loop variables hold the decisive verdict so far and the reports so far. *)
Record sim (a : acc) (b : verdict) (reps : list PolicyResult) : Prop := {
  sim_env : coherent (a_env a);
  sim_highest : a_highest a = v_score b;
  sim_action : a_action a = action_of (v_score b);
  sim_code : a_code a = v_code b;
  sim_msg : a_msg a = v_msg b;
  sim_results : a_results a = reps;
  sim_wf : wf b;
  sim_pos : 1 ≤ v_score b }.

Lemma sim_step env' v a b reps :
  sim a b reps → coherent env' → wf v → sim (step env' v a) (better b v) (reps ++ report v).
Proof.
  intros [He Hh Ha Hc Hm Hr Hw Hp] He' Hv. unfold step, better. rewrite Hh.
  destruct (Z.ltb_spec (v_score b) (v_score v)); constructor; simpl; done || congruence || lia.
Qed.

(** Below a denial nothing has set the code; below an approval, the message. *)
Lemma sim_quiet a b reps :
  sim a b reps → (a_highest a < 4 → a_code a = ""%string) ∧ (a_highest a < 3 → a_msg a = ""%string).
Proof.
  intros [He Hh Ha Hc Hm Hr (_ & Hmsg & Hcode) Hp]. rewrite Hh, Hc, Hm. split; [apply Hcode|apply Hmsg].
Qed.

Lemma eval_rule_step vs p a r b reps :
  sim a b reps →
  ∃ env', coherent env' ∧ eval_rule vs p a r = step env' (request_verdict vs p r) a.
Proof.
  intros Hsim. destruct (sim_quiet _ _ _ Hsim) as [Hq1 Hq2].
  destruct Hsim as [He Hh Ha Hc Hm Hr Hw Hp].
  pose proof (evaluate_expression_sound (a_env a) (rule_Expression r) vs He) as [Hs He'].
  unfold eval_rule, request_verdict, closed.
  destruct (EvaluateExpression _ _ _) as [out env'] eqn:EE. cbn [fst snd] in Hs, He'. subst out.
  exists env'. split; [done|]. unfold step, report.
  destruct (meaning _ _) as [err|[]]; [destruct (_ ==? _)| |]; simpl;
    unfold deny, append_result, raise_to; simpl.
  - change (actionPriority ResultDeny) with 4. by destruct (a_highest a <? 4).
  - destruct (Z.ltb_spec (a_highest a) 0); [lia|done].
  - destruct (Z.ltb_spec (a_highest a) (actionPriority (rule_Action r))) as [Hlt|Hge].
    + rewrite <- (action_of_priority (rule_Action r)) at 3 by lia. revert Hlt.
      priorities (rule_Action r); simpl; intros Hlt;
        try rewrite Hq1 by lia; try rewrite Hq2 by lia; try done; lia.
    + destruct ((_ <>? _) && _); simpl; by rewrite ?app_nil_r.
  - destruct (Z.ltb_spec (a_highest a) 0); [lia|]. simpl. by rewrite app_nil_r.
Qed.

Lemma cascade_rule_step vs p a r b reps :
  sim a b reps →
  ∃ env', coherent env' ∧ cascade_rule vs p a r = step env' (cascade_verdict vs p r) a.
Proof.
  intros [He Hh Ha Hc Hm Hr Hw Hp].
  pose proof (evaluate_expression_sound (a_env a) (rule_Expression r) vs He) as [Hs He'].
  unfold cascade_rule, cascade_verdict, closed.
  destruct (EvaluateExpression _ _ _) as [out env'] eqn:EE. cbn [fst snd] in Hs, He'. subst out.
  exists env'. split; [done|]. unfold step, report, deny, append_result.
  change (actionPriority ResultDeny) with 4.
  destruct (meaning _ _) as [err|m]; case_bool; simpl;
    destruct (Z.ltb_spec (a_highest a) 4), (Z.ltb_spec (a_highest a) 0); try lia;
    by rewrite ?app_nil_r.
Qed.

(** A loop whose body acts like [step] keeps [sim]. *)
Lemma sim_loop {X} (body : acc → X → acc) (vds : X → list verdict) (l : list X) :
  (∀ a b reps x, sim a b reps →
     sim (body a x) (fold_left better (vds x) b) (reps ++ omap v_report (vds x))) →
  ∀ a b reps, sim a b reps →
  sim (fold_left body l a) (fold_left better (l ≫= vds) b) (reps ++ omap v_report (l ≫= vds)).
Proof.
  intros Hbody. induction l as [|x l IH]; intros a b reps Hs; simpl.
  - by rewrite app_nil_r.
  - rewrite fold_left_app, omap_app, app_assoc. by apply IH, Hbody.
Qed.

Lemma sim_policies (body : SafetyPolicy → acc → Rule → acc) (f : SafetyPolicy → Rule → verdict) ps :
  (∀ p a r b reps, sim a b reps → ∃ env', coherent env' ∧ body p a r = step env' (f p r) a) →
  (∀ p r, wf (f p r)) →
  ∀ a b reps, sim a b reps →
  sim (fold_left (λ a p, fold_left (body p) (sp_Rules (sp_Spec p)) a) ps a)
      (fold_left better (over_rules f ps) b) (reps ++ omap v_report (over_rules f ps)).
Proof.
  intros Hbody Hwf. apply sim_loop. intros a b reps p Hs.
  assert (f p <$> sp_Rules (sp_Spec p) = sp_Rules (sp_Spec p) ≫= λ r, [f p r]) as ->.
  { induction (sp_Rules (sp_Spec p)) as [|r l IH]; [done|].
    rewrite fmap_cons, bind_cons. cbn [app]. by f_equal. }
  apply sim_loop; [|done]. clear -Hbody Hwf. intros a b reps r Hs.
  destruct (Hbody p a r b reps Hs) as (env' & He & ->). simpl.
  pose proof (sim_step env' (f p r) a b reps Hs He (Hwf p r)) as Hst.
  unfold report in Hst. by destruct (v_report (f p r)).
Qed.

Lemma finish_sim a b reps :
  sim a b reps →
  (v_score b = 1 → v_msg b = ""%string) →
  finish a = mkRes (action_of (v_score b)) (v_code b)
               (if v_score b =? 1 then "All policies passed" else v_msg b) reps.
Proof.
  intros [He Hh Ha Hc Hm Hr (Hb & Hmsg & Hcode) Hp] H1. unfold finish. rewrite Ha, Hc, Hm, Hr.
  assert (v_score b = 1 ∨ v_score b = 2 ∨ v_score b = 3 ∨ v_score b = 4) as [E|[E|[E|E]]] by lia;
    rewrite E in *; simpl.
  - by rewrite H1, (proj2 Hcode) by lia.
  - by rewrite Hmsg, (proj2 Hcode) by lia.
  - by rewrite (proj2 Hcode) by lia.
  - done.
Qed.

Lemma evaluate_sim e req ps cctx vs :
  coherent e →
  sim (evaluateCascade req ps cctx
         (fold_left (eval_policy vs) ps (mkAcc e (actionPriority ResultAllow) ResultAllow "" "" [])))
      (decisive (verdicts req ps cctx vs)) (omap v_report (verdicts req ps cctx vs)).
Proof.
  intros He. unfold decisive, verdicts. rewrite fold_left_app, omap_app.
  apply (sim_loop (λ a t, fold_left (cascade_policy (cascadeVars cctx t)) ps a)
           (λ t, over_rules (cascade_verdict (cascadeVars cctx t)) ps)).
  - intros a b reps t Hs. apply (sim_policies (cascade_rule _) (cascade_verdict _)); [|apply wf_cascade|done].
    intros. by eapply cascade_rule_step.
  - apply (sim_policies (eval_rule vs) (request_verdict vs)) with (reps := []);
      [intros; by eapply eval_rule_step|apply wf_request|].
    constructor; simpl; try done.
Qed.

(** The decisive verdict is one of the verdicts, or the default, and none is stronger. *)
Lemma decisive_from vds b :
  fold_left better vds b = b ∨ fold_left better vds b ∈ vds.
Proof.
  revert b. induction vds as [|v vds IH]; intros b; simpl; [by left|].
  destruct (IH (better b v)) as [Hb|]; [|right; by constructor].
  rewrite Hb. unfold better. destruct (_ <? _); [right; constructor|by left].
Qed.

Lemma decisive_max vds b v : v ∈ b :: vds → v_score v ≤ v_score (fold_left better vds b).
Proof.
  revert b v. induction vds as [|w vds IH]; intros b v; simpl.
  - intros [->|Hn]%elem_of_cons; [lia|]. by apply not_elem_of_nil in Hn.
  - intros [->|[->|Hv]%elem_of_cons]%elem_of_cons.
    + etrans; [|apply (IH (better b w) (better b w)); constructor]. unfold better. case_bool; lia.
    + etrans; [|apply (IH (better b w) (better b w)); constructor]. unfold better. case_bool; lia.
    + apply IH. by constructor.
Qed.

Lemma decisive_wf req ps cctx vs : wf (decisive (verdicts req ps cctx vs)).
Proof. by destruct (evaluate_sim NewCELEnvironment req ps cctx vs coherent_new). Qed.

Lemma decisive_deny vds : wf (decisive vds) →
  v_score (decisive vds) = 4 ↔ ∃ v, v ∈ vds ∧ 4 ≤ v_score v.
Proof.
  intros (Hr & _ & _). split.
  - intros H4. destruct (decisive_from vds v0) as [E|Hin].
    + unfold decisive in H4. rewrite E in H4. done.
    + exists (decisive vds). split; [done|lia].
  - intros (v & Hin & Hv). pose proof (decisive_max vds v0 v (list_elem_of_further _ _ _ Hin)).
    unfold decisive in *. lia.
Qed.

(** A rule denies under the variables [vs]: it matches and says so, or it
    cannot be evaluated and its policy fails closed. *)
Definition rule_denies (vs : vars) (p : SafetyPolicy) (r : Rule) : Prop :=
  (meaning (rule_Expression r) vs = inr true ∧ rule_Action r = ResultDeny) ∨
  ((∃ err, meaning (rule_Expression r) vs = inl err) ∧ failure_mode p = failModeClosed).

Lemma request_verdict_deny vs p r : 4 ≤ v_score (request_verdict vs p r) ↔ rule_denies vs p r.
Proof.
  unfold request_verdict, rule_denies, closed.
  destruct (meaning _ _) as [err|[]]; simpl.
  - destruct (String.eqb_spec (failure_mode p) failModeClosed); simpl; naive_solver lia.
  - priorities (rule_Action r); [naive_solver lia..|].
    apply String.eqb_neq in Ed. naive_solver lia.
  - naive_solver lia.
Qed.

Lemma cascade_verdict_deny vs p r : 4 ≤ v_score (cascade_verdict vs p r) ↔ rule_denies vs p r.
Proof.
  unfold cascade_verdict, rule_denies, closed.
  destruct (meaning _ _) as [err|[]]; simpl.
  - destruct (String.eqb_spec (failure_mode p) failModeClosed); simpl; naive_solver lia.
  - destruct (String.eqb_spec (rule_Action r) ResultDeny); simpl; naive_solver lia.
  - naive_solver lia.
Qed.

Definition some_rule_denies (vs : vars) (ps : list SafetyPolicy) : Prop :=
  ∃ p r, p ∈ ps ∧ r ∈ sp_Rules (sp_Spec p) ∧ rule_denies vs p r.

Lemma over_rules_deny (f : SafetyPolicy → Rule → verdict) vs ps :
  (∀ p r, 4 ≤ v_score (f p r) ↔ rule_denies vs p r) →
  (∃ v, v ∈ over_rules f ps ∧ 4 ≤ v_score v) ↔ some_rule_denies vs ps.
Proof.
  intros Hf. unfold over_rules, some_rule_denies. split.
  - intros (v & (p & Hv & Hp)%list_elem_of_bind & H4).
    apply list_elem_of_fmap in Hv as (r & -> & Hr). exists p, r. naive_solver.
  - intros (p & r & Hp & Hr & Hd). exists (f p r). split; [|by apply Hf].
    apply list_elem_of_bind. exists p. split; [|done]. by apply list_elem_of_fmap_2.
Qed.

(** ** Properties *)

(** C5: [Evaluate] returns exactly what the reference evaluator returns (the
    action, code and message of the first verdict of the highest priority, and
    the reports of all rules), whatever programs its cache holds, and leaves
    the cache coherent. *)
Theorem evaluate_refines e req ps tctx cctx vs :
  coherent e → PrepareVariables req tctx = Some vs →
  (Evaluate_env e req ps tctx cctx).1 = outcome (verdicts req ps cctx vs) ∧
  coherent (Evaluate_env e req ps tctx cctx).2.
Proof.
  intros He Hv. unfold Evaluate_env. rewrite Hv. cbn [fst snd].
  pose proof (evaluate_sim e req ps cctx vs He) as Hs. split; [|apply Hs].
  erewrite finish_sim; [done|exact Hs|].
  intros H1. destruct (sim_wf _ _ _ Hs) as (_ & Hm & _). apply Hm. lia.
Qed.

Lemma evaluate_denied e req ps tctx cctx vs :
  coherent e → PrepareVariables req tctx = Some vs →
  res_Action (Evaluate_env e req ps tctx cctx).1 = ResultDeny ↔
  v_score (decisive (verdicts req ps cctx vs)) = 4.
Proof.
  intros He Hv. unfold Evaluate_env. rewrite Hv. cbn [fst].
  pose proof (evaluate_sim e req ps cctx vs He) as Hs.
  erewrite finish_sim; [|exact Hs|].
  - unfold outcome. cbn [res_Action]. destruct (sim_wf _ _ _ Hs) as [Hr _].
    pose proof (sim_pos _ _ _ Hs) as Hp. revert Hr Hp.
    generalize (v_score (decisive (verdicts req ps cctx vs))). intros n ? ?.
    assert (n = 1 ∨ n = 2 ∨ n = 3 ∨ n = 4) as [->|[->|[->| ->]]] by lia; done.
  - intros H1. destruct (sim_wf _ _ _ Hs) as (_ & Hm & _). apply Hm. lia.
Qed.

(** a request is denied exactly when some rule denies it, or denies one of
    its declared side effects: a matching Deny rule, or a rule that cannot be
    evaluated in a policy that fails closed.  A FailOpen failure never denies. *)
Theorem evaluate_denies_iff e req ps tctx cctx vs :
  coherent e → PrepareVariables req tctx = Some vs →
  res_Action (Evaluate_env e req ps tctx cctx).1 = ResultDeny ↔
  some_rule_denies vs ps ∨
  ∃ t, t ∈ cascade_targets req ∧ some_rule_denies (cascadeVars cctx t) ps.
Proof.
  intros He Hv. rewrite (evaluate_denied e req ps tctx cctx vs He Hv).
  rewrite decisive_deny by apply decisive_wf. unfold verdicts.
  rewrite exists_app, exists_bind. f_equiv.
  - apply over_rules_deny, request_verdict_deny.
  - f_equiv. intros t. rewrite over_rules_deny by apply cascade_verdict_deny. done.
Qed.

(** the denial code is set on denials and only on denials, so a
    [DenialResponse] never carries an empty code; a request that cannot be
    converted for evaluation is denied. *)
Theorem evaluate_code_iff_denied e req ps tctx cctx :
  coherent e →
  let r := (Evaluate_env e req ps tctx cctx).1 in
  (res_Code r ≠ ""%string ↔ res_Action r = ResultDeny) ∧
  (PrepareVariables req tctx = None → res_Action r = ResultDeny).
Proof.
  intros He r. subst r. destruct (PrepareVariables req tctx) as [vs|] eqn:Hv.
  - split; [|done]. rewrite (evaluate_denied e req ps tctx cctx vs He Hv).
    destruct (decisive_wf req ps cctx vs) as (Hr & Hm & Hc).
    pose proof (evaluate_sim e req ps cctx vs He) as Hs.
    unfold Evaluate_env. rewrite Hv. cbn [fst].
    erewrite finish_sim; [|exact Hs|intros; apply Hm; lia]. cbn [res_Code]. rewrite Hc. lia.
  - unfold Evaluate_env. rewrite Hv. done.
Qed.

End refinement.

(** ** Witnesses *)

(** A CEL engine with four programs. *)
Definition toy_cel : CEL := {|
  Ast := string; Program := string;
  cel_Compile := λ s, if s ==? "syntax error" then inl "unexpected token"%string else inr s;
  cel_Program := inr;
  cel_Eval := λ p _,
    if p ==? "true" then inr (CelBool true)
    else if p ==? "false" then inr (CelBool false)
    else if p ==? "1" then inr (CelOther "int64")
    else inl "no such key"%string;
  ToUnstructured := λ req, Some (VStr (spec_Action (ar_Spec req)));
  json_Unmarshal_map := λ _, None |}.

Module EvalExamples.
Definition meta0 (n : string) : ObjectMeta := mkMeta n "" "default" "" ∅ ∅ 1 1 0 None [] [].
Definition rule_ (n act e : string) : Rule := mkRule n "StateEvaluation" act None e None.
Definition policy_ (n : string) (mode : option string) (rs : list Rule) : SafetyPolicy :=
  mkSP (meta0 n) (mkSPSpec (mkSel ∅ []) "" rs mode).
Definition target_ (u : string) : Target := mkTarget u None ∅.
Definition spec_ (agent act uri : string) : AgentRequestSpec :=
  mkSpec agent act (target_ uri) "because" ModeGovern "" "" None None None None None None None None None None.
Definition status0 : AgentRequestStatus := mkStatus "" [] None "" 0 None None "" "" "" "" None None None.
Definition req_ (n agent act uri : string) : AgentRequest := mkAR (meta0 n) (spec_ agent act uri) status0.

Definition policies : list SafetyPolicy :=
  [policy_ "p1" (Some "FailOpen"%string)
     [rule_ "broken-open" "Deny" "syntax error"; rule_ "ask" "RequireApproval" "true"];
   policy_ "p2" None [rule_ "quiet" "Deny" "false"; rule_ "broken" "Log" "1"]].
End EvalExamples.

#[local] Existing Instance toy_cel.
Import EvalExamples.

Definition example_req : AgentRequest := req_ "r" "a" "scale" "k8s://x".
Definition example_vars : vars := default ∅ (PrepareVariables example_req None).

Lemma evaluate_refines_witness :
  res_Action (Evaluate_env NewCELEnvironment example_req policies None ∅).1 = ResultDeny ∧
  coherent (Evaluate_env NewCELEnvironment example_req policies None ∅).2.
Proof.
  assert (PrepareVariables example_req None = Some example_vars) as Hv by reflexivity.
  pose proof (evaluate_refines NewCELEnvironment example_req policies None ∅
    example_vars coherent_new Hv) as [H1 H2].
  split; [rewrite H1; vm_compute; reflexivity|exact H2].
Defined.

Lemma evaluate_denies_iff_witness :
  some_rule_denies example_vars policies ∨
  ∃ t, t ∈ cascade_targets example_req ∧ some_rule_denies (cascadeVars ∅ t) policies.
Proof.
  assert (PrepareVariables example_req None = Some example_vars) as Hv by reflexivity.
  apply (evaluate_denies_iff NewCELEnvironment example_req policies None ∅
    example_vars coherent_new Hv).
  vm_compute. reflexivity.
Defined.

Lemma evaluate_code_iff_denied_witness :
  res_Code (Evaluate_env NewCELEnvironment example_req policies None ∅).1 ≠ ""%string.
Proof.
  apply (evaluate_code_iff_denied NewCELEnvironment example_req policies None ∅
    coherent_new).
  vm_compute. reflexivity.
Defined.
