(* ===== verification/TargetURI.v ===== *)
(** * Target URIs ([internal/evaluation/target_context.go] and the fetchers)

    [ParseTargetURI] and [parseGitHubURI], and that they recover the parts a
    URI was built from. *)

From Stdlib Require Import Ascii.
From S2P Require Import Prelude GoStd GoStrings.

Record ParsedTargetURI := mkParsed {
  pu_Cluster : string;
  pu_Namespace : string;
  pu_ResourceType : string;
  pu_Name : string }.

Definition ParsedTargetURI_zero : ParsedTargetURI := mkParsed "" "" "" "".

Definition ParseTargetURI (uri : string) : ParsedTargetURI :=
  match url_Parse uri with
  | None => ParsedTargetURI_zero
  | Some u =>
      if u_Scheme u <>? "k8s" then ParsedTargetURI_zero
      else
        let parts := split slash (TrimPrefix (u_Path u) "/") in
        mkParsed (u_Host u) (default "" (parts !! 0%nat))%string (default "" (parts !! 1%nat))%string
          (default "" (parts !! 2%nat))%string
  end.

(** [strings.Cut] at a substring. *)
Fixpoint cut_str (sep s : string) : option (string * string) :=
  match cut_prefix sep s with
  | Some r => Some (""%string, r)
  | None =>
      match s with
      | EmptyString => None
      | String a s' => match cut_str sep s' with Some (l, r) => Some (String a l, r) | None => None end
      end
  end.

Record GitHubURI := mkGitHub { gh_Org : string; gh_Repo : string; gh_Branch : string; gh_FilePath : string }.

(** The left side is the error's text. *)
Definition parseGitHubURI (targetURI : string) : string + GitHubURI :=
  match url_Parse targetURI with
  | None => inl ("parseGitHubURI: invalid GitHub URI " +:+ quote targetURI)%string
  | Some u =>
      if u_Scheme u <>? "github" then
        inl ("parseGitHubURI: invalid GitHub URI " +:+ quote targetURI)%string
      else
        let org := u_Host u in
        let rest := TrimPrefix (u_Path u) "/" in
        if (org ==? "") || (rest ==? "") then
          inl ("invalid GitHub URI: " +:+ targetURI +:+ " (missing org or repo)")%string
        else
          match cut_str "/files/" rest with
          | Some (repo, rest') =>
              let '(branch, filePath) := default (rest', ""%string) (cut slash rest') in
              inr (mkGitHub org repo branch filePath)
          | None => inr (mkGitHub org rest "" "")
          end
  end.

(** ** Facts *)

(** Bytes allowed in a cluster name, and in a path segment. *)
Definition cluster_char (a : ascii) : bool :=
  is_alpha a || is_digit a || existsb (Ascii.eqb a) (String.list_ascii_of_string "-._").
Definition seg_char (a : ascii) : bool :=
  negb (is_ctl a) && negb (existsb (Ascii.eqb a) (String.list_ascii_of_string "/%?#")).

Definition k8s_uri (cluster ns rt name : string) : string :=
  ("k8s://" +:+ cluster +:+ String slash (ns +:+ String slash (rt +:+ String slash name)))%string.

(** Decide a statement about all 256 bytes by evaluating it. *)
Ltac by_bytes := intros [[] [] [] [] [] [] [] []]; vm_compute; first [discriminate|reflexivity].

Lemma cluster_char_ok a :
  cluster_char a = true →
  host_char a && negb (is_ctl a) && negb (Ascii.eqb a ":") && negb (Ascii.eqb a "@") &&
  negb (Ascii.eqb a "[") && negb (Ascii.eqb a "%") && negb (Ascii.eqb a slash) &&
  negb (Ascii.eqb a "?") && negb (Ascii.eqb a "#") = true.
Proof. revert a. by_bytes. Qed.

Lemma seg_char_ok a :
  seg_char a = true →
  negb (is_ctl a) && negb (Ascii.eqb a "%") && negb (Ascii.eqb a slash) &&
  negb (Ascii.eqb a "?") && negb (Ascii.eqb a "#") = true.
Proof. revert a. by_bytes. Qed.

(** Use [H : f s = true] where [f] implies the wanted class of bytes. *)
Ltac chars H lem :=
  eapply all_chars_impl; [|exact H]; let a := fresh "a" in let Ha := fresh "Ha" in
  intros a Ha; apply lem in Ha; repeat (apply andb_prop in Ha as [Ha ?]); done.

Lemma unescape_host s : all_chars cluster_char s = true → unescape encodeHost s = Some s.
Proof.
  induction s as [|a s IH]; simpl; [done|]. rewrite andb_true_iff. intros [Ha Hs].
  apply cluster_char_ok in Ha. repeat (apply andb_prop in Ha as [Ha ?]).
  str_tests. rewrite (IH Hs). destruct (Ascii.eqb a "%"); [done|].
  by rewrite Ha, orb_true_r.
Qed.

Lemma unescape_path s :
  all_chars (λ a, negb (Ascii.eqb a "%")) s = true → unescape encodePath s = Some s.
Proof.
  induction s as [|a s IH]; simpl; [done|]. rewrite andb_true_iff, negb_true_iff.
  intros [-> Hs]. by rewrite (IH Hs).
Qed.

Lemma parse_host_plain c : all_chars cluster_char c = true → parseHost c = Some c.
Proof.
  intros Hc. destruct c as [|a c]; [done|]. cbn [parseHost].
  pose proof Hc as Ha. simpl in Ha. apply andb_prop in Ha as [Ha _].
  apply cluster_char_ok in Ha. repeat (apply andb_prop in Ha as [Ha ?]).
  str_tests. replace (Ascii.eqb a "[") with false by done.
  rewrite (cut_last_none ":") by (chars Hc cluster_char_ok). by apply unescape_host.
Qed.

Lemma parse_authority_plain c : all_chars cluster_char c = true → parseAuthority c = Some c.
Proof.
  intros Hc. unfold parseAuthority. rewrite (cut_last_none "@") by (chars Hc cluster_char_ok).
  by apply parse_host_plain.
Qed.

Section k8s.
Context (cluster path : string).
Hypothesis Hc : all_chars cluster_char cluster = true.
Hypothesis Hp : all_chars (λ a, seg_char a || Ascii.eqb a slash) path = true.

Lemma path_char_ok a :
  seg_char a || Ascii.eqb a slash = true →
  negb (is_ctl a) && negb (Ascii.eqb a "%") && negb (Ascii.eqb a "?") && negb (Ascii.eqb a "#") = true.
Proof using. clear. revert a. by_bytes. Qed.

Lemma url_parse_k8s :
  url_Parse ("k8s://" +:+ cluster +:+ String slash path)%string
  = Some (mkURL "k8s" cluster (String slash path) "").
Proof.
  assert (∀ f, (∀ a, cluster_char a = true → f a = true) →
            (∀ a, seg_char a || Ascii.eqb a slash = true → f a = true) →
            all_chars f "k8s://" = true →
            all_chars f ("k8s://" +:+ cluster +:+ String slash path)%string = true) as Hall.
  { intros f H1 H2 H3. rewrite !all_chars_app, H3, (all_chars_impl _ _ _ H1 Hc).
    cbn [all_chars]. rewrite (all_chars_impl _ _ _ H2 Hp), (H2 slash) by done. done. }
  unfold url_Parse. rewrite cut_none.
  2: { apply Hall; [| |done]; intros a Ha;
       [apply cluster_char_ok in Ha|apply path_char_ok in Ha];
       repeat (apply andb_prop in Ha as [Ha ?]); done. }
  unfold parse_nofrag. rewrite Hall; [|intros a Ha..|done]; cbn [negb].
  2: { apply cluster_char_ok in Ha. repeat (apply andb_prop in Ha as [Ha ?]); done. }
  2: { apply path_char_ok in Ha. repeat (apply andb_prop in Ha as [Ha ?]); done. }
  assert ((("k8s://" +:+ cluster +:+ String slash path)%string ==? "*") = false) as -> by done.
  set (rest := ("//" +:+ cluster +:+ String slash path)%string).
  assert (getScheme ("k8s://" +:+ cluster +:+ String slash path)%string = Some ("k8s"%string, rest)) as -> by done.
  rewrite (cut_none "?" rest).
  2: { unfold rest. rewrite !all_chars_app. cbn [all_chars].
       assert (all_chars (λ a, negb (Ascii.eqb a "?")) cluster = true) as -> by (chars Hc cluster_char_ok).
       assert (all_chars (λ a, negb (Ascii.eqb a "?")) path = true) as -> by (chars Hp path_char_ok).
       done. }
  cbn [default from_option id].
  assert (HasPrefix rest "/" = true) as -> by apply (has_prefix_app "/").
  assert (HasPrefix rest "//" = true) as -> by apply has_prefix_app.
  assert (TrimPrefix rest "//" = (cluster +:+ String slash path)%string) as -> by apply trim_prefix_app.
  rewrite cut_app by (chars Hc cluster_char_ok).
  rewrite (parse_authority_plain _ Hc), (unescape_path (String slash path)); [done|].
  cbn [all_chars]. apply andb_true_iff. split; [done|]. chars Hp path_char_ok.
Qed.
End k8s.

Lemma seg_path s : all_chars seg_char s = true → all_chars (λ a, seg_char a || Ascii.eqb a slash) s = true.
Proof. apply all_chars_impl. intros a ->. done. Qed.

Lemma k8s_uri_app cluster ns rt name s :
  (k8s_uri cluster ns rt name +:+ s)%string =
  ("k8s://" +:+ cluster +:+ String slash (ns +:+ String slash (rt +:+ String slash (name +:+ s))))%string.
Proof. unfold k8s_uri. repeat (rewrite ?string_app_assoc, ?str_cons_app). done. Qed.

(** The parts of a [k8s://] URI are recovered from it, and anything after the
    name is ignored. *)
Theorem parse_target_uri_roundtrip cluster ns rt name extra :
  all_chars cluster_char cluster = true →
  all_chars seg_char ns = true → all_chars seg_char rt = true → all_chars seg_char name = true →
  all_chars seg_char extra = true →
  ParseTargetURI (k8s_uri cluster ns rt name) = mkParsed cluster ns rt name ∧
  ParseTargetURI (k8s_uri cluster ns rt name +:+ String slash extra) = mkParsed cluster ns rt name.
Proof.
  intros Hc Hn Hr Hm He.
  assert (∀ s, all_chars seg_char s = true → all_chars (λ a, negb (Ascii.eqb a slash)) s = true) as Hs
    by (intros s H; chars H seg_char_ok).
  unfold ParseTargetURI. split.
  - unfold k8s_uri. rewrite url_parse_k8s; [|done|].
    + cbn [u_Scheme u_Path u_Host]. rewrite String.eqb_refl. cbn [negb].
      change (TrimPrefix (String slash ?s) "/") with s.
      rewrite (split_app _ ns), (split_app _ rt), (split_none _ name) by auto. done.
    + rewrite !all_chars_app. cbn [all_chars]. rewrite !all_chars_app. cbn [all_chars].
      rewrite !seg_path by done. done.
  - rewrite k8s_uri_app.
    rewrite url_parse_k8s; [|done|].
    + cbn [u_Scheme u_Path u_Host]. rewrite String.eqb_refl. cbn [negb].
      change (TrimPrefix (String slash ?s) "/") with s.
      rewrite (split_app _ ns), (split_app _ rt), (split_app _ name) by auto. done.
    + rewrite !all_chars_app. cbn [all_chars]. rewrite !all_chars_app. cbn [all_chars].
      rewrite !all_chars_app. cbn [all_chars]. rewrite !seg_path by done. done.
Qed.

Lemma parse_target_uri_roundtrip_witness :
  ParseTargetURI "k8s://prod/default/deployment/api" = mkParsed "prod" "default" "deployment" "api".
Proof.
  exact (proj1 (parse_target_uri_roundtrip "prod" "default" "deployment" "api" "status"
                  eq_refl eq_refl eq_refl eq_refl eq_refl)).
Defined.
