(* ===== verification/Naming.v ===== *)
(** * Object names, labels and classifications
      ([api/v1alpha1/naming.go], [cmd/gateway/server.go],
      [cmd/gateway/agent_request_handlers.go])

    Identities are free-form UTF-8; names are DNS labels.  Strings are decoded
    into runes as Go's [range] and [regexp] do (an invalid byte is the
    replacement rune), because one rune, not one byte, becomes one hyphen. *)

From Stdlib Require Import Ascii.
From S2P Require Import Prelude GoStd GoStrings.

(** ** Runes *)

Definition cont (b : Z) : bool := (128 <=? b) && (b <=? 191).
Definition in_range (lo hi b : Z) : bool := (lo <=? b) && (b <=? hi).
Definition RuneError : Z := 65533.

(** The second byte's range depends on the first ([utf8.acceptRanges]). *)
Definition second_ok (b0 b1 : Z) : bool :=
  if b0 =? 224 then in_range 160 191 b1
  else if b0 =? 237 then in_range 128 159 b1
  else if b0 =? 240 then in_range 144 191 b1
  else if b0 =? 244 then in_range 128 143 b1
  else cont b1.

(** [utf8.DecodeRune]: the rune and the bytes after it. *)
Definition decode_rune (b0 : Z) (rest : list Z) : Z * list Z :=
  if b0 <? 128 then (b0, rest)
  else if in_range 194 223 b0 then
    match rest with
    | b1 :: r => if cont b1 then ((b0 - 192) * 64 + (b1 - 128), r) else (RuneError, rest)
    | _ => (RuneError, rest)
    end
  else if in_range 224 239 b0 then
    match rest with
    | b1 :: b2 :: r =>
        if second_ok b0 b1 && cont b2
        then ((b0 - 224) * 4096 + (b1 - 128) * 64 + (b2 - 128), r) else (RuneError, rest)
    | _ => (RuneError, rest)
    end
  else if in_range 240 244 b0 then
    match rest with
    | b1 :: b2 :: b3 :: r =>
        if second_ok b0 b1 && cont b2 && cont b3
        then ((b0 - 240) * 262144 + (b1 - 128) * 4096 + (b2 - 128) * 64 + (b3 - 128), r)
        else (RuneError, rest)
    | _ => (RuneError, rest)
    end
  else (RuneError, rest).

(** The fuel is the number of bytes: every rune consumes at least one. *)
Fixpoint runes_go (fuel : nat) (bs : list Z) : list Z :=
  match fuel, bs with
  | S fuel', b0 :: rest => let '(rn, rest') := decode_rune b0 rest in rn :: runes_go fuel' rest'
  | _, _ => []
  end.

Definition runes (s : string) : list Z := runes_go (String.length s) (bytes_of s).

(** [unicode.ToLower].  Besides ASCII letters, exactly two runes become ASCII:
    the dotted capital I and the Kelvin sign.  All others become runes outside
    ASCII, which the callers below replace whatever they are. *)
Definition lower_rune (rn : Z) : Z :=
  if in_range 65 90 rn then rn + 32
  else if rn =? 304 then 105
  else if rn =? 8490 then 107
  else rn.

(** ** Sanitizing *)

Definition is_dns (a : ascii) : bool := is_lower a || is_digit a || Ascii.eqb a "-".
Definition is_label (a : ascii) : bool :=
  is_alpha a || is_digit a || existsb (Ascii.eqb a) (String.list_ascii_of_string "-_.").

(** [re.ReplaceAllString(s, "-")] for a class of bytes to keep. *)
Definition replace_class (keep : ascii → bool) (rn : Z) : ascii :=
  if (rn <? 128) && keep (chr rn) then chr rn else "-"%char.

Fixpoint drop_while {A} (p : A → bool) (l : list A) : list A :=
  match l with
  | [] => []
  | a :: l' => if p a then drop_while p l' else l
  end.

(** [strings.Trim]. *)
Definition trim {A} (p : A → bool) (l : list A) : list A :=
  reverse (drop_while p (reverse (drop_while p l))).

Definition is_hyphen (a : ascii) : bool := Ascii.eqb a "-".
Definition of_chars : list ascii → string := String.string_of_list_ascii.

Definition sanitize_chars (s : string) (maxLen : nat) : list ascii :=
  trim is_hyphen (take maxLen (replace_class is_dns ∘ lower_rune <$> runes s)).

Definition sanitizeDNSSegment (s : string) (maxLen : nat) : string := of_chars (sanitize_chars s maxLen).

Definition sanitizeLabelValue (s : string) : string :=
  of_chars (trim (λ a, existsb (Ascii.eqb a) (String.list_ascii_of_string "-_."))
              (take 63 (replace_class is_label <$> runes s))).

(** ** Names *)

(** The first eight hexadecimal digits of the hash. *)
Definition suffix8 (input : string) : string := String.substring 0 8 (sha256_hex input).

Definition slug_or (dflt agentIdentity : string) : string :=
  let slug := sanitizeDNSSegment agentIdentity 54 in if slug ==? "" then dflt else slug.

Definition RegistrationObjectName (agentIdentity : string) : string :=
  (slug_or "reg" agentIdentity +:+ "-" +:+ suffix8 agentIdentity)%string.

Definition ProfileNameForAgent (agentIdentity : string) : string :=
  (slug_or "agent" agentIdentity +:+ "-" +:+ suffix8 agentIdentity)%string.

(** A field and the null byte after it. *)
Definition nul (s : string) : string := (s +:+ String (chr 0) "")%string.

Definition dedup_input (agentIdentity action targetURI classification : string) : string :=
  (nul agentIdentity +:+ nul action +:+ nul targetURI +:+ nul classification)%string.

Definition computeDedupKey (agentIdentity action targetURI classification explicit : string) : string :=
  if explicit <>? "" then explicit
  else sha256_hex (dedup_input agentIdentity action targetURI classification).

Definition deterministicRequestName (agentIdentity dedupKey : string) (dedupWindow now : Z) : string :=
  let windowIndex := now ÷ dedupWindow in
  (sanitizeDNSSegment agentIdentity 54 +:+ "-"
     +:+ suffix8 (nul dedupKey +:+ FormatInt10 windowIndex))%string.

(** ** Classifications *)

(** The builder of the loop: the output so far, reversed, and [lastHyphen]. *)
Definition slug_step (st : list ascii * bool) (rn : Z) : list ascii * bool :=
  let '(out, lastHyphen) := st in
  if in_range 97 122 rn || in_range 48 57 rn then (chr rn :: out, false)
  else if negb lastHyphen && negb (bool_decide (out = [])) then ("-"%char :: out, true)
  else st.

Definition slug_chars (s : string) : list ascii :=
  trim is_hyphen (reverse (fold_left slug_step (lower_rune <$> runes s) ([], false)).1).

Definition slugifyClassificationSegment (s : string) : string :=
  match slug_chars s with
  | [] => ""%string
  | a :: l => of_chars (if is_lower a then a :: l else "x"%char :: "-"%char :: a :: l)
  end.

Definition normalizeClassification (s : string) : string :=
  if s ==? "" then ""%string
  else
    match cut slash s with
    | None => slugifyClassificationSegment s
    | Some (category, sub) =>
        let cat := slugifyClassificationSegment category in
        let subSlug := slugifyClassificationSegment sub in
        if cat ==? "" then subSlug
        else if subSlug ==? "" then cat
        else (cat +:+ "/" +:+ subSlug)%string
    end.

(** The pattern of a segment in the CRD: [[a-z][a-z0-9-]*]. *)
Definition valid_segment (s : string) : bool :=
  match s with
  | String a s' => is_lower a && all_chars is_dns s'
  | EmptyString => false
  end.

(** A DNS label: at most 63 of [a-z0-9-], not empty, no hyphen at an end. *)
Definition dns_label (s : string) : Prop :=
  (0 < String.length s <= 63)%nat ∧ all_chars is_dns s = true ∧
  (∀ t, s ≠ String "-" t) ∧ (∀ t, s ≠ (t +:+ "-")%string).

(** ** Facts *)

(** *** Characters *)

Lemma replace_class_keep keep rn : keep "-"%char = true → keep (replace_class keep rn) = true.
Proof.
  intros Hh. unfold replace_class.
  destruct (rn <? 128); [|done]. destruct (keep (chr rn)) eqn:E; done.
Qed.

Lemma drop_while_incl {A} (p : A → bool) l : drop_while p l ⊆ l.
Proof. induction l as [|a l IH]; cbn; [done|]. destruct (p a); set_solver. Qed.

Lemma trim_incl {A} (p : A → bool) l : trim p l ⊆ l.
Proof.
  unfold trim. intros a Ha. rewrite elem_of_reverse in Ha. apply drop_while_incl in Ha.
  rewrite elem_of_reverse in Ha. by apply drop_while_incl in Ha.
Qed.

Lemma drop_while_length {A} (p : A → bool) l : (length (drop_while p l) <= length l)%nat.
Proof. induction l as [|a l IH]; cbn; [done|]. destruct (p a); cbn; lia. Qed.

Lemma trim_length {A} (p : A → bool) l : (length (trim p l) <= length l)%nat.
Proof.
  unfold trim. rewrite length_reverse. etransitivity; [apply drop_while_length|].
  rewrite length_reverse. apply drop_while_length.
Qed.

(** Dropping at the front leaves a front that fails the test. *)
Lemma drop_while_head {A} (p : A → bool) l a t : drop_while p l = a :: t → p a = false.
Proof.
  induction l as [|b l IH]; cbn; [done|]. destruct (p b) eqn:E; [done|]. by intros [= <- <-].
Qed.

Lemma drop_while_suffix {A} (p : A → bool) l : ∃ t, l = t ++ drop_while p l.
Proof.
  induction l as [|a l [t IH]]; cbn; [by exists []|].
  destruct (p a); [|by exists []]. exists (a :: t). cbn. by rewrite <- IH.
Qed.

(** Both ends of a trimmed list fail the test. *)
Lemma trim_last {A} (p : A → bool) l a t : trim p l = t ++ [a] → p a = false.
Proof.
  unfold trim. intros Heq. apply (f_equal reverse) in Heq.
  rewrite reverse_involutive, reverse_app, reverse_singleton in Heq. by eapply drop_while_head.
Qed.

Lemma trim_head {A} (p : A → bool) l a t : trim p l = a :: t → p a = false.
Proof.
  unfold trim. intros Heq.
  destruct (drop_while_suffix p (reverse (drop_while p l))) as [u Hu].
  apply (f_equal reverse) in Hu. rewrite reverse_involutive, reverse_app, Heq in Hu.
  by eapply drop_while_head.
Qed.

Lemma of_chars_length l : String.length (of_chars l) = length l.
Proof. induction l; cbn; [done|]. by f_equal. Qed.

Lemma of_chars_all f l : all_chars f (of_chars l) = true ↔ Forall (λ a, f a = true) l.
Proof.
  induction l as [|a l IH]; cbn; [by split|]. by rewrite andb_true_iff, IH, Forall_cons.
Qed.

Lemma of_chars_app l k : of_chars (l ++ k) = (of_chars l +:+ of_chars k)%string.
Proof. induction l as [|a l IH]; cbn; [done|]. rewrite str_cons_app. by f_equal. Qed.

Lemma of_chars_inj l k : of_chars l = of_chars k → l = k.
Proof.
  intros Heq. rewrite <- (String.list_ascii_of_string_of_list_ascii l),
    <- (String.list_ascii_of_string_of_list_ascii k). unfold of_chars in Heq. by rewrite Heq.
Qed.

(** *** Sanitized segments *)

Lemma elem_of_take_inv {A} (a : A) n l : a ∈ take n l → a ∈ l.
Proof. intros Ha. rewrite <- (take_drop n l). apply elem_of_app. by left. Qed.

Lemma sanitize_chars_dns s n : Forall (λ a, is_dns a = true) (sanitize_chars s n).
Proof.
  apply Forall_forall. intros a Ha. unfold sanitize_chars in Ha. apply trim_incl in Ha.
  pose proof (elem_of_take_inv _ _ _ Ha) as Hi.
  apply list_elem_of_fmap in Hi as (rn & -> & _). by apply replace_class_keep.
Qed.

Lemma sanitize_chars_length s n : (length (sanitize_chars s n) <= n)%nat.
Proof.
  unfold sanitize_chars. etransitivity; [apply trim_length|]. rewrite length_take. lia.
Qed.

Lemma suffix8_length s : String.length (suffix8 s) = 8%nat.
Proof. unfold suffix8. apply substring_length. rewrite sha256_hex_length. lia. Qed.

Lemma suffix8_hex s : all_chars is_hex_lower (suffix8 s) = true.
Proof. apply substring_all, sha256_hex_lower. Qed.

Lemma hex_is_dns a : is_hex_lower a = true → is_dns a = true ∧ a ≠ "-"%char.
Proof.
  intros Ha. split.
  - revert a Ha. intros [[] [] [] [] [] [] [] []]; vm_compute; first [discriminate|reflexivity].
  - intros ->. discriminate.
Qed.

Lemma string_app_inv_r (s1 s2 t : string) : (s1 +:+ t)%string = (s2 +:+ t)%string → s1 = s2.
Proof.
  intros Heq. assert (String.length s1 = String.length s2) as Hl.
  { apply (f_equal String.length) in Heq. rewrite !string_length_app in Heq. lia. }
  revert s2 Heq Hl. induction s1 as [|a s1 IH]; intros [|b s2] Heq Hl; try done.
  rewrite !str_cons_app in Heq. injection Heq as -> Heq. injection Hl as Hl. f_equal. auto.
Qed.

(** A string that ends in another one ends with its last byte. *)
Lemma last_of_app (s t u : string) a :
  (s +:+ String a t)%string = (u +:+ "-")%string → ∃ v, String a t = (v +:+ "-")%string.
Proof.
  revert u. induction s as [|b s IH]; intros u; autorewrite with strs.
  - by eexists.
  - destruct u as [|c u]; autorewrite with strs.
    + intros [= _ E]. destruct s; discriminate.
    + intros [= _ E]. eauto.
Qed.

Lemma not_ending_hyphen (s t : string) :
  all_chars is_hex_lower t = true → t ≠ ""%string → ∀ u, (s +:+ t)%string ≠ (u +:+ "-")%string.
Proof.
  intros Ht Hne u Heq. destruct t as [|a t]; [done|].
  apply last_of_app in Heq as [v Hv].
  assert (all_chars is_hex_lower (v +:+ "-") = true) as H by (by rewrite <- Hv).
  rewrite all_chars_app in H. apply andb_prop in H as [_ H]. discriminate.
Qed.

(** A trimmed slug, a hyphen and eight hexadecimal digits make a DNS label. *)
Lemma slug_suffix_label l suffix :
  Forall (λ a, is_dns a = true) l → (length l <= 54)%nat → (∀ t, l ≠ "-"%char :: t) → l ≠ [] →
  String.length suffix = 8%nat → all_chars is_hex_lower suffix = true →
  dns_label (of_chars l +:+ "-" +:+ suffix)%string.
Proof.
  intros Hd Hl Hh Hne Hs Hx. repeat split.
  - rewrite !string_length_app. cbn. lia.
  - rewrite !string_length_app, of_chars_length, Hs. cbn. lia.
  - rewrite !all_chars_app, (proj2 (of_chars_all _ _) Hd).
    rewrite (all_chars_impl _ is_dns suffix) with (2 := Hx); [done|].
    intros a Ha. by apply hex_is_dns.
  - intros t Heq. destruct l as [|a l]; [done|]. injection Heq as -> _. by eapply Hh.
  - intros t. rewrite <- string_app_assoc. apply not_ending_hyphen; [done|]. by destruct suffix.
Qed.

Lemma slug_or_label dflt id input :
  (∃ l, dflt = of_chars l ∧ l ≠ [] ∧ Forall (λ a, is_dns a = true) l ∧ (length l <= 54)%nat ∧
        ∀ t, l ≠ "-"%char :: t) →
  dns_label (slug_or dflt id +:+ "-" +:+ suffix8 input)%string.
Proof.
  intros (l & -> & Hne & Hd & Hl & Hh). unfold slug_or.
  destruct (String.eqb_spec (sanitizeDNSSegment id 54) "") as [E|E].
  - apply slug_suffix_label; auto using suffix8_length, suffix8_hex.
  - apply slug_suffix_label; auto using suffix8_length, suffix8_hex, sanitize_chars_dns, sanitize_chars_length.
    + intros t Ht. unfold sanitize_chars in Ht. apply trim_head in Ht. discriminate.
    + intros E'. apply E. unfold sanitizeDNSSegment. by rewrite E'.
Qed.

(** Registrations, trust profiles and accuracy summaries always get a valid
    object name, whatever bytes the identity has. *)
Theorem object_names_valid id :
  dns_label (RegistrationObjectName id) ∧ dns_label (ProfileNameForAgent id).
Proof.
  split; apply slug_or_label;
    [exists (String.list_ascii_of_string "reg")|exists (String.list_ascii_of_string "agent")];
    (repeat split; [discriminate|by repeat constructor|cbn; lia|discriminate]).
Qed.

(** The clock enters a name only through its window. *)
Lemma request_name_stable id key w now now' :
  now ÷ w = now' ÷ w → deterministicRequestName id key w now = deterministicRequestName id key w now'.
Proof. unfold deterministicRequestName. by intros ->. Qed.

(** C40: The name of a deduplicated request is the same throughout a window, is
    never longer than 63 bytes, and is a DNS label exactly when the identity
    has a letter, a digit or such after folding; otherwise it starts with a
    hyphen and the API server refuses it. *)
Theorem request_name_spec id key w now now' :
  (now ÷ w = now' ÷ w → deterministicRequestName id key w now = deterministicRequestName id key w now') ∧
  (String.length (deterministicRequestName id key w now) <= 63)%nat ∧
  (sanitizeDNSSegment id 54 ≠ ""%string → dns_label (deterministicRequestName id key w now)) ∧
  (sanitizeDNSSegment id 54 = ""%string →
   deterministicRequestName id key w now =
     ("-" +:+ suffix8 (nul key +:+ FormatInt10 (now ÷ w)))%string ∧
   ¬ dns_label (deterministicRequestName id key w now)).
Proof.
  split; [apply request_name_stable|]. unfold deterministicRequestName. split; [|split].
  - rewrite !string_length_app, suffix8_length. unfold sanitizeDNSSegment.
    rewrite of_chars_length. pose proof (sanitize_chars_length id 54). cbn. lia.
  - intros E. apply slug_suffix_label;
      auto using suffix8_length, suffix8_hex, sanitize_chars_dns, sanitize_chars_length.
    + intros t Ht. unfold sanitize_chars in Ht. apply trim_head in Ht. discriminate.
    + intros E'. apply E. unfold sanitizeDNSSegment. by rewrite E'.
  - intros ->. rewrite str_nil_app. split; [done|]. intros (_ & _ & Hh & _).
    by eapply (Hh (suffix8 _)).
Qed.

(** The default deduplication key keeps its four fields apart: two
    submissions share it only if they agree on all of them or the hash
    collides. *)
Theorem dedup_fields_separate a1 b1 c1 d1 a2 b2 c2 d2 :
  let no_nul s := all_chars (λ c, negb (Ascii.eqb c (chr 0))) s = true in
  no_nul a1 → no_nul a2 → no_nul b1 → no_nul b2 → no_nul c1 → no_nul c2 →
  dedup_input a1 b1 c1 d1 = dedup_input a2 b2 c2 d2 → a1 = a2 ∧ b1 = b2 ∧ c1 = c2 ∧ d1 = d2.
Proof.
  intros no_nul Ha1 Ha2 Hb1 Hb2 Hc1 Hc2. unfold dedup_input, nul.
  rewrite !string_app_assoc. autorewrite with strs. intros Heq.
  apply sep_inj in Heq as [-> Heq]; [|done..]. apply sep_inj in Heq as [-> Heq]; [|done..].
  apply sep_inj in Heq as [-> Heq]; [|done..].
  repeat split. by apply string_app_inv_r in Heq.
Qed.

(** *** Classifications *)

(** Reversed slugs: no hyphen stands next to another or at the front. *)
Fixpoint nodd (out : list ascii) : Prop :=
  match out with
  | [] => True
  | a :: out' => nodd out' ∧ (a = "-"%char → ∃ b t, out' = b :: t ∧ b ≠ "-"%char)
  end.

Definition alnum (a : ascii) : bool := is_lower a || is_digit a.

(** What the loop keeps true of its builder. *)
Definition slug_inv (st : list ascii * bool) : Prop :=
  nodd st.1 ∧ Forall (λ a, is_dns a = true) st.1 ∧
  st.2 = match st.1 with a :: _ => is_hyphen a | [] => false end.

(** The runes kept by the loop are letters and digits. *)
Lemma kept_rune rn :
  in_range 97 122 rn || in_range 48 57 rn = true →
  is_dns (chr rn) = true ∧ is_hyphen (chr rn) = false ∧ chr rn ≠ "-"%char.
Proof.
  intros Hr.
  assert (rn ∈ seqZ 97 26 ∨ rn ∈ seqZ 48 10) as Hin.
  { unfold in_range in Hr. rewrite !elem_of_seqZ. lia. }
  assert (∀ n, is_dns (chr n) && negb (is_hyphen (chr n)) = true →
               is_dns (chr n) = true ∧ is_hyphen (chr n) = false ∧ chr n ≠ "-"%char) as Hb.
  { intros n [H1 H2]%andb_prop. apply negb_true_iff in H2. repeat split; [done..|].
    intros E. by rewrite E in H2. }
  apply Hb. destruct Hin as [Hin|Hin]; clear Hr; revert rn Hin; apply Forall_forall; vm_compute; repeat constructor.
Qed.

Lemma slug_step_inv st rn : slug_inv st → slug_inv (slug_step st rn).
Proof.
  destruct st as [out lh]. intros (Hn & Hd & Hl). unfold slug_step. cbn [fst snd] in *.
  destruct (in_range 97 122 rn || in_range 48 57 rn) eqn:E.
  - apply kept_rune in E as (E1 & E2 & E3). split; [by split|]. split; [by constructor|done].
  - destruct (negb lh && negb (bool_decide (out = []))) eqn:E2; [|done].
    apply andb_prop in E2 as [Hlh Hne]. apply negb_true_iff in Hlh, Hne.
    apply bool_decide_eq_false in Hne.
    destruct out as [|b out]; [done|]. split; [split; [exact Hn|]|split; [by constructor|done]].
    intros _. exists b, out. split; [done|]. intros ->. by rewrite Hlh in Hl.
Qed.

Lemma slug_loop_inv rs st : slug_inv st → slug_inv (fold_left slug_step rs st).
Proof. revert st. induction rs as [|rn rs IH]; intros st Hs; cbn; [done|]. apply IH. by apply slug_step_inv. Qed.

(** A slug: letters, digits and single hyphens between them. *)
Definition slugged (l : list ascii) : Prop :=
  nodd (reverse l) ∧ Forall (λ a, is_dns a = true) l ∧ (∀ t, reverse l ≠ "-"%char :: t).

Lemma nodd_last out a : nodd (out ++ [a]) → a ≠ "-"%char.
Proof.
  induction out as [|b out IH]; cbn.
  - intros [_ Hh] ->. destruct Hh as (b & t & ? & _); done.
  - intros [Hn _]. auto.
Qed.

Lemma nodd_drop out : nodd out → nodd (drop_while is_hyphen out) ∧
  ∀ t, drop_while is_hyphen out ≠ "-"%char :: t.
Proof.
  intros Hn. split.
  - induction out as [|a out IH]; cbn; [done|]. destruct (is_hyphen a); [by apply IH, Hn|done].
  - intros t Ht. apply drop_while_head in Ht. discriminate.
Qed.

Lemma drop_while_id {A} (p : A → bool) l :
  match l with [] => True | a :: _ => p a = false end → drop_while p l = l.
Proof. destruct l as [|a l]; cbn; [done|]. by intros ->. Qed.

(** A list whose first element is not a hyphen is only trimmed at the end. *)
Lemma trim_slug out : nodd out → trim is_hyphen (reverse out) = reverse (drop_while is_hyphen out).
Proof.
  intros Hn. unfold trim. rewrite (drop_while_id is_hyphen (reverse out)); [by rewrite reverse_involutive|].
  destruct (reverse out) as [|a l] eqn:E; [done|].
  apply (f_equal reverse) in E. rewrite reverse_involutive, reverse_cons in E. subst out.
  apply nodd_last in Hn. unfold is_hyphen. by destruct (Ascii.eqb_spec a "-").
Qed.

Lemma slug_chars_slugged s : slugged (slug_chars s).
Proof.
  unfold slug_chars.
  destruct (slug_loop_inv (lower_rune <$> runes s) ([], false)) as (Hn & Hd & _).
  { repeat split; [constructor]. }
  destruct (fold_left slug_step _ _) as [out lh]. cbn [fst snd] in *.
  rewrite (trim_slug out Hn). destruct (nodd_drop out Hn) as [Hn' Hh].
  unfold slugged. rewrite reverse_involutive. split; [done|]. split; [|done].
  apply Forall_forall. intros a Ha. rewrite elem_of_reverse in Ha. apply drop_while_incl in Ha.
  rewrite Forall_forall in Hd. auto.
Qed.

(** *** ASCII strings are their own runes *)

Lemma runes_ascii l : Forall (λ a, ord a < 128) l → runes (of_chars l) = ord <$> l.
Proof.
  unfold runes. intros Hl. induction Hl as [|a l Ha _ IH]; cbn; [done|].
  unfold decode_rune. change (byte_of_ascii a) with (ord a).
  destruct (Z.ltb_spec (ord a) 128); [|lia]. by rewrite IH.
Qed.

Lemma dns_ascii a : is_dns a = true →
  ord a < 128 ∧ lower_rune (ord a) = ord a ∧ chr (ord a) = a ∧
  (in_range 97 122 (ord a) || in_range 48 57 (ord a) = negb (is_hyphen a)).
Proof.
  revert a. intros [[] [] [] [] [] [] [] []]; vm_compute; first [discriminate|intros _; by repeat split].
Qed.

(** A slug is rebuilt by the loop as it is. *)
Lemma slug_loop_id l :
  nodd (reverse l) → Forall (λ a, is_dns a = true) l →
  (fold_left slug_step (ord <$> l) ([], false)).1 = reverse l ∧
  slug_inv (fold_left slug_step (ord <$> l) ([], false)).
Proof.
  induction l as [|a l IH] using rev_ind; intros Hn Hd.
  { repeat split; constructor. }
  rewrite reverse_snoc in Hn |- *. apply Forall_app in Hd as [Hd Ha]. apply Forall_cons in Ha as [Ha _].
  destruct Hn as [Hn Hh]. destruct (IH Hn Hd) as [Heq Hi].
  rewrite fmap_app, fold_left_app. cbn [fold_left fmap list_fmap].
  split; [|by apply slug_step_inv].
  destruct (fold_left slug_step (ord <$> l) ([], false)) as [out lh]. cbn [fst] in Heq. subst out.
  apply dns_ascii in Ha as (_ & _ & Hc & Hk). unfold slug_step. rewrite Hk, Hc.
  unfold is_hyphen. destruct (Ascii.eqb_spec a "-") as [->|]; cbn [negb]; [|done].
  destruct (Hh eq_refl) as (b & t & E & Hb). destruct Hi as (_ & _ & Hlh). cbn in Hlh.
  rewrite E in Hlh. unfold is_hyphen in Hlh.
  destruct (Ascii.eqb_spec b "-"); [done|]. by rewrite Hlh, E.
Qed.

Lemma slug_chars_id l : slugged l → slug_chars (of_chars l) = l.
Proof.
  intros (Hn & Hd & Hh). unfold slug_chars.
  rewrite runes_ascii by (eapply Forall_impl; [exact Hd|]; intros a Ha; by apply dns_ascii).
  assert (lower_rune <$> (ord <$> l) = ord <$> l) as ->.
  { rewrite <- list_fmap_compose. apply list_fmap_ext. intros i a Ha.
    apply list_elem_of_lookup_2 in Ha. rewrite Forall_forall in Hd. by apply dns_ascii, Hd. }
  destruct (slug_loop_id l Hn Hd) as [-> _]. rewrite (trim_slug _ Hn), drop_while_id.
  - by rewrite reverse_involutive.
  - destruct (reverse l) as [|a t] eqn:E; [done|]. unfold is_hyphen.
    destruct (Ascii.eqb_spec a "-") as [->|]; [|done]. by destruct (Hh t).
Qed.

(** The output of the slugifier: empty, or a slug that starts with a letter. *)
Definition segment (s : string) : Prop :=
  ∃ a l, s = of_chars (a :: l) ∧ slugged (a :: l) ∧ is_lower a = true.

Lemma slugify_segment s : slugifyClassificationSegment s = ""%string ∨ segment (slugifyClassificationSegment s).
Proof.
  unfold slugifyClassificationSegment. pose proof (slug_chars_slugged s) as Hs.
  destruct (slug_chars s) as [|a l]; [by left|]. right.
  destruct (is_lower a) eqn:E; [by exists a, l|].
  exists "x"%char, ("-"%char :: a :: l). split; [done|]. split; [|done].
  destruct Hs as (Hn & Hd & Hh). split; [|split].
  - rewrite !reverse_cons. rewrite reverse_cons in Hn.
    pose proof (nodd_last _ _ Hn) as Ha.
    assert (∀ out, nodd (out ++ [a]) → nodd (((out ++ [a]) ++ ["-"%char]) ++ ["x"%char])) as Hpre.
    { clear -Ha. induction out as [|b out IH]; cbn.
      - intros _. repeat split; intros; try done. by exists "x"%char, [].
      - intros [Hn Hb]. split; [by apply IH|]. intros ->.
        destruct (Hb eq_refl) as (c & t & Hc & Hne).
        exists c, ((t ++ ["-"%char]) ++ ["x"%char]). split; [|done]. by rewrite Hc. }
    by apply Hpre.
  - constructor; [done|]. by constructor.
  - intros t Ht. rewrite !reverse_cons in Ht. rewrite reverse_cons in Hh.
    destruct (reverse l) as [|b r] eqn:Er; cbn in Ht; injection Ht as -> _.
    + by eapply (Hh []).
    + by eapply (Hh (r ++ [a])).
Qed.

Lemma slugify_id s : segment s → slugifyClassificationSegment s = s.
Proof.
  intros (a & l & -> & Hs & Ha). unfold slugifyClassificationSegment.
  by rewrite (slug_chars_id _ Hs), Ha.
Qed.

Lemma segment_valid s : segment s → valid_segment s = true.
Proof.
  intros (a & l & -> & (_ & Hd & _) & Ha). cbn. rewrite Ha. cbn. apply of_chars_all.
  by apply Forall_cons in Hd as [_ Hd].
Qed.

Lemma segment_no_slash s : segment s → all_chars (λ a, negb (Ascii.eqb a slash)) s = true.
Proof.
  intros (a & l & -> & (_ & Hd & _) & Ha). apply of_chars_all. eapply Forall_impl; [exact Hd|].
  revert Hd. clear. intros _. intros [[] [] [] [] [] [] [] []]; vm_compute; first [discriminate|reflexivity].
Qed.

Lemma segment_nonempty s : segment s → s ≠ ""%string.
Proof. by intros (a & l & -> & _). Qed.

(** What [normalizeClassification] can return. *)
Definition normalized (s : string) : Prop :=
  s = ""%string ∨ segment s ∨ ∃ c d, segment c ∧ segment d ∧ s = (c +:+ "/" +:+ d)%string.

Lemma normalize_normalized s : normalized (normalizeClassification s).
Proof.
  unfold normalizeClassification. destruct (s ==? ""); [by left|].
  destruct (cut slash s) as [[c d]|].
  - destruct (slugify_segment c) as [Hc|Hc]; [rewrite Hc; cbn|].
    { destruct (slugify_segment d) as [->|]; [by left|by right; left]. }
    destruct (String.eqb_spec (slugifyClassificationSegment c) "") as [E|_]; [by apply segment_nonempty in Hc|].
    destruct (slugify_segment d) as [->|Hd]; [by right; left|].
    destruct (String.eqb_spec (slugifyClassificationSegment d) "") as [E|_]; [by apply segment_nonempty in Hd|].
    right; right. eauto.
  - destruct (slugify_segment s) as [->|]; [by left|by right; left].
Qed.

Lemma normalize_id s : normalized s → normalizeClassification s = s.
Proof.
  intros [->|[Hs|(c & d & Hc & Hd & ->)]]; [done| |]; unfold normalizeClassification.
  - destruct (String.eqb_spec s "") as [E|_]; [done|].
    rewrite (cut_none _ _ (segment_no_slash _ Hs)). by apply slugify_id.
  - destruct (String.eqb_spec (c +:+ "/" +:+ d) "") as [E|_]; [done|].
    change ("/" +:+ d)%string with (String slash d).
    rewrite (cut_app _ _ _ (segment_no_slash _ Hc)), (slugify_id _ Hc), (slugify_id _ Hd).
    destruct (String.eqb_spec c "") as [->|_]; [by apply segment_nonempty in Hc|].
    by destruct (String.eqb_spec d "") as [->|_]; [by apply segment_nonempty in Hd|].
Qed.

(** A normalized classification is empty, one segment, or two segments of the
    CRD's pattern with exactly one slash; normalizing again changes nothing. *)
Theorem normalize_classification_spec s :
  normalizeClassification (normalizeClassification s) = normalizeClassification s ∧
  (normalizeClassification s = ""%string ∨ valid_segment (normalizeClassification s) = true ∨
   ∃ c d, valid_segment c = true ∧ valid_segment d = true ∧
          normalizeClassification s = (c +:+ "/" +:+ d)%string).
Proof.
  pose proof (normalize_normalized s) as Hn. split; [by apply normalize_id|].
  destruct Hn as [?|[?|(c & d & ? & ? & ?)]]; [by left|right; left|right; right].
  - by apply segment_valid.
  - exists c, d. auto using segment_valid.
Qed.

(** A value that already matches the CRD's pattern can be changed: runs of
    hyphens are collapsed and a trailing hyphen is dropped. *)
Example valid_classification_changed :
  valid_segment "a--b" = true ∧ valid_segment "c-" = true ∧
  normalizeClassification "a--b/c-" = "a-b/c"%string.
Proof. vm_compute. done. Qed.

Lemma dedup_fields_separate_witness :
  dedup_input "bot" "read" "u" "c" = dedup_input "bot" "read" "u" "c" → "bot"%string = "bot"%string.
Proof.
  intros H. apply (dedup_fields_separate "bot" "read" "u" "c" "bot" "read" "u" "c"
    eq_refl eq_refl eq_refl eq_refl eq_refl eq_refl H).
Defined.
