(* ===== verification/AgentRequestController.v ===== *)
(** * The AgentRequest controller
      ([internal/controller/agentrequest_controller.go])

    [Reconcile] and every function it calls, as programs over the calls of
    [Kube].  Go mutates one [agentReq] through a pointer; here each function
    takes the object and hands back the mutated one where the caller goes on
    to use it.  A successful [Patch] overwrites the object with the server's
    answer, as controller-runtime does.  Logging is left out.

    Parameters: the conditions library, the policy evaluator, and the
    functions of [KubeLib]. *)

From S2P Require Import Prelude GoStd GoStrings Types Prog Kube Conditions Evaluation.
From S2P Require Import TargetURI.

(** Library functions: owner references, label selectors, and the JSON schema
    validator of [fetchContextFromProvider].  A left side is an error text. *)
Class KubeLib := {
  (** [SetControllerReference owner controlled]: the owner references
      [controlled] gets. *)
  SetControllerReference : ObjectMeta → ObjectMeta → res (list OwnerReference);
  LabelSelectorAsSelector : LabelSelector → string + (gmap string string → bool);
  JSONSchemaPropsV1 : Type;
  JSONSchemaProps : Type;
  SchemaValidator : Type;
  json_Unmarshal_schema : JSON → string + JSONSchemaPropsV1;
  Convert_JSONSchemaProps : JSONSchemaPropsV1 → string + JSONSchemaProps;
  NewSchemaValidator : JSONSchemaProps → string + SchemaValidator;
  json_Unmarshal_any : JSON → string + value;
  (** The errors of [validator.Validate]; none when valid. *)
  Validate : SchemaValidator → value → list string }.

(** [ctrl.Result]. *)
Record ctrl_Result := mkCtrlResult { Requeue : bool; RequeueAfter : Z }.
Definition Result0 : ctrl_Result := mkCtrlResult false 0.

(** The configuration of the reconciler.  The clock is the call [CNow]. *)
Record AgentRequestReconciler := mkReconciler {
  APIReader : bool;              (** not nil *)
  OpsLockDuration : Z;
  LockWaitDuration : Z;
  ApprovedTimeout : Z;
  TargetContextFetcher : bool;   (** not nil *)
  GitHubMCPFetcher : bool        (** not nil *) }.

Definition defaultLockWaitTimeout : Z := 60 * Second.
Definition awaitingVerdictTTL : Z := 168 * Hour.
Definition defaultOpsLockDuration : Z := 5 * Minute.
Definition defaultApprovedTimeout : Z := 5 * Minute.

Definition lockWaitTimeout (r : AgentRequestReconciler) : Z :=
  if 0 <? LockWaitDuration r then LockWaitDuration r else defaultLockWaitTimeout.

Definition opsLockDurationOrDefault (r : AgentRequestReconciler) : Z :=
  if OpsLockDuration r <=? 0 then defaultOpsLockDuration else OpsLockDuration r.

Definition approvedTimeoutOrDefault (r : AgentRequestReconciler) : Z :=
  if ApprovedTimeout r <=? 0 then defaultApprovedTimeout else ApprovedTimeout r.

(** [reader := r.Client; if r.APIReader != nil { reader = r.APIReader }]. *)
Definition reader_of (r : AgentRequestReconciler) : reader := if APIReader r then Live else Cached.

Definition audit_input (resourceName eventType stateA stateB : string) : string :=
  (resourceName +:+ "|" +:+ eventType +:+ "|" +:+ stateA +:+ "|" +:+ stateB)%string.

Definition deterministicAuditName (resourceName eventType stateA stateB : string) : string :=
  String.substring 0 53 (sha256_hex (audit_input resourceName eventType stateA stateB)).

Definition generateLeaseName (targetURI : string) : string :=
  let name := ("aip-lock-" +:+ sha256_hex targetURI)%string in
  if 253 <? Z.of_nat (String.length name) then String.substring 0 253 name else name.

(** The value of [HolderIdentity] a request's lock carries. *)
Definition holder_of (a : AgentRequest) : string :=
  (spec_AgentIdentity (ar_Spec a) +:+ "/" +:+ om_Name (ar_Meta a))%string.

Definition target_uri (a : AgentRequest) : string := tgt_URI (spec_Target (ar_Spec a)).

(** Name and namespace of the lease behind a request's lock. *)
Definition lease_key (a : AgentRequest) : NamespacedName :=
  NN (om_Namespace (ar_Meta a)) (generateLeaseName (target_uri a)).

Definition governedResourceRef (a : AgentRequest) : option GovernedResourceRef :=
  match st_GovernedResourceRef (ar_Status a) with
  | Some ref => Some ref
  | None => spec_GovernedResourceRef (ar_Spec a)
  end.

Definition denial (code msg : string) : DenialResponse := mkDenial code msg [] None.

(** Go's [if v, ok := m[k]; ok && v != "" { dst[k] = v }]. *)
Definition copy_label (k : string) (src dst : gmap string string) : gmap string string :=
  match src !! k with
  | Some v => if v <>? "" then <[k := v]> dst else dst
  | None => dst
  end.

Definition label_request_ref : string := "aip.io/agentRequestRef".
Definition label_identity : string := "aip.io/agentIdentity".
Definition label_correlation : string := "aip.io/correlationID".

(** The labels of an audit record. *)
Definition audit_labels (a : AgentRequest) : gmap string string :=
  copy_label label_correlation (om_Labels (ar_Meta a))
    (copy_label label_identity (om_Labels (ar_Meta a))
       {[ label_request_ref := om_Name (ar_Meta a) ]}).

Definition audit_meta (name : string) (a : AgentRequest) : ObjectMeta :=
  mkMeta name "" (om_Namespace (ar_Meta a)) "" (audit_labels a) ∅ 0 0 0 None [] [].

(** The expiry test on a lease: [now] is after [RenewTime + duration]. *)
Definition lease_expired_at (l : Lease) (now : Z) : option bool :=
  match lease_RenewTime l, lease_LeaseDurationSeconds l with
  | Some rt, Some secs => Some (rt + secs * Second <? now)
  | _, _ => None
  end.

Section controller.
Context `{MC : MetaConditions, EV : Evaluator, KL : KubeLib}.
Context (r : AgentRequestReconciler).

(** [meta.SetStatusCondition(&agentReq.Status.Conditions, c)]. *)
Definition set_cond (c : Condition) (a : AgentRequest) : prog ctl AgentRequest :=
  now <- call_ CWallNow ;;
  Ret (set_conditions (SetStatusCondition (conditions a) c now) a).

Definition set_owner (a : AgentRequest) (audit : AuditRecord) : AuditRecord :=
  match SetControllerReference (ar_Meta a) (au_Meta audit) with
  | Ok refs => set_au_Meta (set_om_OwnerReferences refs (au_Meta audit)) audit
  | Err _ => audit
  end.

(** [req.Status.Phase != "" ...]: a transition is recorded when both ends are
    given; the result goes into the details of [request.completed]. *)
Definition audit_record (a : AgentRequest) (eventType fromPhase toPhase : string)
  (extraAnnotations : gmap string string) (now : Z) : AuditRecord :=
  mkAuditRecord
    (audit_meta (deterministicAuditName (om_Name (ar_Meta a)) eventType fromPhase toPhase) a)
    (mkAudit now (spec_AgentIdentity (ar_Spec a)) (om_Name (ar_Meta a)) eventType
       (spec_Action (ar_Spec a)) (target_uri a) (spec_Reason (ar_Spec a))
       (if (fromPhase <>? "") && (toPhase <>? "") then Some (mkPT fromPhase toPhase) else None)
       [] extraAnnotations
       (if eventType ==? AuditEventRequestCompleted then st_Result (ar_Status a) else None)).

Definition emitAuditRecord (a : AgentRequest) (eventType fromPhase toPhase : string)
  (extraAnnotations : gmap string string) : prog ctl (res unit) :=
  now <- call_ CNow ;;
  let audit := set_owner a (audit_record a eventType fromPhase toPhase extraAnnotations now) in
  x <- call_ (CCreateAudit audit) ;;
  match x with
  | Ok _ => Ret (Ok tt)
  | Err err => if IsAlreadyExists err then Ret (Ok tt) else Ret (Err err)
  end.

Fixpoint create_audit_attempts (n : nat) (audit : AuditRecord) (lastErr : option error)
  : prog ctl (res unit) :=
  match n with
  | O => Ret (match lastErr with Some e => Err e | None => Ok tt end)
  | S n' =>
      x <- call_ (CCreateAudit audit) ;;
      match x with
      | Ok _ => Ret (Ok tt)
      | Err err =>
          if IsAlreadyExists err then Ret (Ok tt) else create_audit_attempts n' audit (Some err)
      end
  end.

Definition createAuditWithRetry (audit : AuditRecord) : prog ctl (res unit) :=
  create_audit_attempts 3 audit None.

(** The end of [releaseLock]: delete, tolerating a missing lease. *)
Definition delete_held (lease : Lease) : prog ctl (res unit) :=
  y <- call_ (CDeleteLease lease) ;;
  match y with
  | Err err =>
      if IsNotFound err then metric_ opsLockActive_Dec ;;; Ret (Ok tt) else Ret (Err err)
  | Ok _ => metric_ opsLockActive_Dec ;;; Ret (Ok tt)
  end.

Definition releaseLock (a : AgentRequest) : prog ctl (res unit) :=
  x <- call_ (CGetLease Cached (lease_key a)) ;;
  match x with
  | Err err => if IsNotFound err then Ret (Ok tt) else Ret (Err err)
  | Ok lease =>
      match lease_HolderIdentity lease with
      | Some h => if h <>? holder_of a then Ret (Ok tt) else delete_held lease
      | None => delete_held lease
      end
  end.

(** [r.Status().Patch(ctx, agentReq, client.MergeFrom(base))]. *)
Definition patch_status (base new : AgentRequest) : prog ctl (res AgentRequest) :=
  call_ (CPatchARStatus base new).

(** The counters of a denial. *)
Definition count_denial (code : string) : prog ctl unit :=
  metric_ (agentRequestDeniedTotal_Inc code) ;;;
  metric_ agentRequestActive_Dec ;;;
  metric_ (agentRequestTotal_Inc PhaseDenied).

(** Both denials of [checkGovernedResourceIntegrity]. *)
Definition deny_governed (a : AgentRequest) (code msg : string) : prog ctl (res AgentRequest) :=
  let fromPhase := phase a in
  let new := set_denial (Some (denial code msg)) (set_phase PhaseDenied a) in
  count_denial code ;;;
  a' <-! patch_status a new ;;
  releaseLock a' ;;!
  emitAuditRecord a' AuditEventRequestDenied fromPhase PhaseDenied ∅ ;;!
  Ret (Ok a').

Definition checkGovernedResourceIntegrity (a : AgentRequest) (ref : GovernedResourceRef)
  : prog ctl (res AgentRequest) :=
  x <- call_ (CGetGR Cached (ref_Name ref)) ;;
  match x with
  | Err err =>
      if IsNotFound err then
        deny_governed a DenialCodeGovernedResourceDeleted
          ("The GovernedResource " +:+ quote (ref_Name ref)
             +:+ " that admitted this request was deleted.")%string
      else Ret (Err err)
  | Ok gr =>
      if negb (om_Generation (gr_Meta gr) =? ref_Generation ref) then
        deny_governed a DenialCodeGenerationMismatch
          ("GovernedResource " +:+ quote (ref_Name ref) +:+ " generation has changed (expected "
             +:+ FormatInt10 (ref_Generation ref) +:+ ", current "
             +:+ FormatInt10 (om_Generation (gr_Meta gr))
             +:+ "); the policy binding is no longer valid.")%string
      else Ret (Ok a)
  end.

(** ** Transitions the agent asks for *)

Definition agent_completed (a : AgentRequest) : prog ctl (res bool) :=
  if APIReader r then
    x <- call_ (CGetAR Live (key_of (ar_Meta a))) ;;
    match x with
    | Err err => Ret (Err (EWrap "re-reading AgentRequest for Result" err))
    | Ok fresh =>
        let a := upd_status (set_st_Result (st_Result (ar_Status fresh))) a in
        let fromPhase := phase a in
        metric_ agentRequestActive_Dec ;;;
        metric_ (agentRequestTotal_Inc PhaseCompleted) ;;;
        a' <-! patch_status a (set_phase PhaseCompleted a) ;;
        releaseLock a' ;;!
        emitAuditRecord a' AuditEventRequestCompleted fromPhase PhaseCompleted ∅ ;;!
        emitAuditRecord a' AuditEventLockReleased "" "" ∅ ;;!
        Ret (Ok true)
    end
  else Ret (Err (EPanic "nil pointer dereference")).

Definition agent_failed (a : AgentRequest) : prog ctl (res bool) :=
  let fromPhase := phase a in
  metric_ agentRequestActive_Dec ;;;
  metric_ (agentRequestTotal_Inc PhaseFailed) ;;;
  a' <-! patch_status a (set_phase PhaseFailed a) ;;
  releaseLock a' ;;!
  emitAuditRecord a' AuditEventRequestFailed fromPhase PhaseFailed ∅ ;;!
  emitAuditRecord a' AuditEventLockReleased "" "" ∅ ;;!
  Ret (Ok true).

Definition agent_executing (a : AgentRequest) : prog ctl (res bool) :=
  let fromPhase := phase a in
  metric_ (agentRequestTotal_Inc PhaseExecuting) ;;;
  a' <-! patch_status a (set_phase PhaseExecuting a) ;;
  emitAuditRecord a' AuditEventLockAcquired "" "" ∅ ;;!
  emitAuditRecord a' AuditEventRequestExecuting fromPhase PhaseExecuting ∅ ;;!
  Ret (Ok true).

Definition checkAgentTransitions (a : AgentRequest) : prog ctl (res bool) :=
  if IsStatusConditionTrue (conditions a) ConditionCompleted && (phase a <>? PhaseCompleted) then
    agent_completed a
  else if IsStatusConditionTrue (conditions a) ConditionFailed && (phase a <>? PhaseFailed) then
    agent_failed a
  else if IsStatusConditionTrue (conditions a) ConditionExecuting && (phase a ==? PhaseApproved) then
    agent_executing a
  else Ret (Ok false).

(** ** The first phase *)

Definition init_denied (a : AgentRequest) (denialCode : string) : prog ctl (res bool) :=
  let msg := ("Blocked at gateway admission: " +:+ denialCode)%string in
  let new := set_denial (Some (denial denialCode msg)) (set_phase PhaseDenied a) in
  metric_ (agentRequestDeniedTotal_Inc denialCode) ;;;
  metric_ (agentRequestTotal_Inc PhaseDenied) ;;;
  new <- set_cond (cond "RequestSubmitted" ConditionTrue "GatewayDenied" msg) new ;;
  a' <-! patch_status a new ;;
  emitAuditRecord a' AuditEventRequestDenied "" PhaseDenied ∅ ;;!
  Ret (Ok true).

Definition init_observed (a : AgentRequest) : prog ctl (res bool) :=
  metric_ (agentRequestTotal_Inc PhaseObserved) ;;;
  new <- set_cond (cond "RequestSubmitted" ConditionTrue "ObserveMode"
                     "Request recorded as observation; governance lifecycle skipped")
           (set_phase PhaseObserved a) ;;
  a' <-! patch_status a new ;;
  emitAuditRecord a' AuditEventRequestObserved "" PhaseObserved ∅ ;;!
  Ret (Ok true).

(** The phase of an admitted request, with the condition's reason and text. *)
Definition initial_phase (a : AgentRequest) (rd : reader)
  : prog ctl (res (string * string * string)) :=
  let pending := (PhasePending, "Initialization"%string, "Initial phase set to Pending"%string) in
  if map_str (om_Annotations (ar_Meta a)) AnnotationCanExecute ==? "false" then
    Ret (Ok (PhaseAwaitingVerdict, "TrustGateBlock"%string,
             "Agent trust level does not permit execution; routing to AwaitingVerdict"%string))
  else
    match governedResourceRef a with
    | None => Ret (Ok pending)
    | Some ref =>
        x <- call_ (CGetGR rd (ref_Name ref)) ;;
        match x with
        | Ok gr =>
            Ret (Ok (if gr_SoakMode (gr_Spec gr)
                     then (PhaseAwaitingVerdict, "SoakModeAdmission"%string,
                           "Initial phase set to AwaitingVerdict due to GovernedResource SoakMode"%string)
                     else pending))
        | Err err =>
            if IsNotFound err then Ret (Ok pending)
            else Ret (Err (EWrap ("fetching GovernedResource " +:+ ref_Name ref)%string err))
        end
    end.

Definition init_admitted (a : AgentRequest) (rd : reader) : prog ctl (res bool) :=
  ph <-! initial_phase a rd ;;
  let '(p, reason, message) := ph in
  (if (p ==? PhasePending) || (p ==? PhaseAwaitingVerdict)
   then metric_ agentRequestActive_Inc else Ret tt) ;;;
  metric_ (agentRequestTotal_Inc p) ;;;
  new <- set_cond (cond "RequestSubmitted" ConditionTrue reason message) (set_phase p a) ;;
  a' <-! patch_status a new ;;
  emitAuditRecord a' AuditEventRequestSubmitted "" p ∅ ;;!
  Ret (Ok true).

Definition initializePhase (a : AgentRequest) (rd : reader) : prog ctl (res bool) :=
  if (phase a <>? "") || IsStatusConditionTrue (conditions a) "RequestSubmitted" then Ret (Ok false)
  else
    let denialCode := map_str (om_Annotations (ar_Meta a)) AnnotationGatewayDenied in
    if denialCode <>? "" then init_denied a denialCode
    else if spec_Mode (ar_Spec a) ==? ModeObserve then init_observed a
    else init_admitted a rd.

(** ** Context for evaluation *)

(** One declared side effect: keep what exists, and list its name. *)
Definition fetch_affected (a : AgentRequest) (t : AffectedTarget)
  (st : option TargetContext * gmap string TargetContext)
  : prog ctl (res (option TargetContext * gmap string TargetContext)) :=
  let '(targetCtx, cascadeCtxs) := st in
  x <- call_ (CFetchTarget (aff_URI t) (om_Namespace (ar_Meta a))) ;;
  match x with
  | (Some cascadeCtx, None) =>
      if tc_Exists cascadeCtx then
        let name := pu_Name (ParseTargetURI (aff_URI t)) in
        let name := if name ==? "" then aff_URI t else name in
        match targetCtx with
        | Some tc =>
            Ret (Ok (Some (mkTC (tc_Exists tc) (tc_HasActiveEndpoints tc) (tc_ActiveEndpointCount tc)
                             (tc_ReadyReplicas tc) (tc_SpecReplicas tc)
                             (tc_DownstreamServices tc ++ [name]) (tc_StateFingerprint tc)),
                     <[aff_URI t := cascadeCtx]> cascadeCtxs))
        | None => Ret (Err (EPanic "nil pointer dereference"))
        end
      else Ret (Ok st)
  | _ => Ret (Ok st)
  end.

Fixpoint fetch_all_affected (a : AgentRequest) (ts : list AffectedTarget)
  (st : option TargetContext * gmap string TargetContext)
  : prog ctl (res (option TargetContext * gmap string TargetContext)) :=
  match ts with
  | [] => Ret (Ok st)
  | t :: ts' => st' <-! fetch_affected a t st ;; fetch_all_affected a ts' st'
  end.

(** A fetch error is only logged by the caller, which goes on with what was
    fetched; the error side is a panic. *)
Definition fetchTargetContext (a : AgentRequest)
  : prog ctl (res (option TargetContext * gmap string TargetContext)) :=
  if TargetContextFetcher r then
    x <- call_ (CFetchTarget (target_uri a) (om_Namespace (ar_Meta a))) ;;
    match x with
    | (targetCtx, Some _) => Ret (Ok (targetCtx, ∅))
    | (targetCtx, None) =>
        match spec_CascadeModel (ar_Spec a) with
        | None => Ret (Ok (targetCtx, ∅))
        | Some cm => fetch_all_affected a (cm_AffectedTargets cm) (targetCtx, ∅)
        end
    end
  else Ret (Ok (Some TargetContext_zero, ∅)).

Definition fetch_provider (fetcherName : string) (a : AgentRequest) : prog ctl (res JSON) :=
  if (fetcherName ==? "k8s-deployment") || (fetcherName ==? "karpenter") then
    call_ (CFetchProvider fetcherName (target_uri a))
  else if fetcherName ==? "github" then
    if GitHubMCPFetcher r then call_ (CFetchProvider fetcherName (target_uri a))
    else Ret (Err (EMsg "GitHubMCPFetcher not configured"))
  else Ret (Err (EMsg ("unknown fetcher: " +:+ fetcherName)%string)).

(** The errors of the fetched JSON against a schema. *)
Definition schema_errors (schema fetched : JSON) : res (list string) :=
  match json_Unmarshal_schema schema with
  | inl e => Err (EMsg ("failed to unmarshal contextSchema: " +:+ e)%string)
  | inr propsv1 =>
      match Convert_JSONSchemaProps propsv1 with
      | inl e => Err (EMsg ("failed to convert schema: " +:+ e)%string)
      | inr props =>
          match NewSchemaValidator props with
          | inl e => Err (EMsg ("failed to create schema validator: " +:+ e)%string)
          | inr validator =>
              match json_Unmarshal_any fetched with
              | inl e => Err (EMsg ("failed to unmarshal fetched JSON: " +:+ e)%string)
              | inr obj => Ok (Validate validator obj)
              end
          end
      end
  end.

(** The request may come back with a [FetcherSchemaViolation] condition. *)
Definition fetchContextFromProvider (a : AgentRequest) (gr : GovernedResource)
  : prog ctl (AgentRequest * res (option JSON)) :=
  let fetcherName := gr_ContextFetcher (gr_Spec gr) in
  if (fetcherName ==? "") || (fetcherName ==? "none") then Ret (a, Ok None)
  else
    x <- fetch_provider fetcherName a ;;
    match x with
    | Err err => Ret (a, Err err)
    | Ok fetchedJSON =>
        match gr_ContextSchema (gr_Spec gr) with
        | None => Ret (a, Ok (Some fetchedJSON))
        | Some schema =>
            match schema_errors schema fetchedJSON with
            | Err err => Ret (a, Err err)
            | Ok [] => Ret (a, Ok (Some fetchedJSON))
            | Ok (e :: _) =>
                a' <- set_cond (cond "FetcherSchemaViolation" ConditionTrue "SchemaMismatch"
                        ("fetcher '" +:+ fetcherName +:+ "' returned invalid JSON: " +:+ e)%string) a ;;
                Ret (a', Ok None)
            end
        end
    end.

Definition matchesSelector (grLabels : gmap string string) (policy : SafetyPolicy) : bool :=
  match LabelSelectorAsSelector (sp_GovernedResourceSelector (sp_Spec policy)) with
  | inl _ => false
  | inr matches => matches grLabels
  end.

(** ** The lock *)

(** The annotations that record who decided. *)
Definition approved_by (a : AgentRequest) : gmap string string :=
  match spec_HumanApproval (ar_Spec a) with
  | Some ha => if ha_ApprovedBy ha <>? "" then {[ "approvedBy"%string := ha_ApprovedBy ha ]} else ∅
  | None => ∅
  end.

(** "Lock acquired successfully!" *)
Definition lock_acquired (a : AgentRequest) (fromPhase : string) : prog ctl (res ctrl_Result) :=
  metric_ opsLockActive_Inc ;;;
  metric_ (agentRequestTotal_Inc PhaseApproved) ;;;
  new <- set_cond (cond ConditionApproved ConditionTrue "Approved"
                     "Request approved and OpsLock acquired") a ;;
  a' <-! patch_status a (set_phase PhaseApproved new) ;;
  emitAuditRecord a' AuditEventRequestApproved fromPhase PhaseApproved (approved_by a') ;;!
  Ret (Ok Result0).

Definition take_over (a : AgentRequest) (fromPhase : string) (existing : Lease)
  : prog ctl (res ctrl_Result) :=
  t1 <- call_ CNow ;;
  t2 <- call_ CNow ;;
  let new := mkLease (lease_Meta existing) (Some (holder_of a))
               (Some (int32 (opsLockDurationOrDefault r ÷ Second))) (Some t1) (Some t2) in
  call_ (CPatchLease existing new) ;;!
  lock_acquired a fromPhase.

(** The lock is held by another request: wait, or give up after the timeout. *)
Definition lock_contended (a : AgentRequest) (fromPhase : string) (existing : Lease)
  : prog ctl (res ctrl_Result) :=
  let lockTimeout := lockWaitTimeout r in
  now <- call_ CNow ;;
  if om_CreationTimestamp (ar_Meta a) <? now - lockTimeout then
    metric_ opsLockContentionTotal_Inc ;;;
    let msg := ("Failed to acquire lock for " +:+ target_uri a +:+ " within "
                  +:+ Duration_String lockTimeout +:+ " timeout. Lock held by: "
                  +:+ default "unknown" (lease_HolderIdentity existing))%string in
    let new := set_denial (Some (denial DenialCodeLockTimeout msg)) (set_phase PhaseDenied a) in
    count_denial DenialCodeLockTimeout ;;;
    new <- set_cond (cond ConditionApproved ConditionFalse "LockTimeout" "Lock acquisition timed out") new ;;
    a' <-! patch_status a new ;;
    emitAuditRecord a' AuditEventRequestDenied fromPhase PhaseDenied ∅ ;;!
    Ret (Ok Result0)
  else
    metric_ opsLockContentionTotal_Inc ;;;
    Ret (Ok (mkCtrlResult false (5 * Second))).

(** The create was refused because the lease exists. *)
Definition lock_exists (a : AgentRequest) (fromPhase : string) : prog ctl (res ctrl_Result) :=
  existing <-! call_ (CGetLease Cached (lease_key a)) ;;
  let alreadyOwned :=
    match lease_HolderIdentity existing with Some h => h ==? holder_of a | None => false end in
  leaseExpired <-
    match lease_RenewTime existing, lease_LeaseDurationSeconds existing with
    | Some rt, Some secs => now <- call_ CNow ;; Ret (rt + secs * Second <? now)
    | _, _ => Ret false
    end ;;
  if alreadyOwned then lock_acquired a fromPhase
  else if leaseExpired then take_over a fromPhase existing
  else lock_contended a fromPhase existing.

(** The lease [handleLockAcquisition] tries to create. *)
Definition new_lease (a : AgentRequest) (t1 t2 : Z) : Lease :=
  mkLease
    (mkMeta (generateLeaseName (target_uri a)) "" (om_Namespace (ar_Meta a)) ""
       {[ "governance.aip.io/managed-by"%string := "aip-controller"%string ]} ∅ 0 0 0 None [] [])
    (Some (holder_of a)) (Some (int32 (opsLockDurationOrDefault r ÷ Second))) (Some t1) (Some t2).

Definition handleLockAcquisition (a : AgentRequest) (fromPhase : string) : prog ctl (res ctrl_Result) :=
  if phase a ==? PhaseApproved then Ret (Ok Result0)
  else
    t1 <- call_ CNow ;;
    t2 <- call_ CNow ;;
    x <- call_ (CCreateLease (new_lease a t1 t2)) ;;
    match x with
    | Ok _ => lock_acquired a fromPhase
    | Err err => if IsAlreadyExists err then lock_exists a fromPhase else Ret (Err err)
    end.

(** ** Pending *)

Definition human_denied (a : AgentRequest) : prog ctl (res ctrl_Result) :=
  let fromPhase := phase a in
  let new := set_denial (Some (denial DenialCodePolicyViolation "Denied by human reviewer"))
               (set_phase PhaseDenied a) in
  count_denial DenialCodePolicyViolation ;;;
  new <- set_cond (cond ConditionApproved ConditionFalse "ManualDenial" "Denied by human reviewer") new ;;
  a' <-! patch_status a new ;;
  match spec_HumanApproval (ar_Spec a') with
  | None => Ret (Err (EPanic "nil pointer dereference"))
  | Some _ =>
      emitAuditRecord a' AuditEventRequestDenied fromPhase PhaseDenied (approved_by a') ;;!
      Ret (Ok Result0)
  end.

Definition handleApprovalWait (a : AgentRequest) : prog ctl (res ctrl_Result) :=
  match spec_HumanApproval (ar_Spec a) with
  | Some ha =>
      if ha_Decision ha ==? "approved" then
        handleLockAcquisition
          (set_conditions (RemoveStatusCondition (conditions a) ConditionRequiresApproval) a) (phase a)
      else if ha_Decision ha ==? "denied" then human_denied a
      else Ret (Ok Result0)
  | None => Ret (Ok Result0)
  end.

(** The request after a denial by policy. *)
Definition deny_by_policy (result : Result) (a : AgentRequest) : AgentRequest :=
  set_denial (Some (mkDenial (res_Code result) (res_Message result) (res_PolicyResults result) None))
    (set_phase PhaseDenied a).

(** The single status patch of an evaluation and what follows it. *)
Definition commit_evaluation (base new : AgentRequest) (result : Result) (policyEvalAudit : AuditRecord)
  (fromPhase : string) : prog ctl (res ctrl_Result) :=
  a' <-! patch_status base new ;;
  let audit := set_au_Spec (set_au_PhaseTransition (Some (mkPT fromPhase (phase a')))
                              (au_Spec policyEvalAudit)) policyEvalAudit in
  createAuditWithRetry audit ;;;
  if res_Action result ==? ResultDeny then
    emitAuditRecord a' AuditEventRequestDenied fromPhase PhaseDenied ∅ ;;!
    Ret (Ok Result0)
  else if res_Action result ==? ResultRequireApproval then Ret (Ok Result0)
  else handleLockAcquisition a' fromPhase.

Definition handleEvaluationResult (a : AgentRequest) (result : Result) (policyEvalAudit : AuditRecord)
  : prog ctl (res ctrl_Result) :=
  let fromPhase := phase a in
  new <- set_cond (cond ConditionPolicyEvaluated ConditionTrue "EvaluationComplete"
                     (res_Message result)) a ;;
  if res_Action result ==? ResultDeny then
    metric_ (agentRequestDeniedTotal_Inc (res_Code result)) ;;;
    metric_ agentRequestActive_Dec ;;;
    metric_ (agentRequestTotal_Inc PhaseDenied) ;;;
    new <- set_cond (cond ConditionApproved ConditionFalse "Denied" (res_Message result))
             (deny_by_policy result new) ;;
    commit_evaluation a new result policyEvalAudit fromPhase
  else if res_Action result ==? ResultRequireApproval then
    if map_str (om_Annotations (ar_Meta a)) AnnotationRequiresHumanApproval ==? "false" then
      new <- set_cond (cond ConditionApproved ConditionTrue "AutoApprovedByTrustGate"
               "Agent trust level satisfies GovernedResource requirements; human approval not required")
               new ;;
      patch_status a new ;;!
      createAuditWithRetry policyEvalAudit ;;;
      Ret (Ok Result0)
    else
      new <- set_cond (cond ConditionRequiresApproval ConditionTrue "ApprovalRequired"
                         (res_Message result)) new ;;
      commit_evaluation a new result policyEvalAudit fromPhase
  else commit_evaluation a new result policyEvalAudit fromPhase.

Definition to_audit_eval (pr : PolicyResult) : AuditPolicyEvaluation :=
  mkAPE (pr_PolicyName pr) (pr_RuleName pr) (pr_Result pr) "".

Definition policy_eval_audit (a : AgentRequest) (result : Result) (now : Z) : AuditRecord :=
  mkAuditRecord
    (audit_meta (deterministicAuditName (om_Name (ar_Meta a)) AuditEventPolicyEvaluated (phase a) "") a)
    (mkAudit now (spec_AgentIdentity (ar_Spec a)) (om_Name (ar_Meta a)) AuditEventPolicyEvaluated
       (spec_Action (ar_Spec a)) (target_uri a) (spec_Reason (ar_Spec a)) None
       (to_audit_eval <$> res_PolicyResults result) ∅ None).

(** What the control plane verified about the target. *)
Definition verification_of (tc : TargetContext) (now : Z) : ControlPlaneVerification :=
  mkCPV "" (tc_Exists tc) (tc_HasActiveEndpoints tc) (tc_ActiveEndpointCount tc)
    (tc_ReadyReplicas tc) (tc_SpecReplicas tc) (tc_DownstreamServices tc) now.

(** From the assignment of [ControlPlaneVerification] to the end. *)
Definition evaluate_pending (a : AgentRequest) (evalOpts : list SafetyPolicy)
  (targetCtx : option TargetContext) (cascadeCtxs : gmap string TargetContext)
  : prog ctl (res ctrl_Result) :=
  a <- match targetCtx with
       | Some tc =>
           now <- call_ CNow ;;
           Ret (upd_status (set_st_ControlPlaneVerification (Some (verification_of tc now))) a)
       | None => Ret a
       end ;;
  let result := Evaluate a evalOpts targetCtx cascadeCtxs in
  metric_ agentRequestEvalDuration_Observe ;;;
  match result with
  | Err err => Ret (Err err)
  | Ok result =>
      now <- call_ CNow ;;
      handleEvaluationResult a result (set_owner a (policy_eval_audit a result now))
  end.

(** The policies that apply: all of them without a GovernedResource. *)
Definition select_policies (grLabels : option (gmap string string)) (ps : list SafetyPolicy)
  : list SafetyPolicy :=
  List.filter (λ p, match grLabels with None => true | Some ls => matchesSelector ls p end) ps.

(** Step 1: the provider context; [inl] ends the reconcile. *)
Definition provider_step (a : AgentRequest) : prog ctl (res (ctrl_Result + AgentRequest)) :=
  match governedResourceRef a, st_ProviderContext (ar_Status a) with
  | Some ref, None =>
      gr <-! call_ (CGetGR (reader_of r) (ref_Name ref)) ;;
      x <- fetchContextFromProvider a gr ;;
      let '(a, providerCtx) := x in
      match providerCtx with
      | Ok (Some ctx) =>
          patch_status a (upd_status (set_st_ProviderContext (Some ctx)) a) ;;!
          Ret (Ok (inl (mkCtrlResult true 0)))
      | _ => Ret (Ok (inr a))
      end
  | _, _ => Ret (Ok (inr a))
  end.

Definition pending_unevaluated (a : AgentRequest) : prog ctl (res ctrl_Result) :=
  policyList <-! call_ (CListPolicies (reader_of r) (om_Namespace (ar_Meta a))) ;;
  grLabels <-!
    match governedResourceRef a with
    | None => Ret (Ok None)
    | Some ref =>
        gr <-! call_ (CGetGR (reader_of r) (ref_Name ref)) ;;
        Ret (Ok (Some (om_Labels (gr_Meta gr))))
    end ;;
  let evalOpts := select_policies grLabels policyList in
  ctxs <-! fetchTargetContext a ;;
  let '(targetCtx, cascadeCtxs) := ctxs in
  s <-! provider_step a ;;
  match s with
  | inl result => Ret (Ok result)
  | inr a => evaluate_pending a evalOpts targetCtx cascadeCtxs
  end.

Definition reconcilePending (a : AgentRequest) : prog ctl (res ctrl_Result) :=
  if IsStatusConditionTrue (conditions a) ConditionPolicyEvaluated then
    if IsStatusConditionTrue (conditions a) ConditionRequiresApproval then handleApprovalWait a
    else handleLockAcquisition a (phase a)
  else pending_unevaluated a.

(** ** Approved *)

(** Keep the lease alive until the agent starts. *)
Definition approved_heartbeat (a : AgentRequest) : prog ctl (res ctrl_Result) :=
  let again := mkCtrlResult false (opsLockDurationOrDefault r ÷ 2) in
  x <- call_ (CGetLease Cached (lease_key a)) ;;
  match x with
  | Err err => if IsNotFound err then Ret (Ok again) else Ret (Err err)
  | Ok lease =>
      if match lease_HolderIdentity lease with Some h => h ==? holder_of a | None => false end then
        now <- call_ CNow ;;
        y <- call_ (CPatchLease lease (set_lease_RenewTime (Some now) lease)) ;;
        match y with
        | Err err =>
            Ret (Err (EWrap ("heartbeating approved-phase lease "
                               +:+ generateLeaseName (target_uri a))%string err))
        | Ok _ => Ret (Ok again)
        end
      else Ret (Ok again)
  end.

Definition approved_timeout (a : AgentRequest) : prog ctl (res ctrl_Result) :=
  x <- releaseLock a ;;
  match x with
  | Err err =>
      Ret (Err (EWrap ("releasing lock after Approved timeout for " +:+ om_Name (ar_Meta a))%string err))
  | Ok _ =>
      let fromPhase := phase a in
      let msg := ("Timed out after " +:+ Duration_String (approvedTimeoutOrDefault r)
                    +:+ " in Approved phase without starting execution")%string in
      new <- set_cond (cond ConditionFailed ConditionTrue DenialCodeLockTimeout msg) a ;;
      let new := set_denial (Some (denial DenialCodeLockTimeout msg)) (set_phase PhaseFailed new) in
      metric_ agentRequestActive_Dec ;;;
      metric_ (agentRequestTotal_Inc PhaseFailed) ;;;
      a' <-! patch_status a new ;;
      emitAuditRecord a' AuditEventRequestFailed fromPhase PhaseFailed ∅ ;;!
      Ret (Ok Result0)
  end.

Definition reconcileApproved (a : AgentRequest) : prog ctl (res ctrl_Result) :=
  match FindStatusCondition (conditions a) ConditionApproved with
  | None => Ret (Ok Result0)
  | Some approvedCond =>
      if cond_Status approvedCond <>? ConditionTrue then Ret (Ok Result0)
      else
        let deadline := cond_LastTransitionTime approvedCond + approvedTimeoutOrDefault r in
        now <- call_ CNow ;;
        if deadline <? now then approved_timeout a else approved_heartbeat a
  end.

(** ** Executing *)

(** Fail an executing request: the counters, the patch, an optional clean-up,
    and the two audit records. *)
Definition fail_executing (a : AgentRequest) (msg event : string) (cleanup : prog ctl unit)
  : prog ctl (res ctrl_Result) :=
  metric_ opsLockExpiredTotal_Inc ;;;
  metric_ agentRequestActive_Dec ;;;
  metric_ (agentRequestTotal_Inc PhaseFailed) ;;;
  let fromPhase := phase a in
  new <- set_cond (cond ConditionFailed ConditionTrue DenialCodeLockTimeout msg) a ;;
  a' <-! patch_status a (set_phase PhaseFailed new) ;;
  cleanup ;;;
  emitAuditRecord a' event fromPhase PhaseFailed ∅ ;;!
  emitAuditRecord a' AuditEventRequestFailed fromPhase PhaseFailed ∅ ;;!
  Ret (Ok Result0).

Definition lost_lock_msg (actual : string) : string :=
  ("OpsLock lost: lease held by " +:+ quote actual +:+ ", not this request")%string.

Definition heartbeat_msg : string :=
  "Heartbeat timeout: Agent failed to renew OpsLock lease before expiration".

Definition reconcileExecuting (a : AgentRequest) : prog ctl (res ctrl_Result) :=
  x <- call_ (CGetLease (reader_of r) (lease_key a)) ;;
  match x with
  | Err err =>
      if IsNotFound err then Ret (Ok (mkCtrlResult false (15 * Second))) else Ret (Err err)
  | Ok lease =>
      if match lease_HolderIdentity lease with Some h => h <>? holder_of a | None => true end then
        fail_executing a (lost_lock_msg (default "unknown"%string (lease_HolderIdentity lease)))
          AuditEventLockExpired (Ret tt)
      else
        match lease_RenewTime lease, lease_LeaseDurationSeconds lease with
        | Some rt, Some secs =>
            now <- call_ CNow ;;
            if rt + secs * Second <? now then
              fail_executing a heartbeat_msg AuditEventHeartbeatTimeout
                (call_ (CDeleteLease lease) ;;; Ret tt)
            else Ret (Ok (mkCtrlResult false (secs * Second ÷ 2)))
        | _, _ => Ret (Ok (mkCtrlResult false (30 * Second)))
        end
  end.

(** ** AwaitingVerdict *)

Definition verdict_annotations (a : AgentRequest) : gmap string string :=
  let m := <["verdict"%string := st_Verdict (ar_Status a)]>
             {[ "verdictBy"%string := st_VerdictBy (ar_Status a) ]} in
  if st_VerdictReasonCode (ar_Status a) <>? ""
  then <["verdictReasonCode"%string := st_VerdictReasonCode (ar_Status a)]> m else m.

Definition reconcileAwaitingVerdict (a : AgentRequest) : prog ctl (res ctrl_Result) :=
  let fromPhase := phase a in
  if st_Verdict (ar_Status a) <>? "" then
    metric_ agentRequestActive_Dec ;;;
    metric_ (agentRequestTotal_Inc PhaseCompleted) ;;;
    a' <-! patch_status a (set_phase PhaseCompleted a) ;;
    emitAuditRecord a' AuditEventVerdictSubmitted fromPhase PhaseCompleted (verdict_annotations a') ;;!
    Ret (Ok Result0)
  else
    now <- call_ CNow ;;
    let deadline := om_CreationTimestamp (ar_Meta a) + awaitingVerdictTTL in
    if deadline <? now then
      metric_ agentRequestActive_Dec ;;;
      metric_ (agentRequestTotal_Inc PhaseExpired) ;;;
      a' <-! patch_status a (set_phase PhaseExpired a) ;;
      emitAuditRecord a' AuditEventRequestExpired fromPhase PhaseExpired ∅ ;;!
      Ret (Ok Result0)
    else Ret (Ok (mkCtrlResult false (time_Sub deadline now))).

(** ** Completed *)

Fixpoint backfill_items (result : option AgentRequestResult) (items : list AuditRecord)
  : prog ctl (res unit) :=
  match items with
  | [] => Ret (Ok tt)
  | au :: items' =>
      if (au_Event (au_Spec au) <>? AuditEventRequestCompleted)
         || bool_decide (is_Some (au_Details (au_Spec au)))
      then backfill_items result items'
      else
        call_ (CPatchAudit au (set_au_Spec (set_au_Details result (au_Spec au)) au)) ;;!
        backfill_items result items'
  end.

Definition backfillCompletedAuditResult (a : AgentRequest) : prog ctl (res unit) :=
  items <-! call_ (CListAudits Cached (om_Namespace (ar_Meta a))
                     {[ label_request_ref := om_Name (ar_Meta a) ]}) ;;
  backfill_items (st_Result (ar_Status a)) items.

(** ** Reconcile *)

Definition terminal_inert (p : string) : bool :=
  (p ==? PhaseFailed) || (p ==? PhaseDenied) || (p ==? PhaseExpired) || (p ==? PhaseObserved).

(** The switch on the phase. *)
Definition state_machine (a : AgentRequest) : prog ctl (res ctrl_Result) :=
  if phase a ==? PhasePending then reconcilePending a
  else if phase a ==? PhaseApproved then reconcileApproved a
  else if phase a ==? PhaseExecuting then reconcileExecuting a
  else if phase a ==? PhaseAwaitingVerdict then reconcileAwaitingVerdict a
  else Ret (Ok Result0).

(** Steps 2 to 4 of [Reconcile]. *)
Definition drive (a : AgentRequest) : prog ctl (res ctrl_Result) :=
  handled <-! checkAgentTransitions a ;;
  if handled then Ret (Ok Result0)
  else
    handled <-! initializePhase a (reader_of r) ;;
    if handled then Ret (Ok Result0) else state_machine a.

(** [Reconcile] after the request has been read. *)
Definition reconcile_request (a : AgentRequest) : prog ctl (res ctrl_Result) :=
  if phase a ==? PhaseCompleted then
    match st_Result (ar_Status a) with
    | Some _ => backfillCompletedAuditResult a ;;! Ret (Ok Result0)
    | None => Ret (Ok Result0)
    end
  else if terminal_inert (phase a) then Ret (Ok Result0)
  else
    match governedResourceRef a with
    | Some ref =>
        a <-! checkGovernedResourceIntegrity a ref ;;
        if phase a ==? PhaseDenied then Ret (Ok Result0) else drive a
    | None => drive a
    end.

Definition Reconcile (req : NamespacedName) : prog ctl (res ctrl_Result) :=
  x <- call_ (CGetAR (reader_of r) req) ;;
  match x with
  | Err err => Ret (match IgnoreNotFound err with Some e => Err e | None => Ok Result0 end)
  | Ok a => reconcile_request a
  end.

End controller.
