(* ===== verification/ControllerSpec.v ===== *)
(** * What the AgentRequest controller may write

    The abstract specification of [AgentRequestController.Reconcile]: a
    relation [status_write h base new] with one rule per status patch of the
    lifecycle, guarded by what the history [h] of calls and answers shows, and
    a relation [lease_write h c] with one rule per operation on the OpsLock.
    [ControllerRefines] proves that every execution of [Reconcile] follows
    them; the lifecycle, locking and approval theorems are read off the rules. *)

From S2P Require Import Prelude GoStd GoStrings Types Prog Kube Conditions Evaluation.
From S2P Require Import TargetURI AgentRequestController.

(** The call [c] was made and answered with [x]. *)
Definition seen (h : list (event ctl)) (c : call) (x : resp c) : Prop := Ev (S:=ctl) c x ∈ h.

(** The phases [Reconcile] leaves alone. *)
Definition terminal (p : string) : bool := (p ==? PhaseCompleted) || terminal_inert p.

(** Answers to status patches keep what identifies the request and the phase
    that was written: the server applies the patch, and no other component
    writes the phase. *)
Definition same_request (a b : AgentRequest) : Prop :=
  key_of (ar_Meta a) = key_of (ar_Meta b) ∧
  spec_AgentIdentity (ar_Spec a) = spec_AgentIdentity (ar_Spec b) ∧
  spec_Target (ar_Spec a) = spec_Target (ar_Spec b).

Definition keeps (new stored : AgentRequest) : Prop :=
  phase stored = phase new ∧ same_request stored new.

Definition faithful (e : event ctl) : Prop :=
  let 'Ev c x := e in
  match c return resp c → Prop with
  | CPatchARStatus _ new =>
      λ x, match x with Ok stored => keeps new stored | Err _ => True end
  | _ => λ _, True
  end x.

(** The request as [Reconcile] read it. *)
Definition read (h : list (event ctl)) (a : AgentRequest) : Prop :=
  ∃ rd nn, seen h (CGetAR rd nn) (Ok a).

(** A later view of a request that was read. *)
Definition about (h : list (event ctl)) (a : AgentRequest) : Prop :=
  ∃ a0, read h a0 ∧ same_request a a0.

(** The GovernedResource a request was admitted under was found deleted, or
    at another generation; [code] says which. *)
Definition governed_broken (h : list (event ctl)) (ref : GovernedResourceRef) (code : string) : Prop :=
  (∃ err, seen h (CGetGR Cached (ref_Name ref)) (Err err) ∧ IsNotFound err = true ∧
          code = DenialCodeGovernedResourceDeleted) ∨
  (∃ gr, seen h (CGetGR Cached (ref_Name ref)) (Ok gr) ∧
         om_Generation (gr_Meta gr) ≠ ref_Generation ref ∧ code = DenialCodeGenerationMismatch).

Section spec.
Context `{MC : MetaConditions, EV : Evaluator, KL : KubeLib}.
Context (r : AgentRequestReconciler).

Implicit Types (h : list (event ctl)) (a base new : AgentRequest) (l : Lease).

(** The request holds the OpsLock of its target: it created the lease, found
    itself its holder, or took over a lease it saw expired. *)
Inductive holds_lock h a : Prop :=
| HL_created t1 t2 l :
    seen h (CCreateLease (new_lease r a t1 t2)) (Ok l) → holds_lock h a
| HL_owned l :
    seen h (CGetLease Cached (lease_key a)) (Ok l) →
    lease_HolderIdentity l = Some (holder_of a) → holds_lock h a
| HL_taken l l' now t1 t2 :
    seen h (CGetLease Cached (lease_key a)) (Ok l) →
    seen h CNow now → lease_expired_at l now = Some true →
    seen h (CPatchLease l (mkLease (lease_Meta l) (Some (holder_of a))
      (Some (int32 (opsLockDurationOrDefault r ÷ Second))) (Some t1) (Some t2))) (Ok l') →
    holds_lock h a.

(** The request as it is evaluated: the one read, in memory possibly with a
    schema violation condition and the control plane's verification. *)
Definition eval_view h base : Prop :=
  ∃ a cs cpv, read h a ∧ phase a = PhasePending ∧
    IsStatusConditionTrue (conditions a) ConditionPolicyEvaluated = false ∧
    (cs = conditions a ∨
     ∃ msg now, cs = SetStatusCondition (conditions a)
                       (cond "FetcherSchemaViolation" ConditionTrue "SchemaMismatch" msg) now) ∧
    base = upd_status (set_st_ControlPlaneVerification cpv) (set_conditions cs a).

(** The labels that select policies: those of the GovernedResource that
    admitted the request, as it was read. *)
Definition governing_labels h a (gl : option (gmap string string)) : Prop :=
  match governedResourceRef a with
  | None => gl = None
  | Some ref => ∃ gr, seen h (CGetGR (reader_of r) (ref_Name ref)) (Ok gr) ∧ gl = Some (om_Labels (gr_Meta gr))
  end.

(** The context of the target is the one fetched, with the names of declared
    side effects added. *)
Definition fetched_context h a (tc : option TargetContext) : Prop :=
  if TargetContextFetcher r then
    ∃ tc0 e, seen h (CFetchTarget (target_uri a) (om_Namespace (ar_Meta a))) (tc0, e) ∧
      (tc = tc0 ∨ ∃ t names, tc0 = Some t ∧
         tc = Some (mkTC (tc_Exists t) (tc_HasActiveEndpoints t) (tc_ActiveEndpointCount t)
                (tc_ReadyReplicas t) (tc_SpecReplicas t) (tc_DownstreamServices t ++ names) (tc_StateFingerprint t)))
  else tc = Some TargetContext_zero.

(** The policy evaluator gave [result] for the request, on the policies of its
    namespace as the server listed them and the context as it was fetched. *)
Definition judged h base (result : Result) : Prop :=
  eval_view h base ∧
  ∃ ps gl tc cc,
    seen h (CListPolicies (reader_of r) (om_Namespace (ar_Meta base))) (Ok ps) ∧
    governing_labels h base gl ∧ fetched_context h base tc ∧
    Evaluate base (select_policies gl ps) tc cc = Ok result.

(** One condition is set, and it is neither the mark of an evaluation nor the
    question for approval. *)
Definition marked (cs cs' : list Condition) : Prop :=
  ∃ ty st reason msg now,
    ty ≠ ConditionPolicyEvaluated ∧ ty ≠ ConditionRequiresApproval ∧
    cs' = SetStatusCondition cs (cond ty st reason msg) now.

(** The conditions after an evaluation. *)
Definition evaluated_conditions base (result : Result) (now : Z) : list Condition :=
  SetStatusCondition (conditions base)
    (cond ConditionPolicyEvaluated ConditionTrue "EvaluationComplete" (res_Message result)) now.

(** The request may go for the lock: it was read as evaluated and not waiting
    for approval, or as waiting and approved by a human, or its evaluation in
    this reconcile neither denied it nor asked for approval. *)
Inductive cleared h : AgentRequest → Prop :=
| CL_evaluated a :
    read h a → phase a = PhasePending →
    IsStatusConditionTrue (conditions a) ConditionPolicyEvaluated = true →
    IsStatusConditionTrue (conditions a) ConditionRequiresApproval = false →
    cleared h a
| CL_human a ha :
    read h a → phase a = PhasePending →
    IsStatusConditionTrue (conditions a) ConditionPolicyEvaluated = true →
    IsStatusConditionTrue (conditions a) ConditionRequiresApproval = true →
    spec_HumanApproval (ar_Spec a) = Some ha → ha_Decision ha = "approved"%string →
    cleared h (set_conditions (RemoveStatusCondition (conditions a) ConditionRequiresApproval) a)
| CL_allowed a new stored result now :
    judged h a result →
    res_Action result ≠ ResultDeny → res_Action result ≠ ResultRequireApproval →
    new = set_conditions (evaluated_conditions a result now) a →
    seen h (CPatchARStatus a new) (Ok stored) → keeps new stored →
    cleared h stored.

Inductive status_write h : AgentRequest → AgentRequest → Prop :=
(** The GovernedResource that admitted the request is gone or has changed. *)
| SW_governed a ref code msg :
    read h a → terminal (phase a) = false → governedResourceRef a = Some ref →
    governed_broken h ref code →
    status_write h a (set_denial (Some (denial code msg)) (set_phase PhaseDenied a))
(** The agent reported that it completed, failed, or started. *)
| SW_completed a fresh base :
    read h a → terminal (phase a) = false →
    IsStatusConditionTrue (conditions a) ConditionCompleted = true →
    seen h (CGetAR Live (key_of (ar_Meta a))) (Ok fresh) →
    base = upd_status (set_st_Result (st_Result (ar_Status fresh))) a →
    status_write h base (set_phase PhaseCompleted base)
| SW_failed a :
    read h a → terminal (phase a) = false →
    IsStatusConditionTrue (conditions a) ConditionFailed = true →
    status_write h a (set_phase PhaseFailed a)
| SW_executing a :
    read h a → phase a = PhaseApproved →
    IsStatusConditionTrue (conditions a) ConditionExecuting = true →
    status_write h a (set_phase PhaseExecuting a)
(** The first phase. *)
| SW_gateway_denied a code msg cs :
    read h a → phase a = ""%string →
    map_str (om_Annotations (ar_Meta a)) AnnotationGatewayDenied = code → code ≠ ""%string →
    marked (conditions a) cs →
    status_write h a (set_conditions cs (set_denial (Some (denial code msg)) (set_phase PhaseDenied a)))
| SW_observed a cs :
    read h a → phase a = ""%string → spec_Mode (ar_Spec a) = ModeObserve →
    map_str (om_Annotations (ar_Meta a)) AnnotationGatewayDenied = ""%string →
    marked (conditions a) cs →
    status_write h a (set_conditions cs (set_phase PhaseObserved a))
| SW_awaiting a cs :
    read h a → phase a = ""%string → spec_Mode (ar_Spec a) ≠ ModeObserve →
    map_str (om_Annotations (ar_Meta a)) AnnotationGatewayDenied = ""%string →
    (map_str (om_Annotations (ar_Meta a)) AnnotationCanExecute = "false"%string ∨
     ∃ rd ref gr, governedResourceRef a = Some ref ∧
       seen h (CGetGR rd (ref_Name ref)) (Ok gr) ∧ gr_SoakMode (gr_Spec gr) = true) →
    marked (conditions a) cs →
    status_write h a (set_conditions cs (set_phase PhaseAwaitingVerdict a))
| SW_pending a cs :
    read h a → phase a = ""%string → spec_Mode (ar_Spec a) ≠ ModeObserve →
    map_str (om_Annotations (ar_Meta a)) AnnotationGatewayDenied = ""%string →
    map_str (om_Annotations (ar_Meta a)) AnnotationCanExecute ≠ "false"%string →
    marked (conditions a) cs →
    status_write h a (set_conditions cs (set_phase PhasePending a))
(** Pending: context, evaluation, human decision, lock. *)
| SW_provider a ctx :
    read h a → phase a = PhasePending → st_ProviderContext (ar_Status a) = None →
    status_write h a (upd_status (set_st_ProviderContext (Some ctx)) a)
| SW_eval_deny base result now now' :
    judged h base result → res_Action result = ResultDeny →
    status_write h base
      (set_conditions
         (SetStatusCondition (evaluated_conditions base result now)
            (cond ConditionApproved ConditionFalse "Denied" (res_Message result)) now')
         (deny_by_policy result (set_conditions (evaluated_conditions base result now) base)))
| SW_eval_auto base result now now' msg :
    judged h base result → res_Action result = ResultRequireApproval →
    map_str (om_Annotations (ar_Meta base)) AnnotationRequiresHumanApproval = "false"%string →
    status_write h base
      (set_conditions
         (SetStatusCondition (evaluated_conditions base result now)
            (cond ConditionApproved ConditionTrue "AutoApprovedByTrustGate" msg) now')
         (set_conditions (evaluated_conditions base result now) base))
| SW_eval_ask base result now now' :
    judged h base result → res_Action result = ResultRequireApproval →
    map_str (om_Annotations (ar_Meta base)) AnnotationRequiresHumanApproval ≠ "false"%string →
    status_write h base
      (set_conditions
         (SetStatusCondition (evaluated_conditions base result now)
            (cond ConditionRequiresApproval ConditionTrue "ApprovalRequired" (res_Message result)) now')
         (set_conditions (evaluated_conditions base result now) base))
| SW_eval_allow base result now :
    judged h base result →
    res_Action result ≠ ResultDeny → res_Action result ≠ ResultRequireApproval →
    status_write h base (set_conditions (evaluated_conditions base result now) base)
| SW_human_denied a ha cs :
    read h a → phase a = PhasePending →
    IsStatusConditionTrue (conditions a) ConditionRequiresApproval = true →
    spec_HumanApproval (ar_Spec a) = Some ha → ha_Decision ha = "denied"%string →
    marked (conditions a) cs →
    status_write h a
      (set_conditions cs
         (set_denial (Some (denial DenialCodePolicyViolation "Denied by human reviewer"))
            (set_phase PhaseDenied a)))
| SW_approved base now :
    cleared h base → phase base = PhasePending → holds_lock h base →
    status_write h base
      (set_phase PhaseApproved
         (set_conditions (SetStatusCondition (conditions base)
            (cond ConditionApproved ConditionTrue "Approved" "Request approved and OpsLock acquired") now)
            base))
| SW_lock_timeout base l now cs msg :
    cleared h base → phase base = PhasePending →
    seen h (CGetLease Cached (lease_key base)) (Ok l) →
    lease_HolderIdentity l ≠ Some (holder_of base) →
    seen h CNow now → om_CreationTimestamp (ar_Meta base) < now - lockWaitTimeout r →
    marked (conditions base) cs →
    status_write h base
      (set_conditions cs (set_denial (Some (denial DenialCodeLockTimeout msg)) (set_phase PhaseDenied base)))
(** Approved, Executing and AwaitingVerdict run out of time. *)
| SW_approved_timeout a c now cs msg :
    read h a → phase a = PhaseApproved →
    FindStatusCondition (conditions a) ConditionApproved = Some c → cond_Status c = ConditionTrue →
    seen h CNow now → cond_LastTransitionTime c + approvedTimeoutOrDefault r < now →
    marked (conditions a) cs →
    status_write h a
      (set_denial (Some (denial DenialCodeLockTimeout msg)) (set_phase PhaseFailed (set_conditions cs a)))
| SW_lost_lock a l cs :
    read h a → phase a = PhaseExecuting →
    seen h (CGetLease (reader_of r) (lease_key a)) (Ok l) →
    lease_HolderIdentity l ≠ Some (holder_of a) →
    marked (conditions a) cs →
    status_write h a (set_phase PhaseFailed (set_conditions cs a))
| SW_heartbeat a l now cs :
    read h a → phase a = PhaseExecuting →
    seen h (CGetLease (reader_of r) (lease_key a)) (Ok l) →
    lease_HolderIdentity l = Some (holder_of a) →
    seen h CNow now → lease_expired_at l now = Some true →
    marked (conditions a) cs →
    status_write h a (set_phase PhaseFailed (set_conditions cs a))
| SW_verdict a :
    read h a → phase a = PhaseAwaitingVerdict → st_Verdict (ar_Status a) ≠ ""%string →
    status_write h a (set_phase PhaseCompleted a)
| SW_expired a now :
    read h a → phase a = PhaseAwaitingVerdict → st_Verdict (ar_Status a) = ""%string →
    seen h CNow now → om_CreationTimestamp (ar_Meta a) + awaitingVerdictTTL < now →
    status_write h a (set_phase PhaseExpired a).

Inductive lease_write h : call → Prop :=
(** Try to acquire. *)
| LW_create a t1 t2 :
    cleared h a → phase a = PhasePending → lease_write h (CCreateLease (new_lease r a t1 t2))
| LW_take_over a l now t1 t2 :
    cleared h a → phase a = PhasePending →
    seen h (CGetLease Cached (lease_key a)) (Ok l) →
    lease_HolderIdentity l ≠ Some (holder_of a) →
    seen h CNow now → lease_expired_at l now = Some true →
    lease_write h (CPatchLease l (mkLease (lease_Meta l) (Some (holder_of a))
      (Some (int32 (opsLockDurationOrDefault r ÷ Second))) (Some t1) (Some t2)))
(** Keep an approved request's own lease alive. *)
| LW_heartbeat a l now :
    read h a → phase a = PhaseApproved →
    seen h (CGetLease Cached (lease_key a)) (Ok l) →
    lease_HolderIdentity l = Some (holder_of a) →
    lease_write h (CPatchLease l (set_lease_RenewTime (Some now) l))
(** Give the lock back, or clean up after the agent. *)
| LW_release a l :
    about h a →
    seen h (CGetLease Cached (lease_key a)) (Ok l) →
    (lease_HolderIdentity l = None ∨ lease_HolderIdentity l = Some (holder_of a)) →
    lease_write h (CDeleteLease l)
| LW_delete_expired a l now :
    read h a → phase a = PhaseExecuting →
    seen h (CGetLease (reader_of r) (lease_key a)) (Ok l) →
    lease_HolderIdentity l = Some (holder_of a) →
    seen h CNow now → lease_expired_at l now = Some true →
    lease_write h (CDeleteLease l).

(** Every call of the controller. *)
Definition allowed h (c : call) : Prop :=
  match c with
  | CGetAR rd nn =>
      (rd = reader_of r ∧ h = []) ∨ (rd = Live ∧ ∃ a, read h a ∧ nn = key_of (ar_Meta a))
  | CPatchARStatus base new => status_write h base new
  | CCreateLease _ | CPatchLease _ _ | CDeleteLease _ => lease_write h c
  | CCreateAudit a =>
      ∃ a0, read h a0 ∧ au_AgentRequestRef (au_Spec a) = om_Name (ar_Meta a0) ∧
            au_AgentIdentity (au_Spec a) = spec_AgentIdentity (ar_Spec a0) ∧
            om_Namespace (au_Meta a) = om_Namespace (ar_Meta a0)
  | CPatchAudit base new =>
      au_Event (au_Spec base) = AuditEventRequestCompleted ∧ au_Details (au_Spec base) = None ∧
      ∃ a, read h a ∧ phase a = PhaseCompleted ∧ is_Some (st_Result (ar_Status a)) ∧
           new = set_au_Spec (set_au_Details (st_Result (ar_Status a)) (au_Spec base)) base
  | _ => True
  end.

End spec.
