(* ===== verification/ControllerRefines.v ===== *)
(** * The AgentRequest controller follows its specification

    Every execution of [Reconcile], complete or cut short, makes only calls
    that [ControllerSpec.allowed] permits in the history so far. *)

From S2P Require Import Prelude GoStd GoStrings Types Prog Kube Conditions Evaluation.
From S2P Require Import TargetURI AgentRequestController ControllerSpec.

(** ** Facts about a history survive its extension *)

Lemma seen_mono h h' c x : h ⊆ h' → seen h c x → seen h' c x.
Proof. unfold seen. auto. Qed.

Lemma read_mono h h' a : h ⊆ h' → read h a → read h' a.
Proof. intros Hs (rd & nn & Hr). exists rd, nn. by eapply seen_mono. Qed.

Lemma about_mono h h' a : h ⊆ h' → about h a → about h' a.
Proof. intros Hs (a0 & Hr & Ha). exists a0. split; [by eapply read_mono|done]. Qed.

#[export] Hint Resolve seen_mono read_mono about_mono : aip.

Lemma same_request_refl a : same_request a a.
Proof. done. Qed.

Lemma same_request_trans a b c : same_request a b → same_request b c → same_request a c.
Proof. unfold same_request. intuition congruence. Qed.

Lemma about_read h a : read h a → about h a.
Proof. intros Hr. exists a. split; [done|apply same_request_refl]. Qed.

Lemma about_trans h a b : same_request b a → about h a → about h b.
Proof. intros Hs (a0 & Hr & Ha). exists a0. split; [done|]. by eapply same_request_trans. Qed.

Lemma lease_key_same a b : same_request a b → lease_key a = lease_key b.
Proof.
  unfold same_request, lease_key, target_uri, key_of. intros (E & _ & ->). by injection E as -> _.
Qed.

Lemma holder_same a b : same_request a b → holder_of a = holder_of b.
Proof.
  unfold same_request, holder_of, key_of. intros (E & -> & _). by injection E as _ ->.
Qed.

Section refines.
Context `{MC : MetaConditions, EV : Evaluator, KL : KubeLib}.
Context (r : AgentRequestReconciler).

Implicit Types (h : list (event ctl)) (a : AgentRequest).

Lemma holds_lock_mono h h' a : h ⊆ h' → holds_lock r h a → holds_lock r h' a.
Proof.
  intros Hs Hl; destruct Hl.
  - eapply HL_created; eauto with aip.
  - eapply HL_owned; eauto with aip.
  - eapply HL_taken; eauto with aip.
Qed.

Lemma eval_view_mono h h' a : h ⊆ h' → eval_view h a → eval_view h' a.
Proof. intros Hs (a0 & cs & cpv & Hr & Hx). exists a0, cs, cpv. split; eauto with aip. Qed.

Lemma governing_labels_mono h h' a gl : h ⊆ h' → governing_labels r h a gl → governing_labels r h' a gl.
Proof.
  intros Hs. unfold governing_labels. destruct (governedResourceRef a) as [ref|]; [|done].
  intros (gr & ? & ?). exists gr. eauto with aip.
Qed.

Lemma fetched_context_mono h h' a tc : h ⊆ h' → fetched_context r h a tc → fetched_context r h' a tc.
Proof.
  intros Hs. unfold fetched_context. destruct (TargetContextFetcher r); [|done].
  intros (tc0 & e & ? & ?). exists tc0, e. eauto with aip.
Qed.

Lemma judged_mono h h' a result : h ⊆ h' → judged r h a result → judged r h' a result.
Proof.
  intros Hs (Hv & ps & gl & tc & cc & ? & ? & ? & ?). split; [by eapply eval_view_mono|].
  exists ps, gl, tc, cc. split_and!; eauto using governing_labels_mono, fetched_context_mono with aip.
Qed.

Lemma marked_set cs ty st reason msg now :
  ty ≠ ConditionPolicyEvaluated → ty ≠ ConditionRequiresApproval →
  marked cs (SetStatusCondition cs (cond ty st reason msg) now).
Proof. intros. by exists ty, st, reason, msg, now. Qed.

Lemma cleared_mono h h' a : h ⊆ h' → cleared r h a → cleared r h' a.
Proof.
  intros Hs Hc; destruct Hc.
  - apply CL_evaluated; eauto with aip.
  - eapply CL_human; eauto with aip.
  - eapply CL_allowed; eauto using judged_mono with aip.
Qed.

Lemma eval_view_about h a : eval_view h a → about h a.
Proof. intros (a0 & cs & cpv & Hr & _ & _ & _ & ->). exists a0. split; [done|repeat split]. Qed.

Lemma eval_view_phase h a : eval_view h a → phase a = PhasePending.
Proof. intros (a0 & cs & cpv & Hr & Hp & _ & _ & ->). done. Qed.

Lemma cleared_about h a : cleared r h a → about h a.
Proof.
  intros Hc; destruct Hc as [| |a new stored res now [Hv _] _ _ -> Hs [_ Hk]].
  - by apply about_read.
  - exists a. split; [done|repeat split].
  - eapply about_trans; [exact Hk|]. exact (eval_view_about _ _ Hv).
Qed.

Lemma cleared_phase h a : cleared r h a → phase a = PhasePending.
Proof.
  intros Hc; destruct Hc as [| |a new stored res now [Hv _] _ _ -> Hs [Hp _]]; [done..|].
  rewrite Hp. exact (eval_view_phase _ _ Hv).
Qed.

(** ** Walking through a program *)

Abbreviation ok h p Q := (safe faithful (allowed r) h p Q).

Lemma ok_call h c {B} (k : resp c → prog ctl B) Q :
  allowed r h c →
  (∀ x h', faithful (Ev (S:=ctl) c x) → h ⊆ h' → seen h' c x → ok h' (k x) Q) →
  ok h (bind (call_ c) k) Q.
Proof. apply safe_call. Qed.

Lemma ok_last h c Q :
  allowed r h c →
  (∀ x h', faithful (Ev (S:=ctl) c x) → h ⊆ h' → seen h' c x → Q h' x) →
  ok h (call_ c) Q.
Proof. apply safe_last. Qed.

Lemma ok_sub h {A B} (p : prog ctl A) (φ : list (event ctl) → A → Prop) (k : A → prog ctl B) Q :
  ok h p (λ h' x, h ⊆ h' ∧ φ h' x) →
  (∀ x h', h ⊆ h' → φ h' x → ok h' (k x) Q) →
  ok h (bind p k) Q.
Proof. apply safe_sub. Qed.

End refines.

#[local] Hint Extern 0 (marked _ _) => apply marked_set; discriminate : core.

(** Move every fact about [h] to the longer history [h']. *)
Ltac upgrade h h' Hs :=
  repeat match goal with
  | H : seen h _ _ |- _ => apply (seen_mono _ _ _ _ Hs) in H
  | H : about h _ |- _ => apply (about_mono _ _ _ Hs) in H
  | H : read h _ |- _ => apply (read_mono _ _ _ Hs) in H
  | H : cleared _ h _ |- _ => apply (cleared_mono _ _ _ _ Hs) in H
  | H : holds_lock _ h _ |- _ => apply (holds_lock_mono _ _ _ _ Hs) in H
  | H : eval_view h _ |- _ => apply (eval_view_mono _ _ _ Hs) in H
  | H : judged _ h _ _ |- _ => apply (judged_mono _ _ _ _ _ Hs) in H
  | H : governing_labels _ h _ _ |- _ => apply (governing_labels_mono _ _ _ _ _ Hs) in H
  | H : fetched_context _ h _ _ |- _ => apply (fetched_context_mono _ _ _ _ _ Hs) in H
  | H : @subseteq _ _ ?h0 h |- _ =>
      let H' := fresh in assert (h0 ⊆ h') as H' by (etransitivity; [exact H|exact Hs]); clear H
  end.

(** One call, answered with [x]: its permission is left to prove when it is
    not immediate. *)
Ltac call_with x :=
  match goal with
  | |- safe _ _ ?h (bind (Ret ?v) ?k) _ => change (bind (Ret v) k) with (k v); cbv beta; call_with x
  | |- safe _ _ ?h (bind (metric_ ?m) _) _ => unfold metric_; call_with x
  | |- safe _ _ ?h (bind (patch_status ?b ?n) _) _ => unfold patch_status; call_with x
  | |- safe _ _ ?h (bind (set_cond ?c ?a) _) _ => unfold set_cond; call_with x
  | |- safe _ _ ?h (bind (bind ?p ?f) ?k) _ =>
      change (bind (bind p f) k) with (bind p (λ y, bind (f y) k)); call_with x
  | |- safe _ _ ?h (bind (trigger _ ?c) _) _ =>
      apply ok_call; [try exact I|
        let h' := fresh "h" in
        let Hf := fresh "Hf" in let Hs := fresh "Hs" in let Hx := fresh "Hx" in
        intros x h' Hf Hs Hx; cbn beta in Hf |- *; upgrade h h' Hs; try clear Hs h;
        match c with
        | CMetric _ => clear Hf Hx x
        | CPatchARStatus _ _ => idtac
        | _ => clear Hf
        end]
  end.
Tactic Notation "call" "as" ident(x) := call_with x.
Tactic Notation "call" := let x := fresh "x" in call_with x.

(** A subprogram, by its lemma. *)
Ltac use_with lem x Hx :=
  eapply ok_sub; [eapply lem; eauto with aip|
    let h' := fresh "h" in let Hs := fresh "Hs" in
    intros x h' Hs Hx; cbn beta in Hx;
    match type of Hs with @subseteq _ _ ?h0 _ => upgrade h0 h' Hs; try clear Hs h0 end; cbn beta].
Tactic Notation "use" constr(lem) "as" ident(x) ident(Hx) := use_with lem x Hx.

Section walk.
Context `{MC : MetaConditions, EV : Evaluator, KL : KubeLib}.
Context (r : AgentRequestReconciler).

Implicit Types (h : list (event ctl)) (a : AgentRequest).

Abbreviation ok h p Q := (safe faithful (allowed r) h p Q).
(** The program respects the specification; nothing is said of its result. *)
Definition grew {A} h : list (event ctl) → A → Prop := λ h' _, h ⊆ h' ∧ True.

Lemma audit_allowed h a au :
  about h a → au_AgentRequestRef (au_Spec au) = om_Name (ar_Meta a) →
  au_AgentIdentity (au_Spec au) = spec_AgentIdentity (ar_Spec a) →
  om_Namespace (au_Meta au) = om_Namespace (ar_Meta a) →
  allowed r h (CCreateAudit au).
Proof.
  intros (a0 & Hr & (Hk & Hi & _)) H1 H2 H3. exists a0. unfold key_of in Hk. injection Hk as Hns Hn.
  rewrite H1, H2, H3, Hns, Hn, Hi. done.
Qed.

Lemma set_owner_spec a au : au_Spec (set_owner a au) = au_Spec au.
Proof. unfold set_owner. by destruct (SetControllerReference _ _). Qed.

Lemma set_owner_ns a au : om_Namespace (au_Meta (set_owner a au)) = om_Namespace (au_Meta au).
Proof. unfold set_owner. by destruct (SetControllerReference _ _). Qed.

Lemma emit_ok h a ev f t x : about h a → ok h (emitAuditRecord a ev f t x) (grew h).
Proof.
  intros Ha. unfold emitAuditRecord. call. call as y.
  - eapply audit_allowed; [done|by rewrite set_owner_spec..|by rewrite set_owner_ns].
  - destruct y as [?|e]; [done|]. by destruct (IsAlreadyExists e).
Qed.

Lemma create_audit_ok h au n last :
  allowed r h (CCreateAudit au) → ok h (create_audit_attempts n au last) (grew h).
Proof.
  revert h last. induction n as [|n IH]; intros h last Ha; [done|].
  cbn [create_audit_attempts]. call as y; [done|].
  destruct y as [?|e]; [done|]. destruct (IsAlreadyExists e); [done|].
  eapply safe_mono; [done|done| |apply IH].
  - intros h' y [? _]. split; [|done]. etransitivity; eauto.
  - destruct Ha as (a0 & Hr & Ha). exists a0. eauto with aip.
Qed.

Lemma release_ok h a : about h a → ok h (releaseLock a) (grew h).
Proof.
  intros Ha. unfold releaseLock. call as y.
  destruct y as [l|e]; [|by destruct (IsNotFound e)].
  assert (lease_HolderIdentity l = None ∨ lease_HolderIdentity l = Some (holder_of a) →
          ok h0 (delete_held l) (grew h)) as Hd.
  { intros Hl. unfold delete_held. call as z; [by eapply LW_release|].
    destruct z as [?|e]; [|destruct (IsNotFound e); [|done]]; by call. }
  destruct (lease_HolderIdentity l) as [hl|] eqn:E; [|auto].
  destruct (String.eqb_spec hl (holder_of a)) as [->|]; cbn [negb]; [auto|done].
Qed.

(** A program whose last step is an audit record. *)
Lemma emit_then h a ev f t x {B} (b : B) :
  about h a → ok h (emitAuditRecord a ev f t x ;;! Ret (Ok b)) (grew h).
Proof. intros Ha. use emit_ok as y Hy. by destruct y. Qed.

Lemma grew_weaken h h' {A} (p : prog ctl A) : h ⊆ h' → ok h' p (grew h') → ok h' p (grew h).
Proof.
  intros Hs. apply safe_mono; [done|done|]. intros h'' y [? _]. split; [|done]. by etransitivity.
Qed.

(** What a faithful patch answer says about the stored request. *)
Lemma stored_about h b n a' : faithful (Ev (S:=ctl) (CPatchARStatus b n) (Ok a')) →
  about h n → about h a'.
Proof. intros [_ Hk]. by apply about_trans. Qed.

Lemma lock_acquired_ok h a from :
  cleared r h a → holds_lock r h a → ok h (lock_acquired a from) (grew h).
Proof.
  intros Hc Hl. unfold lock_acquired. call. call. call as now. call as y.
  - apply SW_approved; [done|by eapply cleared_phase|done].
  - destruct y as [a'|e]; [|done]. apply grew_weaken; [done|]. apply emit_then.
    eapply stored_about; [exact Hf|]. eapply about_trans; [|by eapply cleared_about]. done.
Qed.

Lemma take_over_ok h a from l now :
  cleared r h a → seen h (CGetLease Cached (lease_key a)) (Ok l) →
  lease_HolderIdentity l ≠ Some (holder_of a) →
  seen h CNow now → lease_expired_at l now = Some true →
  ok h (take_over r a from l) (grew h).
Proof.
  intros Hc Hl Hne Hn He. unfold take_over. call as t1. call as t2. call as y.
  - apply (LW_take_over r _ a l now); eauto using cleared_phase.
  - destruct y as [l'|e]; [|done]. apply grew_weaken; [done|].
    apply lock_acquired_ok; [done|]. by eapply (HL_taken r _ a l _ now).
Qed.

Lemma lock_contended_ok h a from l :
  cleared r h a → seen h (CGetLease Cached (lease_key a)) (Ok l) →
  lease_HolderIdentity l ≠ Some (holder_of a) →
  ok h (lock_contended r a from l) (grew h).
Proof.
  intros Hc Hl Hne. unfold lock_contended. call as now.
  destruct (_ <? _) eqn:E.
  - apply Z.ltb_lt in E. unfold count_denial. call. call. call. call. call as t. call as y.
    + eapply (SW_lock_timeout r _ a l now); eauto using cleared_phase.
    + destruct y as [a'|e]; [|done]. apply grew_weaken; [done|]. apply emit_then.
      eapply stored_about; [exact Hf|]. eapply about_trans; [|by eapply cleared_about]. done.
  - by call.
Qed.

Lemma lock_exists_ok h a from : cleared r h a → ok h (lock_exists r a from) (grew h).
Proof.
  intros Hc. unfold lock_exists. call as y. destruct y as [l|e]; [|done].
  apply grew_weaken; [done|]. 
  assert (∀ h0 b, cleared r h0 a → seen h0 (CGetLease Cached (lease_key a)) (Ok l) →
     (b = true → ∃ now, seen h0 CNow now ∧ lease_expired_at l now = Some true) →
     ok h0 (if match lease_HolderIdentity l with Some h => h ==? holder_of a | None => false end
            then lock_acquired a from
            else if b then take_over r a from l else lock_contended r a from l) (grew h0)) as Hend.
  { intros h1 b Hc1 Hl1 Hb.
    destruct (match lease_HolderIdentity l with Some h => h ==? holder_of a | None => false end) eqn:E.
    - apply lock_acquired_ok; [done|]. eapply HL_owned; [done|].
      destruct (lease_HolderIdentity l); [|done]. apply String.eqb_eq in E. congruence.
    - assert (lease_HolderIdentity l ≠ Some (holder_of a)).
      { intros Heq. rewrite Heq, String.eqb_refl in E. done. }
      destruct b; [|by apply lock_contended_ok].
      destruct Hb as (now & Hn & He); [done|]. by eapply take_over_ok. }
  unfold lease_expired_at in Hend.
  destruct (lease_RenewTime l) as [rt|]; [|by apply Hend].
  destruct (lease_LeaseDurationSeconds l) as [secs|]; [|by apply Hend].
  call as now. apply grew_weaken; [done|]. apply Hend; [done|done|]. intros E. exists now. by rewrite E.
Qed.

Lemma lock_ok h a from : cleared r h a → ok h (handleLockAcquisition r a from) (grew h).
Proof.
  intros Hc. unfold handleLockAcquisition. rewrite (cleared_phase _ _ _ Hc).
  change (PhasePending ==? PhaseApproved) with false. cbv iota.
  call as t1. call as t2. call as y.
  - apply LW_create; eauto using cleared_phase.
  - apply grew_weaken; [done|]. destruct y as [l|e].
    + apply lock_acquired_ok; [done|]. by eapply HL_created.
    + destruct (IsAlreadyExists e); [by apply lock_exists_ok|done].
Qed.

(** ** Transitions asked for by the agent, the first phase, and integrity *)

Lemma deny_governed_ok h a ref code msg :
  read h a → terminal (phase a) = false → governedResourceRef a = Some ref →
  governed_broken h ref code →
  ok h (deny_governed a code msg)
    (λ h' x, h ⊆ h' ∧ ∀ a', x = Ok a' → phase a' = PhaseDenied).
Proof.
  intros Hr Ht Hg Hw. unfold deny_governed, count_denial.
  apply about_read in Hr as Ha.
  assert (∀ h', h ⊆ h' → status_write r h' a
            (set_denial (Some (denial code msg)) (set_phase PhaseDenied a))) as Hsw.
  { intros h' Hs. eapply SW_governed; eauto with aip.
    destruct Hw as [(err & ? & ? & ?)|(gr & ? & ? & ?)]; [left; exists err|right; exists gr]; eauto with aip. }
  call. call. call. call as y; [by apply Hsw|].
  destruct y as [a'|e]; [|done]. apply (stored_about _ _ _ _ Hf) in Ha as Ha'; destruct Hf as [Hp _].
  use release_ok as z Hz. destruct z; [|done]. use emit_ok as w Hw'. destruct w; [|done].
  split; [done|]. by intros ? [= <-].
Qed.

Lemma check_governed_ok h a ref :
  read h a → terminal (phase a) = false → governedResourceRef a = Some ref →
  ok h (checkGovernedResourceIntegrity a ref)
    (λ h' x, h ⊆ h' ∧ ∀ a', x = Ok a' → a' = a ∨ phase a' = PhaseDenied).
Proof.
  intros Hr Ht Hg. unfold checkGovernedResourceIntegrity. call as y.
  assert (∀ code msg, governed_broken h0 ref code → ok h0 (deny_governed a code msg)
            (λ h' x, h ⊆ h' ∧ ∀ a', x = Ok a' → a' = a ∨ phase a' = PhaseDenied)) as Hd.
  { intros code msg Hw. eapply safe_mono; [done|done| |by eapply (deny_governed_ok h0 a ref)].
    intros h' x [? Hd]. split; [by etransitivity|eauto]. }
  destruct y as [gr|e].
  - destruct (om_Generation (gr_Meta gr) =? ref_Generation ref) eqn:E; cbn [negb].
    + split; [done|]. intros ? [= <-]. by left.
    + apply Hd. right. exists gr. apply Z.eqb_neq in E. done.
  - destruct (IsNotFound e) eqn:E; [|by split]. apply Hd. left. by exists e.
Qed.

Lemma agent_transitions_ok h a :
  read h a → terminal (phase a) = false → ok h (checkAgentTransitions r a) (grew h).
Proof.
  intros Hr Ht. apply about_read in Hr as Ha. unfold checkAgentTransitions.
  assert (∀ h0 a' ev1 f1 t1 ev2 f2 t2, about h0 a' →
    ok h0 (emitAuditRecord a' ev1 f1 t1 ∅ ;;! emitAuditRecord a' ev2 f2 t2 ∅ ;;! Ret (Ok true)) (grew h0)) as Hem.
  { intros. use emit_ok as y Hy. destruct y; [|done]. apply grew_weaken; [done|]. by apply emit_then. }
  destruct (IsStatusConditionTrue (conditions a) ConditionCompleted) eqn:E1; cbn [andb].
  { destruct (phase a <>? PhaseCompleted) eqn:Ep.
    2: { unfold terminal in Ht. apply negb_false_iff in Ep. by rewrite Ep in Ht. }
    unfold agent_completed. destruct (APIReader r); [|done].
    call as y; [right; eauto|]. destruct y as [fresh|e]; [|done]. call. call. call as y; [by eapply SW_completed|].
    destruct y as [a'|e]; [|done].
    apply (stored_about _ _ _ _ Hf) in Ha.
    use release_ok as z Hz. destruct z; [|done]. apply grew_weaken; [done|]. by apply Hem. }
  assert ((phase a <>? PhaseFailed) = true) as Hpf.
  { unfold terminal, terminal_inert in Ht. destruct (phase a ==? PhaseFailed); [|done].
    by rewrite orb_true_r in Ht. }
  destruct (IsStatusConditionTrue (conditions a) ConditionFailed) eqn:E2; cbn [andb].
  { rewrite Hpf. unfold agent_failed. call. call. call as y; [by eapply SW_failed|].
    destruct y as [a'|e]; [|done].
    apply (stored_about _ _ _ _ Hf) in Ha.
    use release_ok as z Hz. destruct z; [|done]. apply grew_weaken; [done|]. by apply Hem. }
  destruct (IsStatusConditionTrue (conditions a) ConditionExecuting) eqn:E3; cbn [andb]; [|done].
  destruct (phase a ==? PhaseApproved) eqn:E4; [|done]. apply String.eqb_eq in E4.
  unfold agent_executing. call. call as y; [by eapply SW_executing|].
  destruct y as [a'|e]; [|done]. apply grew_weaken; [done|]. apply Hem.
  exact (stored_about _ _ _ _ Hf Ha).
Qed.

(** A patch answered with an error ends the reconcile; a stored request is
    recorded by one audit record. *)
Lemma patch_emit_ok h a new ev f t (x : AgentRequest → gmap string string) {B} (b : B) :
  about h a → same_request new a → status_write r h a new →
  ok h (a' <-! patch_status a new ;; emitAuditRecord a' ev f t (x a') ;;! Ret (Ok b)) (grew h).
Proof.
  intros Ha Hs Hw. call as y; [done|]. destruct y as [a'|e]; [|done].
  apply grew_weaken; [done|]. apply emit_then.
  exact (stored_about _ _ _ _ Hf (about_trans _ _ _ Hs Ha)).
Qed.

Lemma initial_phase_ok h a rd :
  ok h (initial_phase a rd) (λ h' x, h ⊆ h' ∧ ∀ p reason msg, x = Ok (p, reason, msg) →
    (p = PhaseAwaitingVerdict ∧
       (map_str (om_Annotations (ar_Meta a)) AnnotationCanExecute = "false"%string ∨
        ∃ rd ref gr, governedResourceRef a = Some ref ∧
          seen h' (CGetGR rd (ref_Name ref)) (Ok gr) ∧ gr_SoakMode (gr_Spec gr) = true)) ∨
    (p = PhasePending ∧ map_str (om_Annotations (ar_Meta a)) AnnotationCanExecute ≠ "false"%string)).
Proof.
  unfold initial_phase. destruct (String.eqb_spec (map_str (om_Annotations (ar_Meta a)) AnnotationCanExecute) "false").
  { split; [done|]. intros ? ? ? [= <- _ _]. by left; split; [|left]. }
  destruct (governedResourceRef a) as [ref|] eqn:Hg.
  2: { split; [done|]. intros ? ? ? [= <- _ _]. by right. }
  call as y. destruct y as [gr|e].
  - destruct (gr_SoakMode (gr_Spec gr)) eqn:Hsoak; (split; [done|]); intros ? ? ? [= <- _ _]; [left|by right].
    split; [done|]. right. by exists rd, ref, gr.
  - destruct (IsNotFound e); (split; [done|]); intros ? ? ? Heq; [|done]. injection Heq as <- _ _. by right.
Qed.

Lemma initialize_ok h a rd : read h a → ok h (initializePhase a rd) (grew h).
Proof.
  intros Hr. apply about_read in Hr as Ha. unfold initializePhase.
  destruct (String.eqb_spec (phase a) "") as [Hp|Hp]; cbn [negb orb]; [|done].
  destruct (IsStatusConditionTrue (conditions a) "RequestSubmitted"); [done|].
  set (code := map_str (om_Annotations (ar_Meta a)) AnnotationGatewayDenied).
  destruct (String.eqb_spec code "") as [Hd|Hd]; cbn [negb].
  2: { unfold init_denied. call. call. call as now. apply grew_weaken; [done|].
       apply (patch_emit_ok _ _ _ _ _ _ (λ _, ∅)); [done|repeat split|]. by eapply SW_gateway_denied. }
  destruct (String.eqb_spec (spec_Mode (ar_Spec a)) ModeObserve) as [Hm|Hm].
  { unfold init_observed. call. call as now. apply grew_weaken; [done|].
    apply (patch_emit_ok _ _ _ _ _ _ (λ _, ∅)); [done|repeat split|]. by eapply SW_observed. }
  unfold init_admitted. use initial_phase_ok as y Hy. destruct y as [[[p reason] msg]|e]; [|done].
  specialize (Hy p reason msg eq_refl).
  assert ((p ==? PhasePending) || (p ==? PhaseAwaitingVerdict) = true) as ->
    by (destruct Hy as [[-> _]|[-> _]]; done).
  call. call. call as now. apply grew_weaken; [done|].
  apply (patch_emit_ok _ _ _ _ _ _ (λ _, ∅)); [done|repeat split|].
  destruct Hy as [[-> Hy]|[-> Hy]]; [|by eapply SW_pending].
  eapply SW_awaiting; [done..| |done]. destruct Hy as [Hy|(rd' & ref & gr & ? & ? & ?)]; [by left|right].
  exists rd', ref, gr. eauto with aip.
Qed.

(** ** Pending *)

(** Contexts that differ in the names of side effects. *)
Definition extended (tc0 tc : option TargetContext) : Prop :=
  tc = tc0 ∨ ∃ t names, tc0 = Some t ∧
    tc = Some (mkTC (tc_Exists t) (tc_HasActiveEndpoints t) (tc_ActiveEndpointCount t)
           (tc_ReadyReplicas t) (tc_SpecReplicas t) (tc_DownstreamServices t ++ names) (tc_StateFingerprint t)).

Lemma extended_more tc0 t name :
  extended tc0 (Some t) →
  extended tc0 (Some (mkTC (tc_Exists t) (tc_HasActiveEndpoints t) (tc_ActiveEndpointCount t)
    (tc_ReadyReplicas t) (tc_SpecReplicas t) (tc_DownstreamServices t ++ [name]) (tc_StateFingerprint t))).
Proof.
  intros [<-|(t0 & names & -> & [= ->])]; right; eexists _, _; (split; [done|]); [done|].
  cbn. by rewrite <- app_assoc.
Qed.

Lemma fetch_all_ok h a ts st tc0 :
  extended tc0 st.1 →
  ok h (fetch_all_affected a ts st) (λ h' x, h ⊆ h' ∧ ∀ tc m, x = Ok (tc, m) → extended tc0 tc).
Proof.
  revert h st. induction ts as [|t ts IH]; intros h [tc m] Hx; cbn [fetch_all_affected].
  { split; [done|]. by intros ? ? [= <- <-]. }
  unfold fetch_affected. call as y.
  assert (∀ h0 st', h ⊆ h0 → extended tc0 st'.1 → ok h0 (fetch_all_affected a ts st')
            (λ h' x, h ⊆ h' ∧ ∀ tc m, x = Ok (tc, m) → extended tc0 tc)) as Hn.
  { intros h1 st' Hs1 Hx1. eapply safe_post; [|by apply IH]. intros h' x [? ?]. split; [by etransitivity|done]. }
  destruct y as [[cc|] [e|]]; try (by apply Hn). destruct (tc_Exists cc); [|by apply Hn].
  destruct tc as [tc|]; [|by split]. apply Hn; [done|]. by apply extended_more.
Qed.

Lemma fetch_target_ok h a :
  ok h (fetchTargetContext r a) (λ h' x, h ⊆ h' ∧ ∀ tc m, x = Ok (tc, m) → fetched_context r h' a tc).
Proof.
  unfold fetchTargetContext, fetched_context. destruct (TargetContextFetcher r).
  2: { split; [done|]. by intros ? ? [= <- <-]. }
  call as y. destruct y as [tc [e|]].
  { split; [done|]. intros ? ? [= <- <-]. exists tc, (Some e). split; [done|by left]. }
  destruct (spec_CascadeModel (ar_Spec a)) as [cm|].
  - eapply safe_post; [|apply (fetch_all_ok _ _ _ _ tc); by left]. intros h' x [Hs' Hall]. split; [by etransitivity|].
    intros tc' m ->. exists tc, None. split; [eauto with aip|]. by apply (Hall tc' m).
  - split; [done|]. intros ? ? [= <- <-]. exists tc, None. split; [done|by left].
Qed.

(** The request comes back as it was, or with a schema violation. *)
Definition provider_view a a' : Prop :=
  ∃ cs, (cs = conditions a ∨
         ∃ msg now, cs = SetStatusCondition (conditions a)
                           (cond "FetcherSchemaViolation" ConditionTrue "SchemaMismatch" msg) now) ∧
        a' = set_conditions cs a.

Lemma provider_view_refl a : provider_view a a.
Proof. exists (conditions a). split; [by left|]. by destruct a as [? ? []]. Qed.

Lemma fetch_provider_ok h name a : ok h (fetch_provider r name a) (grew h).
Proof.
  unfold fetch_provider. repeat case_bool; try done; apply ok_last; done.
Qed.

Lemma fetch_context_ok h a gr :
  ok h (fetchContextFromProvider r a gr)
    (λ h' x, h ⊆ h' ∧ provider_view a x.1 ∧ (∀ ctx, x.2 = Ok (Some ctx) → x.1 = a)).
Proof.
  unfold fetchContextFromProvider.
  assert (∀ h' (x : res (option JSON)), h ⊆ h' → h ⊆ h' ∧ provider_view a (a, x).1 ∧
            (∀ ctx, (a, x).2 = Ok (Some ctx) → (a, x).1 = a)) as Hsame.
  { intros h' x Hs. split; [done|]. split; [apply provider_view_refl|done]. }
  destruct (_ || _); [by apply Hsame|]. use fetch_provider_ok as y Hy.
  destruct y as [j|e]; [|by apply Hsame].
  destruct (gr_ContextSchema (gr_Spec gr)) as [schema|]; [|by apply Hsame].
  destruct (schema_errors schema j) as [[|e errs]|e]; [by apply Hsame| |by apply Hsame].
  call as now. split; [done|]. split; [|done]. eexists. split; [|done]. right. eauto.
Qed.

Lemma provider_step_ok h a :
  read h a → phase a = PhasePending →
  ok h (provider_step r a)
    (λ h' x, h ⊆ h' ∧ ∀ a', x = Ok (inr a') → provider_view a a').
Proof.
  intros Hr Hp. unfold provider_step.
  assert (∀ h', h ⊆ h' → h ⊆ h' ∧
    ∀ a', Ok (inr a) = Ok (A:=ctrl_Result + AgentRequest) (inr a') → provider_view a a') as Hsame.
  { intros h' Hs. split; [done|]. intros ? [= <-]. apply provider_view_refl. }
  destruct (governedResourceRef a) as [ref|]; [|by apply Hsame].
  destruct (st_ProviderContext (ar_Status a)) eqn:Hpc; [by apply Hsame|].
  call as y. destruct y as [gr|e]; [|done].
  use fetch_context_ok as z Hz. destruct z as [a' ctx], Hz as [Hv Hctx]. cbn [fst snd] in *.
  destruct ctx as [[ctx|]|e].
  - rewrite (Hctx ctx) by done. call as w; [by apply SW_provider|]. by destruct w.
  - split; [done|]. by intros ? [= <-].
  - split; [done|]. by intros ? [= <-].
Qed.

Lemma commit_ok h a new result au from :
  about h a → same_request new a → status_write r h a new → allowed r h (CCreateAudit au) →
  (∀ h' stored, h ⊆ h' → seen h' (CPatchARStatus a new) (Ok stored) → keeps new stored →
     res_Action result ≠ ResultDeny → res_Action result ≠ ResultRequireApproval → cleared r h' stored) →
  ok h (commit_evaluation r a new result au from) (grew h).
Proof.
  intros Ha Hs Hw Hau Hc. unfold commit_evaluation. call as y; [done|].
  destruct y as [a'|e]; [|done].
  pose proof (stored_about _ _ _ _ Hf (about_trans _ _ _ Hs Ha)) as Ha'.
  eapply (ok_sub _ _ _ (λ _ _, True)).
  { apply create_audit_ok. destruct Hau as (a0 & Hr & Hau). exists a0. split; eauto with aip. }
  intros z h' Hs' _. assert (h ⊆ h') as Hs'' by (etransitivity; eauto). upgrade h0 h' Hs'.
  destruct (String.eqb_spec (res_Action result) ResultDeny).
  { apply grew_weaken; [done|]. by apply emit_then. }
  destruct (String.eqb_spec (res_Action result) ResultRequireApproval); [done|].
  apply grew_weaken; [done|]. apply lock_ok. apply Hc; eauto with aip.
Qed.

Lemma evaluation_ok h a result au :
  judged r h a result → allowed r h (CCreateAudit au) →
  ok h (handleEvaluationResult r a result au) (grew h).
Proof.
  intros Hv Hau. pose proof (eval_view_about _ _ (proj1 Hv)) as Ha. unfold handleEvaluationResult.
  assert (∀ h', h ⊆ h' → allowed r h' (CCreateAudit au)) as Hau'.
  { intros h' Hs. destruct Hau as (a0 & Hr & Hau). exists a0. split; eauto with aip. }
  call as now.
  destruct (String.eqb_spec (res_Action result) ResultDeny) as [Hd|Hd].
  { call. call. call. call as now'. apply grew_weaken; [done|].
    apply commit_ok; [done|repeat split| |by auto|by intros]. by eapply SW_eval_deny. }
  destruct (String.eqb_spec (res_Action result) ResultRequireApproval) as [Hq|Hq].
  { destruct (String.eqb_spec (map_str (om_Annotations (ar_Meta a)) AnnotationRequiresHumanApproval) "false") as [Hn|Hn].
    - call as now'. call as y; [by eapply SW_eval_auto|]. destruct y as [a'|e]; [|done].
      eapply (ok_sub _ _ _ (λ _ _, True)); [apply create_audit_ok; by apply Hau'|].
      intros z h' Hs' _. split; [|done]. by etransitivity.
    - call as now'. apply grew_weaken; [done|].
      apply commit_ok; [done|repeat split| |by auto|by intros]. by eapply SW_eval_ask. }
  apply grew_weaken; [done|].
  apply commit_ok; [done|repeat split|by eapply SW_eval_allow|by auto|].
  intros h' stored Hs1 Hse Hk _ _. eapply CL_allowed; eauto using judged_mono.
Qed.

Lemma pending_unevaluated_ok h a :
  read h a → phase a = PhasePending →
  IsStatusConditionTrue (conditions a) ConditionPolicyEvaluated = false →
  ok h (pending_unevaluated r a) (grew h).
Proof.
  intros Hr Hp Hne. unfold pending_unevaluated. call as y. destruct y as [ps|e]; [|done].
  eapply (ok_sub _ _ _ (λ h' x, ∀ gl, x = Ok gl → governing_labels r h' a gl)).
  { unfold governing_labels. destruct (governedResourceRef a) as [ref|]; [|split; [done|by intros ? [= <-]]].
    call as z. destruct z as [gr|]; [|by split]. split; [done|]. intros ? [= <-]. by exists gr. }
  intros gl h1 Hs1 Hgl. upgrade h0 h1 Hs1. destruct gl as [gl|e]; [|done]. specialize (Hgl gl eq_refl).
  use fetch_target_ok as z Hz. destruct z as [[tc cc]|e]; [|done]. specialize (Hz tc cc eq_refl).
  use provider_step_ok as w Hw. destruct w as [[res|a']|e]; [done| |done].
  destruct (Hw a' eq_refl) as (cs & Hcs & ->). unfold evaluate_pending.
  assert (∀ h' cpv, h ⊆ h' → read h' a →
    seen h' (CListPolicies (reader_of r) (om_Namespace (ar_Meta a))) (Ok ps) →
    governing_labels r h' a gl → fetched_context r h' a tc →
    ok h' (let a := upd_status (set_st_ControlPlaneVerification cpv) (set_conditions cs a) in
           let result := Evaluate a (select_policies gl ps) tc cc in
           metric_ agentRequestEvalDuration_Observe ;;;
           match result with
           | Err err => Ret (Err err)
           | Ok result =>
               now <- call_ CNow ;;
               handleEvaluationResult r a result (set_owner a (policy_eval_audit a result now))
           end) (grew h)) as Hend.
  { intros h' cpv Hs' Hr' Hps' Hgl' Htc'. cbv zeta. call.
    destruct (Evaluate _ _ _ _) as [res|e] eqn:He; [|done]. call as now.
    apply grew_weaken; [done|]. apply evaluation_ok.
    - split; [by exists a, cs, cpv|]. by exists ps, gl, tc, cc.
    - eapply audit_allowed; [by exists a|by rewrite set_owner_spec..|by rewrite set_owner_ns]. }
  destruct tc as [tc|].
  - call as now. by apply Hend.
  - assert (set_conditions cs a = upd_status (set_st_ControlPlaneVerification
              (st_ControlPlaneVerification (ar_Status a))) (set_conditions cs a)) as ->
      by (by destruct a as [? ? []]).
    by apply Hend.
Qed.

Lemma pending_ok h a :
  read h a → phase a = PhasePending → ok h (reconcilePending r a) (grew h).
Proof.
  intros Hr Hp. unfold reconcilePending.
  destruct (IsStatusConditionTrue _ ConditionPolicyEvaluated) eqn:E1; [|by apply pending_unevaluated_ok].
  destruct (IsStatusConditionTrue _ ConditionRequiresApproval) eqn:E2.
  2: { apply lock_ok. by apply CL_evaluated. }
  unfold handleApprovalWait. destruct (spec_HumanApproval (ar_Spec a)) as [ha|] eqn:Hh; [|done].
  destruct (String.eqb_spec (ha_Decision ha) "approved") as [Hd|Hd].
  { apply lock_ok. by eapply CL_human. }
  destruct (String.eqb_spec (ha_Decision ha) "denied") as [Hn|Hn]; [|done].
  unfold human_denied, count_denial. call. call. call. call as now. call as y; [by eapply SW_human_denied|].
  destruct y as [a'|e]; [|done]. destruct (spec_HumanApproval (ar_Spec a')); [|done].
  apply grew_weaken; [done|]. apply emit_then.
  exact (stored_about _ _ _ _ Hf (about_read _ _ Hr)).
Qed.

(** ** Approved, Executing, AwaitingVerdict, Completed *)

Lemma approved_ok h a : read h a → phase a = PhaseApproved → ok h (reconcileApproved r a) (grew h).
Proof.
  intros Hr Hp. apply about_read in Hr as Ha. unfold reconcileApproved.
  destruct (FindStatusCondition _ _) as [c|] eqn:Hc; [|done].
  destruct (String.eqb_spec (cond_Status c) ConditionTrue) as [Ht|]; cbn [negb]; [|done].
  call as now. destruct (_ <? now) eqn:E.
  - apply Z.ltb_lt in E. unfold approved_timeout. use release_ok as y Hy. destruct y as [[]|e]; [|done].
    call as t. call. call. apply grew_weaken; [done|].
    apply (patch_emit_ok _ _ _ _ _ _ (λ _, ∅)); [done|repeat split|].
    by eapply (SW_approved_timeout r _ a c now).
  - unfold approved_heartbeat. call as y. destruct y as [l|e]; [|by destruct (IsNotFound e)].
    destruct (match lease_HolderIdentity l with Some h => h ==? holder_of a | None => false end) eqn:El; [|done].
    call as t. call as z; [|by destruct z]. eapply LW_heartbeat; [done..|].
    destruct (lease_HolderIdentity l); [|done]. apply String.eqb_eq in El. congruence.
Qed.

Lemma fail_executing_ok h a msg ev cl :
  about h a → (∀ h' cs, h ⊆ h' → marked (conditions a) cs → status_write r h' a (set_phase PhaseFailed (set_conditions cs a))) →
  (∀ h', h ⊆ h' → ok h' cl (grew h')) →
  ok h (fail_executing a msg ev cl) (grew h).
Proof.
  intros Ha Hw Hcl. unfold fail_executing. call. call. call. call as now. call as y; [by apply Hw|].
  destruct y as [a'|e]; [|done]. apply (stored_about _ _ _ _ Hf) in Ha.
  use Hcl as z Hz. use emit_ok as w Hw'. destruct w; [|done].
  apply grew_weaken; [done|]. by apply emit_then.
Qed.

Lemma executing_ok h a : read h a → phase a = PhaseExecuting → ok h (reconcileExecuting r a) (grew h).
Proof.
  intros Hr Hp. unfold reconcileExecuting. call as y.
  destruct y as [l|e]; [|by destruct (IsNotFound e)].
  destruct (match lease_HolderIdentity l with Some h => h <>? holder_of a | None => true end) eqn:El.
  { apply grew_weaken; [done|]. apply fail_executing_ok; [by apply about_read| |done].
    intros h' cs Hs' Hcs. eapply (SW_lost_lock r _ a l); eauto with aip.
    intros Heq. rewrite Heq, String.eqb_refl in El. done. }
  assert (lease_HolderIdentity l = Some (holder_of a)) as Hl.
  { destruct (lease_HolderIdentity l); [|done]. apply negb_false_iff, String.eqb_eq in El. congruence. }
  destruct (lease_RenewTime l) as [rt|] eqn:Hrt; [|done].
  destruct (lease_LeaseDurationSeconds l) as [secs|] eqn:Hsec; [|done].
  call as now. destruct (rt + secs * Second <? now) eqn:E; [|done].
  assert (lease_expired_at l now = Some true) as He by (unfold lease_expired_at; by rewrite Hrt, Hsec, E).
  apply grew_weaken; [done|]. apply fail_executing_ok; [by apply about_read| |].
  - intros h' cs Hs' Hcs. eapply (SW_heartbeat r _ a l now); eauto with aip.
  - intros h' Hs'. call; [|done]. eapply (LW_delete_expired r _ a l now); eauto with aip.
Qed.

Lemma awaiting_ok h a :
  read h a → phase a = PhaseAwaitingVerdict → ok h (reconcileAwaitingVerdict a) (grew h).
Proof.
  intros Hr Hp. apply about_read in Hr as Ha. unfold reconcileAwaitingVerdict.
  destruct (String.eqb_spec (st_Verdict (ar_Status a)) "") as [Hv|Hv]; cbn [negb].
  - call as now. destruct (_ <? now) eqn:E; [|done]. apply Z.ltb_lt in E. call. call.
    apply grew_weaken; [done|]. apply (patch_emit_ok _ _ _ _ _ _ (λ _, ∅)); [done|repeat split|].
    by eapply (SW_expired r _ a now).
  - call. call. apply grew_weaken; [done|].
    apply (patch_emit_ok _ _ _ _ _ _ verdict_annotations); [done|repeat split|]. by eapply SW_verdict.
Qed.

Lemma backfill_ok h a items res :
  read h a → phase a = PhaseCompleted → st_Result (ar_Status a) = Some res →
  ok h (backfill_items (Some res) items) (grew h).
Proof.
  revert h. induction items as [|au items IH]; intros h Hr Hp He; cbn [backfill_items]; [done|].
  destruct (_ || _) eqn:E; [by apply IH|].
  apply orb_false_iff in E as [E1 E2]. apply negb_false_iff, String.eqb_eq in E1.
  apply bool_decide_eq_false in E2.
  call as y.
  - split; [done|]. split; [by apply eq_None_not_Some|]. exists a. rewrite He. eauto.
  - destruct y; [|done]. apply grew_weaken; [done|]. by apply IH.
Qed.

Lemma drive_ok h a :
  read h a → terminal (phase a) = false → ok h (drive r a) (grew h).
Proof.
  intros Hr Ht. unfold drive. use agent_transitions_ok as y Hy. destruct y as [[]|e]; [done| |done].
  use initialize_ok as z Hz. destruct z as [[]|e]; [done| |done].
  apply grew_weaken; [done|]. unfold state_machine.
  destruct (String.eqb_spec (phase a) PhasePending); [by apply pending_ok|].
  destruct (String.eqb_spec (phase a) PhaseApproved); [by apply approved_ok|].
  destruct (String.eqb_spec (phase a) PhaseExecuting); [by apply executing_ok|].
  destruct (String.eqb_spec (phase a) PhaseAwaitingVerdict); [by apply awaiting_ok|done].
Qed.

Lemma reconcile_request_ok h a : read h a → ok h (reconcile_request r a) (grew h).
Proof.
  intros Hr. unfold reconcile_request.
  destruct (String.eqb_spec (phase a) PhaseCompleted) as [Hc|Hc].
  { destruct (st_Result (ar_Status a)) as [res|] eqn:He; [|done].
    unfold backfillCompletedAuditResult. rewrite He. call as y. destruct y as [items|e]; [|done].
    cbn beta iota. use backfill_ok as z Hz. by destruct z. }
  destruct (terminal_inert (phase a)) eqn:Ht; [done|].
  assert (terminal (phase a) = false) as Hterm.
  { unfold terminal. rewrite Ht. by destruct (String.eqb_spec (phase a) PhaseCompleted). }
  destruct (governedResourceRef a) as [ref|] eqn:Hg; [|by apply drive_ok].
  use check_governed_ok as y Hy. destruct y as [a'|e]; [|done].
  destruct (Hy a' eq_refl) as [->|Hd]; [|by rewrite Hd].
  destruct (phase a ==? PhaseDenied); [done|]. apply grew_weaken; [done|]. by apply drive_ok.
Qed.

Lemma reconcile_ok req : ok [] (Reconcile r req) (grew []).
Proof.
  unfold Reconcile. call as y; [by left|]. destruct y as [a|e]; [|by destruct (IgnoreNotFound e)].
  apply grew_weaken; [done|]. apply reconcile_request_ok. by exists (reader_of r), req.
Qed.

End walk.
