(* ===== verification/Cluster.v ===== *)
(** * A small cluster to run the controller against

    An in-memory API server for the calls of [Kube]: a store, an informer
    cache for leases that may lag behind it, a clock, and the two gauges.  It
    answers as the API server documents (creates refuse existing names, merge
    patches change the fields that differ between base and new object); it is
    used to produce concrete executions, which [exec_runs] turns into
    executions in the sense of [Prog]. *)

From S2P Require Import Prelude GoStd GoStrings Types Prog Kube Conditions Evaluation.
From S2P Require Import TargetURI AgentRequestController.

Record world := mkWorld {
  w_now : Z;
  w_ars : gmap NamespacedName AgentRequest;
  w_grs : gmap string GovernedResource;
  w_policies : list SafetyPolicy;
  w_leases : gmap NamespacedName Lease;
  w_cache : gmap NamespacedName Lease;       (** the leases the informer shows *)
  w_audits : gmap NamespacedName AuditRecord;
  w_active : Z;                              (** [agentRequestActive] *)
  w_delete_fails : bool                      (** lease deletes are refused *) }.

Definition set_ars m (w : world) : world :=
  mkWorld (w_now w) m (w_grs w) (w_policies w) (w_leases w) (w_cache w) (w_audits w) (w_active w) (w_delete_fails w).
Definition set_leases m (w : world) : world :=
  mkWorld (w_now w) (w_ars w) (w_grs w) (w_policies w) m (w_cache w) (w_audits w) (w_active w) (w_delete_fails w).
Definition set_audits m (w : world) : world :=
  mkWorld (w_now w) (w_ars w) (w_grs w) (w_policies w) (w_leases w) (w_cache w) m (w_active w) (w_delete_fails w).
Definition set_active n (w : world) : world :=
  mkWorld (w_now w) (w_ars w) (w_grs w) (w_policies w) (w_leases w) (w_cache w) (w_audits w) n (w_delete_fails w).
Definition set_now n (w : world) : world :=
  mkWorld n (w_ars w) (w_grs w) (w_policies w) (w_leases w) (w_cache w) (w_audits w) (w_active w) (w_delete_fails w).
Definition set_delete_fails b (w : world) : world :=
  mkWorld (w_now w) (w_ars w) (w_grs w) (w_policies w) (w_leases w) (w_cache w) (w_audits w) (w_active w) b.

(** The informer catches up. *)
Definition sync (w : world) : world :=
  mkWorld (w_now w) (w_ars w) (w_grs w) (w_policies w) (w_leases w) (w_leases w) (w_audits w) (w_active w) (w_delete_fails w).

Definition lookup_res {A} (o : option A) : res A :=
  match o with Some a => Ok a | None => Err (EApi NotFound) end.

(** A merge patch changes a field when base and new differ there. *)
Definition merge {A} `{EqDecision A} (base new cur : A) : A := if decide (base = new) then cur else new.

Definition merge_status (b n c : AgentRequestStatus) : AgentRequestStatus :=
  mkStatus (merge (st_Phase b) (st_Phase n) (st_Phase c))
    (merge (st_Conditions b) (st_Conditions n) (st_Conditions c))
    (merge (st_Denial b) (st_Denial n) (st_Denial c))
    (merge (st_LeaseName b) (st_LeaseName n) (st_LeaseName c))
    (merge (st_EvaluationGeneration b) (st_EvaluationGeneration n) (st_EvaluationGeneration c))
    (merge (st_ControlPlaneVerification b) (st_ControlPlaneVerification n) (st_ControlPlaneVerification c))
    (merge (st_ProviderContext b) (st_ProviderContext n) (st_ProviderContext c))
    (merge (st_Verdict b) (st_Verdict n) (st_Verdict c))
    (merge (st_VerdictReasonCode b) (st_VerdictReasonCode n) (st_VerdictReasonCode c))
    (merge (st_VerdictNote b) (st_VerdictNote n) (st_VerdictNote c))
    (merge (st_VerdictBy b) (st_VerdictBy n) (st_VerdictBy c))
    (merge (st_VerdictAt b) (st_VerdictAt n) (st_VerdictAt c))
    (merge (st_GovernedResourceRef b) (st_GovernedResourceRef n) (st_GovernedResourceRef c))
    (merge (st_Result b) (st_Result n) (st_Result c)).

Definition merge_lease (b n c : Lease) : Lease :=
  mkLease (lease_Meta c)
    (merge (lease_HolderIdentity b) (lease_HolderIdentity n) (lease_HolderIdentity c))
    (merge (lease_LeaseDurationSeconds b) (lease_LeaseDurationSeconds n) (lease_LeaseDurationSeconds c))
    (merge (lease_AcquireTime b) (lease_AcquireTime n) (lease_AcquireTime c))
    (merge (lease_RenewTime b) (lease_RenewTime n) (lease_RenewTime c)).

Definition serve_metric (m : metric) (w : world) : world :=
  match m with
  | agentRequestActive_Inc => set_active (w_active w + 1) w
  | agentRequestActive_Dec => set_active (w_active w - 1) w
  | _ => w
  end.

Definition serve_patch_ar (base new : AgentRequest) (w : world) : res AgentRequest * world :=
  match w_ars w !! key_of (ar_Meta new) with
  | None => (Err (EApi NotFound), w)
  | Some cur =>
      let a := set_ar_Status (merge_status (ar_Status base) (ar_Status new) (ar_Status cur)) cur in
      (Ok a, set_ars (<[key_of (ar_Meta new) := a]> (w_ars w)) w)
  end.

Definition serve_create_lease (l : Lease) (w : world) : res Lease * world :=
  match w_leases w !! key_of (lease_Meta l) with
  | Some _ => (Err (EApi AlreadyExists), w)
  | None => (Ok l, set_leases (<[key_of (lease_Meta l) := l]> (w_leases w)) w)
  end.

Definition serve_patch_lease (base new : Lease) (w : world) : res Lease * world :=
  match w_leases w !! key_of (lease_Meta new) with
  | None => (Err (EApi NotFound), w)
  | Some cur =>
      let l := merge_lease base new cur in
      (Ok l, set_leases (<[key_of (lease_Meta new) := l]> (w_leases w)) w)
  end.

Definition serve_delete_lease (l : Lease) (w : world) : res unit * world :=
  if w_delete_fails w then (Err (EApi (OtherStatus 500)), w)
  else
    match w_leases w !! key_of (lease_Meta l) with
    | None => (Err (EApi NotFound), w)
    | Some _ => (Ok tt, set_leases (delete (key_of (lease_Meta l)) (w_leases w)) w)
    end.

Definition serve_create_audit (a : AuditRecord) (w : world) : res AuditRecord * world :=
  match w_audits w !! key_of (au_Meta a) with
  | Some _ => (Err (EApi AlreadyExists), w)
  | None => (Ok a, set_audits (<[key_of (au_Meta a) := a]> (w_audits w)) w)
  end.

Definition serve (c : call) (w : world) : resp c * world :=
  match c return resp c * world with
  | CNow | CWallNow => (w_now w, w)
  | CMetric m => (tt, serve_metric m w)
  | CGetAR _ nn => (lookup_res (w_ars w !! nn), w)
  | CPatchARStatus base new => serve_patch_ar base new w
  | CGetGR _ name => (lookup_res (w_grs w !! name), w)
  | CListPolicies _ _ => (Ok (w_policies w), w)
  | CGetLease Live nn => (lookup_res (w_leases w !! nn), w)
  | CGetLease Cached nn => (lookup_res (w_cache w !! nn), w)
  | CCreateLease l => serve_create_lease l w
  | CPatchLease base new => serve_patch_lease base new w
  | CDeleteLease l => serve_delete_lease l w
  | CCreateAudit a => serve_create_audit a w
  | CListAudits _ ns labels =>
      (Ok (snd <$> base.filter (λ kv, nn_Namespace kv.1 = ns ∧ labels ⊆ om_Labels (au_Meta kv.2))
                     (map_to_list (w_audits w))), w)
  | CPatchAudit _ new => (Ok new, set_audits (<[key_of (au_Meta new) := new]> (w_audits w)) w)
  | CFetchTarget _ _ => ((Some TargetContext_zero, None), w)
  | CFetchProvider _ _ => (Err (EMsg "no provider"), w)
  end.

(** Run to the end: the trace, the result and the final world.  [fresh] keeps
    the informer up to date after every call. *)
Fixpoint exec {A} (fresh : bool) (p : prog ctl A) (w : world) : list (event ctl) * A * world :=
  match p with
  | Ret a => ([], a, w)
  | Vis c k =>
      let '(x, w') := serve c w in
      let '(t, a, w'') := exec fresh (k x) (if fresh then sync w' else w') in
      (Ev (S:=ctl) c x :: t, a, w'')
  end.

Lemma exec_runs {A} fresh (p : prog ctl A) w :
  runs p (exec fresh p w).1.1 (exec fresh p w).1.2.
Proof.
  revert w. induction p as [a|c k IH]; intros w; cbn [exec]; [done|].
  destruct (serve c w) as [x w'].
  specialize (IH x (if fresh then sync w' else w')).
  destruct (exec fresh (k x) _) as [[t a] w'']. cbn [fst snd] in *. by exists x, t.
Qed.
