(* ===== verification/LifecycleFacts.v ===== *)
(** * The lifecycle of a request, read off the controller's specification

    Phase transitions, approval and locking, denials, timeouts and the frame
    of status writes, for every execution of [Reconcile] against any cluster
    whose patch answers are [faithful]. *)

From S2P Require Import Prelude GoStd GoStrings Types Prog Kube Conditions Evaluation.
From S2P Require Import TargetURI AgentRequestController ControllerSpec ControllerRefines.

#[export] Instance keeps_dec new stored : Decision (keeps new stored).
Proof. unfold keeps, same_request. apply _. Defined.

#[export] Instance faithful_dec e : Decision (faithful e).
Proof. destruct e as [[] x]; cbn in *; try apply _. destruct x; apply _. Defined.

(** ** The phase graph *)

Inductive lifecycle : string → string → Prop :=
| L_observe : lifecycle "" PhaseObserved
| L_submit : lifecycle "" PhasePending
| L_await : lifecycle "" PhaseAwaitingVerdict
| L_evaluate : lifecycle PhasePending PhasePending
| L_approve : lifecycle PhasePending PhaseApproved
| L_start : lifecycle PhaseApproved PhaseExecuting
| L_expire : lifecycle PhaseAwaitingVerdict PhaseExpired
| L_deny p : terminal p = false → lifecycle p PhaseDenied
| L_complete p : terminal p = false → lifecycle p PhaseCompleted
| L_fail p : terminal p = false → lifecycle p PhaseFailed.

(** [c] is called, with answer [x], at the point where the faithful
    history is [t1], in some execution of [Reconcile]. *)
Definition reaches `{MetaConditions, Evaluator, KubeLib} (r : AgentRequestReconciler)
  (req : NamespacedName) (t1 : list (event ctl)) (c : call) : Prop :=
  Forall faithful t1 ∧ ∃ (x : resp c) t2, emits (Reconcile r req) (t1 ++ Ev (S:=ctl) c x :: t2).

Section facts.
Context `{MC : MetaConditions, EV : Evaluator, KL : KubeLib}.
Context (r : AgentRequestReconciler).

Implicit Types (h t : list (event ctl)) (a base new : AgentRequest).

Lemma reaches_allowed req t c : reaches r req t c → allowed r t c.
Proof.
  intros (Hf & x & t2 & He). exact (safe_emits _ _ _ _ _ _ _ _ _ (reconcile_ok r req) Hf He).
Qed.

Lemma cleared_nonterminal h a : cleared r h a → terminal (phase a) = false.
Proof. intros Hc. by rewrite (cleared_phase _ _ _ Hc). Qed.

Lemma lifecycle_nonterminal p q : lifecycle p q → terminal p = false.
Proof. by destruct 1. Qed.

(** The rule behind a status write; phases are computed, and rules whose
    written phase contradicts a hypothesis are dropped. *)
Ltac rule Hw :=
  destruct Hw; subst;
  repeat match goal with
  | Hv : judged _ _ ?b _ |- _ =>
      lazymatch goal with
      | _ : st_Phase (ar_Status b) = _ |- _ => fail
      | _ => let E := fresh "Hview" in
             pose proof (eval_view_phase _ _ (proj1 Hv)) as E; unfold phase in E
      end
  end;
  unfold phase in *; cbn in *;
  repeat match goal with
  | E : st_Phase (ar_Status _) = ?p, E' : st_Phase (ar_Status _) = _ |- _ => rewrite E in E'
  end;
  try discriminate.

Lemma status_write_lifecycle h base new : status_write r h base new → lifecycle (phase base) (phase new).
Proof.
  intros Hw. rule Hw;
    repeat match goal with
    | E : st_Phase (ar_Status _) = _ |- _ => rewrite E; clear E
    end; by constructor.
Qed.

(** ** Claims *)

(** C4: Every call that [Reconcile] makes is one its specification allows at that
    point, in every execution, complete or cut short. *)
Theorem reconcile_refines req t c : reaches r req t c → allowed r t c.
Proof. apply reaches_allowed. Qed.

(** C8: Every status patch of every execution is a step of the phase graph, so no
    terminal phase is ever left. *)
Theorem reconcile_phase_steps req t base new :
  reaches r req t (CPatchARStatus base new) →
  lifecycle (phase base) (phase new) ∧ terminal (phase base) = false.
Proof.
  intros Hr%reaches_allowed%status_write_lifecycle. split; [done|].
  by eapply lifecycle_nonterminal.
Qed.

(** C3: A request is moved to Approved only while it holds the OpsLock of its
    target, and only after an evaluation that allowed it or a human approval. *)
Theorem approved_only_with_lock req t base new :
  reaches r req t (CPatchARStatus base new) →
  phase new = PhaseApproved → cleared r t base ∧ holds_lock r t base.
Proof. intros Hw%reaches_allowed Hp. cbn in Hw. by rule Hw. Qed.

(** The phases of a request that may come to act on its target. *)
Definition executable (p : string) : bool :=
  (p ==? PhasePending) || (p ==? PhaseApproved) || (p ==? PhaseExecuting).

(** A request that the gateway marked as denied, or as not executable at its
    agent's trust level, never enters Pending, Approved or Executing. *)
Theorem untrusted_never_executes req t base new :
  reaches r req t (CPatchARStatus base new) →
  map_str (om_Annotations (ar_Meta base)) AnnotationCanExecute = "false"%string ∨
    map_str (om_Annotations (ar_Meta base)) AnnotationGatewayDenied ≠ ""%string →
  executable (phase base) = false → executable (phase new) = false.
Proof.
  intros Hw%reaches_allowed Hann Hp. cbn in Hw. rule Hw; try done; destruct Hann; try done.
  all: match goal with E : st_Phase (ar_Status _) = _ |- _ => rewrite E in Hp; done end.
Qed.

(** A status write changes the phase, the conditions, the denial and the
    provider context, and nothing else.  In particular the
    [ControlPlaneVerification] that [reconcilePending] computes is on both
    sides of the patch and never stored. *)
Theorem status_write_frame req t base new :
  reaches r req t (CPatchARStatus base new) →
  ∃ p cs d pc,
    new = upd_status (λ s, set_st_Phase p (set_st_Conditions cs
            (set_st_Denial d (set_st_ProviderContext pc s)))) base.
Proof.
  intros Hw%reaches_allowed. cbn in Hw.
  exists (phase new), (conditions new), (st_Denial (ar_Status new)), (st_ProviderContext (ar_Status new)).
  unfold upd_status, set_phase, phase, conditions.
  destruct Hw; subst;
    match goal with |- context [set_ar_Status _ ?b] => destruct b as [? ? []] end; done.
Qed.

(** C19: A lease is patched only by its holder as read, while the request is
    Approved, or when it was read as expired at a time the clock showed; it is
    deleted only when nobody else holds it. *)
Theorem lease_never_stolen req t l l' :
  (reaches r req t (CPatchLease l l') →
   (∃ a, lease_HolderIdentity l = Some (holder_of a) ∧ lease_HolderIdentity l' = lease_HolderIdentity l ∧
         phase a = PhaseApproved ∧ read t a ∧ seen t (CGetLease Cached (lease_key a)) (Ok l)) ∨
   (∃ now a, seen t CNow now ∧ lease_expired_at l now = Some true ∧
         lease_HolderIdentity l' = Some (holder_of a) ∧ cleared r t a)) ∧
  (reaches r req t (CDeleteLease l) →
   ∃ a, about t a ∧ (lease_HolderIdentity l = None ∨ lease_HolderIdentity l = Some (holder_of a))).
Proof.
  split; intros Hw%reaches_allowed; cbn in Hw; inversion Hw; subst.
  - right. eexists _, _. eauto.
  - left. eexists _. eauto.
  - eexists. eauto.
  - eexists. eauto using about_read.
Qed.

(** During execution the controller never renews the lease: a lease patch is
    made only for a request that is Approved or still Pending. *)
Theorem no_renewal_while_executing req t l l' :
  reaches r req t (CPatchLease l l') →
  ∃ a, about t a ∧ (phase a = PhaseApproved ∨ phase a = PhasePending).
Proof.
  intros Hw%reaches_allowed; cbn in Hw; inversion Hw; subst; eexists;
    eauto using about_read, cleared_about.
Qed.

(** Why a request is denied, with the code the denial carries. *)
Inductive denial_reason t base : string → Prop :=
| DR_governed ref code :
    governedResourceRef base = Some ref → governed_broken t ref code → denial_reason t base code
| DR_gateway : phase base = ""%string →
    denial_reason t base (map_str (om_Annotations (ar_Meta base)) AnnotationGatewayDenied)
| DR_policy result :
    judged r t base result → res_Action result = ResultDeny →
    denial_reason t base (res_Code result)
| DR_human ha :
    spec_HumanApproval (ar_Spec base) = Some ha → ha_Decision ha = "denied"%string →
    denial_reason t base DenialCodePolicyViolation
| DR_lock l now :
    seen t (CGetLease Cached (lease_key base)) (Ok l) → lease_HolderIdentity l ≠ Some (holder_of base) →
    seen t CNow now → om_CreationTimestamp (ar_Meta base) < now - lockWaitTimeout r →
    denial_reason t base DenialCodeLockTimeout.

(** C37: Every denial says why, and its reason was observed. *)
Theorem denial_explained req t base new :
  reaches r req t (CPatchARStatus base new) → phase new = PhaseDenied →
  ∃ d, st_Denial (ar_Status new) = Some d ∧ denial_reason t base (dn_Code d).
Proof.
  intros Hw%reaches_allowed Hp. cbn in Hw. rule Hw; (eexists; split; [done|]); cbn.
  - by eapply DR_governed.
  - by eapply DR_gateway.
  - by eapply DR_policy.
  - by eapply DR_human.
  - by eapply DR_lock.
Qed.

(** Why a request fails or expires. *)
Inductive failure_reason t base : string → Prop :=
| FR_agent : IsStatusConditionTrue (conditions base) ConditionFailed = true →
    failure_reason t base PhaseFailed
| FR_never_started c now :
    phase base = PhaseApproved → FindStatusCondition (conditions base) ConditionApproved = Some c →
    seen t CNow now → cond_LastTransitionTime c + approvedTimeoutOrDefault r < now →
    failure_reason t base PhaseFailed
| FR_lost_lock l :
    phase base = PhaseExecuting → seen t (CGetLease (reader_of r) (lease_key base)) (Ok l) →
    lease_HolderIdentity l ≠ Some (holder_of base) → failure_reason t base PhaseFailed
| FR_heartbeat l now :
    phase base = PhaseExecuting → seen t (CGetLease (reader_of r) (lease_key base)) (Ok l) →
    seen t CNow now → lease_expired_at l now = Some true → failure_reason t base PhaseFailed
| FR_ungraded now :
    phase base = PhaseAwaitingVerdict → st_Verdict (ar_Status base) = ""%string →
    seen t CNow now → om_CreationTimestamp (ar_Meta base) + 7 * 24 * Hour < now →
    failure_reason t base PhaseExpired.

(** A request fails only because its agent said so or a deadline passed or
    its lock was lost, and expires only ungraded after seven days. *)
Theorem failure_explained req t base new :
  reaches r req t (CPatchARStatus base new) → phase new = PhaseFailed ∨ phase new = PhaseExpired →
  failure_reason t base (phase new).
Proof.
  intros Hw%reaches_allowed Hp. cbn in Hw. rule Hw; destruct Hp as [Hp|Hp];
    try discriminate;
    try match goal with E : st_Phase (ar_Status _) = _ |- _ => rewrite E in Hp; discriminate end.
  - by apply FR_agent.
  - by eapply FR_never_started.
  - by eapply FR_lost_lock.
  - by eapply FR_heartbeat.
  - by eapply FR_ungraded.
Qed.
End facts.
