(* ===== verification/AuditTrail.v ===== *)
(** * The audit trail

    A reconcile that reports success leaves no phase change without its audit
    record; audit and lease names; retries of audit creation. *)

From Stdlib Require Import Ascii.
From S2P Require Import Prelude GoStd GoStrings Types Prog Kube Conditions Evaluation.
From S2P Require Import TargetURI AgentRequestController ControllerSpec ControllerRefines.

(** ** Names *)

Definition no_bar (s : string) : bool := all_chars (λ a, negb (Ascii.eqb a "|")) s.
Definition no_slash (s : string) : bool := all_chars (λ a, negb (Ascii.eqb a slash)) s.

Lemma holder_inj a b :
  no_slash (om_Name (ar_Meta a)) = true → no_slash (om_Name (ar_Meta b)) = true →
  holder_of a = holder_of b →
  om_Name (ar_Meta a) = om_Name (ar_Meta b) ∧
  spec_AgentIdentity (ar_Spec a) = spec_AgentIdentity (ar_Spec b).
Proof.
  intros Ha Hb Heq. unfold holder_of in Heq.
  pose proof (cut_last_app slash (spec_AgentIdentity (ar_Spec a)) _ Ha) as Ea.
  pose proof (cut_last_app slash (spec_AgentIdentity (ar_Spec b)) _ Hb) as Eb.
  change (String slash ?n) with ("/" +:+ n)%string in Ea, Eb.
  rewrite Heq, Eb in Ea. by injection Ea as -> ->.
Qed.

Lemma audit_input_inj n e p q n' e' p' q' :
  no_bar n = true → no_bar n' = true → no_bar e = true → no_bar e' = true →
  no_bar p = true → no_bar p' = true →
  audit_input n e p q = audit_input n' e' p' q' → n = n' ∧ e = e' ∧ p = p' ∧ q = q'.
Proof.
  intros Hn Hn' He He' Hp Hp' Heq. unfold audit_input in Heq.
  change ("|" +:+ ?s)%string with (String "|" s) in Heq.
  apply sep_inj in Heq as [-> Heq]; [|done..]. apply sep_inj in Heq as [-> Heq]; [|done..].
  by apply sep_inj in Heq as [-> ->].
Qed.

(** Lease names are valid object names of a fixed shape, one per target up to
    collisions of the hash; audit names are 53 hexadecimal digits, the same on
    every retry of a transition and, up to collisions, different for different
    transitions; and a holder identity determines agent and request. *)
Theorem names_well_formed :
  (∀ u, String.length (generateLeaseName u) = 73%nat ∧
        generateLeaseName u = ("aip-lock-" +:+ sha256_hex u)%string) ∧
  (∀ n e p q, String.length (deterministicAuditName n e p q) = 53%nat ∧
              all_chars is_hex_lower (deterministicAuditName n e p q) = true) ∧
  (∀ n e p q n' e' p' q',
     no_bar n = true → no_bar n' = true → no_bar e = true → no_bar e' = true →
     no_bar p = true → no_bar p' = true →
     audit_input n e p q = audit_input n' e' p' q' → n = n' ∧ e = e' ∧ p = p' ∧ q = q') ∧
  (∀ a b, no_slash (om_Name (ar_Meta a)) = true → no_slash (om_Name (ar_Meta b)) = true →
          holder_of a = holder_of b →
          om_Name (ar_Meta a) = om_Name (ar_Meta b) ∧
          spec_AgentIdentity (ar_Spec a) = spec_AgentIdentity (ar_Spec b)).
Proof.
  split; [|split; [|split]].
  - intros u. assert (String.length ("aip-lock-" +:+ sha256_hex u)%string = 73%nat) as Hl
      by (rewrite string_length_app, sha256_hex_length; done).
    unfold generateLeaseName. rewrite Hl. done.
  - intros n e p q. unfold deterministicAuditName. split.
    + apply substring_length. rewrite sha256_hex_length. lia.
    + apply substring_all, sha256_hex_lower.
  - apply audit_input_inj.
  - apply holder_inj.
Qed.

(** ** Every phase change is recorded *)

Section trail.
Context `{MC : MetaConditions, EV : Evaluator, KL : KubeLib}.
Context (r : AgentRequestReconciler).

Implicit Types (t : list (event ctl)) (a b n : AgentRequest).

(** The server has the record: it was created now or on an earlier try. *)
Definition accepted (x : res AuditRecord) : Prop :=
  match x with Ok _ => True | Err e => IsAlreadyExists e = true end.

(** The change from [b] to [n] has its record in [t]. *)
Definition recorded t b n : Prop :=
  ∃ au x, Ev (S:=ctl) (CCreateAudit au) x ∈ t ∧ accepted x ∧
    om_Namespace (au_Meta au) = om_Namespace (ar_Meta b) ∧
    om_Name (au_Meta au) =
      deterministicAuditName (om_Name (ar_Meta b)) (au_Event (au_Spec au)) (phase b) (phase n).

Definition audited t : Prop :=
  ∀ b n a', Ev (S:=ctl) (CPatchARStatus b n) (Ok a') ∈ t → phase b ≠ phase n → recorded t b n.

Definition quiet t : Prop := ∀ b n x, Ev (S:=ctl) (CPatchARStatus b n) x ∉ t.

Lemma recorded_mono t t' b n : t ⊆ t' → recorded t b n → recorded t' b n.
Proof. intros Hs (au & x & Hin & Hr). exists au, x. split; [auto|done]. Qed.

Lemma audited_app t t' : audited t → audited t' → audited (t ++ t').
Proof.
  intros H1 H2 b n a' [Hin|Hin]%elem_of_app Hne.
  - eapply recorded_mono; [|by eapply H1]. set_solver.
  - eapply recorded_mono; [|by eapply H2]. set_solver.
Qed.

Lemma quiet_audited t : quiet t → audited t.
Proof. intros Hq b n a' Hin. by apply Hq in Hin. Qed.

Lemma quiet_nil : quiet [].
Proof. intros b n x. set_solver. Qed.

Lemma quiet_app t t' : quiet t → quiet t' → quiet (t ++ t').
Proof. unfold quiet. set_solver. Qed.

(** [e] is not a status patch. *)
Definition other (c : call) : Prop := match c with CPatchARStatus _ _ => False | _ => True end.

Lemma quiet_one c x : other c → quiet [Ev (S:=ctl) c x].
Proof.
  intros Hc b n y Hin. apply list_elem_of_singleton in Hin.
  apply (f_equal (ev_call (S:=ctl))) in Hin. cbn in Hin. by subst c.
Qed.

Lemma quiet_cons c x t : other c → quiet t → quiet (Ev (S:=ctl) c x :: t).
Proof. intros Hc Ht. apply (quiet_app [_]); [by apply quiet_one|done]. Qed.

Lemma audited_cons c x t : other c → audited t → audited (Ev (S:=ctl) c x :: t).
Proof. intros Hc Ht. apply (audited_app [_]); [by apply quiet_audited, quiet_one|done]. Qed.

(** A program none of whose calls is a status patch. *)
Definition patchless {A} (p : prog ctl A) : Prop :=
  safe (S:=ctl) any (λ _ c, other c) [] p (λ _ _, True).

Lemma patchless_quiet {A} (p : prog ctl A) t x : patchless p → runs p t x → quiet t.
Proof.
  intros Hs Hr b n y Hin. apply list_elem_of_split in Hin as (t1 & t2 & ->).
  refine (safe_emits _ _ _ _ _ _ _ y t2 Hs (any_all t1) _).
  apply (runs_emits _ _ [] x). by rewrite app_nil_r.
Qed.

(** [good p]: when [p] succeeds, its phase changes are recorded.
    [records p b n]: when [p] succeeds, it records the change from [b] to [n]. *)
Definition good {A} (p : prog ctl (res A)) : Prop :=
  ∀ t x, runs p t (Ok x) → Forall faithful t → audited t.
Definition records {A} (p : prog ctl (res A)) b n : Prop :=
  ∀ t x, runs p t (Ok x) → recorded t b n.

Lemma good_ret {A} (x : res A) : good (Ret x).
Proof. intros t y [-> _] _. apply quiet_audited, quiet_nil. Qed.

Lemma good_patchless {A B} (p : prog ctl A) (k : A → prog ctl (res B)) :
  patchless p → (∀ x, good (k x)) → good (bind p k).
Proof.
  intros Hp Hk t y Hr Hf. apply runs_bind in Hr as (x & t1 & t2 & -> & H1 & H2).
  apply Forall_app in Hf as [_ Hf].
  apply audited_app; [by eapply quiet_audited, patchless_quiet|by eapply Hk].
Qed.

Lemma good_bind {A B} (p : prog ctl (res A)) (k : A → prog ctl (res B)) :
  good p → (∀ x, good (k x)) → good (x <-! p ;; k x).
Proof.
  intros Hp Hk t y Hr Hf. apply runs_bind in Hr as ([x|e] & t1 & t2 & -> & H1 & H2); [|by destruct H2].
  apply Forall_app in Hf as [Hf1 Hf2]. apply audited_app; [by eapply Hp|by eapply Hk].
Qed.

Lemma good_patch {A} b n (k : AgentRequest → prog ctl (res A)) :
  (∀ a', keeps n a' → good (k a')) →
  (∀ a', keeps n a' → phase b ≠ phase n → records (k a') b n) →
  good (a' <-! patch_status b n ;; k a').
Proof.
  intros Hg Hr t x ([a'|e] & t' & -> & H) Hf; [|by destruct H].
  apply Forall_cons in Hf as [Hk Hf]. cbn in H.
  intros b0 n0 a0 Hin Hne. apply elem_of_cons in Hin as [Heq|Hin].
  - apply (f_equal (ev_call (S:=ctl))) in Heq. cbn in Heq. injection Heq as -> ->.
    eapply recorded_mono; [|by eapply (Hr a' Hk Hne)]. set_solver.
  - eapply recorded_mono; [|by eapply (Hg a' Hk)]. set_solver.
Qed.

Lemma records_skip {A B} (p : prog ctl A) (k : A → prog ctl (res B)) b n :
  (∀ x, records (k x) b n) → records (bind p k) b n.
Proof.
  intros Hk t y Hr. apply runs_bind in Hr as (x & t1 & t2 & -> & H1 & H2).
  eapply recorded_mono; [|by eapply Hk]. set_solver.
Qed.

Lemma records_err {A} e b n : records (Ret (A:=res A) (Err e)) b n.
Proof. by intros t x [_ Heq]. Qed.

Lemma records_skip_res {A B} (p : prog ctl (res A)) (k : A → prog ctl (res B)) b n :
  (∀ x, records (k x) b n) → records (x <-! p ;; k x) b n.
Proof. intros Hk. apply records_skip. intros [x|e]; [done|apply records_err]. Qed.

Lemma set_owner_meta a au :
  om_Name (au_Meta (set_owner a au)) = om_Name (au_Meta au) ∧
  om_Namespace (au_Meta (set_owner a au)) = om_Namespace (au_Meta au) ∧
  au_Spec (set_owner a au) = au_Spec au.
Proof. unfold set_owner. by destruct (SetControllerReference _ _). Qed.

Lemma records_emit {A} a ev f to ann (k : unit → prog ctl (res A)) b n :
  key_of (ar_Meta a) = key_of (ar_Meta b) → f = phase b → to = phase n →
  records (x <-! emitAuditRecord a ev f to ann ;; k x) b n.
Proof.
  intros Hk -> -> t y Hr. apply runs_bind in Hr as ([[]|e] & t1 & t2 & -> & H1 & H2); [|by destruct H2].
  destruct H1 as (now & t' & -> & x & t'' & -> & H1).
  set (au := set_owner a (audit_record a ev (phase b) (phase n) ann now)) in *.
  exists au, x. split; [set_solver|]. split.
  { destruct x as [?|e]; [done|]. revert H1. unfold accepted. cbn.
    destruct (IsAlreadyExists e); [done|]. by intros [_ ?]. }
  unfold au. destruct (set_owner_meta a (audit_record a ev (phase b) (phase n) ann now)) as (-> & -> & ->).
  unfold key_of in Hk. injection Hk as Hns Hn. cbn. by rewrite Hns, Hn.
Qed.

Lemma patchless_bind {A B} (p : prog ctl A) (k : A → prog ctl B) :
  patchless p → (∀ x, patchless (k x)) → patchless (bind p k).
Proof.
  assert (∀ {C} (q : prog ctl C) (Q : C → Prop) h h',
    safe (S:=ctl) any (λ _ c, other c) h q (λ _ x, Q x) →
    safe (S:=ctl) any (λ _ c, other c) h' q (λ _ x, Q x)) as Hh.
  { intros C q Q. induction q as [x|c kk IH]; intros h h'; cbn [safe]; [done|].
    intros [? Hs]. split; [done|]. intros y Hy. eapply IH. by apply Hs. }
  intros Hp Hk. apply safe_bind. eapply safe_mono; [| | |exact Hp]; [done|done|].
  intros h x _. exact (Hh _ _ (λ _, True) _ _ (Hk x)).
Qed.

Lemma patchless_call c {B} (k : resp c → prog ctl B) :
  other c → (∀ x, patchless (k x)) → patchless (bind (call_ c) k).
Proof. intros Hc Hk. apply patchless_bind; [|done]. by split. Qed.

End trail.

(** Break a program without status patches into its calls. *)
Ltac patchless :=
  repeat first
  [ done
  | match goal with
    | |- patchless (bind (metric_ _) _) => unfold metric_
    | |- patchless (bind (call_ _) _) => apply patchless_call; [exact I|intros ?]
    | |- patchless (bind (set_cond _ _) _) => unfold set_cond
    | |- patchless (bind _ _) => apply patchless_bind; [|intros ?]
    | |- patchless (match ?x with _ => _ end) => destruct x
    | |- patchless (if ?x then _ else _) => destruct x
    | |- patchless (call_ _) => split; [exact I|done]
    | |- patchless (metric_ _) => split; [exact I|done]
    end ].

Section reconcile.
Context `{MC : MetaConditions, EV : Evaluator, KL : KubeLib}.
Context (r : AgentRequestReconciler).

Implicit Types (t : list (event ctl)) (a b n : AgentRequest).

Lemma emit_patchless a ev f to ann : patchless (emitAuditRecord a ev f to ann).
Proof. unfold emitAuditRecord. patchless. Qed.

Lemma release_patchless a : patchless (releaseLock a).
Proof. unfold releaseLock, delete_held. patchless. Qed.

Lemma retry_patchless au : patchless (createAuditWithRetry au).
Proof.
  unfold createAuditWithRetry. generalize 3%nat (@None error). intros k.
  induction k as [|k IH]; intros last; cbn [create_audit_attempts]; patchless.
Qed.

Lemma set_cond_patchless c a : patchless (set_cond c a).
Proof. unfold set_cond. patchless. Qed.

Lemma fetch_all_patchless a ts st : patchless (fetch_all_affected a ts st).
Proof.
  revert st. induction ts as [|t ts IH]; intros [tc m]; cbn [fetch_all_affected]; [done|].
  apply patchless_bind; [unfold fetch_affected; patchless|]. intros [st'|e]; [apply IH|done].
Qed.

Lemma fetch_target_patchless a : patchless (fetchTargetContext r a).
Proof. unfold fetchTargetContext. patchless. apply fetch_all_patchless. Qed.

Lemma fetch_context_patchless a gr : patchless (fetchContextFromProvider r a gr).
Proof.
  unfold fetchContextFromProvider, fetch_provider. patchless.
Qed.

Lemma good_set_cond {A} c a (k : AgentRequest → prog ctl (res A)) :
  (∀ now, good (k (set_conditions (SetStatusCondition (conditions a) c now) a))) →
  good (bind (set_cond c a) k).
Proof.
  intros Hk. change (bind (set_cond c a) k) with
    (bind (call_ CWallNow) (λ now, k (set_conditions (SetStatusCondition (conditions a) c now) a))).
  apply good_patchless; [by split|done].
Qed.

(** A reconcile step by step: calls that are not status patches, a patch, and
    the audit records after it. *)
Ltac good_step :=
  match goal with
  | |- good (Ret _) => apply good_ret
  | |- good (bind (set_cond _ _) _) => apply good_set_cond; intros ?
  | |- good (bind (metric_ _) _) => apply good_patchless; [by split|intros ?]
  | |- good (bind (call_ _) _) => apply good_patchless; [by split|intros ?]
  | |- good (bind (emitAuditRecord _ _ _ _ _) _) =>
      apply good_patchless; [apply emit_patchless|intros ?]
  | |- good (bind (releaseLock _) _) => apply good_patchless; [apply release_patchless|intros ?]
  | |- good (bind (createAuditWithRetry _) _) => apply good_patchless; [apply retry_patchless|intros ?]
  | |- good (bind (patch_status ?b ?n) _) =>
      apply (good_patch b n); [intros ? ?|let Hk := fresh "Hk" in intros ? Hk ?]
  | |- good (bind (Ret _) _) => cbn [bind]
  | |- good (bind (bind _ _) _) => apply good_patchless; [patchless|intros ?]
  | |- good (bind (match _ with _ => _ end) _) => apply good_patchless; [patchless|intros ?]
  | |- good (match ?x with _ => _ end) => destruct x
  | |- good (if ?x then _ else _) => destruct x
  | |- records (Ret (Err _)) _ _ => apply records_err
  | Hk : keeps ?n ?a |- records (bind (emitAuditRecord ?a ?ev ?f ?to _) _) _ _ =>
      first [ apply records_emit;
              [destruct Hk as (_ & Hkey & _); exact Hkey|done|done]
            | apply records_skip_res; intros ? ]
  | |- records (bind (releaseLock _) _) _ _ => apply records_skip_res; intros ?
  | |- records (bind (Ret _) _) _ _ => cbn [bind]
  | |- records (bind (bind _ _) _) _ _ => apply records_skip; intros ?
  | |- records (match ?x with _ => _ end) _ _ => destruct x
  end.
Ltac good_steps := repeat good_step; try done.

Lemma lock_good a from : from = phase a → good (handleLockAcquisition r a from).
Proof.
  intros ->. unfold handleLockAcquisition, lock_exists, take_over, lock_contended, lock_acquired, count_denial.
  good_steps.
Qed.

Lemma commit_good base new result au from :
  from = phase base → key_of (ar_Meta new) = key_of (ar_Meta base) →
  phase new = (if res_Action result ==? ResultDeny then PhaseDenied else phase base) →
  good (commit_evaluation r base new result au from).
Proof.
  intros -> Hkey Hp. unfold commit_evaluation.
  apply (good_patch base new).
  - intros a' (Hpa & _). good_steps. apply lock_good. congruence.
  - intros a' (Hpa & Hk & _) Hne. apply records_skip. intros ?.
    destruct (res_Action result ==? ResultDeny); [|congruence].
    apply records_emit; congruence.
Qed.

Lemma evaluation_good a result au : good (handleEvaluationResult r a result au).
Proof.
  unfold handleEvaluationResult. apply good_set_cond. intros now.
  destruct (res_Action result ==? ResultDeny) eqn:E.
  - do 4 good_step. apply commit_good; [done..|]. by rewrite E.
  - destruct (res_Action result ==? ResultRequireApproval) eqn:E2;
      [destruct (map_str (om_Annotations (ar_Meta a)) AnnotationRequiresHumanApproval ==? "false")|].
    + good_steps.
    + good_step. apply commit_good; [done..|]. by rewrite E.
    + apply commit_good; [done..|]. by rewrite E.
Qed.

Lemma pending_good a : good (reconcilePending r a).
Proof.
  unfold reconcilePending, handleApprovalWait, human_denied, count_denial.
  destruct (IsStatusConditionTrue _ _); [destruct (IsStatusConditionTrue _ _)|].
  - good_steps. by apply lock_good.
  - by apply lock_good.
  - unfold pending_unevaluated. good_step. destruct x as [ps|e]; [|apply good_ret].
    apply good_patchless; [patchless|]. intros [gl|e]; [|apply good_ret].
    apply good_patchless; [apply fetch_target_patchless|]. intros [[tc cc]|e]; [|apply good_ret].
    apply good_bind.
    + unfold provider_step. good_steps. apply good_patchless; [apply fetch_context_patchless|].
      intros [a' pc]. good_steps.
    + intros [res|a']; [apply good_ret|]. unfold evaluate_pending. good_steps. apply evaluation_good.
Qed.

Lemma machine_good a : good (state_machine r a).
Proof.
  unfold state_machine, reconcileApproved, approved_timeout, approved_heartbeat, reconcileExecuting,
    fail_executing, reconcileAwaitingVerdict.
  good_steps. apply pending_good.
Qed.

Lemma transitions_good a : good (checkAgentTransitions r a).
Proof.
  unfold checkAgentTransitions, agent_completed, agent_failed, agent_executing. good_steps.
Qed.

Lemma initialize_good a rd : good (initializePhase a rd).
Proof.
  unfold initializePhase.
  destruct (String.eqb_spec (phase a) "") as [Hp|Hp]; cbn [negb orb]; [|apply good_ret].
  destruct (IsStatusConditionTrue _ _); [apply good_ret|].
  unfold init_denied, init_observed, init_admitted. good_steps.
  apply good_patchless; [unfold initial_phase; patchless|]. intros [[[p reason] msg]|e]; good_steps.
Qed.

Lemma governed_good a ref : good (checkGovernedResourceIntegrity a ref).
Proof. unfold checkGovernedResourceIntegrity, deny_governed, count_denial. good_steps. Qed.

Lemma backfill_patchless res items : patchless (backfill_items res items).
Proof.
  induction items as [|au items IH]; cbn [backfill_items]; [done|].
  destruct (_ || _); [done|]. apply patchless_call; [exact I|]. by intros [].
Qed.

Lemma reconcile_request_good a : good (reconcile_request r a).
Proof.
  assert (∀ a, good (drive r a)) as Hd.
  { intros a0. unfold drive. apply good_bind; [apply transitions_good|]. intros [|]; [apply good_ret|].
    apply good_bind; [apply initialize_good|]. intros [|]; [apply good_ret|apply machine_good]. }
  unfold reconcile_request. destruct (phase a ==? PhaseCompleted).
  { destruct (st_Result (ar_Status a)); [|apply good_ret].
    apply good_patchless; [|by intros [|]; apply good_ret].
    unfold backfillCompletedAuditResult. apply patchless_call; [exact I|].
    intros [items|e]; [apply backfill_patchless|done]. }
  destruct (terminal_inert (phase a)); [apply good_ret|].
  destruct (governedResourceRef a); [|apply Hd].
  apply good_bind; [apply governed_good|]. intros a'.
  destruct (phase a' ==? PhaseDenied); [apply good_ret|apply Hd].
Qed.

(** C18: When [Reconcile] reports success, every phase change it made has its audit
    record on the server, named after the request, the event and the two
    phases; so a missing record is always retried. *)
Theorem phase_changes_audited req t x b n a' :
  runs (Reconcile r req) t (Ok x) → Forall faithful t →
  Ev (S:=ctl) (CPatchARStatus b n) (Ok a') ∈ t → phase b ≠ phase n → recorded t b n.
Proof.
  intros Hr Hf. apply (good_patchless (call_ (CGetAR (reader_of r) req))
    (λ y, match y with
          | Err err => Ret (match IgnoreNotFound err with Some e => Err e | None => Ok Result0 end)
          | Ok a => reconcile_request r a
          end)) with (x := x); [by split| |exact Hr|exact Hf].
  intros [a|e]; [apply reconcile_request_good|apply good_ret].
Qed.

(** An audit creation that the server accepted. *)
Definition accepted_event (e : event ctl) : Prop :=
  let 'Ev c x := e in
  match c return resp c → Prop with CCreateAudit _ => accepted | _ => λ _, False end x.

Lemma attempts_spec au k last t x :
  (k ≠ 0%nat ∨ last ≠ None) →
  runs (create_audit_attempts k au last) t x →
  (length t <= k)%nat ∧ Forall (λ e, ev_call (S:=ctl) e = CCreateAudit au) t ∧
  (x = Ok tt ↔ Exists accepted_event t) ∧ (x ≠ Ok tt → length t = k).
Proof.
  revert last t. induction k as [|k IH]; intros last t Hk; cbn [create_audit_attempts].
  { intros [-> <-]. destruct last; [|by destruct Hk]. split; [cbn; lia|]. split; [done|].
    split; [|done]. split; [done|]. by intros ?%Exists_nil. }
  intros (y & t' & -> & Hr). cbn in Hr.
  assert (accepted y → t' = [] ∧ Ok tt = x →
    (length (Ev (S:=ctl) (CCreateAudit au) y :: t') <= S k)%nat ∧
    Forall (λ e, ev_call (S:=ctl) e = CCreateAudit au) (Ev (S:=ctl) (CCreateAudit au) y :: t') ∧
    (x = Ok tt ↔ Exists accepted_event (Ev (S:=ctl) (CCreateAudit au) y :: t')) ∧
    (x ≠ Ok tt → length (Ev (S:=ctl) (CCreateAudit au) y :: t') = S k)) as Hdone.
  { intros Ha [-> <-]. cbn. split; [lia|]. split; [by repeat constructor|].
    split; [|done]. split; [|done]. intros _. by apply Exists_cons_hd. }
  destruct y as [y|e]; [by apply Hdone|].
  destruct (IsAlreadyExists e) eqn:E; [by apply Hdone|].
  apply IH in Hr as (Hl & Hc & Hx & Hn); [|by right].
  cbn. split; [lia|]. split; [by constructor|]. split; [|intros; f_equal; auto].
  rewrite Hx, Exists_cons. cbn. rewrite E. naive_solver.
Qed.

(** Audit creation is tried at most three times, always with the same record,
    stops at the first try the server accepts, and succeeds exactly then. *)
Theorem audit_retry_bounded au t x :
  runs (createAuditWithRetry au) t x →
  (length t <= 3)%nat ∧ Forall (λ e, ev_call (S:=ctl) e = CCreateAudit au) t ∧
  (x = Ok tt ↔ Exists accepted_event t) ∧ (x ≠ Ok tt → length t = 3%nat).
Proof. apply attempts_spec. by left. Qed.
End reconcile.
