(* ===== verification/SinglePhase.v ===== *)
(** * A reconcile changes the phase at most once

    Once [Reconcile] has asked the server to change the phase, whatever the
    answer, it makes no further status patch.  [System] builds on this: what a
    reconcile knows of the phase is what it read. *)

From S2P Require Import Prelude GoStd GoStrings Types Prog Kube Conditions Evaluation.
From S2P Require Import TargetURI AgentRequestController ControllerSpec ControllerRefines LifecycleFacts AuditTrail.

(** Every status patch so far kept the phase. *)
Definition unmoved (h : list (event ctl)) : Prop :=
  ∀ b n x, Ev (S:=ctl) (CPatchARStatus b n) x ∈ h → phase b = phase n.

Definition settled_call (h : list (event ctl)) (c : call) : Prop := other c ∨ unmoved h.

(** [once p F]: in [p] no status patch follows a change of the phase, and after
    a change the result satisfies [F].  [closing p F]: [p] makes no status
    patch and its result satisfies [F]. *)
Definition once {A} (p : prog ctl A) (F : A → Prop) : Prop :=
  ∀ h, unmoved h → safe faithful settled_call h p (λ h' x, unmoved h' ∨ F x).
Definition closing {A} (p : prog ctl A) (F : A → Prop) : Prop :=
  ∀ h, safe (S:=ctl) any (λ _ c, other c) h p (λ _ x, F x).

Lemma unmoved_snoc h c (x : resp c) : unmoved h → other c → unmoved (h ++ [Ev (S:=ctl) c x]).
Proof.
  intros Hu Hc b n y [Hin|Hin]%elem_of_app; [eauto|].
  exfalso. exact (quiet_one c x Hc b n y Hin).
Qed.

Lemma closing_ret {A} (x : A) (F : A → Prop) : F x → closing (Ret x) F.
Proof. by intros ? h. Qed.

Lemma closing_patchless {A} (p : prog ctl A) : patchless p → closing p (λ _, True).
Proof.
  intros Hp h. revert Hp. unfold patchless. generalize (@nil (event ctl)). intros h0. revert h h0.
  induction p as [a|c k IH]; intros h h0; cbn; [done|]. intros [Hc Hk]. split; [done|].
  intros x Hx. eapply IH. by apply Hk.
Qed.

Lemma closing_bind {A B} (p : prog ctl A) (k : A → prog ctl B) (G : A → Prop) F :
  closing p G → (∀ x, G x → closing (k x) F) → closing (bind p k) F.
Proof. intros Hp Hk h. apply safe_bind. eapply safe_post; [|apply Hp]. intros h' x Hx. by apply Hk. Qed.

Lemma closing_skip {A B} (p : prog ctl A) (k : A → prog ctl B) F :
  patchless p → (∀ x, closing (k x) F) → closing (bind p k) F.
Proof. intros Hp Hk. eapply closing_bind; [by apply closing_patchless|auto]. Qed.

Lemma closing_safe {A} (p : prog ctl A) F h :
  closing p F → safe faithful settled_call h p (λ h' x, unmoved h' ∨ F x).
Proof. intros Hp. eapply safe_mono; [| | |apply Hp]; [done|by left|by right]. Qed.

Lemma once_ret {A} (x : A) F : once (Ret x) F.
Proof. intros h Hu. by left. Qed.

Lemma once_patchless {A B} (p : prog ctl A) (k : A → prog ctl B) F :
  patchless p → (∀ x, once (k x) F) → once (bind p k) F.
Proof.
  intros Hp Hk h Hu. apply safe_bind. pose proof (closing_patchless _ Hp h) as Hs. clear Hp. revert h Hu Hs.
  induction p as [a|c kk IH]; intros h Hu; cbn; [intros _; by apply Hk|].
  intros [Hc Hs]. split; [by left|]. intros x Hx. apply IH; [by apply unmoved_snoc|by apply Hs].
Qed.

Lemma once_bind {A B} (p : prog ctl A) (k : A → prog ctl B) (G : A → Prop) F :
  once p G → (∀ x, once (k x) F) → (∀ x, G x → closing (k x) F) → once (bind p k) F.
Proof.
  intros Hp Hk Hg h Hu. apply safe_bind. eapply safe_post; [|by apply Hp]. intros h' x [Hx|Hx].
  - by apply Hk.
  - by apply closing_safe, Hg.
Qed.

Lemma once_patch {B} b n (k : res AgentRequest → prog ctl B) F :
  (phase b = phase n → ∀ a', keeps n a' → once (k (Ok a')) F) → (phase b = phase n → ∀ e, once (k (Err e)) F) →
  (phase b ≠ phase n → (∀ a', keeps n a' → closing (k (Ok a')) F) ∧ (∀ e, closing (k (Err e)) F)) →
  once (bind (patch_status b n) k) F.
Proof.
  intros Hk He Hc h Hu. split; [by right|]. intros x Hx.
  destruct (decide (phase b = phase n)) as [E|E].
  - assert (unmoved (h ++ [Ev (S:=ctl) (CPatchARStatus b n) x])) as Hu'.
    { intros b' n' y [Hin|Hin%list_elem_of_singleton]%elem_of_app; [eauto|].
      apply (f_equal (ev_call (S:=ctl))) in Hin. cbn in Hin. by injection Hin as -> ->. }
    destruct x as [a'|e]; [by apply Hk|by apply He].
  - destruct (Hc E) as [Ha Hb]. destruct x as [a'|e]; [by apply closing_safe, Ha|by apply closing_safe, Hb].
Qed.

Section once.
Context `{MC : MetaConditions, EV : Evaluator, KL : KubeLib}.
Context (r : AgentRequestReconciler).

Lemma once_set_cond {A} c a (k : AgentRequest → prog ctl A) F :
  (∀ now, once (k (set_conditions (SetStatusCondition (conditions a) c now) a)) F) → once (bind (set_cond c a) k) F.
Proof.
  intros Hk. change (bind (set_cond c a) k) with
    (bind (call_ CWallNow) (λ now, k (set_conditions (SetStatusCondition (conditions a) c now) a))).
  apply once_patchless; [by split|done].
Qed.

(** A reconcile step by step. *)
Ltac once_step :=
  match goal with
  | |- once (Ret _) _ => apply once_ret
  | |- once (bind (set_cond _ _) _) _ => apply once_set_cond; intros ?
  | |- once (bind (metric_ _) _) _ => apply once_patchless; [by split|intros ?]
  | |- once (bind (call_ _) _) _ => apply once_patchless; [by split|intros ?]
  | |- once (bind (emitAuditRecord _ _ _ _ _) _) _ => apply once_patchless; [apply emit_patchless|intros ?]
  | |- once (bind (releaseLock _) _) _ => apply once_patchless; [apply release_patchless|intros ?]
  | |- once (bind (createAuditWithRetry _) _) _ => apply once_patchless; [apply retry_patchless|intros ?]
  | |- once (bind (patch_status ?b ?n) _) _ => apply (once_patch b n); [intros ? ? ?|intros ? ?|intros ?; split; [intros ? ?|intros ?]]
  | |- once (bind (Ret _) _) _ => cbn [bind]
  | |- once (bind (bind _ _) _) _ => apply once_patchless; [patchless|intros ?]
  | |- once (bind (match _ with _ => _ end) _) _ => apply once_patchless; [patchless|intros ?]
  | |- once (match ?x with _ => _ end) _ => destruct x
  | |- once (if ?x then _ else _) _ => destruct x
  | |- closing (Ret _) _ => apply closing_ret
  | |- closing (bind (metric_ _) _) _ => apply closing_skip; [by split|intros ?]
  | |- closing (bind (call_ _) _) _ => apply closing_skip; [by split|intros ?]
  | |- closing (bind (emitAuditRecord _ _ _ _ _) _) _ => apply closing_skip; [apply emit_patchless|intros ?]
  | |- closing (bind (releaseLock _) _) _ => apply closing_skip; [apply release_patchless|intros ?]
  | |- closing (bind (createAuditWithRetry _) _) _ => apply closing_skip; [apply retry_patchless|intros ?]
  | |- closing (bind (Ret _) _) _ => cbn [bind]
  | |- closing (bind (bind _ _) _) _ => apply closing_skip; [patchless|intros ?]
  | |- closing (match ?x with _ => _ end) _ => destruct x
  | |- closing (if ?x then _ else _) _ => destruct x
  end.
Ltac once_steps := repeat once_step; try done.

Abbreviation anything := (λ _, True).

Lemma lock_once a from : once (handleLockAcquisition r a from) anything.
Proof.
  unfold handleLockAcquisition, lock_exists, take_over, lock_contended, lock_acquired, count_denial. once_steps.
Qed.

Lemma commit_once base new result au from :
  phase new = (if res_Action result ==? ResultDeny then PhaseDenied else phase base) →
  once (commit_evaluation r base new result au from) anything.
Proof.
  intros Hp. unfold commit_evaluation. apply once_patch.
  - intros E a' Hk. once_steps. apply lock_once.
  - intros E e. apply once_ret.
  - intros E. destruct (res_Action result ==? ResultDeny); [|congruence]. split; intros; once_steps.
Qed.

Lemma evaluation_once a result au : once (handleEvaluationResult r a result au) anything.
Proof.
  unfold handleEvaluationResult. once_step. destruct (res_Action result ==? ResultDeny) eqn:E.
  - do 4 once_step. apply commit_once. by rewrite E.
  - destruct (res_Action result ==? ResultRequireApproval) eqn:E2;
      [destruct (map_str (om_Annotations (ar_Meta a)) AnnotationRequiresHumanApproval ==? "false")|].
    + once_steps.
    + once_step. apply commit_once. by rewrite E.
    + apply commit_once. by rewrite E.
Qed.

Lemma pending_once a : once (reconcilePending r a) anything.
Proof.
  unfold reconcilePending, handleApprovalWait, human_denied, count_denial.
  destruct (IsStatusConditionTrue _ _); [destruct (IsStatusConditionTrue _ _)|].
  - once_steps. apply lock_once.
  - apply lock_once.
  - unfold pending_unevaluated. once_step. destruct x as [ps|e]; [|apply once_ret].
    apply once_patchless; [patchless|]. intros [gl|e]; [|apply once_ret].
    apply once_patchless; [apply fetch_target_patchless|]. intros [[tc cc]|e]; [|apply once_ret].
    apply (once_bind _ _ (λ _, False)); [| |done].
    + unfold provider_step. once_steps. apply once_patchless; [apply fetch_context_patchless|].
      intros [a' pc]. once_steps.
    + intros [[res|a']|e]; [apply once_ret| |apply once_ret]. unfold evaluate_pending. once_steps. apply evaluation_once.
Qed.

Lemma machine_once a : once (state_machine r a) anything.
Proof.
  unfold state_machine, reconcileApproved, approved_timeout, approved_heartbeat, reconcileExecuting,
    fail_executing, reconcileAwaitingVerdict.
  once_steps. apply pending_once.
Qed.

(** A step that changed the phase reports that it handled the request. *)
Definition handled (x : res bool) : Prop := x ≠ Ok false.

Lemma transitions_once a : once (checkAgentTransitions r a) handled.
Proof. unfold checkAgentTransitions, agent_completed, agent_failed, agent_executing. once_steps. Qed.

Lemma initialize_once a rd : once (initializePhase a rd) handled.
Proof.
  unfold initializePhase. destruct (_ || _); [apply once_ret|].
  unfold init_denied, init_observed, init_admitted. once_steps.
  apply once_patchless; [unfold initial_phase; patchless|]. intros [[[p reason] msg]|e]; once_steps.
Qed.

Lemma governed_once a ref :
  once (checkGovernedResourceIntegrity a ref) (λ x, ∀ a', x = Ok a' → phase a' = PhaseDenied).
Proof.
  unfold checkGovernedResourceIntegrity, deny_governed, count_denial. once_steps.
  all: intros ? [= <-]; match goal with H : keeps _ _ |- _ => by destruct H as [-> _] end.
Qed.

Lemma drive_once a : once (drive r a) anything.
Proof.
  unfold drive. eapply once_bind; [apply transitions_once| |].
  - intros [[|]|e]; [apply once_ret| |apply once_ret]. eapply once_bind; [apply initialize_once| |].
    + intros [[|]|e]; [apply once_ret|apply machine_once|apply once_ret].
    + intros [[|]|e]; [intros _; by apply closing_ret|done|intros _; by apply closing_ret].
  - intros [[|]|e]; [intros _; by apply closing_ret|done|intros _; by apply closing_ret].
Qed.

Lemma reconcile_once req : once (Reconcile r req) anything.
Proof.
  unfold Reconcile. apply once_patchless; [by split|]. intros [a|e]; [|apply once_ret]. unfold reconcile_request.
  destruct (phase a ==? PhaseCompleted).
  { destruct (st_Result (ar_Status a)); [|apply once_ret].
    apply once_patchless; [|by intros [|]; apply once_ret].
    unfold backfillCompletedAuditResult. apply patchless_call; [exact I|].
    intros [items|e]; [apply backfill_patchless|done]. }
  destruct (terminal_inert (phase a)); [apply once_ret|].
  destruct (governedResourceRef a); [|apply drive_once].
  eapply once_bind; [apply governed_once| |].
  - intros [a'|e]; [|apply once_ret]. destruct (phase a' ==? PhaseDenied); [apply once_ret|apply drive_once].
  - intros [a'|e] Hd; [|by apply closing_ret]. rewrite (Hd a' eq_refl). by apply closing_ret.
Qed.

(** When [Reconcile] makes a status patch, its earlier ones kept the phase: it
    changes the phase at most once, and last. *)
Theorem one_phase_change req t b n : reaches r req t (CPatchARStatus b n) → unmoved t.
Proof.
  intros (Hf & x & t2 & He). assert (unmoved []) as Hn by (intros b0 n0 y; set_solver).
  by destruct (safe_emits _ _ _ _ _ _ _ _ _ (reconcile_once req [] Hn) Hf He).
Qed.

End once.
