(* ===== verification/LifecycleExamples.v ===== *)
(** * Executions of the controller

    Concrete runs against [Cluster]: a request from submission to completion,
    witnesses for the theorems of [LifecycleFacts], and the executions behind
    three findings (a stale cache lets two requests take one expired lock; a
    failed lease delete leaks the lock; the active gauge goes negative). *)

From S2P Require Import Prelude GoStd GoStrings Types Prog Kube Conditions Evaluation.
From S2P Require Import EvaluationFacts TargetURI AgentRequestController ControllerSpec ControllerRefines Cluster LifecycleFacts AuditTrail.
Import EvalExamples.

(** An evaluator that decides by the action, and library stand-ins. *)
Definition toy_evaluator : Evaluator := {|
  Evaluate := λ req _ _ _,
    let act := spec_Action (ar_Spec req) in
    Ok (if act ==? "delete" then mkRes ResultDeny DenialCodePolicyViolation "no deletes" []
        else if act ==? "scale" then mkRes ResultRequireApproval "" "ask first" []
        else mkRes ResultAllow "" "All policies passed" []) |}.

Definition toy_lib : KubeLib := {|
  SetControllerReference := λ owner _,
    Ok [mkOwner "AgentRequest" (om_Name owner) (om_UID owner) true];
  LabelSelectorAsSelector := λ sel, inr (λ ls, bool_decide (ls_MatchLabels sel ⊆ ls));
  JSONSchemaPropsV1 := unit; JSONSchemaProps := unit; SchemaValidator := unit;
  json_Unmarshal_schema := λ _, inr tt;
  Convert_JSONSchemaProps := λ _, inr tt;
  NewSchemaValidator := λ _, inr tt;
  json_Unmarshal_any := λ _, inr VNull;
  Validate := λ _ _, [] |}.

#[local] Existing Instance list_conditions.
#[local] Existing Instance toy_evaluator.
#[local] Existing Instance toy_lib.

Definition rec0 : AgentRequestReconciler := mkReconciler true 0 0 0 true false.
Definition nn (n : string) : NamespacedName := NN "default" n.
Definition uri : string := "k8s://prod/default/deployment/api".
Definition world0 (rs : list AgentRequest) : world :=
  mkWorld Second (list_to_map ((λ a, (key_of (ar_Meta a), a)) <$> rs)) ∅ [] ∅ ∅ ∅ 0 false.

(** The world after reconciling the requests in order. *)
Definition reconcile_all (fresh : bool) (ns : list string) (w : world) : world :=
  fold_left (λ w n, (exec fresh (Reconcile rec0 (nn n)) w).2) ns w.

Definition holders (w : world) : list (option string) :=
  lease_HolderIdentity ∘ snd <$> map_to_list (w_leases w).

Definition phase_of (w : world) (n : string) : option string := phase <$> w_ars w !! nn n.

(** What the gateway does to a request between reconciles. *)
Definition update (n : string) (f : AgentRequest → AgentRequest) (w : world) : world :=
  set_ars (alter f (nn n) (w_ars w)) w.
Definition signal (ty : string) (a : AgentRequest) : AgentRequest :=
  set_conditions (SetStatusCondition (conditions a) (cond ty ConditionTrue "Agent" "") Second) a.
Definition approve (a : AgentRequest) : AgentRequest :=
  set_ar_Spec (set_spec_HumanApproval (Some (mkHA "approved" "" 1 "bob")) (ar_Spec a)) a.

Definition pending (n act : string) : AgentRequest := req_ n "agent-1" act uri.

(** A request that needs approval: submitted, evaluated, waiting; approved by
    a human, locked; executing; completed, with the lock given back and the
    active gauge back at zero. *)
Example full_lifecycle :
  let w1 := reconcile_all true ["r1"; "r1"; "r1"]%string (world0 [pending "r1" "scale"]) in
  let w2 := reconcile_all true ["r1"]%string (update "r1" approve w1) in
  let w3 := reconcile_all true ["r1"]%string (update "r1" (signal ConditionExecuting) w2) in
  let w4 := reconcile_all true ["r1"]%string (update "r1" (signal ConditionCompleted) w3) in
  phase_of w1 "r1" = Some PhasePending ∧ w_leases w1 = ∅ ∧
  phase_of w2 "r1" = Some PhaseApproved ∧ holders w2 = [Some "agent-1/r1"%string] ∧
  phase_of w3 "r1" = Some PhaseExecuting ∧ phase_of w4 "r1" = Some PhaseCompleted ∧
  w_leases w4 = ∅ ∧ w_active w4 = 0 ∧ size (w_audits w4) = 7%nat.
Proof. vm_compute. repeat split; reflexivity. Qed.

(** ** A trace to cite

    The second reconcile of a request that policy allows: evaluation, lock,
    approval. *)

Definition w_allowed : world := reconcile_all true ["r1"]%string (world0 [pending "r1" "read"]).
Definition trace_of (w : world) : list (event ctl) := (exec true (Reconcile rec0 (nn "r1")) w).1.1.
Definition trace1 : list (event ctl) := Eval vm_compute in trace_of w_allowed.

(** Others: an expired lease is taken over; policy denies; the agent is late. *)
Definition expired_lease : Lease :=
  set_lease_HolderIdentity (Some "old/gone"%string) (new_lease rec0 (pending "r1" "read") 0 0).
Definition put_lease (l : Lease) (w : world) : world :=
  sync (set_leases (<[key_of (lease_Meta l) := l]> (w_leases w)) w).

Definition w_contended : world := set_now Hour (put_lease expired_lease w_allowed).
Definition trace2 : list (event ctl) := Eval vm_compute in trace_of w_contended.
Definition w_denied : world := reconcile_all true ["r1"]%string (world0 [pending "r1" "delete"]).
Definition trace3 : list (event ctl) := Eval vm_compute in trace_of w_denied.
Definition w_late : world :=
  set_now Hour (reconcile_all true ["r1"]%string
    (update "r1" (signal ConditionExecuting) (reconcile_all true ["r1"]%string w_allowed))).
Definition trace4 : list (event ctl) := Eval vm_compute in trace_of w_late.

Lemma trace1_eq : trace1 = trace_of w_allowed.
Proof. vm_compute. reflexivity. Qed.
Lemma trace2_eq : trace2 = trace_of w_contended.
Proof. vm_compute. reflexivity. Qed.
Lemma trace3_eq : trace3 = trace_of w_denied.
Proof. vm_compute. reflexivity. Qed.
Lemma trace4_eq : trace4 = trace_of w_late.
Proof. vm_compute. reflexivity. Qed.

(** The call at a position of a trace. *)
Definition call_at (t : list (event ctl)) (n : nat) : call :=
  match t !! n with Some e => ev_call (S:=ctl) e | None => CNow end.

Lemma reaches_at r req t n a :
  runs (Reconcile r req) t a → bool_decide (Forall faithful t) = true → (n <? length t)%nat = true →
  reaches r req (take n t) (call_at t n).
Proof.
  intros Hr Hf%bool_decide_eq_true Hn%Nat.ltb_lt.
  destruct (lookup_lt_is_Some_2 t n Hn) as [[c x] He].
  unfold call_at. rewrite He. split; [by apply Forall_take|].
  exists x, (drop (S n) t). cbn [ev_call]. rewrite (take_drop_middle t n (Ev c x) He).
  apply (runs_emits _ t [] a). by rewrite app_nil_r.
Qed.

Lemma trace_reaches t w n :
  t = trace_of w → bool_decide (Forall faithful t) = true → (n <? length t)%nat = true →
  reaches rec0 (nn "r1") (take n t) (call_at t n).
Proof. intros Ht Hf Hn. eapply reaches_at; [rewrite Ht; apply exec_runs|exact Hf|exact Hn]. Qed.

(** The objects of the patch at a position. *)
Definition base_at (t : list (event ctl)) (n : nat) : AgentRequest :=
  match call_at t n with CPatchARStatus b _ => b | _ => example_req end.
Definition new_at (t : list (event ctl)) (n : nat) : AgentRequest :=
  match call_at t n with CPatchARStatus _ a => a | _ => example_req end.
Definition is_patch (t : list (event ctl)) (n : nat) : bool :=
  match call_at t n with CPatchARStatus _ _ => true | _ => false end.

Lemma reaches_patch t w n :
  t = trace_of w → bool_decide (Forall faithful t) = true → (n <? length t)%nat = true →
  is_patch t n = true →
  reaches rec0 (nn "r1") (take n t) (CPatchARStatus (base_at t n) (new_at t n)).
Proof.
  intros Ht Hf Hn Hp. pose proof (trace_reaches t w n Ht Hf Hn) as Hr.
  unfold is_patch, base_at, new_at in *. by destruct (call_at t n).
Qed.

(** ** Three executions that show a flaw *)

(** With an informer that lags behind one write, two requests for the same
    target are both approved on the same expired lease: the take-over reads
    the lease from the cache and patches it without a precondition. *)
Example stale_cache_double_lock :
  let w := set_now Hour (put_lease expired_lease
             (reconcile_all true ["r1"; "r2"]%string (world0 [pending "r1" "read"; pending "r2" "read"]))) in
  let w' := reconcile_all false ["r1"; "r2"]%string w in
  phase_of w' "r1" = Some PhaseApproved ∧ phase_of w' "r2" = Some PhaseApproved ∧
  size (w_leases w') = 1%nat.
Proof. vm_compute. repeat split; reflexivity. Qed.

(** When the lease cannot be deleted after the request was patched to
    Completed, no later reconcile releases the lock: terminal requests are
    left alone. *)
Example lock_leaks_when_release_fails :
  let w1 := reconcile_all true ["r1"; "r1"]%string (world0 [pending "r1" "read"]) in
  let w2 := set_delete_fails true (update "r1" (signal ConditionCompleted) w1) in
  let w3 := set_delete_fails false (reconcile_all true ["r1"]%string w2) in
  let w4 := reconcile_all true ["r1"; "r1"]%string w3 in
  phase_of w4 "r1" = Some PhaseCompleted ∧ holders w4 = [Some "agent-1/r1"%string].
Proof. vm_compute. repeat split; reflexivity. Qed.

(** A request whose GovernedResource is gone before its first reconcile is
    counted out of the active gauge without ever having been counted in. *)
Example active_gauge_negative :
  let a := set_ar_Spec (set_spec_GovernedResourceRef (Some (mkGRRef "gone" 1)) (ar_Spec (pending "r1" "read")))
             (pending "r1" "read") in
  let w := reconcile_all true ["r1"]%string (world0 [a]) in
  phase_of w "r1" = Some PhaseDenied ∧ w_active w = -1.
Proof. vm_compute. repeat split; reflexivity. Qed.

(** ** Witnesses *)

Ltac patch_of t w n E :=
  apply (reaches_patch t w n E); vm_compute; reflexivity.

Lemma approve_reached :
  reaches rec0 (nn "r1") (take 15 trace1) (CPatchARStatus (base_at trace1 15) (new_at trace1 15)).
Proof. patch_of trace1 w_allowed 15%nat trace1_eq. Qed.

Lemma deny_reached :
  reaches rec0 (nn "r1") (take 11 trace3) (CPatchARStatus (base_at trace3 11) (new_at trace3 11)).
Proof. patch_of trace3 w_denied 11%nat trace3_eq. Qed.

Lemma fail_reached :
  reaches rec0 (nn "r1") (take 7 trace4) (CPatchARStatus (base_at trace4 7) (new_at trace4 7)).
Proof. patch_of trace4 w_late 7%nat trace4_eq. Qed.

Lemma take_over_reached : reaches rec0 (nn "r1") (take 16 trace2) (call_at trace2 16).
Proof. apply (trace_reaches trace2 w_contended 16 trace2_eq); vm_compute; reflexivity. Qed.

(** The lease before and after the take-over. *)
Definition lease_before : Lease :=
  match call_at trace2 16 with CPatchLease l _ => l | _ => expired_lease end.
Definition lease_after : Lease :=
  match call_at trace2 16 with CPatchLease _ l => l | _ => expired_lease end.

Lemma reconcile_refines_witness :
  allowed rec0 (take 15 trace1) (CPatchARStatus (base_at trace1 15) (new_at trace1 15)).
Proof. apply (reconcile_refines rec0 (nn "r1")). exact approve_reached. Defined.

Lemma reconcile_phase_steps_witness :
  lifecycle (phase (base_at trace1 15)) (phase (new_at trace1 15)) ∧
  terminal (phase (base_at trace1 15)) = false.
Proof. apply (reconcile_phase_steps rec0 (nn "r1") (take 15 trace1)). exact approve_reached. Defined.

Lemma approved_only_with_lock_witness :
  cleared rec0 (take 15 trace1) (base_at trace1 15) ∧ holds_lock rec0 (take 15 trace1) (base_at trace1 15).
Proof.
  apply (approved_only_with_lock rec0 (nn "r1") (take 15 trace1) (base_at trace1 15) (new_at trace1 15)).
  - exact approve_reached.
  - vm_compute. reflexivity.
Defined.

Lemma status_write_frame_witness :
  ∃ p cs d pc, new_at trace4 7 =
    upd_status (λ s, set_st_Phase p (set_st_Conditions cs
      (set_st_Denial d (set_st_ProviderContext pc s)))) (base_at trace4 7).
Proof. apply (status_write_frame rec0 (nn "r1") (take 7 trace4)). exact fail_reached. Defined.

Lemma no_renewal_while_executing_witness :
  ∃ a, about (take 16 trace2) a ∧ (phase a = PhaseApproved ∨ phase a = PhasePending).
Proof.
  apply (no_renewal_while_executing rec0 (nn "r1") (take 16 trace2) lease_before lease_after).
  exact take_over_reached.
Defined.

Lemma denial_explained_witness :
  ∃ d, st_Denial (ar_Status (new_at trace3 11)) = Some d ∧
       denial_reason rec0 (take 11 trace3) (base_at trace3 11) (dn_Code d).
Proof.
  apply (denial_explained rec0 (nn "r1")).
  - exact deny_reached.
  - vm_compute. reflexivity.
Defined.

Lemma failure_explained_witness :
  failure_reason rec0 (take 7 trace4) (base_at trace4 7) (phase (new_at trace4 7)).
Proof.
  apply (failure_explained rec0 (nn "r1")).
  - exact fail_reached.
  - left. vm_compute. reflexivity.
Defined.

Lemma lease_never_stolen_witness :
  (∃ a, lease_HolderIdentity lease_before = Some (holder_of a) ∧
        lease_HolderIdentity lease_after = lease_HolderIdentity lease_before ∧
        phase a = PhaseApproved ∧ read (take 16 trace2) a ∧
        seen (take 16 trace2) (CGetLease Cached (lease_key a)) (Ok lease_before)) ∨
  (∃ now a, seen (take 16 trace2) CNow now ∧ lease_expired_at lease_before now = Some true ∧
        lease_HolderIdentity lease_after = Some (holder_of a) ∧ cleared rec0 (take 16 trace2) a).
Proof.
  apply (lease_never_stolen rec0 (nn "r1") (take 16 trace2) lease_before lease_after).
  exact take_over_reached.
Defined.

(** What the server stored for the patch at a position. *)
Definition stored_at (t : list (event ctl)) (n : nat) : AgentRequest :=
  match t !! n with
  | Some (Ev c x) =>
      match c return resp c → AgentRequest with
      | CPatchARStatus _ _ => λ x, match x with Ok a => a | Err _ => example_req end
      | _ => λ _, example_req
      end x
  | None => example_req
  end.

Lemma phase_changes_audited_witness : recorded trace1 (base_at trace1 15) (new_at trace1 15).
Proof.
  apply (phase_changes_audited rec0 (nn "r1") trace1 Result0 _ _ (stored_at trace1 15)).
  - pose proof (exec_runs true (Reconcile rec0 (nn "r1")) w_allowed) as Hr.
    change (exec true (Reconcile rec0 (nn "r1")) w_allowed).1.1 with (trace_of w_allowed) in Hr.
    rewrite <- trace1_eq in Hr.
    assert ((exec true (Reconcile rec0 (nn "r1")) w_allowed).1.2 = Ok Result0) as E
      by (vm_compute; reflexivity).
    rewrite E in Hr. exact Hr.
  - apply (bool_decide_eq_true_1 (Forall faithful trace1)). vm_compute. reflexivity.
  - apply (list_elem_of_lookup_2 trace1 15). vm_compute. reflexivity.
  - vm_compute. discriminate.
Defined.

Definition example_audit : AuditRecord :=
  audit_record (pending "r1" "read") AuditEventRequestSubmitted "" PhasePending ∅ 0.
Definition refused : event ctl := Ev (S:=ctl) (CCreateAudit example_audit) (Err (EApi Conflict)).
Definition on_server : event ctl := Ev (S:=ctl) (CCreateAudit example_audit) (Err (EApi AlreadyExists)).

Lemma audit_retry_bounded_witness :
  Exists accepted_event [refused; refused; on_server].
Proof.
  apply (audit_retry_bounded example_audit [refused; refused; on_server] (Ok tt)); [|reflexivity].
  exists (Err (EApi Conflict)), [refused; on_server]. split; [reflexivity|].
  exists (Err (EApi Conflict)), [on_server]. split; [reflexivity|].
  exists (Err (EApi AlreadyExists)), []. split; [reflexivity|]. split; reflexivity.
Defined.

(** The first reconcile of a request whose agent may not execute. *)
Definition untrusted : AgentRequest :=
  let a := pending "r1" "read" in
  let m := ar_Meta a in
  set_ar_Meta (mkMeta (om_Name m) (om_GenerateName m) (om_Namespace m) (om_UID m) (om_Labels m)
    {[ AnnotationCanExecute := "false"%string ]} (om_Generation m) (om_ResourceVersion m)
    (om_CreationTimestamp m) (om_DeletionTimestamp m) (om_Finalizers m) (om_OwnerReferences m))
    (set_phase "" a).
Definition trace5 : list (event ctl) := Eval vm_compute in trace_of (world0 [untrusted]).

Lemma trace5_eq : trace5 = trace_of (world0 [untrusted]).
Proof. vm_compute. reflexivity. Qed.

Lemma untrusted_never_executes_witness : executable (phase (new_at trace5 4)) = false.
Proof.
  apply (untrusted_never_executes rec0 (nn "r1") (take 4 trace5) (base_at trace5 4)).
  - patch_of trace5 (world0 [untrusted]) 4%nat trace5_eq.
  - left. vm_compute. reflexivity.
  - vm_compute. reflexivity.
Defined.
