(* ===== verification/GoFloat.v ===== *)
(** * [float64] arithmetic and [time.ParseDuration]

    Go's [float64] is IEEE 754 binary64; the Standard Library's [SpecFloat]
    gives its operations with rounding to nearest even.  [ParseDuration] is
    Go's, digit by digit, its fractions through [float64]. *)

From Stdlib Require Import SpecFloat.
From S2P Require Import Prelude GoStd GoStrings.

Definition f64_add : spec_float → spec_float → spec_float := SFadd 53 1024.
Definition f64_sub : spec_float → spec_float → spec_float := SFsub 53 1024.
Definition f64_mul : spec_float → spec_float → spec_float := SFmul 53 1024.
Definition f64_div : spec_float → spec_float → spec_float := SFdiv 53 1024.
Definition f64_lt : spec_float → spec_float → bool := SFltb.

(** [float64(n)]. *)
Definition f64_of_int (n : Z) : spec_float := binary_normalize 53 1024 n 0 false.

Definition f64_zero : spec_float := S754_zero false.
Definition f64_half : spec_float := S754_finite false 4503599627370496 (-53).

(** [uint64(x)] of a non-negative finite [x]: truncation. *)
Definition f64_trunc (x : spec_float) : Z :=
  match x with
  | S754_finite false m e => if 0 <=? e then Z.pos m * 2 ^ e else Z.pos m / 2 ^ (- e)
  | _ => 0
  end.

Lemma half_is_half : f64_half = f64_div (f64_of_int 1) (f64_of_int 2).
Proof. vm_compute. reflexivity. Qed.

(** ** [time.ParseDuration] *)

Definition two63 : Z := 2 ^ 63.

(** [leadingInt]: [None] is overflow. *)
Fixpoint leadingInt (s : string) (x : Z) : option (Z * string) :=
  match s with
  | String a s' =>
      if is_digit a then
        if two63 / 10 <? x then None
        else
          let x := x * 10 + (ord a - 48) in
          if two63 <? x then None else leadingInt s' x
      else Some (x, s)
  | EmptyString => Some (x, s)
  end.

(** [leadingFraction]: digits after an overflow are skipped. *)
Fixpoint leadingFraction (s : string) (x : Z) (scale : spec_float) (overflow : bool)
  : Z * spec_float * string :=
  match s with
  | String a s' =>
      if is_digit a then
        if overflow then leadingFraction s' x scale overflow
        else if (two63 - 1) / 10 <? x then leadingFraction s' x scale true
        else
          let y := x * 10 + (ord a - 48) in
          if two63 <? y then leadingFraction s' x scale true
          else leadingFraction s' y (f64_mul scale (f64_of_int 10)) overflow
      else (x, scale, s)
  | EmptyString => (x, scale, s)
  end.

(** The unit: up to the next digit or period. *)
Fixpoint take_unit (s : string) : string * string :=
  match s with
  | String a s' =>
      if (ord a =? 46) || is_digit a then (EmptyString, s)
      else let '(u, r) := take_unit s' in (String a u, r)
  | EmptyString => (EmptyString, s)
  end.

(** The two spellings of microseconds, U+00B5 and U+03BC. *)
Definition micro1 : string := String (chr 194) (String (chr 181) "s").
Definition micro2 : string := String (chr 206) (String (chr 188) "s").

Definition unitMap (u : string) : option Z :=
  if u ==? "ns" then Some 1
  else if (u ==? "us") || (u ==? micro1) || (u ==? micro2) then Some 1000
  else if u ==? "ms" then Some 1000000
  else if u ==? "s" then Some Second
  else if u ==? "m" then Some Minute
  else if u ==? "h" then Some Hour
  else None.

(** The fraction after a period: its digits as an integer, their scale, the
    rest, and whether a digit was read. *)
Definition fraction_part (s1 : string) : Z * spec_float * string * bool :=
  match s1 with
  | String b s1' =>
      if ord b =? 46 then
        let '(f, scale, s2) := leadingFraction s1' 0 (f64_of_int 1) false in
        (f, scale, s2, negb (String.length s1' =? String.length s2)%nat)
      else (0, f64_of_int 1, s1, false)
  | EmptyString => (0, f64_of_int 1, s1, false)
  end.

(** One number with its unit: its value, and the rest. *)
Definition parse_component (s : string) : option (Z * string) :=
  match s with
  | EmptyString => None
  | String a _ =>
      if negb ((ord a =? 46) || is_digit a) then None
      else
        '(v, s1) ← leadingInt s 0;
        let pre := negb (String.length s =? String.length s1)%nat in
        let '(f, scale, s2, post) := fraction_part s1 in
        if negb pre && negb post then None
        else
          let '(u, rest) := take_unit s2 in
          if u ==? "" then None
          else
            unit ← unitMap u;
            if two63 / unit <? v then None
            else
              let v := v * unit in
              if 0 <? f then
                let v := v + f64_trunc (f64_mul (f64_of_int f) (f64_div (f64_of_int unit) scale)) in
                if two63 <? v then None else Some (v, rest)
              else Some (v, rest)
  end.

(** The loop: every round consumes at least one byte. *)
Fixpoint parse_components (fuel : nat) (s : string) (d : Z) : option Z :=
  match fuel with
  | O => Some d
  | S fuel' =>
      if s ==? "" then Some d
      else
        '(v, rest) ← parse_component s;
        if two63 <? d + v then None else parse_components fuel' rest (d + v)
  end.

Definition ParseDuration (s : string) : option Z :=
  let '(neg, s) :=
    match s with
    | String a s' => if ord a =? 45 then (true, s') else if ord a =? 43 then (false, s') else (false, s)
    | EmptyString => (false, s)
    end in
  if s ==? "0" then Some 0
  else if s ==? "" then None
  else
    d ← parse_components (String.length s) s 0;
    if neg then Some (- d) else if two63 - 1 <? d then None else Some d.

Example parse_duration_examples :
  ParseDuration "168h" = Some (168 * Hour) ∧ ParseDuration "1h15m30.918s" = Some (4530918 * 1000000) ∧
  ParseDuration "-1.5h" = Some (- (90 * Minute)) ∧ ParseDuration "1" = None ∧ ParseDuration "" = None ∧
  ParseDuration "9223372036854775808ns" = None ∧ ParseDuration "-9223372036854775808ns" = Some (- 2 ^ 63) ∧
  ParseDuration ".s" = None.
Proof. vm_compute. repeat split; reflexivity. Qed.

(** ** Facts *)

Lemma leadingInt_suffix s x v r : leadingInt s x = Some (v, r) → (String.length r <= String.length s)%nat.
Proof.
  revert x. induction s as [|a s IH]; intros x; cbn [leadingInt]; [by intros [= _ <-]|].
  destruct (is_digit a); [|by intros [= _ <-]].
  destruct (_ <? x); [done|]. destruct (two63 <? _); [done|]. intros H%IH. cbn. lia.
Qed.

Lemma leadingFraction_suffix s x scale ov :
  (String.length (leadingFraction s x scale ov).2 <= String.length s)%nat.
Proof.
  revert x scale ov. induction s as [|a s IH]; intros x scale ov; cbn [leadingFraction]; [done|].
  destruct (is_digit a); [|done].
  destruct ov; [|destruct (_ <? x); [|destruct (two63 <? _)]];
    (etrans; [apply IH|cbn; lia]).
Qed.

Lemma fraction_suffix s : (String.length (fraction_part s).1.2 <= String.length s)%nat.
Proof.
  destruct s as [|b s]; cbn [fraction_part]; [done|]. destruct (ord b =? 46); [|done].
  pose proof (leadingFraction_suffix s 0 (f64_of_int 1) false) as H.
  destruct (leadingFraction _ _ _ _) as [[? ?] ?]. cbn in *. lia.
Qed.

Lemma take_unit_shorter s u r : take_unit s = (u, r) → u ≠ ""%string → (String.length r < String.length s)%nat.
Proof.
  revert u r. induction s as [|a s IH]; intros u r; cbn [take_unit]; [by intros [= <- _]|].
  destruct (_ || _); [by intros [= <- _]|]. destruct (take_unit s) as [u' r'] eqn:E. intros [= _ <-] _.
  destruct (decide (u' = ""%string)) as [->|Hu]; [|specialize (IH _ _ eq_refl Hu); cbn; lia].
  assert (r' = s) as ->; [|cbn; lia]. clear IH. destruct s as [|b s]; cbn in E; [by injection E|].
  destruct (_ || _); [by injection E|]. by destruct (take_unit s).
Qed.

(** Every component consumes input, so the loop's bound is never reached with
    input left. *)
Lemma parse_component_shorter s v r : parse_component s = Some (v, r) → (String.length r < String.length s)%nat.
Proof.
  unfold parse_component. destruct s as [|a s]; [done|]. destruct (negb (_ || _)); [done|].
  destruct (leadingInt (String a s) 0) as [[n s1]|] eqn:Hi; cbn [mbind option_bind]; [|done].
  apply leadingInt_suffix in Hi.
  destruct (fraction_part s1) as [[[f scale] s2] post] eqn:Ht. apply (f_equal (λ p, p.1.2)) in Ht. cbn in Ht.
  pose proof (fraction_suffix s1) as H2. rewrite Ht in H2.
  destruct (negb _ && negb _); [done|]. destruct (take_unit s2) as [u rest] eqn:Hu.
  destruct (String.eqb_spec u ""); [done|]. apply take_unit_shorter in Hu; [|done].
  destruct (unitMap u); cbn; [|done]. destruct (_ <? n); [done|].
  destruct (0 <? f); [destruct (two63 <? _); [done|]|]; intros [= _ <-]; cbn in *; lia.
Qed.

Lemma parse_components_fuel f1 f2 s d :
  (String.length s <= f1)%nat → (String.length s <= f2)%nat →
  parse_components f1 s d = parse_components f2 s d.
Proof.
  revert f2 s d. induction f1 as [|f1 IH]; intros f2 s d H1 H2.
  - destruct s; [|cbn in H1; lia]. by destruct f2.
  - destruct f2 as [|f2]; [destruct s; [done|cbn in H2; lia]|]. cbn [parse_components].
    destruct (s ==? ""); [done|]. destruct (parse_component s) as [[v r]|] eqn:E; cbn; [|done].
    apply parse_component_shorter in E. destruct (two63 <? _); [done|]. apply IH; lia.
Qed.

(** A parsed duration fits in an [int64]. *)
Lemma parse_duration_range s d : ParseDuration s = Some d → - 2 ^ 63 ≤ d < 2 ^ 63.
Proof.
  assert (∀ fuel s d0 d, 0 ≤ d0 ≤ two63 → parse_components fuel s d0 = Some d → 0 ≤ d ≤ two63) as Hp.
  { intros fuel. induction fuel as [|fuel IH]; intros s0 d0 d1 Hd; cbn [parse_components]; [by intros [= <-]|].
    destruct (s0 ==? ""); [by intros [= <-]|]. destruct (parse_component s0) as [[v r]|] eqn:E; cbn; [|done].
    destruct (Z.ltb_spec two63 (d0 + v)); [done|]. apply IH. split; [|lia].
    enough (0 ≤ v) by lia. clear -E. unfold parse_component in E. destruct s0 as [|a s0]; [done|].
    destruct (negb (_ || _)); [done|].
    assert (∀ s x v r, 0 ≤ x → leadingInt s x = Some (v, r) → 0 ≤ v) as Hl.
    { clear. induction s as [|a s IH]; intros x v r Hx; cbn [leadingInt]; [by intros [= <- _]|].
      unfold is_digit. destruct (Z.leb_spec 48 (ord a)); cbn [andb]; [|by intros [= <- _]].
      destruct (ord a <=? 57); [|by intros [= <- _]]. destruct (_ <? x); [done|]. destruct (two63 <? _); [done|].
      apply IH. lia. }
    destruct (leadingInt (String a s0) 0) as [[n s1]|] eqn:Hi; cbn in E; [|done]. apply Hl in Hi; [|lia].
    destruct (fraction_part s1) as [[[f scale] s2] post].
    destruct (negb _ && negb _); [done|]. destruct (take_unit s2) as [u rest].
    destruct (u ==? ""); [done|]. destruct (unitMap u) as [un|] eqn:Hun; cbn in E; [|done].
    assert (0 ≤ un) as Hup.
    { unfold unitMap in Hun. repeat (destruct (_ || _) in Hun || destruct (_ ==? _) in Hun);
        simplify_eq; vm_compute; discriminate. }
    destruct (_ <? n); [done|]. destruct (0 <? f); [|injection E as <- _; nia].
    assert (∀ x, 0 ≤ f64_trunc x) as Ht.
    { intros [| | |[] m e]; cbn; try lia. destruct (Z.leb_spec 0 e); [|apply Z.div_pos; lia].
      apply Z.mul_nonneg_nonneg; [lia|]. by apply Z.pow_nonneg. }
    destruct (two63 <? _); [done|]. injection E as <- _. specialize (Ht (f64_mul (f64_of_int f) (f64_div (f64_of_int un) scale))). nia. }
  unfold ParseDuration. destruct (match s with EmptyString => _ | String _ _ => _ end) as [neg s'].
  assert (two63 = 2 ^ 63) as E63 by done.
  destruct (s' ==? "0"); [intros [= <-]; lia|]. destruct (s' ==? ""); [done|].
  destruct (parse_components _ s' 0) as [d0|] eqn:E; cbn; [|done]. apply Hp in E; [|lia].
  destruct neg; [intros [= <-]; lia|]. destruct (Z.ltb_spec (two63 - 1) d0); [done|]. intros [= <-]. lia.
Qed.
