(* ===== verification/Registration.v ===== *)
(** * The gateway's registration cache ([cmd/gateway/registration_watch.go])
      and identity validation

    [registrationCache] maps agent identities to AgentRegistrations and to the
    credential providers built from their bindings.  Lookups and updates hold
    the cache's mutex for their whole body, so each is one step on the state.
    The list+watch loop drives the cache; its List and Watch are calls to the
    cluster, modelled by the list and the events they deliver. *)

From S2P Require Import Prelude GoStd Types.

(** ** Providers

    A provider is identified by what it was constructed with
    ([credential.New*Provider]). *)
Inductive Provider :=
| StaticSecretProvider (name namespace key : string)
| AzureWorkloadIdentityProvider (tenantID clientID scope : string)
| AWSWebIdentityProvider (roleARN roleSessionName region : string) (durationSeconds : option Z)
    (stsEndpoint : string)
| KubernetesOIDCProvider (tokenExchangeURL audience clientID clientSecret : string)
| KubernetesTokenRequestProvider (serviceAccountName serviceAccountNamespace : string)
    (expirationSeconds : option Z) (audiences : list string).

Record registrationCache := mkRegCache {
  oidcClientID : string;
  oidcClientSecret : string;
  byAgent : gmap string AgentRegistration;
  providers : gmap string (gmap string Provider) }.

Definition newRegistrationCache : registrationCache := mkRegCache "" "" ∅ ∅.

Definition withOIDCCredentials (c : registrationCache) (clientID clientSecret : string) : registrationCache :=
  mkRegCache clientID clientSecret (byAgent c) (providers c).

(** ** Lookups *)

Definition identity_of (reg : AgentRegistration) : string := reg_AgentIdentity (reg_Spec reg).

Definition allowed_subjects (reg : AgentRegistration) : list string :=
  match reg_OIDC (reg_Spec reg) with Some o => ro_AllowedSubjects o | None => [] end.

(** [slices.Contains]. *)
Definition contains (l : list string) (s : string) : bool := bool_decide (s ∈ l).

(** Step 2 of [getForSubject]: the loop over the map, in whatever order. *)
Fixpoint scan_subject (sub : string) (regs : list AgentRegistration) (match_ : option AgentRegistration)
  : option AgentRegistration :=
  match regs with
  | [] => match_
  | reg :: regs' =>
      if contains (allowed_subjects reg) sub then
        match match_ with
        | Some _ => None
        | None => scan_subject sub regs' (Some reg)
        end
      else scan_subject sub regs' match_
  end.

Definition scan_all (c : registrationCache) (sub : string) : option AgentRegistration :=
  if sub ==? "" then None else scan_subject sub (snd <$> map_to_list (byAgent c)) None.

Definition getForSubject (c : registrationCache) (agentIdentity sub : string) : option AgentRegistration :=
  if agentIdentity <>? "" then
    match byAgent c !! agentIdentity with
    | Some reg =>
        if bool_decide (allowed_subjects reg ≠ []) then
          if contains (allowed_subjects reg) sub then Some reg else None
        else if (sub ==? "") || (sub ==? agentIdentity) then Some reg
        else None
    | None => scan_all c sub
    end
  else scan_all c sub.

Definition get (c : registrationCache) (agentIdentity : string) : option AgentRegistration :=
  byAgent c !! agentIdentity.

Definition exists_ (c : registrationCache) (agentIdentity : string) : bool :=
  bool_decide (is_Some (byAgent c !! agentIdentity)).

Definition providerFor (c : registrationCache) (agentIdentity service : string) : option Provider :=
  providers c !! agentIdentity ≫= (λ m, m !! service).

Definition listAgents (c : registrationCache) : list string := fst <$> map_to_list (byAgent c).

(** ** Updates *)

Definition build_provider (c : registrationCache) (b : ExternalIdentityBinding) : option Provider :=
  if eib_Type b ==? ExternalIdentityStaticSecret then
    (λ x, StaticSecretProvider (ss_Name x) (ss_Namespace x) (ss_Key x)) <$> eib_StaticSecret b
  else if eib_Type b ==? ExternalIdentityAzureWorkloadIdentity then
    (λ x, AzureWorkloadIdentityProvider (az_TenantID x) (az_ClientID x) (az_Scope x))
      <$> eib_AzureWorkloadIdentity b
  else if eib_Type b ==? ExternalIdentityAWSWebIdentity then
    (λ x, AWSWebIdentityProvider (aws_RoleARN x) (aws_RoleSessionName x) (aws_Region x)
            (aws_DurationSeconds x) (aws_STSEndpoint x)) <$> eib_AWSWebIdentity b
  else if eib_Type b ==? ExternalIdentityKubernetesOIDC then
    (λ x, KubernetesOIDCProvider (ko_TokenExchangeURL x) (ko_Audience x)
            (oidcClientID c) (oidcClientSecret c)) <$> eib_KubernetesOIDC b
  else if eib_Type b ==? ExternalIdentityKubernetesTokenRequest then
    (λ x, KubernetesTokenRequestProvider (ktr_ServiceAccountName x) (ktr_ServiceAccountNamespace x)
            (ktr_ExpirationSeconds x) (ktr_Audiences x)) <$> eib_KubernetesTokenRequest b
  else None.

Definition build_providers (c : registrationCache) (reg : AgentRegistration) : gmap string Provider :=
  fold_left (λ m b, match build_provider c b with
                    | Some p => <[eib_Service b := p]> m
                    | None => m
                    end) (reg_ExternalIdentities (reg_Spec reg)) ∅.

Definition upsert (reg : AgentRegistration) (c : registrationCache) : registrationCache :=
  let agentID := identity_of reg in
  if agentID ==? "" then c
  else
    match byAgent c !! agentID with
    | Some existing =>
        if om_Generation (reg_Meta existing) =? om_Generation (reg_Meta reg) then c
        else mkRegCache (oidcClientID c) (oidcClientSecret c) (<[agentID := reg]> (byAgent c))
               (<[agentID := build_providers c reg]> (providers c))
    | None => mkRegCache (oidcClientID c) (oidcClientSecret c) (<[agentID := reg]> (byAgent c))
                (<[agentID := build_providers c reg]> (providers c))
    end.

Definition remove (agentIdentity : string) (c : registrationCache) : registrationCache :=
  mkRegCache (oidcClientID c) (oidcClientSecret c) (delete agentIdentity (byAgent c))
    (delete agentIdentity (providers c)).

(** ** The watch loop *)

Inductive watch_event :=
| Added (reg : AgentRegistration)
| Modified (reg : AgentRegistration)
| Deleted (reg : AgentRegistration)
| WatchError
| OtherEvent.

(** The items of the initial list, then the eviction of what is not listed. *)
Definition relist (items : list AgentRegistration) (c : registrationCache) : registrationCache :=
  let present := identity_of <$> List.filter (λ r, identity_of r <>? "") items in
  let c := fold_left (λ c reg, if identity_of reg <>? "" then upsert reg c else c) items c in
  fold_left (λ c agentID, if contains present agentID then c else remove agentID c) (listAgents c) c.

(** One event; [None] is the error that ends the watch. *)
Definition watch_step (c : registrationCache) (e : watch_event) : option registrationCache :=
  match e with
  | Added reg | Modified reg => Some (if identity_of reg <>? "" then upsert reg c else c)
  | Deleted reg => Some (if identity_of reg <>? "" then remove (identity_of reg) c else c)
  | WatchError => None
  | OtherEvent => Some c
  end.

(** The events until the channel closes or an error ends the watch; the flag
    says whether the loop returned without an error. *)
Fixpoint watch_events (c : registrationCache) (es : list watch_event) : registrationCache * bool :=
  match es with
  | [] => (c, true)
  | e :: es' => match watch_step c e with Some c' => watch_events c' es' | None => (c, false) end
  end.

(** [watchAgentRegistrationsOnce]: [listed] is what the list answered after its
    retries and [watched] the events of the watch, [None] for an error. *)
Definition watchAgentRegistrationsOnce (listed : option (list AgentRegistration))
  (watched : option (list watch_event)) (c : registrationCache) : registrationCache * bool :=
  match listed with
  | None => (c, false)
  | Some items =>
      let c := relist items c in
      match watched with None => (c, false) | Some es => watch_events c es end
  end.

(** [watchAgentRegistrations]: cycle after cycle, whatever each returned. *)
Definition watchAgentRegistrations
  (cycles : list (option (list AgentRegistration) * option (list watch_event)))
  (c : registrationCache) : registrationCache :=
  fold_left (λ c cy, (watchAgentRegistrationsOnce cy.1 cy.2 c).1) cycles c.

(** ** Identity validation ([agent_request_lifecycle_handlers.go]) *)

(** [None] is acceptance; [Some] carries the error's text. *)
Definition validateOIDCIdentity (reg : AgentRegistration) (issuer sub : string) : option string :=
  match reg_OIDC (reg_Spec reg) with
  | None => None
  | Some o =>
      if issuer <>? ro_Issuer o then
        Some ("token issuer " +:+ quote issuer +:+ " does not match registered issuer "
                +:+ quote (ro_Issuer o) +:+ " for agent " +:+ quote (identity_of reg))%string
      else if bool_decide (ro_AllowedSubjects o ≠ []) then
        if contains (ro_AllowedSubjects o) sub then None
        else Some ("token subject " +:+ quote sub +:+ " not in allowedSubjects for agent "
                     +:+ quote (identity_of reg))%string
      else if (sub ==? "") || (sub ==? identity_of reg) then None
      else Some ("token subject " +:+ quote sub +:+ " does not match agentIdentity "
                   +:+ quote (identity_of reg))%string
  end.

(** ** Invariant *)

(** Every entry is filed under its own, non-empty identity, and has exactly
    the providers its bindings describe. *)
Record cache_wf (c : registrationCache) : Prop := {
  wf_key : ∀ k reg, byAgent c !! k = Some reg → identity_of reg = k ∧ k ≠ ""%string;
  wf_prov : ∀ k reg, byAgent c !! k = Some reg → providers c !! k = Some (build_providers c reg);
  wf_dom : ∀ k, byAgent c !! k = None → providers c !! k = None }.

(** Building looks only at the client credentials of the cache. *)
Lemma build_providers_ext c c' reg :
  oidcClientID c = oidcClientID c' → oidcClientSecret c = oidcClientSecret c' →
  build_providers c reg = build_providers c' reg.
Proof. intros H1 H2. unfold build_providers, build_provider. by rewrite H1, H2. Qed.

Lemma wf_new : cache_wf newRegistrationCache.
Proof. by split. Qed.

(** The effect of storing a registration. *)
Definition stored (reg : AgentRegistration) (c : registrationCache) : registrationCache :=
  mkRegCache (oidcClientID c) (oidcClientSecret c) (<[identity_of reg := reg]> (byAgent c))
    (<[identity_of reg := build_providers c reg]> (providers c)).

Lemma wf_stored reg c : identity_of reg ≠ ""%string → cache_wf c → cache_wf (stored reg c).
Proof.
  intros Hne [Hk Hp Hd]. split; cbn; intros k; [intros reg'..|].
  - rewrite lookup_insert. case_decide; [intros [= <-]; subst; done|apply Hk].
  - rewrite !lookup_insert. case_decide; [intros [= <-]; done|apply Hp].
  - rewrite !lookup_insert. case_decide; [done|apply Hd].
Qed.

Lemma wf_upsert reg c : cache_wf c → cache_wf (upsert reg c).
Proof.
  intros Hc. unfold upsert. destruct (String.eqb_spec (identity_of reg) ""); [done|].
  destruct (byAgent c !! identity_of reg); [case_bool; [done|]|]; by apply (wf_stored reg c).
Qed.

Lemma wf_remove k c : cache_wf c → cache_wf (remove k c).
Proof.
  intros [Hk Hp Hd]. split; cbn; intros k'; [intros reg'..|].
  - rewrite lookup_delete_Some. intros [_ ?]. by apply Hk.
  - rewrite lookup_delete_Some. intros [? ?]. rewrite lookup_delete_ne by done. by apply Hp.
  - rewrite !lookup_delete. case_decide; [done|apply Hd].
Qed.

Lemma fold_left_wf {B} (f : registrationCache → B → registrationCache) l c :
  (∀ c b, cache_wf c → cache_wf (f c b)) → cache_wf c → cache_wf (fold_left f l c).
Proof. intros Hf. revert c. induction l as [|b l IH]; cbn; auto. Qed.

Lemma wf_relist items c : cache_wf c → cache_wf (relist items c).
Proof.
  intros Hc. unfold relist. apply fold_left_wf.
  { intros c' k Hc'. case_bool; [done|]. by apply wf_remove. }
  apply fold_left_wf; [|done]. intros c' reg Hc'. case_bool; [|done]. by apply wf_upsert.
Qed.

Lemma wf_watch es c : cache_wf c → cache_wf (watch_events c es).1.
Proof.
  revert c. induction es as [|e es IH]; intros c Hc; cbn; [done|].
  destruct e; cbn; auto; apply IH; (case_bool; [|done]); auto using wf_upsert, wf_remove.
Qed.

(** ** Lookups by subject *)

Lemma scan_subject_spec sub regs m :
  scan_subject sub regs m =
  match m, List.filter (λ r, contains (allowed_subjects r) sub) regs with
  | Some r, [] => Some r
  | None, [r] => Some r
  | _, _ => None
  end.
Proof.
  revert m. induction regs as [|reg regs IH]; intros m; cbn; [by destruct m|].
  destruct (contains (allowed_subjects reg) sub).
  - destruct m; [done|]. rewrite IH. by destruct (List.filter _ regs).
  - rewrite IH. by destruct m.
Qed.

(** A scan finds a registration exactly when it is the only one that lists
    the subject, so the answer does not depend on the map's order. *)
Lemma scan_all_spec c sub reg :
  cache_wf c →
  (scan_all c sub = Some reg ↔
   sub ≠ ""%string ∧ sub ∈ allowed_subjects reg ∧ byAgent c !! identity_of reg = Some reg ∧
   ∀ k reg', byAgent c !! k = Some reg' → sub ∈ allowed_subjects reg' → reg' = reg).
Proof.
  intros Hc. unfold scan_all. destruct (String.eqb_spec sub "") as [->|Hs].
  { split; [done|]. by intros [? _]. }
  rewrite scan_subject_spec.
  set (l := List.filter (λ r, contains (allowed_subjects r) sub) (map_to_list (byAgent c)).*2).
  assert (∀ r, r ∈ l ↔ byAgent c !! identity_of r = Some r ∧ sub ∈ allowed_subjects r) as Hin.
  { intros r. unfold l, contains. rewrite list_elem_of_In, filter_In, <- list_elem_of_In, bool_decide_eq_true.
    rewrite list_elem_of_fmap. split; intros [Hr Ha]; split; try done.
    - destruct Hr as ([k r'] & -> & Hkr). apply elem_of_map_to_list in Hkr. cbn.
      by destruct (wf_key c Hc _ _ Hkr) as [-> _].
    - exists (identity_of r, r). split; [done|]. by apply elem_of_map_to_list. }
  assert (NoDup l) as Hnd.
  { unfold l. apply NoDup_ListNoDup, List.NoDup_filter, NoDup_ListNoDup.
    apply NoDup_fmap_2_strong; [|apply NoDup_map_to_list].
    intros [k1 r1] [k2 r2] H1%elem_of_map_to_list H2%elem_of_map_to_list. cbn. intros ->.
    destruct (wf_key c Hc _ _ H1) as [<- _]. destruct (wf_key c Hc _ _ H2) as [<- _]. done. }
  split.
  - destruct l as [|r [|? ?]]; [done| |done]. intros [= <-].
    destruct (proj1 (Hin r)) as [H1 H2]; [set_solver|]. repeat split; [done..|].
    intros k r' Hk Ha. assert (r' ∈ [r]) as Hr'; [|set_solver]. apply Hin. split; [|done].
    by destruct (wf_key c Hc _ _ Hk) as [-> _].
  - intros (_ & Ha & Hb & Hu). assert (reg ∈ l) as Hr by (by apply Hin).
    destruct l as [|r [|r2 l']]; [set_solver| |].
    + f_equal. set_solver.
    + exfalso. assert (r = reg).
      { destruct (proj1 (Hin r)) as [H1 H2]; [set_solver|]. by eapply Hu. }
      assert (r2 = reg).
      { destruct (proj1 (Hin r2)) as [H1 H2]; [set_solver|]. by eapply Hu. }
      subst. apply NoDup_cons in Hnd as [Hn _]. set_solver.
Qed.

(** ** Listing *)

Definition generation (r : AgentRegistration) : Z := om_Generation (reg_Meta r).

(** The registrations of a list that are filed under [k]. *)
Definition filed (k : string) (items : list AgentRegistration) : list AgentRegistration :=
  List.filter (λ r, (identity_of r ==? k) && (k <>? "")) items.

Lemma upsert_lookup reg c k :
  generation <$> byAgent (if identity_of reg <>? "" then upsert reg c else c) !! k =
  if (identity_of reg ==? k) && (k <>? "") then Some (generation reg)
  else generation <$> byAgent c !! k.
Proof.
  unfold upsert. destruct (String.eqb_spec (identity_of reg) "") as [->|Hne]; cbn [negb].
  { destruct (String.eqb_spec "" k) as [<-|]; reflexivity. }
  destruct (String.eqb_spec (identity_of reg) k) as [Hk|Hk]; cbn [andb].
  - rewrite Hk in *. destruct (String.eqb_spec k ""); [congruence|]. cbn [negb].
    destruct (byAgent c !! k) as [r|] eqn:Hr; [destruct (Z.eqb_spec (om_Generation (reg_Meta r)) (om_Generation (reg_Meta reg)))|];
      cbn; rewrite ?lookup_insert_eq, ?Hr; [|done..].
    cbn. unfold generation. by f_equal.
  - destruct (byAgent c !! identity_of reg) as [r|]; [case_bool|]; cbn; by rewrite ?lookup_insert_ne.
Qed.

Lemma upsert_all_lookup k items c :
  generation <$> byAgent (fold_left (λ c reg, if identity_of reg <>? "" then upsert reg c else c) items c) !! k =
  match last (filed k items) with Some r => Some (generation r) | None => generation <$> byAgent c !! k end.
Proof.
  revert c. induction items as [|r items IH]; intros c; cbn [fold_left]; [done|].
  rewrite IH, upsert_lookup. unfold filed. cbn [List.filter].
  destruct ((identity_of r ==? k) && (k <>? "")); [|done]. rewrite last_cons. by destruct (last _).
Qed.

Lemma evict_lookup present k ids c :
  byAgent (fold_left (λ c id, if contains present id then c else remove id c) ids c) !! k =
  if contains present k then byAgent c !! k
  else if contains ids k then None else byAgent c !! k.
Proof.
  revert c. induction ids as [|i ids IH]; intros c; cbn [fold_left]; [by destruct (contains present k)|].
  rewrite IH. unfold contains. destruct (decide (k = i)) as [->|Hne].
  - rewrite (bool_decide_eq_true_2 (i ∈ i :: ids)) by set_solver.
    destruct (bool_decide (i ∈ present)); [done|]. cbn. rewrite lookup_delete_eq. by destruct (bool_decide _).
  - rewrite (bool_decide_ext (k ∈ i :: ids) (k ∈ ids)) by set_solver.
    destruct (bool_decide (i ∈ present)); [done|]. cbn. by rewrite lookup_delete_ne.
Qed.

Lemma evict_all_lookup present k c :
  byAgent (fold_left (λ c id, if contains present id then c else remove id c) (listAgents c) c) !! k =
  if contains present k then byAgent c !! k else None.
Proof.
  rewrite evict_lookup. destruct (contains present k); [done|].
  destruct (contains (listAgents c) k) eqn:Hk; [done|].
  apply bool_decide_eq_false in Hk. apply eq_None_not_Some. intros [r Hr]. apply Hk.
  unfold listAgents. apply list_elem_of_fmap. exists (k, r). split; [done|]. by apply elem_of_map_to_list.
Qed.

Lemma contains_listed k items :
  contains (identity_of <$> List.filter (λ r, identity_of r <>? "") items) k = true ↔ filed k items ≠ [].
Proof.
  unfold contains. rewrite bool_decide_eq_true, list_elem_of_fmap. split.
  - intros (r & -> & [Hin Hne]%list_elem_of_In%filter_In) Hnil.
    eapply (in_nil (a := r)). rewrite <- Hnil. apply filter_In. split; [done|]. by rewrite String.eqb_refl, Hne.
  - destruct (filed k items) as [|r l] eqn:Hf; [done|]. intros _. exists r.
    assert (In r (filed k items)) as [Hin [Hk%String.eqb_eq Hne]%andb_true_iff]%filter_In
      by (rewrite Hf; by left).
    split; [done|]. apply list_elem_of_In, filter_In. split; [done|]. by rewrite Hk.
Qed.

(** ** Claims *)

(** From the empty cache, every sequence of list and watch cycles keeps each
    entry under its own identity with the providers of its own bindings. *)
Theorem registration_cache_invariant cycles :
  cache_wf (watchAgentRegistrations cycles newRegistrationCache).
Proof.
  apply fold_left_wf; [|apply wf_new]. intros c [[items|] [es|]] Hc; cbn; auto using wf_watch, wf_relist.
Qed.

(** C33: Where every registration lists its subjects, a lookup by a registered
    identity and a subject finds that registration exactly when it lists the
    subject; without a claimed identity, or with an unknown one, it finds a
    registration exactly when it is the only one that lists the subject, so
    whatever the order of the map. *)
Theorem lookup_is_authorized c id sub reg :
  cache_wf c → (∀ k r, byAgent c !! k = Some r → allowed_subjects r ≠ []) →
  (is_Some (byAgent c !! id) →
   getForSubject c id sub = Some reg ↔ byAgent c !! id = Some reg ∧ sub ∈ allowed_subjects reg) ∧
  (byAgent c !! id = None →
   getForSubject c id sub = Some reg ↔
   sub ≠ ""%string ∧ sub ∈ allowed_subjects reg ∧ byAgent c !! identity_of reg = Some reg ∧
   ∀ k reg', byAgent c !! k = Some reg' → sub ∈ allowed_subjects reg' → reg' = reg).
Proof.
  intros Hc Hlist. unfold getForSubject. split.
  - intros [r Hr]. destruct (wf_key c Hc _ _ Hr) as [_ Hid].
    destruct (String.eqb_spec id ""); [done|]. cbn [negb]. rewrite Hr.
    rewrite bool_decide_eq_true_2 by (by eapply Hlist). unfold contains.
    case_bool_decide; split; [intros [= <-]; done|by intros [[= <-] _]|done|by intros [[= <-] ?]].
  - intros ->. rewrite <- (scan_all_spec c sub reg Hc). by destruct (id <>? "").
Qed.

(** A registration that lists no subject is found only by its own identity,
    for a caller with that subject or with none. *)
Theorem unlisted_subjects_need_identity c id sub reg :
  cache_wf c → allowed_subjects reg = [] → getForSubject c id sub = Some reg →
  identity_of reg = id ∧ (sub = ""%string ∨ sub = id).
Proof.
  intros Hc He. assert (∀ id', scan_all c sub = Some reg → id' = id → identity_of reg = id ∧ (sub = ""%string ∨ sub = id)) as Hscan.
  { intros id' (_ & Ha & _)%scan_all_spec _; [|done]. rewrite He in Ha. by apply elem_of_nil in Ha. }
  unfold getForSubject. destruct (id <>? ""); [|by intros H; apply (Hscan id)].
  destruct (byAgent c !! id) as [r|] eqn:Hr; [|by intros H; apply (Hscan id)].
  destruct (wf_key c Hc _ _ Hr) as [Hid _]. case_bool_decide as Hall.
  - unfold contains. case_bool_decide; [|done]. intros [= <-]. done.
  - destruct (String.eqb_spec sub ""); [|destruct (String.eqb_spec sub id)]; cbn; [..|done]; intros [= <-]; auto.
Qed.

(** After a list, the cache holds exactly the listed identities, each at the
    generation of the last listed registration of that identity. *)
Theorem relist_tracks items c k :
  generation <$> byAgent (relist items c) !! k = generation <$> last (filed k items).
Proof.
  unfold relist. rewrite evict_all_lookup.
  destruct (contains _ k) eqn:Hk.
  - rewrite upsert_all_lookup. apply contains_listed in Hk. by destruct (last (filed k items)) eqn:E;
      [|apply last_None in E].
  - destruct (filed k items) eqn:E; [done|]. exfalso. apply not_true_iff_false in Hk. apply Hk, contains_listed.
    by rewrite E.
Qed.

(** For a registration found through its subjects, validation accepts the
    token exactly when its issuer is the registered one. *)
Theorem subject_lookup_validates c issuer sub reg o :
  cache_wf c → getForSubject c "" sub = Some reg → reg_OIDC (reg_Spec reg) = Some o →
  validateOIDCIdentity reg issuer sub = None ↔ issuer = ro_Issuer o.
Proof.
  intros Hc Hg Ho.
  assert (sub ∈ ro_AllowedSubjects o) as Ha.
  { change (getForSubject c "" sub) with (scan_all c sub) in Hg.
    apply scan_all_spec in Hg as (_ & Ha & _); [|done]. unfold allowed_subjects in Ha. by rewrite Ho in Ha. }
  unfold validateOIDCIdentity. rewrite Ho.
  destruct (String.eqb_spec issuer (ro_Issuer o)) as [->|]; cbn [negb]; [|done].
  rewrite bool_decide_eq_true_2 by (intros E; rewrite E in Ha; set_solver).
  unfold contains. by rewrite bool_decide_eq_true_2.
Qed.

(** ** Witnesses and the behaviour on concrete registrations *)

Definition sample_meta (name : string) (uid : string) (gen : Z) : ObjectMeta :=
  mkMeta name "" "default" uid ∅ ∅ gen 0 0 None [] [].

Definition sample_reg (uid : string) (gen : Z) (id : string) (subs : list string) : AgentRegistration :=
  mkReg (sample_meta id uid gen)
    (mkRegSpec id "" [] (Some (mkRegOIDC "https://issuer" "sub" subs)) [])
    (mkRegStatus "" "" [] None []).

Definition sample_cache : registrationCache :=
  relist [sample_reg "u1" 1 "bot" ["svc-a"]; sample_reg "u2" 1 "ops" ["svc-b"; "svc-c"]] newRegistrationCache.

Lemma sample_cache_wf : cache_wf sample_cache.
Proof. apply wf_relist, wf_new. Qed.

Lemma sample_cache_lists k r : byAgent sample_cache !! k = Some r → allowed_subjects r ≠ [].
Proof.
  intros H%elem_of_map_to_list.
  assert (Forall (λ e, allowed_subjects e.2 ≠ []) (map_to_list (byAgent sample_cache))) as Hf
    by (apply (bool_decide_unpack _); vm_compute; exact I).
  rewrite Forall_forall in Hf. exact (Hf _ H).
Qed.

Lemma lookup_is_authorized_witness :
  getForSubject sample_cache "bot" "svc-a" = Some (sample_reg "u1" 1 "bot" ["svc-a"]) ∧
  getForSubject sample_cache "" "svc-c" = Some (sample_reg "u2" 1 "ops" ["svc-b"; "svc-c"]).
Proof.
  split.
  - refine (proj2 (proj1 (lookup_is_authorized sample_cache "bot" "svc-a" (sample_reg "u1" 1 "bot" ["svc-a"])
      sample_cache_wf sample_cache_lists) _) _); [eexists; vm_compute; reflexivity|].
    split; [vm_compute; reflexivity|left].
  - vm_compute. reflexivity.
Defined.

Lemma unlisted_subjects_need_identity_witness :
  let reg := sample_reg "u3" 1 "solo" [] in
  getForSubject (relist [reg] newRegistrationCache) "solo" "solo" = Some reg ∧ identity_of reg = "solo"%string.
Proof.
  split; [vm_compute; reflexivity|].
  refine (proj1 (unlisted_subjects_need_identity (relist [sample_reg "u3" 1 "solo" []] newRegistrationCache) "solo" "solo"
    (sample_reg "u3" 1 "solo" []) (wf_relist _ _ wf_new) eq_refl _)). vm_compute. reflexivity.
Defined.

Lemma subject_lookup_validates_witness :
  validateOIDCIdentity (sample_reg "u2" 1 "ops" ["svc-b"; "svc-c"]) "https://issuer" "svc-c" = None.
Proof.
  apply (subject_lookup_validates sample_cache "https://issuer" "svc-c" _ (mkRegOIDC "https://issuer" "sub" ["svc-b"; "svc-c"]));
    [apply sample_cache_wf|vm_compute; reflexivity..].
Defined.

(** A registration deleted and created again while the watch was down comes
    back with the same generation, so the relist keeps the old object: a
    subject that the new registration no longer allows is still accepted. *)
Example recreated_registration_is_stale :
  let old := sample_reg "u1" 1 "bot" ["svc-a"] in
  let new := sample_reg "u9" 1 "bot" ["svc-z"] in
  let c := relist [new] (relist [old] newRegistrationCache) in
  getForSubject c "bot" "svc-a" = Some old ∧ getForSubject c "bot" "svc-z" = None.
Proof. vm_compute. split; reflexivity. Qed.

(** A registration whose identity is changed keeps its old entry until the
    next list. *)
Example renamed_registration_keeps_old_entry :
  let old := sample_reg "u1" 1 "bot" ["svc-a"] in
  let new := sample_reg "u1" 2 "robot" ["svc-z"] in
  let c := (watch_events (relist [old] newRegistrationCache) [Modified new]).1 in
  getForSubject c "bot" "svc-a" = Some old.
Proof. vm_compute. reflexivity. Qed.
