(* ===== verification/GatewayAuth.v ===== *)
(** * Callers and roles ([cmd/gateway/oidc.go])

    The role configuration and its checks, the extraction of the caller from
    verified token claims, and the two authentication middlewares.  Token
    verification ([verifier.Verify]) and address parsing are libraries: the
    middleware takes their result. *)

From S2P Require Import Prelude GoStd GoStrings Registration.

(** ** [strings.TrimSpace]

    The encodings of the runes for which [unicode.IsSpace] holds. *)
Definition bytes_string (bs : list Z) : string := String.string_of_list_ascii (chr <$> bs).

Definition spaces : list string :=
  ((λ b, bytes_string [b]) <$> [9; 10; 11; 12; 13; 32]) ++
  (bytes_string <$> ([194; 133] :: [194; 160] :: [225; 154; 128] ::
    ((λ i, [226; 128; 128 + i]) <$> seqZ 0 11) ++
    [226; 128; 168] :: [226; 128; 169] :: [226; 128; 175] :: [226; 129; 159] :: [227; 128; 128] :: [])).

Definition string_rev (s : string) : string :=
  String.string_of_list_ascii (rev (String.list_ascii_of_string s)).

(** Strip one of the given prefixes, again and again. *)
Fixpoint strip (fuel : nat) (ps : list string) (s : string) : string :=
  match fuel with
  | O => s
  | S fuel' =>
      match list_find (λ p, HasPrefix s p = true) ps with
      | Some (_, p) => strip fuel' ps (TrimPrefix s p)
      | None => s
      end
  end.

Definition TrimSpace (s : string) : string :=
  let l := strip (String.length s) spaces s in
  string_rev (strip (String.length l) (string_rev <$> spaces) (string_rev l)).

(** ** Roles *)

Definition roleAgent : string := "agent".
Definition roleReviewer : string := "reviewer".
Definition roleAdmin : string := "admin".

(** The maps hold only [true] values: they are sets. *)
Record roleConfig := mkRoles {
  agentSubs : gset string;
  reviewerSubs : gset string;
  adminSubs : gset string;
  agentGroups : gset string;
  reviewerGroups : gset string;
  adminGroups : gset string }.

Definition comma : Ascii.ascii := chr 44.

(** The closure [parse] of [newRoleConfig]. *)
Definition parse_subs (s : string) : gset string :=
  fold_left (λ m v, let t := TrimSpace v in if t <>? "" then {[t]} ∪ m else m) (split comma s) ∅.

Definition newRoleConfig
  (agentList reviewerList adminList agentGroupList reviewerGroupList adminGroupList : string) : roleConfig :=
  mkRoles (parse_subs agentList) (parse_subs reviewerList) (parse_subs adminList)
    (parse_subs agentGroupList) (parse_subs reviewerGroupList) (parse_subs adminGroupList).

Definition empty (s : gset string) : bool := bool_decide (s = ∅).

Definition openMode (rc : roleConfig) : bool :=
  empty (agentSubs rc) && empty (reviewerSubs rc) && empty (adminSubs rc) &&
  empty (agentGroups rc) && empty (reviewerGroups rc) && empty (adminGroups rc).

Definition member (subs groups : gset string) (sub : string) (gs : list string) : bool :=
  bool_decide (sub ∈ subs) || existsb (λ g, bool_decide (g ∈ groups)) gs.

Definition isAgent (rc : roleConfig) (sub : string) (groups : list string) : bool :=
  openMode rc || member (agentSubs rc) (agentGroups rc) sub groups.

Definition isReviewer (rc : roleConfig) (sub : string) (groups : list string) : bool :=
  openMode rc || member (reviewerSubs rc) (reviewerGroups rc) sub groups.

Definition isAdmin (rc : roleConfig) (sub : string) (groups : list string) : bool :=
  openMode rc || member (adminSubs rc) (adminGroups rc) sub groups.

(** The role checks: [Some] is the text of the 403 response. *)
Definition requireRole (rc : roleConfig) (role sub : string) (groups : list string) : option string :=
  if role ==? roleAgent then
    if isAgent rc sub groups then None else Some "agent role required"%string
  else if role ==? roleReviewer then
    if isReviewer rc sub groups then None else Some "reviewer role required"%string
  else if role ==? roleAdmin then
    if isAdmin rc sub groups then None else Some "admin role required"%string
  else Some "unknown role"%string.

Definition has_role (rc : roleConfig) (role sub : string) (groups : list string) : bool :=
  ((role ==? roleAgent) && isAgent rc sub groups) ||
  ((role ==? roleReviewer) && isReviewer rc sub groups) ||
  ((role ==? roleAdmin) && isAdmin rc sub groups).

Fixpoint any_role (rc : roleConfig) (roles : list string) (sub : string) (groups : list string) : bool :=
  match roles with
  | [] => false
  | role :: roles' => if has_role rc role sub groups then true else any_role rc roles' sub groups
  end.

Definition requireAnyRole (rc : roleConfig) (roles : list string) (sub : string) (groups : list string)
  : option string :=
  if any_role rc roles sub groups then None
  else Some (Join roles " or " +:+ " role required")%string.

(** ** Claims *)

(** A decoded JSON claim, as far as the extraction looks at it; an element of
    an array is a string or something else. *)
Inductive claim :=
| ClaimString (s : string)
| ClaimArray (l : list (option string))
| ClaimOther.

Definition claims : Type := gmap string claim.

Definition claimString (cs : claims) (name : string) : string :=
  match cs !! name with Some (ClaimString s) => s | _ => "" end.

Definition claimStringSlice (cs : claims) (name : string) : list string :=
  match cs !! name with Some (ClaimArray l) => omap id l | _ => [] end.

(** ** Middlewares *)

(** The caller a request's context carries. *)
Record caller := mkCaller {
  cl_Sub : string;
  cl_Groups : list string;
  cl_RawToken : string;
  cl_Issuer : string }.

Definition anonymous : caller := mkCaller "" [] "" "".

Inductive middleware_result :=
| Unauthorized (msg : string)
| Serve (c : caller).

Definition probe_path (path : string) : bool :=
  (path ==? "/healthz") || (path ==? "/readyz") || (path ==? "/metrics").

(** [verify raw] is the claims of a token the verifier accepts: [None] when it
    is rejected, [Some None] when its claims do not decode. *)
Definition oidcMiddleware (verify : string → option (option claims)) (identityClaim groupsClaim : string)
  (path authorization : string) : middleware_result :=
  if probe_path path then Serve anonymous
  else
    let raw := TrimPrefix authorization "Bearer " in
    if raw ==? "" then Unauthorized "missing Bearer token"
    else match verify raw with
    | None => Unauthorized "invalid token"
    | Some None => Unauthorized "token missing claims"
    | Some (Some cs) =>
        let identity := claimString cs identityClaim in
        let identity := if identity ==? "" then claimString cs "sub" else identity in
        if identity ==? "" then Unauthorized "token missing identity claim"
        else Serve (mkCaller identity (claimStringSlice cs groupsClaim) raw (claimString cs "iss"))
    end.

(** [nets] are the trusted networks, [ip] the parsed source address
    ([None]: it does not parse), [contains] is [net.IPNet.Contains]. *)
Definition proxyHeaderMiddleware {Net IP : Type} (contains : Net → IP → bool) (nets : list Net)
  (path : string) (ip : option IP) (remoteUser forwardedUser : string) : middleware_result :=
  if probe_path path then Serve anonymous
  else
    let header := if remoteUser ==? "" then forwardedUser else remoteUser in
    let trusted := match ip with Some a => existsb (λ n, contains n a) nets | None => false end in
    let caller := match nets with [] => header | _ => if trusted then header else "" end in
    Serve (if caller <>? "" then mkCaller caller [] "" "" else anonymous).

(** ** Facts *)

Lemma member_spec subs groups sub gs :
  member subs groups sub gs = true ↔ sub ∈ subs ∨ ∃ g, g ∈ gs ∧ g ∈ groups.
Proof.
  unfold member. rewrite orb_true_iff, bool_decide_eq_true, existsb_exists.
  setoid_rewrite bool_decide_eq_true. setoid_rewrite <- list_elem_of_In. done.
Qed.

Lemma parse_subs_spec s t :
  t ∈ parse_subs s ↔ t ≠ ""%string ∧ ∃ v, v ∈ split comma s ∧ t = TrimSpace v.
Proof.
  unfold parse_subs.
  enough (∀ m : gset string, t ∈ fold_left (λ m v, let t := TrimSpace v in if t <>? "" then {[t]} ∪ m else m)
                     (split comma s) m ↔
    t ∈ m ∨ t ≠ ""%string ∧ ∃ v, v ∈ split comma s ∧ t = TrimSpace v) as H.
  { rewrite H. set_solver. }
  induction (split comma s) as [|v l IH]; intros m; cbn [fold_left]; [set_solver|].
  rewrite IH. destruct (String.eqb_spec (TrimSpace v) ""); cbn; set_solver.
Qed.

(** [t] is an entry of the comma-separated list [s]. *)
Definition listed (s t : string) : Prop := t ≠ ""%string ∧ ∃ v, v ∈ split comma s ∧ t = TrimSpace v.

Lemma parse_empty s : parse_subs s = ∅ ↔ ∀ t, ~ listed s t.
Proof.
  split.
  - intros He t Ht. apply parse_subs_spec in Ht. set_solver.
  - intros Hn. apply set_eq. intros t. rewrite parse_subs_spec. split; [intros Ht; by destruct (Hn t)|set_solver].
Qed.

Lemma empty_spec s : empty s = true ↔ s = ∅.
Proof. apply bool_decide_eq_true. Qed.

Lemma openMode_spec al rl dl ag rg dg :
  openMode (newRoleConfig al rl dl ag rg dg) = true ↔
  ∀ s, s ∈ [al; rl; dl; ag; rg; dg] → ∀ t, ~ listed s t.
Proof.
  unfold openMode. rewrite !andb_true_iff, !empty_spec. cbn. rewrite !parse_empty.
  rewrite <- (Forall_forall (λ s, ∀ t, ~ listed s t)), !Forall_cons, Forall_nil. tauto.
Qed.

(** The role check accepts a caller exactly when no list has an entry, or the
    caller or one of its groups is an entry of that role's own lists: one
    configured list closes every role, and an unknown role is never granted. *)
Theorem role_check_spec al rl dl ag rg dg role sub groups :
  let rc := newRoleConfig al rl dl ag rg dg in
  requireRole rc role sub groups = None ↔
  ∃ subs gs, (role, subs, gs) ∈ [(roleAgent, al, ag); (roleReviewer, rl, rg); (roleAdmin, dl, dg)] ∧
    ((∀ s, s ∈ [al; rl; dl; ag; rg; dg] → ∀ t, ~ listed s t) ∨
     listed subs sub ∨ ∃ g, g ∈ groups ∧ listed gs g).
Proof.
  assert (∀ rc subs gs, rc || member (parse_subs subs) (parse_subs gs) sub groups = true ↔
    rc = true ∨ listed subs sub ∨ ∃ g, g ∈ groups ∧ listed gs g) as Hm.
  { intros rc subs gs. rewrite orb_true_iff, member_spec, parse_subs_spec.
    setoid_rewrite parse_subs_spec. done. }
  cbn zeta. unfold requireRole, isAgent, isReviewer, isAdmin.
  pose proof (openMode_spec al rl dl ag rg dg) as Ho.
  set (P := ∀ s, s ∈ [al; rl; dl; ag; rg; dg] → _) in *. clearbody P.
  set (o := openMode _) in *. clearbody o.
  cbn [newRoleConfig agentSubs reviewerSubs adminSubs agentGroups reviewerGroups adminGroups].
  destruct (String.eqb_spec role roleAgent) as [->|]; [|destruct (String.eqb_spec role roleReviewer) as [->|];
    [|destruct (String.eqb_spec role roleAdmin) as [->|]]]; [..|split; [done|set_solver]];
    (destruct (_ || _) eqn:E; [apply Hm in E; set_solver|]; apply not_true_iff_false in E; rewrite Hm in E;
     split; [done|]; intros (subs & gs & Hin & H); unfold roleAgent, roleReviewer, roleAdmin in Hin; set_solver).
Qed.

(** Behind the OIDC middleware a handler sees no caller only on the probe
    paths; otherwise the caller is the identity claim, or the subject, of a
    token the verifier accepted, and is not empty. *)
Theorem oidc_middleware_authenticates verify identityClaim groupsClaim path authorization c :
  oidcMiddleware verify identityClaim groupsClaim path authorization = Serve c →
  (probe_path path = true ∧ c = anonymous) ∨
  ∃ cs, verify (cl_RawToken c) = Some (Some cs) ∧ cl_RawToken c = TrimPrefix authorization "Bearer " ∧
    cl_RawToken c ≠ ""%string ∧ cl_Sub c ≠ ""%string ∧ cl_Issuer c = claimString cs "iss" ∧
    cl_Groups c = claimStringSlice cs groupsClaim ∧
    (cl_Sub c = claimString cs identityClaim ∨
     (claimString cs identityClaim = ""%string ∧ cl_Sub c = claimString cs "sub")).
Proof.
  unfold oidcMiddleware. destruct (probe_path path); [intros [= <-]; auto|].
  destruct (String.eqb_spec (TrimPrefix authorization "Bearer ") ""); [done|].
  destruct (verify _) as [[cs|]|] eqn:Hv; [|done..].
  destruct (String.eqb_spec (claimString cs identityClaim) ""); case_bool; [done| |done|];
    str_tests; intros [= <-]; right; exists cs; cbn; auto 10.
Qed.

Lemma oidc_middleware_authenticates_witness :
  let cs := <["azp" := ClaimString "bot"]> (<["iss" := ClaimString "https://issuer"]> ∅) : claims in
  ∃ cs', Some (Some cs) = Some (Some cs') ∧ claimString cs' "azp" = "bot"%string.
Proof.
  intros cs.
  destruct (oidc_middleware_authenticates (λ _, Some (Some cs)) "azp" "groups" "/agent-requests" "Bearer t"
              (mkCaller "bot" [] "t" "https://issuer")) as [[H _]|(cs' & Hv & _ & _ & _ & _ & _ & [H|[H _]])].
  - vm_compute. reflexivity.
  - vm_compute in H. discriminate.
  - exists cs'. split; [exact Hv|]. symmetry. exact H.
  - exists cs'. split; [exact Hv|]. injection Hv as <-. vm_compute in H. discriminate.
Defined.
