(* ===== verification/Gateway.v ===== *)
(** * The gateway: calls, responses, governed resources and the trust gate
      ([cmd/gateway/server.go], [cmd/gateway/governed_resource.go])

    HTTP handlers are programs over the signature [gw].  The registration
    cache and the glob cache are shared with other goroutines: every access is
    a call, so any update may come between two of them.  A handler's result is
    the response it writes; logging is left out. *)

From S2P Require Import Prelude GoStd GoStrings Types Prog Kube Conditions Naming.
From S2P Require Import Registration GatewayAuth.

(** [github.com/gobwas/glob], with ['/'] as the separator. *)
Class GlobLib := {
  Glob : Type;
  glob_Compile : string → option Glob;
  glob_Match : Glob → string → bool }.

(** ** Responses *)

(** What a handler writes with [writeJSON]; an error text may end in the text
    of an error of a library. *)
Inductive payload :=
| PError (msg : string) (cause : option error)
| PRequest (name : string) (labels : gmap string string) (phase : string)
    (denial : option DenialResponse) (conds : list Condition) (cpv : option ControlPlaneVerification)
| PResolved (name : string) (labels : gmap string string) (phase : string)
    (denial : option DenialResponse) (conds : list Condition) (cpv : option ControlPlaneVerification)
    (result : option AgentRequestResult)
| PWaiting (name : string) (labels : gmap string string) (phase : string)
    (conds : list Condition) (cpv : option ControlPlaneVerification)
| PDetails (name phase : string) (denial : option DenialResponse) (conds : list Condition)
    (cpv : option ControlPlaneVerification) (auditEvents : list string)
    (result : option AgentRequestResult)
| PDecision (name phase : string) (token : option (string * Z))
| PToken (token service : string)
| PMessage (msg : string)
| PRequests (items : list AgentRequest) (paged : option string).

Inductive Response :=
| Http (status : Z) (body : payload)
| SSE (ev : payload)      (** one server-sent event, then the end *)
| Streamed                (** handed over to the event stream *)
| NoResponse.             (** the client is gone *)

Definition StatusOK : Z := 200.
Definition StatusCreated : Z := 201.
Definition StatusBadRequest : Z := 400.
Definition StatusUnauthorized : Z := 401.
Definition StatusForbidden : Z := 403.
Definition StatusNotFound : Z := 404.
Definition StatusConflict : Z := 409.
Definition StatusInternalServerError : Z := 500.
Definition StatusGatewayTimeout : Z := 504.

Definition writeError (status : Z) (msg : string) : Response := Http status (PError msg None).
Definition writeErrorCause (status : Z) (msg : string) (e : error) : Response :=
  Http status (PError msg (Some e)).

(** ** Requests *)

(** The parts of an [http.Request] that handlers look at, next to the decoded
    body. *)
Record HttpRequest := mkHttp {
  rq_Caller : caller;
  rq_Name : string;          (** path value *)
  rq_Namespace : string;     (** query parameter *)
  rq_SSE : bool              (** [acceptsSSE] *) }.

Definition sub_of (rq : HttpRequest) : string := cl_Sub (rq_Caller rq).
Definition groups_of (rq : HttpRequest) : list string := cl_Groups (rq_Caller rq).

Definition defaultNamespace : string := "default".
Definition ns_of (rq : HttpRequest) : string :=
  if rq_Namespace rq ==? "" then defaultNamespace else rq_Namespace rq.
Definition nn_of (rq : HttpRequest) : NamespacedName := NN (ns_of rq) (rq_Name rq).

(** The server's configuration; clients, caches and the clock are calls. *)
Record Server := mkServer {
  dedupWindow : Z;
  roles : roleConfig;
  authRequired : bool;
  requireGovernedResource : bool;
  has_jwtManager : bool;     (** not nil *)
  has_regCache : bool;       (** not nil *)
  unregisteredAgentPolicy : string }.

(** ** Calls *)

(** What the [select] of the polling loop chose. *)
Inductive poll_event := Tick | TimedOut | ClientGone.

(** The options of a list of AgentRequests. *)
Record list_options := mkListOptions {
  lo_Namespace : string;
  lo_Labels : gmap string string;
  lo_Phase : option string;
  lo_Limit : option Z;
  lo_Continue : string }.

Inductive gcall `{GL : GlobLib} :=
| GGlobLookup (pattern : string)
| GGlobStore (pattern : string) (g : Glob)
| GRegGet (agentIdentity : string)
| GRegForSubject (agentIdentity sub : string)
| GRegProviderFor (agentIdentity service : string)
| GClock
| GWallNow
| GListGR
| GGetProfile (nn : NamespacedName)
| GGetPolicy (nn : NamespacedName)
| GGetAR (rd : reader) (nn : NamespacedName)
| GCreateAR (a : AgentRequest)
| GDeleteAR (a : AgentRequest)
| GPatchAR (base new : AgentRequest)
| GPatchARStatus (optimisticLock : bool) (base new : AgentRequest)
| GListAR (o : list_options)
| GListAudits (ns : string)
| GMintToken (agentIdentity action targetURI name : string)
| GProviderToken (p : Provider) (rawToken : string)
| GSelect
| GStream (name ns : string) (labels : gmap string string).

Definition gresp `{GL : GlobLib} (c : gcall) : Type :=
  match c with
  | GGlobLookup _ => option Glob
  | GGlobStore _ _ => unit
  | GRegGet _ | GRegForSubject _ _ => option AgentRegistration
  | GRegProviderFor _ _ => option Provider
  | GClock | GWallNow => Z
  | GListGR => res (list GovernedResource)
  | GGetProfile _ => res AgentTrustProfile
  | GGetPolicy _ => res AgentGraduationPolicy
  | GGetAR _ _ | GCreateAR _ | GPatchAR _ _ | GPatchARStatus _ _ _ => res AgentRequest
  | GDeleteAR _ => res unit
  | GListAR _ => res (list AgentRequest * string)
  | GListAudits _ => res (list AuditRecord)
  | GMintToken _ _ _ _ => res (string * Z)
  | GProviderToken _ _ => res string
  | GSelect => poll_event
  | GStream _ _ _ => unit
  end.

Definition gw `{GL : GlobLib} : sig := mkSig gcall gresp.

Abbreviation gcall_ c := (trigger gw c).

Section gateway.
Context `{GL : GlobLib}.

(** ** [matchGovernedResource] *)

(** [slices.Contains] on the permitted actions, unless there is no action or
    no restriction. *)
Definition action_governed (gr : GovernedResource) (action : string) : bool :=
  (action ==? "") || bool_decide (gr_PermittedActions (gr_Spec gr) = []) ||
  contains (gr_PermittedActions (gr_Spec gr)) action.

(** The compiled pattern of a resource, from the cache or compiled and stored. *)
Definition cached_glob (pattern : string) : prog gw (option Glob) :=
  hit <- gcall_ (GGlobLookup pattern) ;;
  match hit with
  | Some g => Ret (Some g)
  | None =>
      match glob_Compile pattern with
      | None => Ret None
      | Some g => gcall_ (GGlobStore pattern g) ;;; Ret (Some g)
      end
  end.

Definition pattern_of (gr : GovernedResource) : string := gr_URIPattern (gr_Spec gr).
Definition name_of (gr : GovernedResource) : string := om_Name (gr_Meta gr).

(** [gr] replaces [best]. *)
Definition beats (gr best : GovernedResource) : bool :=
  (String.length (pattern_of best) <? String.length (pattern_of gr))%nat ||
  ((String.length (pattern_of gr) =? String.length (pattern_of best))%nat &&
   String.ltb (name_of gr) (name_of best)).

Definition better (gr : GovernedResource) (best : option GovernedResource) : option GovernedResource :=
  match best with
  | None => Some gr
  | Some b => if beats gr b then Some gr else best
  end.

Fixpoint match_loop (items : list GovernedResource) (targetURI action : string)
  (best : option GovernedResource) : prog gw (option GovernedResource) :=
  match items with
  | [] => Ret best
  | gr :: items' =>
      if negb (action_governed gr action) then match_loop items' targetURI action best
      else
        g <- cached_glob (pattern_of gr) ;;
        match g with
        | Some g =>
            match_loop items' targetURI action (if glob_Match g targetURI then better gr best else best)
        | None => match_loop items' targetURI action best
        end
  end.

Definition matchGovernedResource (items : list GovernedResource) (targetURI action : string)
  : prog gw (option GovernedResource) := match_loop items targetURI action None.

(** The shared cache behind [GGlobLookup] and [GGlobStore], under its mutex. *)
Definition globCache_lookup (c : gmap string Glob) (pattern : string) : option Glob := c !! pattern.

Definition globCache_store (pattern : string) (g : Glob) (c : gmap string Glob) : gmap string Glob :=
  <[pattern := g]> (if 1000 <? Z.of_nat (size c) then ∅ else c).

(** ** [evaluateTrustGate] *)

Record trustGateResult := mkGate {
  rejected : bool;
  message : string;
  annotations : option (gmap string string) }.

Definition gate_pass : trustGateResult := mkGate false "" None.
Definition gate_reject (msg : string) : trustGateResult := mkGate true msg None.

Definition boolToStr (b : bool) : string := if b then "true" else "false".

Definition defaultGraduationPolicyName : string := "default".

(** The first level of that name: [(canExecute, requiresApproval)]. *)
Fixpoint level_flags (levels : list GraduationLevel) (name : string) : bool * bool :=
  match levels with
  | [] => (false, true)
  | l :: levels' =>
      if lv_Name l ==? name then (lv_CanExecute l, lv_RequiresHumanApproval l) else level_flags levels' name
  end.

Definition gate_annotations (effectiveAutonomy : string) (canExecute requiresApproval : bool)
  : gmap string string :=
  let anns := {[ AnnotationEffectiveTrustLevel := effectiveAutonomy ]} in
  if negb canExecute then <[AnnotationCanExecute := boolToStr false]> anns
  else <[AnnotationRequiresHumanApproval := boolToStr requiresApproval]> anns.

(** Effective autonomy: the agent's level, capped. *)
Definition effective_autonomy (effectiveLevel maxAutonomyLevel : string) : string :=
  let effRank := (TrustLevelRank effectiveLevel).1 in
  let '(maxRank, maxOk) := TrustLevelRank maxAutonomyLevel in
  if maxOk && (maxRank <? effRank) then maxAutonomyLevel else effectiveLevel.

(** The minimum-level check: the text of the rejection. *)
Definition below_minimum (effectiveLevel minTrustLevel : string) : option string :=
  let effRank := (TrustLevelRank effectiveLevel).1 in
  if minTrustLevel <>? "" then
    let '(minRank, minOk) := TrustLevelRank minTrustLevel in
    if negb minOk then Some ("GovernedResource has unknown MinTrustLevel: " +:+ minTrustLevel)%string
    else if effRank <? minRank then
      Some ("agent trust level " +:+ effectiveLevel +:+ " does not meet resource minimum " +:+ minTrustLevel)%string
    else None
  else None.

(** The second half: from the profile's level on. *)
Definition gate_level (tr : TrustRequirements) (ns level : string) : prog gw (res trustGateResult) :=
  let effectiveLevel := if level ==? "" then TrustLevelObserver else level in
  match below_minimum effectiveLevel (tr_MinTrustLevel tr) with
  | Some msg => Ret (Ok (gate_reject msg))
  | None =>
      let effectiveAutonomy := effective_autonomy effectiveLevel (tr_MaxAutonomyLevel tr) in
      policy <- gcall_ (GGetPolicy (NN ns defaultGraduationPolicyName)) ;;
      let finish (flags : bool * bool) :=
        Ret (Ok (mkGate false "" (Some (gate_annotations effectiveAutonomy flags.1 flags.2)))) in
      match policy with
      | Err e =>
          if negb (IsNotFound e) then Ret (Err (EWrap "getting AgentGraduationPolicy default" e))
          else finish (false, true)
      | Ok p => finish (level_flags (gp_Levels (gp_Spec p)) effectiveAutonomy)
      end
  end.

Definition evaluateTrustGate (ns agentIdentity mode : string) (gr : GovernedResource)
  : prog gw (res trustGateResult) :=
  match gr_TrustRequirements (gr_Spec gr) with
  | None => Ret (Ok gate_pass)
  | Some tr =>
      if mode ==? ModeObserve then Ret (Ok gate_pass)
      else
        let profileName := ProfileNameForAgent agentIdentity in
        profile <- gcall_ (GGetProfile (NN ns profileName)) ;;
        match profile with
        | Err e =>
            if negb (IsNotFound e) then Ret (Err (EWrap ("getting AgentTrustProfile " +:+ profileName)%string e))
            else gate_level tr ns TrustLevelObserver
        | Ok p => gate_level tr ns (atp_TrustLevel (atp_Status p))
        end
  end.

End gateway.
