(* ===== verification/GatewayCreate.v ===== *)
(** * Submission of AgentRequests ([cmd/gateway/agent_request_handlers.go])

    [handleCreateAgentRequest] with every step of its admission pipeline:
    caller, body, registration, role, identity, GovernedResource match, trust
    gate, deduplication, creation, and the wait for a resolution. *)

From Stdlib Require Import SpecFloat.
From S2P Require Import Prelude GoStd GoStrings Types Prog Kube Conditions Naming.
From S2P Require Import Registration GatewayAuth Gateway.

(** ** The request body ([server.go]) *)

Record affectedTargetBody := mkAffectedBody { ab_URI : string; ab_EffectType : string }.

Record cascadeModelBody := mkCascadeBody {
  cb_AffectedTargets : list affectedTargetBody;
  cb_ModelSourceTrust : string;
  cb_ModelSourceID : string }.

Record reasoningTraceBody := mkTraceBody {
  tb_ConfidenceScore : spec_float;
  tb_ComponentConfidence : gmap string spec_float;
  tb_TraceReference : string;
  tb_Alternatives : list string }.

Record createAgentRequestBody := mkCreateBody {
  body_AgentIdentity : string;
  body_Action : string;
  body_TargetURI : string;
  body_Reason : string;
  body_Namespace : string;
  body_CorrelationID : string;
  body_Classification : string;
  body_DedupKey : string;
  body_CascadeModel : option cascadeModelBody;
  body_ReasoningTrace : option reasoningTraceBody;
  body_Parameters : string;   (** raw JSON *)
  body_ExecutionMode : option string;
  body_ScopeBounds : option ScopeBounds }.

Definition non_empty (s : string) : option string := if s <>? "" then Some s else None.

Definition buildCascadeModel (body : createAgentRequestBody) : option CascadeModel :=
  match body_CascadeModel body with
  | None => None
  | Some cm =>
      match cb_AffectedTargets cm with
      | [] => None
      | ts => Some (mkCascade ((λ t, mkAffected (ab_URI t) (ab_EffectType t)) <$> ts)
                      (non_empty (cb_ModelSourceTrust cm)) (non_empty (cb_ModelSourceID cm)))
      end
  end.

Definition buildReasoningTrace (body : createAgentRequestBody) : option ReasoningTrace :=
  match body_ReasoningTrace body with
  | None => None
  | Some rt =>
      Some (mkTrace
        (if SFltb (S754_zero false) (tb_ConfidenceScore rt) then Some (tb_ConfidenceScore rt) else None)
        (tb_ComponentConfidence rt)
        None
        (non_empty (tb_TraceReference rt))
        (tb_Alternatives rt))
  end.

Definition parameters_of (body : createAgentRequestBody) : option JSON :=
  if (body_Parameters body <>? "") && (body_Parameters body <>? "null")
  then Some (mkJSON (body_Parameters body)) else None.

Definition label_profile : string := "aip.io/profileName".
Definition label_agent : string := "aip.io/agentIdentity".
Definition label_corr : string := "aip.io/correlationID".
Definition label_class : string := "aip.io/classification".

Definition reqLabels (agentIdentity : string) (body : createAgentRequestBody) : gmap string string :=
  let l : gmap string string :=
    <[label_profile := ProfileNameForAgent agentIdentity]>
      {[ label_agent := sanitizeLabelValue agentIdentity ]} in
  let l := if body_CorrelationID body <>? ""
           then <[label_corr := sanitizeLabelValue (body_CorrelationID body)]> l else l in
  if body_Classification body <>? ""
  then <[label_class := sanitizeLabelValue (body_Classification body)]> l else l.

Definition empty_status : AgentRequestStatus :=
  mkStatus "" [] None "" 0 None None "" "" "" "" None None None.

(** The AgentRequest literal. *)
Definition new_request (agentIdentity ns : string) (body : createAgentRequestBody) : AgentRequest :=
  mkAR
    (mkMeta "" (sanitizeDNSSegment agentIdentity 57 +:+ "-")%string ns "" (reqLabels agentIdentity body) ∅
       0 0 0 None [] [])
    (mkSpec agentIdentity (body_Action body) (mkTarget (body_TargetURI body) None ∅) (body_Reason body)
       "" (normalizeClassification (body_Classification body)) "" None None (buildCascadeModel body)
       (buildReasoningTrace body) None (parameters_of body) (body_ExecutionMode body)
       (body_ScopeBounds body) None None)
    empty_status.

(** Assignments to fields of the request under construction. *)
Definition set_annotations (f : gmap string string → gmap string string) (a : AgentRequest) : AgentRequest :=
  let m := ar_Meta a in
  set_ar_Meta (mkMeta (om_Name m) (om_GenerateName m) (om_Namespace m) (om_UID m) (om_Labels m)
    (f (om_Annotations m)) (om_Generation m) (om_ResourceVersion m) (om_CreationTimestamp m)
    (om_DeletionTimestamp m) (om_Finalizers m) (om_OwnerReferences m)) a.

Definition annotate (k v : string) : AgentRequest → AgentRequest := set_annotations (<[k := v]>).

Definition set_name (name : string) (a : AgentRequest) : AgentRequest :=
  let m := ar_Meta a in
  set_ar_Meta (mkMeta name "" (om_Namespace m) (om_UID m) (om_Labels m)
    (om_Annotations m) (om_Generation m) (om_ResourceVersion m) (om_CreationTimestamp m)
    (om_DeletionTimestamp m) (om_Finalizers m) (om_OwnerReferences m)) a.

Definition set_dedup_key (k : string) (a : AgentRequest) : AgentRequest :=
  let s := ar_Spec a in
  set_ar_Spec (mkSpec (spec_AgentIdentity s) (spec_Action s) (spec_Target s) (spec_Reason s) (spec_Mode s)
    (spec_Classification s) k (spec_IntentPlanRef s) (spec_Priority s) (spec_CascadeModel s)
    (spec_ReasoningTrace s) (spec_Interruptibility s) (spec_Parameters s) (spec_ExecutionMode s)
    (spec_ScopeBounds s) (spec_HumanApproval s) (spec_GovernedResourceRef s)) a.

Definition ref_of (gr : GovernedResource) : GovernedResourceRef :=
  mkGRRef (name_of gr) (om_Generation (gr_Meta gr)).

Definition set_ref (gr : GovernedResource) (a : AgentRequest) : AgentRequest :=
  set_ar_Spec (set_spec_GovernedResourceRef (Some (ref_of gr)) (ar_Spec a)) a.

Definition annotation_unregistered : string := "governance.aip.io/unregistered".

Definition terminalPhases (p : string) : bool :=
  (p ==? PhaseDenied) || (p ==? PhaseCompleted) || (p ==? PhaseFailed) || (p ==? PhaseExpired).

Definition IsInvalid (e : error) : bool := bool_decide (err_status e = Some Invalid).
Definition IsBadRequest (e : error) : bool := bool_decide (err_status e = Some BadRequest).
Definition IsNoMatchError (e : error) : bool := bool_decide (err_status e = Some NoMatch).

Definition terminal_conflict_msg : string :=
  "previous request for this key is terminal (Completed/Failed/Denied/Expired) — stale object deleted, please retry".

Section create.
Context `{GL : GlobLib, MC : MetaConditions}.
Context (s : Server).

(** ** Waiting for a resolution *)

(** The loop of [pollAgentRequestPhase]: [fuel] bounds the iterations before
    the context of [waitTimeout] ends, when only the first branch is left. *)
Fixpoint poll_loop (fuel : nat) (nn : NamespacedName) (labels : gmap string string) : prog gw Response :=
  match fuel with
  | O =>
      ev <- gcall_ GSelect ;;
      Ret (if ev is ClientGone then NoResponse
           else writeError StatusGatewayTimeout "timed out waiting for AgentRequest resolution")
  | S fuel' =>
      ev <- gcall_ GSelect ;;
      match ev with
      | TimedOut => Ret (writeError StatusGatewayTimeout "timed out waiting for AgentRequest resolution")
      | ClientGone => Ret NoResponse
      | Tick =>
          r <- gcall_ (GGetAR Cached nn) ;;
          match r with
          | Err _ => poll_loop fuel' nn labels
          | Ok current =>
              let st := ar_Status current in
              let ph := phase current in
              if (ph ==? PhaseApproved) || (ph ==? PhaseDenied) || (ph ==? PhaseCompleted) ||
                 (ph ==? PhaseFailed) || (ph ==? PhaseAwaitingVerdict) then
                Ret (Http StatusCreated (PResolved (om_Name (ar_Meta current)) labels ph (st_Denial st)
                       (st_Conditions st) (st_ControlPlaneVerification st) (st_Result st)))
              else if (ph ==? PhasePending) &&
                      IsStatusConditionTrue (st_Conditions st) ConditionRequiresApproval then
                Ret (Http StatusCreated (PWaiting (om_Name (ar_Meta current)) labels ph
                       (st_Conditions st) (st_ControlPlaneVerification st)))
              else poll_loop fuel' nn labels
          end
      end
  end.

Definition pollAgentRequestPhase := poll_loop.

(** ** Creation and deduplication *)

(** Mirror of the reference to the status of a created request; a failure is
    only logged. *)
Definition mirror_ref (gr : GovernedResource) (created : AgentRequest) : prog gw AgentRequest :=
  r <- gcall_ (GPatchARStatus false created
                 (upd_status (set_st_GovernedResourceRef (Some (ref_of gr))) created)) ;;
  Ret match r with
      | Ok stored => stored
      | Err _ => upd_status (set_st_GovernedResourceRef (Some (ref_of gr))) created
      end.

(** [AlreadyExists]: a duplicate within the window. *)
Definition duplicate (rq : HttpRequest) (name ns : string) (labels : gmap string string)
  : prog gw Response :=
  r <- gcall_ (GGetAR Cached (NN ns name)) ;;
  match r with
  | Err e => Ret (writeErrorCause StatusInternalServerError "duplicate detected but failed to fetch existing: " e)
  | Ok existing =>
      if terminalPhases (phase existing) then
        d <- gcall_ (GDeleteAR existing) ;;
        match d with
        | Err e =>
            if negb (IsNotFound e) then
              Ret (writeErrorCause StatusInternalServerError
                ("dedup: failed to delete stale terminal request " +:+ om_Name (ar_Meta existing) +:+ ": ")%string e)
            else Ret (writeError StatusConflict terminal_conflict_msg)
        | Ok _ => Ret (writeError StatusConflict terminal_conflict_msg)
        end
      else
        let st := ar_Status existing in
        let p := PRequest (om_Name (ar_Meta existing)) labels (phase existing) (st_Denial st)
                   (st_Conditions st) (st_ControlPlaneVerification st) in
        if rq_SSE rq then Ret (SSE p) else Ret (Http StatusOK p)
  end.

(** From the create call on. *)
Definition submit (fuel : nat) (rq : HttpRequest) (ns : string) (labels : gmap string string)
  (matchedGR : option GovernedResource) (agentReq : AgentRequest) : prog gw Response :=
  r <- gcall_ (GCreateAR agentReq) ;;
  match r with
  | Err e =>
      if IsAlreadyExists e then duplicate rq (om_Name (ar_Meta agentReq)) ns labels
      else if IsInvalid e || IsBadRequest e then
        Ret (writeErrorCause StatusBadRequest "invalid AgentRequest: " e)
      else Ret (writeErrorCause StatusInternalServerError "failed to create AgentRequest: " e)
  | Ok created =>
      agentReq <- match matchedGR with Some gr => mirror_ref gr created | None => Ret created end ;;
      let name := om_Name (ar_Meta agentReq) in
      if rq_SSE rq then gcall_ (GStream name ns labels) ;;; Ret Streamed
      else pollAgentRequestPhase fuel (NN ns name) labels
  end.

(** The deterministic name within a dedup window. *)
Definition dedup_name (agentIdentity : string) (body : createAgentRequestBody) (agentReq : AgentRequest)
  : prog gw AgentRequest :=
  if 0 <? dedupWindow s then
    now <- gcall_ GClock ;;
    let dedupKey := computeDedupKey agentIdentity (body_Action body) (body_TargetURI body)
                      (spec_Classification (ar_Spec agentReq)) (body_DedupKey body) in
    let agentReq := set_name (deterministicRequestName agentIdentity dedupKey (dedupWindow s) now) agentReq in
    Ret (if body_DedupKey body <>? "" then set_dedup_key (body_DedupKey body) agentReq else agentReq)
  else Ret agentReq.

(** From [admissionPassed] on: the reference, the trust gate, the name, the
    creation. *)
Definition admitted (fuel : nat) (rq : HttpRequest) (agentIdentity ns : string)
  (body : createAgentRequestBody) (matchedGR : option GovernedResource) (agentReq : AgentRequest)
  : prog gw Response :=
  let labels := reqLabels agentIdentity body in
  let agentReq := match matchedGR with Some gr => set_ref gr agentReq | None => agentReq end in
  let go (agentReq : AgentRequest) :=
    agentReq <- dedup_name agentIdentity body agentReq ;;
    submit fuel rq ns labels matchedGR agentReq in
  match matchedGR with
  | Some gr =>
      match gr_TrustRequirements (gr_Spec gr) with
      | Some _ =>
          t <- evaluateTrustGate ns agentIdentity (spec_Mode (ar_Spec agentReq)) gr ;;
          match t with
          | Err e => Ret (writeErrorCause StatusInternalServerError "trust gate error: " e)
          | Ok t =>
              if rejected t then Ret (writeError StatusForbidden ("INSUFFICIENT_TRUST: " +:+ message t)%string)
              else match annotations t with
              | Some anns => go (set_annotations (λ m, anns ∪ m) agentReq)
              | None => go agentReq
              end
          end
      | None => go agentReq
      end
  | None => go agentReq
  end.

(** An action outside the permitted ones: a request is created for the audit
    trail, marked as denied. *)
Definition deny_action (gr : GovernedResource) (agentReq : AgentRequest) : prog gw Response :=
  let agentReq := annotate AnnotationGatewayDenied DenialCodeActionNotPermitted (set_ref gr agentReq) in
  r <- gcall_ (GCreateAR agentReq) ;;
  match r with
  | Ok created => mirror_ref gr created ;;; Ret (writeError StatusForbidden DenialCodeActionNotPermitted)
  | Err _ => Ret (writeError StatusForbidden DenialCodeActionNotPermitted)
  end.

(** The GovernedResource admission. *)
Definition govern (fuel : nat) (rq : HttpRequest) (agentIdentity ns : string)
  (body : createAgentRequestBody) (agentReq : AgentRequest) : prog gw Response :=
  l <- gcall_ GListGR ;;
  let with_items (items : list GovernedResource) :=
    if bool_decide (items = []) && negb (requireGovernedResource s) then
      admitted fuel rq agentIdentity ns body None agentReq
    else
      m <- matchGovernedResource items (body_TargetURI body) "" ;;
      match m with
      | None => Ret (writeError StatusForbidden DenialCodeActionNotPermitted)
      | Some gr =>
          if bool_decide (gr_PermittedAgents (gr_Spec gr) ≠ []) &&
             negb (contains (gr_PermittedAgents (gr_Spec gr)) agentIdentity) then
            Ret (writeError StatusForbidden DenialCodeIdentityInvalid)
          else if negb (contains (gr_PermittedActions (gr_Spec gr)) (body_Action body)) then
            deny_action gr agentReq
          else admitted fuel rq agentIdentity ns body (Some gr) agentReq
      end in
  match l with
  | Err e =>
      if IsNoMatchError e then with_items []
      else Ret (writeErrorCause StatusInternalServerError "failed to list GovernedResources: " e)
  | Ok items => with_items items
  end.

(** The registration policy, once the request is built. *)
Definition registered (rq : HttpRequest) (reg : option AgentRegistration) (agentIdentity : string)
  (agentReq : AgentRequest) : string + AgentRequest :=
  if has_regCache s then
    match reg with
    | None =>
        if unregisteredAgentPolicy s ==? "strict" then
          inl ("AGENT_NOT_REGISTERED: agent " +:+ quote agentIdentity +:+ " has no AgentRegistration")%string
        else if unregisteredAgentPolicy s ==? "warn" then
          inr (annotate annotation_unregistered "true" agentReq)
        else inr agentReq
    | Some reg =>
        match validateOIDCIdentity reg (cl_Issuer (rq_Caller rq)) (sub_of rq) with
        | Some err => inl ("IDENTITY_MISMATCH: " +:+ err)%string
        | None => inr agentReq
        end
    end
  else inr agentReq.

(** The registration of the caller (of the body's identity without
    authentication). *)
Definition find_registration (rq : HttpRequest) (body : createAgentRequestBody)
  : prog gw (option AgentRegistration) :=
  if authRequired s then
    if has_regCache s && (sub_of rq <>? "") then
      reg <- gcall_ (GRegGet (sub_of rq)) ;;
      match reg with
      | Some reg => Ret (Some reg)
      | None => gcall_ (GRegForSubject "" (sub_of rq))
      end
    else Ret None
  else if has_regCache s && (body_AgentIdentity body <>? "") then gcall_ (GRegGet (body_AgentIdentity body))
  else Ret None.

(** The identity a request is created for, or the 400 response's text. *)
Definition resolve_identity (rq : HttpRequest) (reg : option AgentRegistration)
  (body : createAgentRequestBody) : string + string :=
  match reg with
  | Some reg => inr (identity_of reg)
  | None =>
      if authRequired s then inr (sub_of rq)
      else if body_AgentIdentity body ==? "" then
        inl "agentIdentity is required when running without authentication"%string
      else inr (body_AgentIdentity body)
  end.

Definition handleCreateAgentRequest (fuel : nat) (rq : HttpRequest) (body : option createAgentRequestBody)
  : prog gw Response :=
  if authRequired s && (sub_of rq ==? "") then
    Ret (writeError StatusUnauthorized "caller identity required")
  else match body with
  | None => Ret (writeError StatusBadRequest "invalid request body")
  | Some body =>
      if (body_Action body ==? "") || (body_TargetURI body ==? "") then
        Ret (writeError StatusBadRequest "action and targetURI are required")
      else
        reg <- find_registration rq body ;;
        match (if authRequired s then requireRole (roles s) roleAgent (sub_of rq) (groups_of rq) else None) with
        | Some msg => Ret (writeError StatusForbidden msg)
        | None =>
            match resolve_identity rq reg body with
            | inl msg => Ret (writeError StatusBadRequest msg)
            | inr agentIdentity =>
                let ns := if body_Namespace body ==? "" then defaultNamespace else body_Namespace body in
                match registered rq reg agentIdentity (new_request agentIdentity ns body) with
                | inl msg => Ret (writeError StatusForbidden msg)
                | inr agentReq => govern fuel rq agentIdentity ns body agentReq
                end
            end
        end
  end.

End create.
