(* ===== verification/GatewayMatch.v ===== *)
(** * Which GovernedResource governs a request, and the trust gate: facts

    The result of [matchGovernedResource] does not depend on the glob cache,
    on the order of the list, or on what other goroutines do to the cache
    between its steps; the cache itself stays coherent and bounded. *)

From S2P Require Import Prelude GoStd GoStrings Types Prog Kube Conditions Naming.
From S2P Require Import Registration GatewayAuth Gateway.

(** ** Walking through a gateway program *)

Section walk.
Context `{GL : GlobLib}.
Implicit Types (h : list (event gw)).

Definition gseen h (c : gcall) (x : gresp c) : Prop := Ev (S:=gw) c x ∈ h.

Lemma gseen_mono h h' c x : h ⊆ h' → gseen h c x → gseen h' c x.
Proof. unfold gseen. auto. Qed.

Context (R : event gw → Prop) (P : list (event gw) → gcall → Prop).

Lemma gsafe_call h c {B} (k : gresp c → prog gw B) Q :
  P h c →
  (∀ x h', R (Ev (S:=gw) c x) → h ⊆ h' → gseen h' c x → safe R P h' (k x) Q) →
  safe R P h (bind (gcall_ c) k) Q.
Proof. apply safe_call. Qed.

Lemma gsafe_last h c Q :
  P h c →
  (∀ x h', R (Ev (S:=gw) c x) → h ⊆ h' → gseen h' c x → Q h' x) →
  safe R P h (gcall_ c) Q.
Proof. apply safe_last. Qed.

Lemma gsafe_sub h {A B} (p : prog gw A) (φ : list (event gw) → A → Prop) (k : A → prog gw B) Q :
  safe R P h p (λ h' x, h ⊆ h' ∧ φ h' x) →
  (∀ x h', h ⊆ h' → φ h' x → safe R P h' (k x) Q) →
  safe R P h (bind p k) Q.
Proof. apply safe_sub. Qed.

End walk.

#[export] Hint Resolve gseen_mono : aip.

Section facts.
Context `{GL : GlobLib}.
Implicit Types (h : list (event gw)) (gr b : GovernedResource).

(** ** The order among matches *)

(** [gr] governs [uri] for [action]. *)
Definition governs (uri action : string) gr : bool :=
  action_governed gr action &&
  match glob_Compile (pattern_of gr) with Some g => glob_Match g uri | None => false end.

(** The governing resource of a list: it governs, and none that governs beats
    it. *)
Definition most_specific (uri action : string) (items : list GovernedResource) gr : Prop :=
  gr ∈ items ∧ governs uri action gr = true ∧
  ∀ gr', gr' ∈ items → governs uri action gr' = true → beats gr' gr = false.

Lemma compare_trans s t u : (s ?= t)%string = Lt → (t ?= u)%string = Lt → (s ?= u)%string = Lt.
Proof.
  revert t u. induction s as [|a s IH]; intros [|b t] [|c u]; cbn; try done.
  unfold Ascii.compare. intros H1 H2.
  destruct (N.compare_spec (Ascii.N_of_ascii a) (Ascii.N_of_ascii b)) as [E1|E1|E1]; [|clear H1|done];
    (destruct (N.compare_spec (Ascii.N_of_ascii b) (Ascii.N_of_ascii c)) as [E2|E2|E2]; [|clear H2|done]);
    destruct (N.compare_spec (Ascii.N_of_ascii a) (Ascii.N_of_ascii c)); try done; try lia; eauto.
Qed.

Lemma ltb_lt s t : String.ltb s t = true ↔ (s ?= t)%string = Lt.
Proof. unfold String.ltb. by destruct (s ?= t)%string. Qed.

Lemma ltb_trans s t u : String.ltb s t = true → String.ltb t u = true → String.ltb s u = true.
Proof. rewrite !ltb_lt. apply compare_trans. Qed.

Lemma ltb_total s t : s ≠ t → String.ltb s t = false → String.ltb t s = true.
Proof.
  unfold String.ltb. rewrite (String.compare_antisym s t).
  destruct (t ?= s)%string eqn:E; try done. apply String.compare_eq_iff in E. congruence.
Qed.

Lemma beats_spec gr b : beats gr b = true ↔
  (String.length (pattern_of b) < String.length (pattern_of gr))%nat ∨
  (String.length (pattern_of gr) = String.length (pattern_of b) ∧ String.ltb (name_of gr) (name_of b) = true).
Proof. unfold beats. by rewrite orb_true_iff, andb_true_iff, Nat.ltb_lt, Nat.eqb_eq. Qed.

Lemma beats_irrefl gr : beats gr gr = false.
Proof.
  apply not_true_iff_false. rewrite beats_spec, ltb_lt.
  intros [?|[_ H]]; [lia|]. pose proof (String.compare_antisym (name_of gr) (name_of gr)) as Ha. by rewrite H in Ha.
Qed.

Lemma beats_trans g1 g2 g3 : beats g1 g2 = true → beats g2 g3 = true → beats g1 g3 = true.
Proof.
  rewrite !beats_spec. intros [?|[? Hn]] [?|[? Hn']]; try (left; lia).
  right. split; [lia|by eapply ltb_trans].
Qed.

(** Among resources of different names the order is total. *)
Lemma beats_total g1 g2 : name_of g1 ≠ name_of g2 → beats g1 g2 = false → beats g2 g1 = true.
Proof.
  intros Hn Hb. apply not_true_iff_false in Hb. rewrite beats_spec in Hb. rewrite beats_spec.
  destruct (decide (String.length (pattern_of g1) = String.length (pattern_of g2))) as [E|E]; [|left; lia].
  right. split; [done|]. apply ltb_total; [done|]. apply not_true_iff_false. auto.
Qed.

(** "Does not beat" composes: the order is a strict weak one. *)
Lemma beats_split g1 g2 g3 : beats g1 g3 = true → beats g1 g2 = true ∨ beats g2 g3 = true.
Proof.
  rewrite !beats_spec. intros H.
  destruct (lt_eq_lt_dec (String.length (pattern_of g1)) (String.length (pattern_of g2))) as [[?|E]|?];
    [right; left; destruct H as [?|[? _]]; lia| |left; left; lia].
  destruct H as [?|[E' Hn]]; [right; left; lia|].
  destruct (decide (name_of g1 = name_of g2)) as [En|En].
  { right. right. rewrite <- En. split; [congruence|done]. }
  destruct (String.ltb (name_of g1) (name_of g2)) eqn:Hl; [left; right; auto|].
  right. right. split; [congruence|]. eapply ltb_trans; [by apply ltb_total|done].
Qed.

(** ** The loop *)

(** Answers of the glob cache are compiled patterns. *)
Definition coherent (e : event gw) : Prop :=
  let 'Ev c x := e in
  match c return gresp c → Prop with
  | GGlobLookup p => λ x, ∀ g, x = Some g → glob_Compile p = Some g
  | _ => λ _, True
  end x.

(** What the loop computes, without the cache. *)
Definition best_of (uri action : string) (items : list GovernedResource) (best : option GovernedResource)
  : option GovernedResource :=
  fold_left (λ best gr, if governs uri action gr then better gr best else best) items best.

(** The only calls of a match are to the glob cache, and it stores only
    compiled patterns. *)
Definition glob_call (c : gcall) : Prop :=
  match c with
  | GGlobLookup _ => True
  | GGlobStore p g => glob_Compile p = Some g
  | _ => False
  end.

Lemma cached_glob_safe h p :
  safe coherent (λ _ c, glob_call c) h (cached_glob p) (λ h' g, h ⊆ h' ∧ g = glob_Compile p).
Proof.
  unfold cached_glob. apply gsafe_call; [done|]. intros [g|] h' Hc Hs _; cbn.
  - split; [done|]. symmetry. by apply Hc.
  - destruct (glob_Compile p) as [g|] eqn:E; [|by split].
    apply gsafe_call; [done|]. intros _ h'' _ Hs' _. cbn. split; [by etrans|done].
Qed.

Lemma match_loop_safe h items uri action best :
  safe coherent (λ _ c, glob_call c) h (match_loop items uri action best)
    (λ h' r, h ⊆ h' ∧ r = best_of uri action items best).
Proof.
  revert h best. induction items as [|gr items IH]; intros h best; cbn [match_loop]; [by split|].
  unfold best_of, governs. cbn [fold_left].
  destruct (action_governed gr action); cbn [negb andb]; [|apply IH].
  eapply gsafe_sub; [apply cached_glob_safe|]. intros g h' Hs ->.
  assert (∀ best', safe coherent (λ _ c, glob_call c) h' (match_loop items uri action best')
    (λ h'' r, h ⊆ h'' ∧ r = best_of uri action items best')) as H.
  { intros best'. eapply safe_post; [|apply IH]. intros h'' r [Hs' ->]. split; [by etrans|done]. }
  destruct (glob_Compile (pattern_of gr)) as [g|]; [|apply H]. destruct (glob_Match g uri); apply H.
Qed.

(** ** The most specific match *)

Lemma best_of_spec uri action items best :
  match best_of uri action items best with
  | None => best = None ∧ ∀ gr, gr ∈ items → governs uri action gr = false
  | Some b =>
      (best = Some b ∨ (b ∈ items ∧ governs uri action b = true)) ∧
      (∀ b', best = Some b' → beats b' b = false) ∧
      ∀ gr, gr ∈ items → governs uri action gr = true → beats gr b = false
  end.
Proof.
  revert best. induction items as [|gr items IH]; intros best; cbn.
  { destruct best as [b|]; [|split; [done|set_solver]].
    split; [by left|]. split; [|set_solver]. intros b' [= ->]. apply beats_irrefl. }
  change (fold_left _ items ?b) with (best_of uri action items b).
  destruct (governs uri action gr) eqn:Hg; [specialize (IH (better gr best))|specialize (IH best)].
  2:{ destruct (best_of _ _ _ best) as [b|].
      - destruct IH as (H1 & H2 & H3). split; [set_solver|]. split; [done|].
        intros gr' [->|Hin]%elem_of_cons ?; [congruence|auto].
      - destruct IH as [-> H]. split; [done|]. intros gr' [->|Hin]%elem_of_cons; auto. }
  destruct (best_of _ _ _ _) as [b|].
  2:{ destruct IH as [H _]. unfold better in H. destruct best; [by destruct (beats _ _)|done]. }
  destruct IH as (H1 & H2 & H3). unfold better in H1, H2.
  destruct best as [b0|].
  - destruct (beats gr b0) eqn:Hb.
    + split; [destruct H1 as [[= ->]|]; set_solver|]. split.
      * intros ? [= <-]. apply not_true_iff_false. intros Hb0.
        specialize (H2 gr eq_refl). rewrite (beats_trans gr b0 b) in H2 by done. done.
      * intros gr' [->|Hin]%elem_of_cons ?; auto.
    + split; [destruct H1 as [|]; set_solver|]. split; [done|].
      intros gr' [->|Hin]%elem_of_cons ?; [|auto]. apply not_true_iff_false. intros Hgb.
      specialize (H2 b0 eq_refl). destruct (beats_split gr b0 b) as [?|?]; congruence.
  - split; [destruct H1 as [[= ->]|]; set_solver|]. split; [done|].
    intros gr' [->|Hin]%elem_of_cons ?; auto.
Qed.

Lemma best_of_most_specific uri action items gr :
  best_of uri action items None = Some gr → most_specific uri action items gr.
Proof.
  intros E. pose proof (best_of_spec uri action items None) as H. rewrite E in H.
  destruct H as ([?|[? ?]] & _ & H); [done|]. by repeat split.
Qed.

(** ** The shared cache *)

(** The caches that any number of concurrent matches can produce: each store
    is one that a match, answered from such caches, makes. *)
Inductive reachable_cache : gmap string Glob → Prop :=
| RC_empty : reachable_cache ∅
| RC_store c items uri action t p g t' :
    reachable_cache c →
    Forall coherent t →
    emits (matchGovernedResource items uri action) (t ++ Ev (S:=gw) (GGlobStore p g) tt :: t') →
    reachable_cache (globCache_store p g c).

(** ** Claims *)

(** A match finds nothing exactly when no listed resource governs the target;
    otherwise it finds one that governs it and that no other beats: the
    longest pattern wins, ties go to the smallest name.  This holds whatever
    coherent state the glob cache is in at each lookup. *)
Theorem governing_resource items uri action t r :
  runs (matchGovernedResource items uri action) t r → Forall coherent t →
  (r = None ↔ ∀ gr, gr ∈ items → governs uri action gr = false) ∧
  ∀ gr, r = Some gr → most_specific uri action items gr.
Proof.
  intros Hr Hc.
  destruct (safe_runs _ _ _ _ _ _ _ (match_loop_safe [] items uri action None) Hc Hr) as [_ ->].
  split; [|apply best_of_most_specific].
  pose proof (best_of_spec uri action items None) as H.
  destruct (best_of _ _ _ _) as [b|]; [|tauto].
  split; [done|]. intros Hn. destruct H as ([?|[Hb Hg]] & _); [done|]. rewrite Hn in Hg by done. done.
Qed.

(** GovernedResources have distinct names, so the most specific one is unique:
    a match gives the same answer for every order in which the cache lists the
    resources, and for every state of the glob cache. *)
Theorem match_order_independent items items' uri action t t' r r' :
  NoDup (name_of <$> items) → items ≡ₚ items' →
  runs (matchGovernedResource items uri action) t r → Forall coherent t →
  runs (matchGovernedResource items' uri action) t' r' → Forall coherent t' →
  r = r'.
Proof.
  intros Hnd Hp Hr Hc Hr' Hc'.
  destruct (safe_runs _ _ _ _ _ _ _ (match_loop_safe [] items uri action None) Hc Hr) as [_ ->].
  destruct (safe_runs _ _ _ _ _ _ _ (match_loop_safe [] items' uri action None) Hc' Hr') as [_ ->].
  pose proof (best_of_spec uri action items None) as H.
  pose proof (best_of_spec uri action items' None) as H'.
  destruct (best_of uri action items None) as [b|], (best_of uri action items' None) as [b'|]; [| | |done].
  - destruct H as ([?|[Hb Hg]] & _ & Hu), H' as ([?|[Hb' Hg']] & _ & Hu'); [done..|].
    f_equal. destruct (decide (name_of b = name_of b')) as [En|En].
    + rewrite <- Hp in Hb'. apply list_elem_of_lookup in Hb as [i Hi], Hb' as [j Hj].
      assert (i = j) as ->; [|congruence].
      eapply NoDup_lookup; [exact Hnd|..]; rewrite list_lookup_fmap; [by rewrite Hi|rewrite Hj; cbn; by rewrite En].
    + rewrite <- Hp in Hb'. rewrite Hp in Hb.
      assert (beats b' b = true) as Hbb by (apply beats_total; auto). rewrite Hu in Hbb; done.
  - exfalso. destruct H as ([?|[Hb Hg]] & _), H' as [_ Hn]; [done|].
    rewrite Hp in Hb. rewrite Hn in Hg by done. done.
  - exfalso. destruct H' as ([?|[Hb Hg]] & _), H as [_ Hn]; [done|].
    rewrite <- Hp in Hb. rewrite Hn in Hg by done. done.
Qed.

(** Whatever concurrent matches do, the glob cache holds at most 1001 patterns
    and only their own compilations, so a lookup in it is coherent. *)
Theorem glob_cache_bounded c :
  reachable_cache c →
  (size c <= 1001)%nat ∧
  ∀ p, coherent (Ev (S:=gw) (GGlobLookup p) (globCache_lookup c p)).
Proof.
  induction 1 as [|c items uri action t p g t' _ [Hsz Hco] Hc He].
  { split; [rewrite map_size_empty; lia|]. intros p g. unfold globCache_lookup. by rewrite lookup_empty. }
  pose proof (safe_emits _ _ _ _ _ _ _ _ _ (match_loop_safe [] items uri action None) Hc He) as Hst.
  cbn in Hst. unfold globCache_store. split.
  - destruct (1000 <? Z.of_nat (size c)) eqn:E.
    + rewrite map_size_insert, lookup_empty, map_size_empty. lia.
    + apply Z.ltb_ge in E. rewrite map_size_insert. destruct (c !! p); cbn; lia.
  - intros q g' Hq. unfold globCache_lookup in Hq. rewrite lookup_insert in Hq.
    case_decide; [by simplify_eq|]. destruct (1000 <? _); [by rewrite lookup_empty in Hq|].
    by apply (Hco q g').
Qed.

End facts.

(** ** The trust gate *)

Section gate.
Context `{GL : GlobLib}.
Implicit Types (h : list (event gw)).

(** The trust level the gate works with. *)
Definition profile_level h (ns id level : string) : Prop :=
  (∃ p, gseen h (GGetProfile (NN ns (ProfileNameForAgent id))) (Ok p) ∧
        level = if atp_TrustLevel (atp_Status p) ==? "" then TrustLevelObserver
                else atp_TrustLevel (atp_Status p)) ∨
  (∃ e, gseen h (GGetProfile (NN ns (ProfileNameForAgent id))) (Err e) ∧ IsNotFound e = true ∧
        level = TrustLevelObserver).

(** The flags of the graduation policy for an autonomy level. *)
Definition policy_flags h (ns name : string) (flags : bool * bool) : Prop :=
  (∃ p, gseen h (GGetPolicy (NN ns defaultGraduationPolicyName)) (Ok p) ∧
        flags = level_flags (gp_Levels (gp_Spec p)) name) ∨
  (∃ e, gseen h (GGetPolicy (NN ns defaultGraduationPolicyName)) (Err e) ∧ IsNotFound e = true ∧
        flags = (false, true)).

(** The outcome of the gate for requirements [tr]. *)
Definition gate_outcome h (ns id : string) (tr : TrustRequirements) (t : trustGateResult) : Prop :=
  ∃ level, profile_level h ns id level ∧
  match below_minimum level (tr_MinTrustLevel tr) with
  | Some msg => t = gate_reject msg
  | None => ∃ flags,
      policy_flags h ns (effective_autonomy level (tr_MaxAutonomyLevel tr)) flags ∧
      t = mkGate false "" (Some (gate_annotations (effective_autonomy level (tr_MaxAutonomyLevel tr))
                                   flags.1 flags.2))
  end.

(** Reads of the gate. *)
Definition gate_call (c : gcall) : Prop :=
  match c with GGetProfile _ | GGetPolicy _ => True | _ => False end.

Lemma gate_level_safe (R : event gw → Prop) h tr ns id level :
  profile_level h ns id (if level ==? "" then TrustLevelObserver else level) →
  safe R (λ _ c, gate_call c) h (gate_level tr ns level)
    (λ h' r, h ⊆ h' ∧ ∀ t, r = Ok t → gate_outcome h' ns id tr t).
Proof.
  intros Hl. unfold gate_level. cbv zeta.
  set (eff := if level ==? "" then TrustLevelObserver else level) in *.
  destruct (below_minimum eff _) as [msg|] eqn:Hb.
  { cbn. split; [done|]. intros t [= <-]. exists eff. by rewrite Hb. }
  apply gsafe_call; [done|]. intros pol h2 _ Hs2 Hpol.
  assert (profile_level h2 ns id eff) as Hl2.
  { destruct Hl as [(p & ? & ?)|(e & ? & ? & ?)]; [left; exists p|right; exists e]; eauto with aip. }
  destruct pol as [p|e]; [|destruct (IsNotFound e) eqn:He]; cbn [negb safe]; (split; [exact Hs2|]);
    intros t Ht; [..|discriminate Ht]; injection Ht as <-; exists eff; rewrite Hb; (split; [done|]);
    [exists (level_flags (gp_Levels (gp_Spec p)) (effective_autonomy eff (tr_MaxAutonomyLevel tr)))
    |exists (false, true)]; (split; [|done]); [left|right]; eauto.
Qed.

Lemma trust_gate_safe (R : event gw → Prop) h ns id mode gr :
  safe R (λ _ c, gate_call c) h (evaluateTrustGate ns id mode gr)
    (λ h' r, h ⊆ h' ∧ ∀ t, r = Ok t →
       match gr_TrustRequirements (gr_Spec gr) with
       | None => t = gate_pass
       | Some tr => if mode ==? ModeObserve then t = gate_pass else gate_outcome h' ns id tr t
       end).
Proof.
  unfold evaluateTrustGate. destruct (gr_TrustRequirements _) as [tr|]; [|cbn; naive_solver].
  destruct (mode ==? ModeObserve); [cbn; naive_solver|].
  apply gsafe_call; [done|]. intros prof h1 _ Hs1 Hp.
  assert (∀ level, profile_level h1 ns id (if level ==? "" then TrustLevelObserver else level) →
    safe R (λ _ c, gate_call c) h1 (gate_level tr ns level)
      (λ h' r, h ⊆ h' ∧ ∀ t, r = Ok t → gate_outcome h' ns id tr t)) as Hl.
  { intros level Hl. eapply safe_post; [|by apply gate_level_safe]. intros h' r [Hs H]. split; [by etrans|done]. }
  destruct prof as [p|e]; [|destruct (IsNotFound e) eqn:He]; cbn [negb].
  - apply Hl. left. eauto.
  - apply Hl. right. eauto.
  - cbn. naive_solver.
Qed.

Lemma below_minimum_None level min :
  below_minimum level min = None → min ≠ ""%string →
  ∃ r, TrustLevelRank min = (r, true) ∧ r ≤ (TrustLevelRank level).1.
Proof.
  unfold below_minimum. intros H Hne. destruct (String.eqb_spec min ""); [done|]. cbn in H.
  destruct (TrustLevelRank min) as [r []]; cbn in H; [|done]. exists r. split; [done|].
  destruct (Z.ltb_spec (TrustLevelRank level).1 r); [done|lia].
Qed.

Lemma effective_autonomy_rank level max :
  (TrustLevelRank (effective_autonomy level max)).1 ≤ (TrustLevelRank level).1 ∧
  ∀ r, TrustLevelRank max = (r, true) → (TrustLevelRank (effective_autonomy level max)).1 ≤ r.
Proof.
  unfold effective_autonomy. destruct (TrustLevelRank max) as [rm []] eqn:E; cbn [andb].
  - destruct (Z.ltb_spec rm (TrustLevelRank level).1); rewrite ?E; cbn; split; try lia; intros r [= <-]; lia.
  - split; [lia|]. by intros r [=].
Qed.

Lemma level_flags_true levels name ra :
  level_flags levels name = (true, ra) →
  ∃ l, l ∈ levels ∧ lv_Name l = name ∧ lv_CanExecute l = true ∧ lv_RequiresHumanApproval l = ra.
Proof.
  induction levels as [|l levels IH]; cbn; [done|].
  destruct (String.eqb_spec (lv_Name l) name).
  - intros [= ? ?]. exists l. split; [left|done].
  - intros H. destruct (IH H) as (l' & ? & ?). exists l'. split; [by right|done].
Qed.

(** C20: The trust gate fails closed.  When it lets a request through, the agent's
    level meets the resource's minimum; the effective level it records is
    capped by the agent's level and by the resource's maximum; and the request
    is marked as not executable unless the graduation policy has a level of
    that name that may execute, whose approval flag is then recorded. *)
Theorem trust_gate_sound ns id mode gr tr t g :
  runs (evaluateTrustGate ns id mode gr) t (Ok g) → rejected g = false →
  gr_TrustRequirements (gr_Spec gr) = Some tr → mode ≠ ModeObserve →
  ∃ level auto anns,
    profile_level t ns id level ∧ annotations g = Some anns ∧
    anns !! AnnotationEffectiveTrustLevel = Some auto ∧
    (tr_MinTrustLevel tr ≠ ""%string → ∃ r, TrustLevelRank (tr_MinTrustLevel tr) = (r, true) ∧
       r ≤ (TrustLevelRank level).1) ∧
    (TrustLevelRank auto).1 ≤ (TrustLevelRank level).1 ∧
    (∀ r, TrustLevelRank (tr_MaxAutonomyLevel tr) = (r, true) → (TrustLevelRank auto).1 ≤ r) ∧
    (anns !! AnnotationCanExecute = Some "false"%string ∨
     ∃ p l, gseen t (GGetPolicy (NN ns defaultGraduationPolicyName)) (Ok p) ∧
       l ∈ gp_Levels (gp_Spec p) ∧ lv_Name l = auto ∧ lv_CanExecute l = true ∧
       anns !! AnnotationCanExecute = None ∧
       anns !! AnnotationRequiresHumanApproval = Some (boolToStr (lv_RequiresHumanApproval l))).
Proof.
  intros Hr Hrej Htr Hm.
  destruct (safe_runs _ _ _ _ _ _ _ (trust_gate_safe any [] ns id mode gr) (any_all _) Hr) as [_ H].
  specialize (H g eq_refl). rewrite Htr in H. destruct (String.eqb_spec mode ModeObserve); [done|].
  destruct H as (level & Hl & H).
  destruct (below_minimum level _) as [msg|] eqn:Hb; [by rewrite H in Hrej|].
  destruct H as ([ce ra] & Hf & ->). set (auto := effective_autonomy level _) in *.
  destruct (effective_autonomy_rank level (tr_MaxAutonomyLevel tr)) as [Ha Hmax].
  exists level, auto. eexists. split; [done|]. split; [done|].
  split; [unfold gate_annotations; cbn; destruct ce; reflexivity|].
  split; [by apply below_minimum_None|]. split; [done|]. split; [done|].
  destruct ce; [right|left; reflexivity].
  destruct Hf as [(p & Hp & Hf)|(e & _ & _ & ?)]; [|done]. symmetry in Hf.
  destruct (level_flags_true _ _ _ Hf) as (l & ? & ? & ? & <-). exists p, l. repeat split; done.
Qed.

End gate.
