(* ===== verification/GatewayHandlers.v ===== *)
(** * Handlers on existing requests
      ([cmd/gateway/agent_request_lifecycle_handlers.go],
       [agent_request_review_handlers.go], [agent_request_token_handlers.go])

    Reading and listing requests, the agent's transitions and result, the
    reviewer's decision and verdict, and the exchange of an approval for a
    credential. *)

From S2P Require Import Prelude GoStd GoStrings Types Prog Kube Conditions Naming.
From S2P Require Import Registration GatewayAuth Gateway GatewayCreate GatewayMatch Retry.

Definition verdictCorrect : string := "correct".
Definition verdictPartial : string := "partial".
Definition verdictIncorrect : string := "incorrect".

Definition validReasonCodes : list string :=
  ["wrong_diagnosis"; "bad_timing"; "scope_too_broad"; "precautionary"; "policy_block"]%string.

Definition validPhases : gset string :=
  {[ PhasePending; PhaseApproved; PhaseDenied; PhaseExecuting; PhaseCompleted; PhaseFailed;
     PhaseAwaitingVerdict; PhaseExpired; PhaseObserved ]}.

(** The error a request for an unknown object gets. *)
Definition not_found_or_internal (e : error) : Response :=
  if IsNotFound e then writeError StatusNotFound "AgentRequest not found"
  else writeErrorCause StatusInternalServerError "" e.

Section handlers.
Context `{GL : GlobLib, MC : MetaConditions, RL : RetryLib gw}.
Context (s : Server).

(** The guard most handlers start with. *)
Definition unauthenticated (rq : HttpRequest) : bool := authRequired s && (sub_of rq ==? "").

Definition guard_role (role : string) (rq : HttpRequest) (k : prog gw Response) : prog gw Response :=
  if unauthenticated rq then Ret (writeError StatusUnauthorized "caller identity required")
  else match requireRole (roles s) role (sub_of rq) (groups_of rq) with
       | Some msg => Ret (writeError StatusForbidden msg)
       | None => k
       end.

(** ** Reading *)

Definition handleGetAgentRequest (rq : HttpRequest) : prog gw Response :=
  if unauthenticated rq then Ret (writeError StatusUnauthorized "caller identity required")
  else
    r <- gcall_ (GGetAR Cached (nn_of rq)) ;;
    match r with
    | Err e => Ret (not_found_or_internal e)
    | Ok current =>
        l <- gcall_ (GListAudits (ns_of rq)) ;;
        let audits := match l with Ok audits => audits | Err _ => [] end in
        let events := au_Event ∘ au_Spec <$>
                        List.filter (λ a, au_AgentRequestRef (au_Spec a) ==? rq_Name rq) audits in
        let st := ar_Status current in
        Ret (Http StatusOK (PDetails (om_Name (ar_Meta current)) (st_Phase st) (st_Denial st)
               (st_Conditions st) (st_ControlPlaneVerification st) events (st_Result st)))
    end.

(** ** Listing *)

(** [strconv.ParseInt(s, 10, 64)]; [None] is an error. *)
Fixpoint digits (s : string) (acc : Z) : option Z :=
  match s with
  | EmptyString => Some acc
  | String a s' => if is_digit a then digits s' (10 * acc + (ord a - 48)) else None
  end.

Definition ParseInt64 (s : string) : option Z :=
  let '(neg, body) := match s with
    | String a s' => if ord a =? 43 then (false, s') else if ord a =? 45 then (true, s') else (false, s)
    | EmptyString => (false, s)
    end in
  if body ==? "" then None
  else n ← digits body 0;
       let v := if neg then - n else n in
       if (- 2 ^ 63 <=? v) && (v <? 2 ^ 63) then Some v else None.

Record list_query := mkListQuery {
  lq_AgentIdentity : string; lq_CorrelationID : string; lq_Classification : string;
  lq_Phase : string; lq_Limit : string; lq_Continue : string }.

(** The requested phases; a left side is the first invalid one. *)
Fixpoint parse_phases (ps : list string) : string + list string :=
  match ps with
  | [] => inr []
  | p :: ps' =>
      let p := TrimSpace p in
      if p ==? "" then parse_phases ps'
      else if negb (bool_decide (p ∈ validPhases)) then inl p
      else match parse_phases ps' with inl e => inl e | inr l => inr (p :: l) end
  end.

Definition requested_phases (phaseParam : string) : string + list string :=
  if phaseParam <>? "" then parse_phases (split comma phaseParam) else inr [].

Definition add_label (k v : string) (m : gmap string string) : gmap string string :=
  if v <>? "" then <[k := sanitizeLabelValue v]> m else m.

Definition match_labels (q : list_query) : gmap string string :=
  add_label label_class (lq_Classification q)
    (add_label label_corr (lq_CorrelationID q) (add_label label_agent (lq_AgentIdentity q) ∅)).

Definition handleListAgentRequests (rq : HttpRequest) (q : list_query) : prog gw Response :=
  if unauthenticated rq then Ret (writeError StatusUnauthorized "caller identity required")
  else match requested_phases (lq_Phase q) with
  | inl p =>
      Ret (writeError StatusBadRequest ("invalid phase " +:+ quote p
             +:+ ": must be one of Approved, AwaitingVerdict, Completed, Denied, Executing, Expired, Failed, Observed, Pending")%string)
  | inr phases =>
      let limit := ParseInt64 (lq_Limit q) in
      if (lq_Limit q <>? "") && match limit with Some n => n <=? 0 | None => true end then
        Ret (writeError StatusBadRequest "invalid limit: must be a positive integer")
      else
        r <- gcall_ (GListAR (mkListOptions (ns_of rq) (match_labels q)
               (match phases with [p] => Some p | _ => None end)
               (if lq_Limit q <>? "" then limit else None) (lq_Continue q))) ;;
        match r with
        | Err e => Ret (writeErrorCause (if IsBadRequest e || IsInvalid e then StatusBadRequest
                                         else StatusInternalServerError) "" e)
        | Ok (items, cont) =>
            let items := if (1 <? length phases)%nat
                         then List.filter (λ a, contains phases (phase a)) items else items in
            Ret (Http StatusOK (PRequests items
                   (if (lq_Limit q <>? "") || (lq_Continue q <>? "") then Some cont else None)))
        end
  end.

(** ** Conditions the agent sets *)

Definition patchAgentRequestCondition (rq : HttpRequest) (conditionType reason message : string)
  : prog gw Response :=
  r <- RetryOnConflict (
         g <- gcall_ (GGetAR Cached (nn_of rq)) ;;
         match g with
         | Err e => Ret (tt, Some e)
         | Ok current =>
             now <- gcall_ GWallNow ;;
             p <- gcall_ (GPatchARStatus false current
                    (set_conditions (SetStatusCondition (conditions current)
                       (cond conditionType ConditionTrue reason message) now) current)) ;;
             Ret (tt, match p with Ok _ => None | Err e => Some e end)
         end) ;;
  Ret match r.2 with
      | Some e =>
          if IsNotFound e then writeError StatusNotFound "AgentRequest not found"
          else writeErrorCause StatusInternalServerError "failed to update status: " e
      | None => Http StatusOK (PMessage ("successfully patched condition " +:+ conditionType)%string)
      end.

(** [handleExecutingAgentRequest] and [handleCompletedAgentRequest] are the
    same code up to the phase and the condition. *)
Definition agent_transition (rq : HttpRequest) (from to conditionType reason message : string)
  : prog gw Response :=
  guard_role roleAgent rq (
    r <- gcall_ (GGetAR Cached (nn_of rq)) ;;
    match r with
    | Err e => Ret (not_found_or_internal e)
    | Ok req =>
        if authRequired s && (spec_AgentIdentity (ar_Spec req) <>? sub_of rq) then
          Ret (writeError StatusForbidden "forbidden: only the creating agent may transition this request")
        else if phase req <>? from then
          Ret (writeError StatusConflict ("request is in phase " +:+ quote (phase req)
                 +:+ " — can only transition to " +:+ to +:+ " from " +:+ from)%string)
        else patchAgentRequestCondition rq conditionType reason message
    end).

Definition handleExecutingAgentRequest (rq : HttpRequest) : prog gw Response :=
  agent_transition rq PhaseApproved "Executing" ConditionExecuting "AgentStarted" "Agent is now executing action".

Definition handleCompletedAgentRequest (rq : HttpRequest) : prog gw Response :=
  agent_transition rq PhaseExecuting "Completed" ConditionCompleted "ActionSuccess"
    "Agent successfully completed the action".

(** ** The result of an action *)

(** The checks on the body: [(url, summary)]. *)
Definition result_body_error (body : option (string * string)) : option string :=
  match body with
  | None => Some "invalid request body"%string
  | Some (url, summary) =>
      if (url ==? "") || negb (HasPrefix url "https://") || (String.length url <? 9)%nat then
        Some "url must be a valid https URL"%string
      else if (512 <? length (runes summary))%nat then Some "summary must be at most 512 characters"%string
      else None
  end.

(** The attempt; it also returns [wrongPhase]. *)
Definition record_result (rq : HttpRequest) (url summary : string) : prog gw (string * option error) :=
  g <- gcall_ (GGetAR Live (nn_of rq)) ;;
  match g with
  | Err e => Ret (""%string, Some e)
  | Ok current =>
      if (phase current <>? PhaseExecuting) && (phase current <>? PhaseCompleted) then
        Ret (phase current, Some (EMsg "wrong phase"))
      else
        p <- gcall_ (GPatchARStatus false current
               (upd_status (set_st_Result (Some (mkResult url summary))) current)) ;;
        Ret (""%string, match p with Ok _ => None | Err e => Some e end)
  end.

Definition handlePutAgentRequestResult (rq : HttpRequest) (body : option (string * string))
  : prog gw Response :=
  guard_role roleAgent rq (
    match result_body_error body, body with
    | Some msg, _ => Ret (writeError StatusBadRequest msg)
    | None, None => Ret (writeError StatusBadRequest "invalid request body")
    | None, Some (url, summary) =>
        r <- gcall_ (GGetAR Live (nn_of rq)) ;;
        match r with
        | Err e => Ret (not_found_or_internal e)
        | Ok req =>
            if authRequired s && (spec_AgentIdentity (ar_Spec req) <>? sub_of rq) then
              Ret (writeError StatusForbidden "forbidden: only the creating agent may record a result")
            else
              r <- RetryOnConflict (record_result rq url summary) ;;
              Ret match r.2 with
                  | None => Http StatusOK (PMessage "result recorded")
                  | Some e =>
                      if r.1 <>? "" then
                        writeError StatusConflict ("request is in phase " +:+ quote r.1
                          +:+ " — result can only be recorded in Executing or Completed")%string
                      else if IsNotFound e then writeError StatusNotFound "AgentRequest not found"
                      else writeErrorCause StatusInternalServerError "failed to record result: " e
                  end
        end
    end).

(** ** The reviewer's verdict *)

Record verdict_body := mkVerdict { vb_Verdict : string; vb_ReasonCode : string; vb_Note : string }.

Definition verdict_error (b : verdict_body) : option string :=
  if (vb_Verdict b <>? verdictCorrect) && (vb_Verdict b <>? verdictIncorrect) &&
     (vb_Verdict b <>? verdictPartial) then Some "invalid verdict"%string
  else if (vb_Verdict b <>? verdictCorrect) && (vb_ReasonCode b ==? "") then
    Some "reasonCode is required when verdict is not 'correct'"%string
  else if (vb_ReasonCode b <>? "") && negb (contains validReasonCodes (vb_ReasonCode b)) then
    Some ("invalid reasonCode " +:+ quote (vb_ReasonCode b) +:+ "; must be one of: "
            +:+ Join validReasonCodes ", ")%string
  else None.

(** The attempt; it returns the text of an [errVerdictWrongPhase]. *)
Definition submit_verdict (rq : HttpRequest) (b : verdict_body) : prog gw (option string * option error) :=
  g <- gcall_ (GGetAR Cached (nn_of rq)) ;;
  match g with
  | Err e => Ret (None, Some e)
  | Ok agentReq =>
      let wrong msg := Ret (Some msg, Some (EMsg msg)) in
      if phase agentReq <>? PhaseAwaitingVerdict then
        wrong ("request is in phase " +:+ quote (phase agentReq)
                 +:+ ": verdict only allowed in AwaitingVerdict phase")%string
      else if st_Verdict (ar_Status agentReq) <>? "" then
        wrong ("request already graded as " +:+ quote (st_Verdict (ar_Status agentReq))
                 +:+ ": verdict only allowed in AwaitingVerdict phase")%string
      else
        now <- gcall_ GWallNow ;;
        p <- gcall_ (GPatchARStatus true agentReq
               (upd_status (set_st_VerdictFields (vb_Verdict b) (vb_ReasonCode b) (vb_Note b)
                  (sub_of rq) (Some now)) agentReq)) ;;
        Ret (None, match p with Ok _ => None | Err e => Some e end)
  end.

Definition handleVerdictAgentRequest (rq : HttpRequest) (body : option verdict_body) : prog gw Response :=
  guard_role roleReviewer rq (
    match body with
    | None => Ret (writeError StatusBadRequest "invalid request body")
    | Some b =>
        match verdict_error b with
        | Some msg => Ret (writeError StatusBadRequest msg)
        | None =>
            r <- RetryOnConflict (submit_verdict rq b) ;;
            Ret match r.2 with
                | None => Http StatusOK (PMessage "verdict submitted")
                | Some e =>
                    if IsNotFound e then writeError StatusNotFound "AgentRequest not found"
                    else match r.1 with
                         | Some msg => writeError StatusConflict msg
                         | None => writeErrorCause StatusInternalServerError "failed to submit verdict: " e
                         end
                end
        end
    end).

(** ** The reviewer's decision *)

(** [body] is [Reason], empty when there is no JSON body. *)
Definition handleHumanDecision (rq : HttpRequest) (reason decision : string) : prog gw Response :=
  guard_role roleReviewer rq (
    r <- gcall_ (GGetAR Cached (nn_of rq)) ;;
    match r with
    | Err e => Ret (writeErrorCause StatusNotFound "" e)
    | Ok agentReq =>
        let sp := ar_Spec agentReq in
        if spec_AgentIdentity sp ==? sub_of rq then
          Ret (writeError StatusForbidden "forbidden: self-approval not permitted")
        else if phase agentReq <>? PhasePending then
          Ret (writeError StatusConflict ("request is in phase " +:+ quote (phase agentReq)
                 +:+ " — can only approve/deny when Pending")%string)
        else if (decision ==? "approved") &&
                match st_ControlPlaneVerification (ar_Status agentReq) with
                | Some cpv => cpv_HasActiveEndpoints cpv && (TrimSpace reason ==? "")
                | None => false
                end then
          Ret (writeError StatusBadRequest
                 "reason required: control plane verified active endpoints — explain why this override is safe")
        else
          let humanReason := TrimSpace reason in
          let humanReason := if (humanReason ==? "") && (decision ==? "denied")
                             then "denied via dashboard"%string else humanReason in
          let persist (token : option (string * Z)) :=
            let reviewer := if sub_of rq ==? "" then "unknown (admin)"%string else sub_of rq in
            p <- gcall_ (GPatchAR agentReq
                   (set_ar_Spec (set_spec_HumanApproval
                      (Some (mkHA decision humanReason (st_EvaluationGeneration (ar_Status agentReq)) reviewer))
                      sp) agentReq)) ;;
            match p with
            | Err e => Ret (writeErrorCause StatusInternalServerError "" e)
            | Ok stored => Ret (Http StatusOK (PDecision (om_Name (ar_Meta agentReq)) (phase stored) token))
            end in
          if (decision ==? "approved") && has_jwtManager s then
            t <- gcall_ (GMintToken (spec_AgentIdentity sp) (spec_Action sp) (tgt_URI (spec_Target sp))
                          (om_Name (ar_Meta agentReq))) ;;
            match t with
            | Err _ => Ret (writeError StatusInternalServerError "approval failed: could not mint token")
            | Ok token => persist (Some token)
            end
          else persist None
    end).

Definition handleApproveAgentRequest (rq : HttpRequest) (reason : string) : prog gw Response :=
  handleHumanDecision rq reason "approved".

Definition handleDenyAgentRequest (rq : HttpRequest) (reason : string) : prog gw Response :=
  handleHumanDecision rq reason "denied".

(** ** Credentials for an approved request *)

(** [credential.ErrOIDCTokenRequired], and [errors.Is] for such a value. *)
Definition ErrOIDCTokenRequired : error :=
  EMsg "KubernetesOIDC credential requires OIDC authentication on the gateway (--oidc-issuer-url)".

Fixpoint errors_Is (e target : error) : bool :=
  bool_decide (e = target) || match e with EWrap _ e' => errors_Is e' target | _ => false end.

Definition handleGetAgentRequestToken (rq : HttpRequest) (service : option string) : prog gw Response :=
  match requireRole (roles s) roleAgent (sub_of rq) (groups_of rq) with
  | Some msg => Ret (writeError StatusForbidden msg)
  | None =>
      match service with
      | None => Ret (writeError StatusBadRequest "invalid request body")
      | Some service =>
          if service ==? "" then Ret (writeError StatusBadRequest "service is required")
          else
            r <- gcall_ (GGetAR Live (nn_of rq)) ;;
            match r with
            | Err e => Ret (not_found_or_internal e)
            | Ok agentReq =>
                let id := spec_AgentIdentity (ar_Spec agentReq) in
                if id <>? sub_of rq then
                  Ret (writeError StatusForbidden "caller does not own this AgentRequest")
                else if phase agentReq <>? PhaseApproved then
                  Ret (writeError StatusConflict "AgentRequest is not in Approved state")
                else if negb (has_regCache s) then
                  Ret (writeError StatusNotFound "no AgentRegistration found for agent")
                else
                  reg <- gcall_ (GRegGet id) ;;
                  match reg with
                  | None => Ret (writeError StatusNotFound "no AgentRegistration found for agent")
                  | Some _ =>
                      p <- gcall_ (GRegProviderFor id service) ;;
                      match p with
                      | None => Ret (writeError StatusNotFound "no credential binding for service")
                      | Some p =>
                          t <- gcall_ (GProviderToken p (cl_RawToken (rq_Caller rq))) ;;
                          match t with
                          | Err e =>
                              if errors_Is e ErrOIDCTokenRequired then
                                Ret (writeErrorCause StatusBadRequest "" e)
                              else Ret (writeError StatusInternalServerError "credential resolution failed")
                          | Ok token => Ret (Http StatusOK (PToken token service))
                          end
                      end
                  end
            end
      end
  end.

End handlers.
