(* ===== verification/GatewayFacts.v ===== *)
(** * What the gateway's handlers may do

    For every execution, complete or not, against any cluster and caches:
    which writes a handler makes, in which state of its reads, on whose
    behalf. *)

From S2P Require Import Prelude GoStd GoStrings Types Prog Kube Conditions Naming.
From S2P Require Import Registration GatewayAuth Gateway GatewayCreate GatewayMatch GatewayHandlers Retry.

(** ** Automation *)

(** Move facts about a history to a longer one. *)
Ltac gupgrade h h' Hs :=
  repeat match goal with
  | H : gseen h _ _ |- _ => apply (gseen_mono _ _ _ _ Hs) in H
  | H : @subseteq _ _ ?h0 h |- _ =>
      let H' := fresh in assert (h0 ⊆ h') as H' by (etransitivity; [exact H|exact Hs]); clear H
  end.

(** One step of a program: a call, a test, or the end. *)
Ltac gstep :=
  lazymatch goal with
  | |- safe _ _ _ (Ret _) _ => cbn [safe]
  | |- safe _ _ ?h (bind (trigger _ ?c) _) _ =>
      apply gsafe_call; [|let x := fresh "x" in let h' := fresh "h" in let HR := fresh "HR" in
        let Hs := fresh "Hs" in let Hx := fresh "Hx" in
        intros x h' HR Hs Hx; gupgrade h h' Hs]
  | |- safe _ _ _ (if ?b then _ else _) _ => let E := fresh "E" in destruct b eqn:E
  | |- safe _ _ _ (match ?x with _ => _ end) _ => let E := fresh "E" in destruct x eqn:E; try subst x
  end.

(** The end of an attempt: the history has only grown. *)
Ltac gdone := cbn; split; [split; [set_solver|done]|]; intros; set_solver.

Section facts.
Context `{GL : GlobLib, MC : MetaConditions, RL : RetryLib gw}.
Context (s : Server).
Implicit Types (h t : list (event gw)) (rq : HttpRequest).

(** Calls that change the cluster or hand out a credential. *)
Definition effect (c : gcall) : bool :=
  match c with
  | GCreateAR _ | GDeleteAR _ | GPatchAR _ _ | GPatchARStatus _ _ _ | GMintToken _ _ _ _
  | GProviderToken _ _ => true
  | _ => false
  end.

(** The caller passed the guard of a role. *)
Definition has_passed (role : string) rq : Prop :=
  (authRequired s = true → sub_of rq ≠ ""%string) ∧
  requireRole (roles s) role (sub_of rq) (groups_of rq) = None.

(** The caller may act for the agent of [a]. *)
Definition owns rq (a : AgentRequest) : Prop :=
  authRequired s = true → spec_AgentIdentity (ar_Spec a) = sub_of rq.

Lemma guard_role_safe R P h role rq k Q :
  (∀ msg code, Q h (writeError code msg)) →
  (has_passed role rq → safe R P h k Q) → safe R P h (guard_role s role rq k) Q.
Proof.
  intros HQ Hk. unfold guard_role, unauthenticated.
  destruct (authRequired s && (sub_of rq ==? "")) eqn:E; [apply HQ|].
  destruct (requireRole _ _ _ _) eqn:Er; [apply HQ|]. apply Hk. split; [|done].
  intros Ha. rewrite Ha in E. cbn in E. by str_tests.
Qed.

(** A call that is reached satisfies what [safe] requires of it. *)
Lemma reached {A} (p : prog gw A) (P : list (event gw) → gcall → Prop) t c x t2 :
  safe any P [] p (λ _ _, True) → emits p (t ++ Ev (S:=gw) c x :: t2) → P t c.
Proof. intros Hs He. exact (safe_emits _ _ _ _ _ _ _ _ _ Hs (any_all _) He). Qed.

(** ** The reviewer's decision *)

Definition decided rq (reason decision : string) (base : AgentRequest) : AgentRequest :=
  let humanReason := if (TrimSpace reason ==? "") && (decision ==? "denied")
                     then "denied via dashboard"%string else TrimSpace reason in
  set_ar_Spec (set_spec_HumanApproval
    (Some (mkHA decision humanReason (st_EvaluationGeneration (ar_Status base))
             (if sub_of rq ==? "" then "unknown (admin)"%string else sub_of rq)))
    (ar_Spec base)) base.

Definition mint_for (a : AgentRequest) : gcall :=
  GMintToken (spec_AgentIdentity (ar_Spec a)) (spec_Action (ar_Spec a))
    (tgt_URI (spec_Target (ar_Spec a))) (om_Name (ar_Meta a)).

Definition decision_ok rq (reason decision : string) h (c : gcall) : Prop :=
  effect c = true → ∃ base,
    gseen h (GGetAR Cached (nn_of rq)) (Ok base) ∧ has_passed roleReviewer rq ∧
    spec_AgentIdentity (ar_Spec base) ≠ sub_of rq ∧ phase base = PhasePending ∧
    ((c = mint_for base ∧ decision = "approved"%string ∧ has_jwtManager s = true) ∨
     (c = GPatchAR base (decided rq reason decision base) ∧
      (decision = "approved"%string → has_jwtManager s = true →
       ∃ token, gseen h (mint_for base) (Ok token)))).

Lemma decision_safe rq reason decision :
  safe any (decision_ok rq reason decision) [] (handleHumanDecision s rq reason decision) (λ _ _, True).
Proof.
  unfold handleHumanDecision. apply guard_role_safe; [done|]. intros Hg.
  gstep; [done|]. destruct x as [base|e]; [|done].
  gstep; [done|]. gstep; [done|]. gstep; [done|]. cbv zeta. str_tests.
  gstep; str_tests.
  - gstep; [intros _; exists base; repeat split; auto; apply Hg|].
    destruct x as [token|]; [|done].
    gstep; [|by destruct x].
    intros _. exists base. split; [done|]. split; [done|]. split; [done|]. split; [done|]. right.
    split; [done|]. eauto.
  - gstep; [|by destruct x].
    intros _. exists base. split; [done|]. split; [done|]. split; [done|]. split; [done|]. right.
    split; [done|]. intros -> Hj. rewrite Hj in E2. done.
Qed.

(** ** The reviewer's verdict *)

Definition graded rq (b : verdict_body) (now : Z) (base : AgentRequest) : AgentRequest :=
  upd_status (set_st_VerdictFields (vb_Verdict b) (vb_ReasonCode b) (vb_Note b) (sub_of rq) (Some now)) base.

Definition verdict_ok rq (body : option verdict_body) h (c : gcall) : Prop :=
  effect c = true → ∃ b base now,
    body = Some b ∧ verdict_error b = None ∧ has_passed roleReviewer rq ∧
    gseen h (GGetAR Cached (nn_of rq)) (Ok base) ∧
    phase base = PhaseAwaitingVerdict ∧ st_Verdict (ar_Status base) = ""%string ∧
    c = GPatchARStatus true base (graded rq b now base).

Lemma verdict_safe rq body :
  safe any (verdict_ok rq body) [] (handleVerdictAgentRequest s rq body) (λ _ _, True).
Proof.
  unfold handleVerdictAgentRequest. apply guard_role_safe; [done|]. intros Hg.
  destruct body as [b|]; [|done]. destruct (verdict_error b) eqn:Hv; [done|].
  eapply gsafe_sub with (φ := λ _ _, True); [|done].
  apply (retry_rule _ _ (λ h, [] ⊆ h)); [|done]. intros h _. unfold submit_verdict.
  gstep; [done|]. destruct x as [base|e]; [|cbn; set_solver].
  gstep; [cbn; set_solver|]. gstep; [cbn; set_solver|]. str_tests.
  gstep; [done|]. gstep; [|cbn; set_solver].
  intros _. exists b, base, x. split; [done|]. split; [done|]. done.
Qed.

(** ** The agent's transitions *)

Definition with_condition (ty reason msg : string) (now : Z) (a : AgentRequest) : AgentRequest :=
  set_conditions (SetStatusCondition (conditions a) (cond ty ConditionTrue reason msg) now) a.

(** The status patch follows a read of a request of the caller in phase
    [from]; the object it changes is read anew. *)
Definition transition_ok rq (from ty : string) h (c : gcall) : Prop :=
  effect c = true → ∃ req base reason msg now,
    has_passed roleAgent rq ∧
    gseen h (GGetAR Cached (nn_of rq)) (Ok req) ∧ owns rq req ∧ phase req = from ∧
    gseen h (GGetAR Cached (nn_of rq)) (Ok base) ∧
    c = GPatchARStatus false base (with_condition ty reason msg now base).

Lemma owns_spec rq a :
  authRequired s && (spec_AgentIdentity (ar_Spec a) <>? sub_of rq) = false → owns rq a.
Proof. intros E Ha. rewrite Ha in E. cbn in E. by str_tests. Qed.

Lemma transition_safe rq from to ty reason msg :
  safe any (transition_ok rq from ty) [] (agent_transition s rq from to ty reason msg) (λ _ _, True).
Proof.
  unfold agent_transition. apply guard_role_safe; [done|]. intros Hg.
  gstep; [done|]. destruct x as [req|e]; [|done].
  gstep; [done|]. apply owns_spec in E. gstep; [done|]. str_tests.
  unfold patchAgentRequestCondition.
  eapply gsafe_sub with (φ := λ _ _, True); [|done].
  apply (retry_rule _ _ (λ h', h ⊆ h')); [|done]. intros h1 Hs1. gupgrade h h1 Hs1.
  gstep; [done|]. destruct x as [base|e]; [|gdone].
  gstep; [done|]. gstep; [|gdone].
  intros _. exists req, base, reason, msg, x. split_and!; done.
Qed.

(** ** Results *)

Definition result_ok rq (body : option (string * string)) h (c : gcall) : Prop :=
  effect c = true → ∃ url summary req base,
    body = Some (url, summary) ∧ result_body_error body = None ∧ has_passed roleAgent rq ∧
    gseen h (GGetAR Live (nn_of rq)) (Ok req) ∧ owns rq req ∧
    gseen h (GGetAR Live (nn_of rq)) (Ok base) ∧
    (phase base = PhaseExecuting ∨ phase base = PhaseCompleted) ∧
    c = GPatchARStatus false base (upd_status (set_st_Result (Some (mkResult url summary))) base).

Lemma result_safe rq body :
  safe any (result_ok rq body) [] (handlePutAgentRequestResult s rq body) (λ _ _, True).
Proof.
  unfold handlePutAgentRequestResult. apply guard_role_safe; [done|]. intros Hg.
  destruct (result_body_error body) eqn:Hb; [done|]. destruct body as [[url summary]|]; [|done].
  gstep; [done|]. destruct x as [req|e]; [|done].
  gstep; [done|]. apply owns_spec in E.
  eapply gsafe_sub with (φ := λ _ _, True); [|done].
  apply (retry_rule _ _ (λ h', h ⊆ h')); [|done]. intros h1 Hs1. gupgrade h h1 Hs1. unfold record_result.
  gstep; [done|]. destruct x as [base|e]; [|gdone].
  gstep; [gdone|].
  gstep; [|gdone].
  intros _. exists url, summary, req, base. split_and!; try done.
  apply andb_false_iff in E0 as [?|?]; str_tests; auto.
Qed.

(** ** Credentials *)

Definition token_ok rq (service : option string) h (c : gcall) : Prop :=
  effect c = true → ∃ svc req reg p,
    service = Some svc ∧ requireRole (roles s) roleAgent (sub_of rq) (groups_of rq) = None ∧
    gseen h (GGetAR Live (nn_of rq)) (Ok req) ∧
    spec_AgentIdentity (ar_Spec req) = sub_of rq ∧ phase req = PhaseApproved ∧
    gseen h (GRegGet (sub_of rq)) (Some reg) ∧
    gseen h (GRegProviderFor (sub_of rq) svc) (Some p) ∧
    c = GProviderToken p (cl_RawToken (rq_Caller rq)).

Lemma token_safe rq service :
  safe any (token_ok rq service) [] (handleGetAgentRequestToken s rq service) (λ _ _, True).
Proof.
  unfold handleGetAgentRequestToken. destruct (requireRole _ _ _ _) eqn:Hr; [done|].
  destruct service as [svc|]; [|done]. gstep; [done|].
  gstep; [done|]. destruct x as [req|e]; [|done]. cbv zeta.
  gstep; [done|]. gstep; [done|]. gstep; [done|]. str_tests. rewrite E0 in *.
  gstep; [done|]. destruct x as [reg|]; [|done]. gstep; [done|]. destruct x as [p|]; [|done].
  gstep; [|destruct x; [|gstep]; done].
  intros _. exists svc, req, reg, p. done.
Qed.

(** ** Claims *)

(** C9: A human decision is written, and a token minted for it, only on behalf of
    a caller with the reviewer role who is not the agent of the request, for a
    request that was read as Pending.  The write changes nothing but the
    approval, which records the decision, the caller and the evaluation it is
    about; with a token manager an approval is written only after its token
    was minted for that very request. *)
Theorem decision_guarded rq reason decision t c x t2 :
  emits (handleHumanDecision s rq reason decision) (t ++ Ev (S:=gw) c x :: t2) → effect c = true →
  ∃ base,
    gseen t (GGetAR Cached (nn_of rq)) (Ok base) ∧ has_passed roleReviewer rq ∧
    spec_AgentIdentity (ar_Spec base) ≠ sub_of rq ∧ phase base = PhasePending ∧
    ((c = mint_for base ∧ decision = "approved"%string ∧ has_jwtManager s = true) ∨
     (c = GPatchAR base (decided rq reason decision base) ∧
      (decision = "approved"%string → has_jwtManager s = true →
       ∃ token, gseen t (mint_for base) (Ok token)))).
Proof. intros He. exact (reached _ _ _ _ _ _ (decision_safe rq reason decision) He). Qed.

(** A verdict is written only for a reviewer, with a valid verdict and reason
    code, on a request that was read as awaiting one and as ungraded; the
    write is conditional on that version of the request, so a request is
    graded at most once, and changes only the verdict's fields. *)
Theorem verdict_guarded rq body t c x t2 :
  emits (handleVerdictAgentRequest s rq body) (t ++ Ev (S:=gw) c x :: t2) → effect c = true →
  ∃ b base now,
    body = Some b ∧ verdict_error b = None ∧ has_passed roleReviewer rq ∧
    gseen t (GGetAR Cached (nn_of rq)) (Ok base) ∧
    phase base = PhaseAwaitingVerdict ∧ st_Verdict (ar_Status base) = ""%string ∧
    c = GPatchARStatus true base (graded rq b now base).
Proof. intros He. exact (reached _ _ _ _ _ _ (verdict_safe rq body) He). Qed.

(** An agent's report that it started (or completed) changes only the
    condition of that name, and only after the request was read as Approved
    (as Executing) and, under authentication, as the caller's own. *)
Theorem agent_report_guarded rq t c x t2 from ty :
  (emits (handleExecutingAgentRequest s rq) (t ++ Ev (S:=gw) c x :: t2) ∧
     from = PhaseApproved ∧ ty = ConditionExecuting) ∨
  (emits (handleCompletedAgentRequest s rq) (t ++ Ev (S:=gw) c x :: t2) ∧
     from = PhaseExecuting ∧ ty = ConditionCompleted) →
  effect c = true →
  ∃ req base reason msg now,
    has_passed roleAgent rq ∧
    gseen t (GGetAR Cached (nn_of rq)) (Ok req) ∧ owns rq req ∧ phase req = from ∧
    gseen t (GGetAR Cached (nn_of rq)) (Ok base) ∧
    c = GPatchARStatus false base (with_condition ty reason msg now base).
Proof.
  intros [(He & -> & ->)|(He & -> & ->)].
  - exact (reached _ _ _ _ _ _ (transition_safe rq _ _ _ _ _) He).
  - exact (reached _ _ _ _ _ _ (transition_safe rq _ _ _ _ _) He).
Qed.

(** A result is recorded only for the agent's own request, on an object that
    the API server itself returned as Executing or Completed, with a valid
    body, and changes only the result. *)
Theorem result_guarded rq body t c x t2 :
  emits (handlePutAgentRequestResult s rq body) (t ++ Ev (S:=gw) c x :: t2) → effect c = true →
  ∃ url summary req base,
    body = Some (url, summary) ∧ result_body_error body = None ∧ has_passed roleAgent rq ∧
    gseen t (GGetAR Live (nn_of rq)) (Ok req) ∧ owns rq req ∧
    gseen t (GGetAR Live (nn_of rq)) (Ok base) ∧
    (phase base = PhaseExecuting ∨ phase base = PhaseCompleted) ∧
    c = GPatchARStatus false base (upd_status (set_st_Result (Some (mkResult url summary))) base).
Proof. intros He. exact (reached _ _ _ _ _ _ (result_safe rq body) He). Qed.

(** A credential is asked for only on behalf of the agent of a request that
    the API server itself returned as Approved, while the agent is registered,
    and from the provider registered for that agent and service. *)
Theorem token_guarded rq service t c x t2 :
  emits (handleGetAgentRequestToken s rq service) (t ++ Ev (S:=gw) c x :: t2) → effect c = true →
  ∃ svc req reg p,
    service = Some svc ∧ requireRole (roles s) roleAgent (sub_of rq) (groups_of rq) = None ∧
    gseen t (GGetAR Live (nn_of rq)) (Ok req) ∧
    spec_AgentIdentity (ar_Spec req) = sub_of rq ∧ phase req = PhaseApproved ∧
    gseen t (GRegGet (sub_of rq)) (Some reg) ∧
    gseen t (GRegProviderFor (sub_of rq) svc) (Some p) ∧
    c = GProviderToken p (cl_RawToken (rq_Caller rq)).
Proof. intros He. exact (reached _ _ _ _ _ _ (token_safe rq service) He). Qed.

End facts.
