(* ===== verification/CreateFacts.v ===== *)
(** * Admission of AgentRequests: facts about [handleCreateAgentRequest]

    [create_ok] says of each effect of a submission what the history must
    show; [create_safe] proves it of every execution, and the claims are read
    off it.  Answers of the two shared caches are assumed to come from states
    that satisfy their invariants ([Registration.cache_wf], a coherent glob
    cache), which [registration_cache_invariant] and [glob_cache_bounded]
    establish. *)

From S2P Require Import Prelude GoStd GoStrings Types Prog Kube Conditions Naming.
From S2P Require Import Registration GatewayAuth Gateway GatewayCreate GatewayMatch GatewayHandlers GatewayFacts.

(** ** The specification *)

Section spec.
Context `{GL : GlobLib}.
Context (s : Server) (rq : HttpRequest) (body : createAgentRequestBody).
Implicit Types (h : list (event gw)) (a : AgentRequest) (gr : GovernedResource).

(** Answers of the caches. *)
Definition cache_answer (e : event gw) : Prop :=
  coherent e ∧
  let 'Ev c x := e in
  match c return gresp c → Prop with
  | GRegGet id => λ x, ∃ rc, cache_wf rc ∧ x = Registration.get rc id
  | GRegForSubject id sub => λ x, ∃ rc, cache_wf rc ∧ x = getForSubject rc id sub
  | _ => λ _, True
  end x.

(** The object was built for [id] from the body: it carries no mode, approval
    or status of the caller's choosing. *)
Definition request_for (id ns : string) a : Prop :=
  spec_AgentIdentity (ar_Spec a) = id ∧ om_Namespace (ar_Meta a) = ns ∧
  spec_Action (ar_Spec a) = body_Action body ∧
  spec_Target (ar_Spec a) = mkTarget (body_TargetURI body) None ∅ ∧
  spec_Mode (ar_Spec a) = ""%string ∧ spec_HumanApproval (ar_Spec a) = None ∧
  ar_Status a = empty_status.

(** The name by which the registration is looked up: the caller's subject
    under authentication, else the identity the body claims. *)
Definition claimed : string := if authRequired s then sub_of rq else body_AgentIdentity body.

(** What the registration cache answered in [h]: the registration filed under
    that name, or else, under authentication, the one found by its subjects. *)
Definition looked_up h (reg : option AgentRegistration) : Prop :=
  if has_regCache s then
    (reg ≠ None ∧ gseen h (GRegGet claimed) reg) ∨
    (gseen h (GRegGet claimed) None ∧
     if authRequired s then gseen h (GRegForSubject "" claimed) reg else reg = None)
  else reg = None.

(** The request may be for [id]: it is the agent of the registration that the
    cache answered with, which is the caller's own or lists the caller's
    subject and accepts the token; or, where the cache knows none and the
    policy is not strict, the name looked up itself. *)
Definition identity_ok h (id : string) : Prop :=
  (authRequired s = true → has_passed s roleAgent rq) ∧ claimed ≠ ""%string ∧
  ∃ reg, looked_up h reg ∧
    match reg with
    | Some r =>
        id = identity_of r ∧ (id = claimed ∨ authRequired s = true ∧ sub_of rq ∈ allowed_subjects r) ∧
        validateOIDCIdentity r (cl_Issuer (rq_Caller rq)) (sub_of rq) = None
    | None => id = claimed ∧ (has_regCache s = true → unregisteredAgentPolicy s ≠ "strict"%string)
    end.

(** The GovernedResources the decision was based on. *)
Inductive listing h : list GovernedResource → Prop :=
| LI_ok items : gseen h GListGR (Ok items) → listing h items
| LI_no_crd e : gseen h GListGR (Err e) → IsNoMatchError e = true → listing h [].

Definition agent_permitted gr (id : string) : Prop :=
  gr_PermittedAgents (gr_Spec gr) = [] ∨ id ∈ gr_PermittedAgents (gr_Spec gr).

Definition gateway_denied a : option string := om_Annotations (ar_Meta a) !! AnnotationGatewayDenied.

(** The trust gate let the request through, and its annotations are on it. *)
Definition gate_passed h (id ns : string) gr a : Prop :=
  ∀ tr, gr_TrustRequirements (gr_Spec gr) = Some tr →
  ∃ g anns, gate_outcome h ns id tr g ∧ rejected g = false ∧ annotations g = Some anns ∧
    anns ⊆ om_Annotations (ar_Meta a).

(** Why a request may be created. *)
Inductive admission h (id ns : string) a : Prop :=
| AD_ungoverned :
    listing h [] → requireGovernedResource s = false →
    spec_GovernedResourceRef (ar_Spec a) = None → gateway_denied a = None →
    admission h id ns a
| AD_governed items gr :
    listing h items → most_specific (body_TargetURI body) "" items gr →
    agent_permitted gr id → body_Action body ∈ gr_PermittedActions (gr_Spec gr) →
    spec_GovernedResourceRef (ar_Spec a) = Some (ref_of gr) → gateway_denied a = None →
    gate_passed h id ns gr a →
    admission h id ns a
| AD_denied items gr :
    listing h items → most_specific (body_TargetURI body) "" items gr →
    agent_permitted gr id → body_Action body ∉ gr_PermittedActions (gr_Spec gr) →
    spec_GovernedResourceRef (ar_Spec a) = Some (ref_of gr) →
    gateway_denied a = Some DenialCodeActionNotPermitted →
    admission h id ns a.

(** The name that makes duplicates of a dedup window collide. *)
Definition dedup_named h (id : string) a : Prop :=
  gateway_denied a = None → 0 < dedupWindow s →
  ∃ now, gseen h GClock now ∧
    om_Name (ar_Meta a) =
    deterministicRequestName id
      (computeDedupKey id (body_Action body) (body_TargetURI body)
         (normalizeClassification (body_Classification body)) (body_DedupKey body))
      (dedupWindow s) now.

Definition created_ok h a : Prop :=
  ∃ id ns, request_for id ns a ∧ identity_ok h id ∧ admission h id ns a ∧
    dedup_named h id a.

Definition create_ok h (c : gcall) : Prop :=
  match c with
  | GCreateAR a => created_ok h a
  | GDeleteAR a =>
      ∃ a' e, gseen h (GCreateAR a') (Err e) ∧ IsAlreadyExists e = true ∧
        gseen h (GGetAR Cached (key_of (ar_Meta a'))) (Ok a) ∧ terminalPhases (phase a) = true
  | GPatchARStatus lock base new =>
      ∃ a gr, lock = false ∧ gseen h (GCreateAR a) (Ok base) ∧
        spec_GovernedResourceRef (ar_Spec a) = Some (ref_of gr) ∧
        new = upd_status (set_st_GovernedResourceRef (Some (ref_of gr))) base
  | GPatchAR _ _ | GMintToken _ _ _ _ | GProviderToken _ _ => False
  | _ => True
  end.

(** ** The object under construction *)

(** An unnamed request for [id]. *)
Definition draft (id ns : string) a : Prop :=
  request_for id ns a ∧ om_Name (ar_Meta a) = ""%string ∧
  spec_Classification (ar_Spec a) = normalizeClassification (body_Classification body) ∧
  gateway_denied a = None.

Lemma draft_new id ns : draft id ns (new_request id ns body).
Proof. done. Qed.

Lemma draft_set_ref id ns gr a : draft id ns a → draft id ns (set_ref gr a).
Proof. done. Qed.

Lemma draft_unregistered id ns a : draft id ns a → draft id ns (annotate annotation_unregistered "true" a).
Proof.
  unfold draft, gateway_denied. intros (? & ? & ? & Hd). split_and!; try done.
  cbn. by rewrite lookup_insert_ne by done.
Qed.

Lemma gate_annotations_denied auto ce ra : gate_annotations auto ce ra !! AnnotationGatewayDenied = None.
Proof. unfold gate_annotations. by destruct ce. Qed.

Lemma draft_gate id ns auto ce ra a :
  draft id ns a → draft id ns (set_annotations (λ m, gate_annotations auto ce ra ∪ m) a).
Proof.
  unfold draft, gateway_denied. intros (? & ? & ? & Hd). split_and!; try done.
  cbn. by rewrite lookup_union, gate_annotations_denied, Hd.
Qed.

End spec.

(** ** Monotonicity in the history *)

Section mono.
Context `{GL : GlobLib}.
Context (s : Server) (body : createAgentRequestBody).
Implicit Types (h : list (event gw)) (a : AgentRequest).

Lemma listing_mono h h' items : h ⊆ h' → listing h items → listing h' items.
Proof. intros Hs Hl; destruct Hl; [apply LI_ok|eapply LI_no_crd]; eauto with aip. Qed.

Lemma gate_outcome_mono h h' ns id tr g : h ⊆ h' → gate_outcome h ns id tr g → gate_outcome h' ns id tr g.
Proof.
  intros Hs (level & Hl & H). exists level. split.
  { destruct Hl as [(p & ? & ?)|(e & ? & ? & ?)]; [left; exists p|right; exists e]; eauto with aip. }
  destruct (below_minimum _ _); [done|]. destruct H as (flags & Hf & ->). exists flags. split; [|done].
  destruct Hf as [(p & ? & ?)|(e & ? & ? & ?)]; [left; exists p|right; exists e]; eauto with aip.
Qed.

Lemma gate_passed_mono h h' id ns gr a : h ⊆ h' → gate_passed h id ns gr a → gate_passed h' id ns gr a.
Proof.
  intros Hs H tr Htr. destruct (H tr Htr) as (g & anns & ? & ?). exists g, anns.
  split; [by eapply gate_outcome_mono|done].
Qed.

Lemma admission_mono h h' id ns a : h ⊆ h' → admission s body h id ns a → admission s body h' id ns a.
Proof.
  intros Hs H; destruct H.
  - apply AD_ungoverned; eauto using listing_mono.
  - eapply AD_governed; eauto using listing_mono, gate_passed_mono.
  - eapply AD_denied; eauto using listing_mono.
Qed.

End mono.

#[export] Hint Resolve listing_mono gate_passed_mono admission_mono : aip.

(** ** The handler meets its specification *)

Section safe.
Context `{GL : GlobLib, MC : MetaConditions}.
Context (s : Server) (rq : HttpRequest) (body : createAgentRequestBody).
Implicit Types (h : list (event gw)) (a : AgentRequest).

Abbreviation ok h p := (safe cache_answer (create_ok s rq body) h p (λ _ _, True)).

Lemma poll_ok fuel h nn labels : ok h (poll_loop fuel nn labels).
Proof.
  revert h. induction fuel as [|fuel IH]; intros h; cbn [poll_loop]; (gstep; [done|]); [done|].
  destruct x; [|done..]. gstep; [done|]. destruct x as [cur|]; [|apply IH].
  gstep; [done|]. gstep; [done|]. apply IH.
Qed.

Lemma mirror_ok h gr a created :
  gseen h (GCreateAR a) (Ok created) → spec_GovernedResourceRef (ar_Spec a) = Some (ref_of gr) →
  safe cache_answer (create_ok s rq body) h (mirror_ref gr created) (λ h' _, h ⊆ h' ∧ True).
Proof. intros Hc Hr. unfold mirror_ref. gstep; [by exists a, gr|]. cbn. set_solver. Qed.

Lemma submit_ok fuel h ns labels gr a :
  created_ok s rq body h a → om_Namespace (ar_Meta a) = ns →
  (∀ g, gr = Some g → spec_GovernedResourceRef (ar_Spec a) = Some (ref_of g)) →
  ok h (submit fuel rq ns labels gr a).
Proof.
  intros Ha Hns Hg. unfold submit. gstep; [done|]. destruct x as [created|e].
  - eapply gsafe_sub with (φ := λ _ _, True).
    + destruct gr as [g|]; [by eapply mirror_ok; [|apply Hg]|cbn; done].
    + intros a' h' Hs' _. gstep; [|apply poll_ok]. gstep; [done|]. done.
  - gstep; [|gstep; done]. unfold duplicate. gstep; [done|]. destruct x as [existing|]; [|done].
    gstep; [|gstep; done]. gstep; [|destruct x; [|gstep]; done].
    exists a, e. split_and!; try done. unfold key_of. by rewrite Hns.
Qed.

Lemma dedup_ok h id ns a Q :
  draft body id ns a →
  (∀ h' a', h ⊆ h' → request_for body id ns a' → dedup_named s body h' id a' →
     gateway_denied a' = None → om_Annotations (ar_Meta a') = om_Annotations (ar_Meta a) →
     spec_GovernedResourceRef (ar_Spec a') = spec_GovernedResourceRef (ar_Spec a) → Q h' a') →
  safe cache_answer (create_ok s rq body) h (dedup_name s id body a) Q.
Proof.
  intros (Hr & Hn & Hc & Hd) HQ. unfold dedup_name. gstep.
  - gstep; [done|]. rewrite Hc. apply HQ.
    + set_solver.
    + destruct (body_DedupKey body <>? ""); exact Hr.
    + intros _ _. exists x. split; [done|]. by destruct (body_DedupKey body <>? "").
    + destruct (body_DedupKey body <>? ""); exact Hd.
    + by destruct (body_DedupKey body <>? "").
    + by destruct (body_DedupKey body <>? "").
  - apply HQ; try done. intros _ Hw. apply Z.ltb_ge in E. lia.
Qed.

Lemma looked_up_mono h h' reg : h ⊆ h' → looked_up s rq body h reg → looked_up s rq body h' reg.
Proof.
  intros Hs. unfold looked_up. destruct (has_regCache s); [|done].
  intros [[? ?]|[? ?]]; [left|right]; (split; [by eauto using gseen_mono|]); [by eapply gseen_mono|].
  destruct (authRequired s); [by eapply gseen_mono|done].
Qed.

Lemma identity_ok_mono h h' id : h ⊆ h' → identity_ok s rq body h id → identity_ok s rq body h' id.
Proof. intros Hs (? & ? & reg & ? & ?). split; [done|]. split; [done|]. exists reg. eauto using looked_up_mono. Qed.

(** What is known of the resource that admitted the request. *)
Definition governed_by h id (gr : option GovernedResource) : Prop :=
  match gr with
  | None => listing h [] ∧ requireGovernedResource s = false
  | Some gr => ∃ items, listing h items ∧ most_specific (body_TargetURI body) "" items gr ∧
      agent_permitted gr id ∧ body_Action body ∈ gr_PermittedActions (gr_Spec gr)
  end.

Lemma named_submit_ok fuel h labels id ns gr a :
  identity_ok s rq body h id → governed_by h id gr → draft body id ns a →
  spec_GovernedResourceRef (ar_Spec a) = ref_of <$> gr →
  (∀ g, gr = Some g → gate_passed h id ns g a) →
  ok h (a <- dedup_name s id body a ;; submit fuel rq ns labels gr a).
Proof.
  intros Hid Hg Hd Href Hgate. apply safe_bind. eapply dedup_ok; [done|].
  intros h' a' Hs Hr Hn Hden Han Href'. apply submit_ok; [|apply Hr|].
  - exists id, ns. split_and!; [done|by eapply identity_ok_mono| |done]. destruct gr as [gr|]; cbn in Hg.
    + destruct Hg as (items & Hl & Hm & Hp & Hact). eapply AD_governed; eauto using listing_mono.
      * by rewrite Href', Href.
      * eapply gate_passed_mono; [done|]. unfold gate_passed. rewrite Han. by apply Hgate.
    + destruct Hg. apply AD_ungoverned; eauto using listing_mono. by rewrite Href', Href.
  - intros g ->. by rewrite Href', Href.
Qed.

Lemma gate_effects h c : gate_call c → create_ok s rq body h c.
Proof. by destruct c. Qed.

Lemma glob_effects h c : glob_call c → create_ok s rq body h c.
Proof. by destruct c. Qed.

Lemma admitted_ok fuel h id ns gr a :
  identity_ok s rq body h id → governed_by h id gr → draft body id ns a →
  spec_GovernedResourceRef (ar_Spec a) = None → ok h (admitted s fuel rq id ns body gr a).
Proof.
  intros Hid Hg Hd Href. unfold admitted. cbv zeta. destruct gr as [gr|]; [|by apply named_submit_ok].
  destruct (gr_TrustRequirements (gr_Spec gr)) as [tr|] eqn:Htr.
  2:{ apply named_submit_ok; try done; try (by apply draft_set_ref). intros g [= <-] tr Htr'. congruence. }
  assert (draft body id ns (set_ref gr a)) as Hd' by (by apply draft_set_ref).
  assert (spec_Mode (ar_Spec (set_ref gr a)) = ""%string) as -> by apply Hd.
  apply safe_bind. eapply safe_mono; [| | |apply (trust_gate_safe cache_answer)]; [done| |].
  { intros h' c. apply gate_effects. }
  intros h' r [Hs Ho]. rewrite Htr in Ho. cbn in Ho. destruct r as [g|e]; [|done].
  specialize (Ho g eq_refl). gstep; [done|].
  pose proof Ho as (level & _ & Hx). destruct (below_minimum _ _); [subst g; done|].
  destruct Hx as (flags & _ & ->). cbn [annotations].
  apply named_submit_ok; try done.
  - by eapply identity_ok_mono.
  - destruct gr. cbn in Hg |- *. destruct Hg as (items & Hl & ?). exists items. eauto using listing_mono.
  - by apply draft_gate.
  - intros g [= <-] tr' Htr'. rewrite Htr in Htr'. injection Htr' as <-. eexists _, _.
    split; [exact Ho|]. split; [done|]. split; [done|]. cbn. apply map_union_subseteq_l.
Qed.

Lemma deny_ok h id ns items gr a :
  identity_ok s rq body h id → listing h items →
  most_specific (body_TargetURI body) "" items gr → agent_permitted gr id →
  body_Action body ∉ gr_PermittedActions (gr_Spec gr) → draft body id ns a →
  ok h (deny_action gr a).
Proof.
  intros Hid Hl Hm Hp Hact (Hr & Hn & Hc & Hd). unfold deny_action. gstep.
  - assert (gateway_denied (annotate AnnotationGatewayDenied DenialCodeActionNotPermitted (set_ref gr a))
      = Some DenialCodeActionNotPermitted) as Hden by (unfold gateway_denied; cbn; by rewrite lookup_insert_eq).
    exists id, ns. split_and!; try done; [by eapply AD_denied|]. intros Hnone. congruence.
  - destruct x as [created|]; [|done]. eapply gsafe_sub with (φ := λ _ _, True); [|done].
    eapply mirror_ok; [done|]. done.
Qed.

(** The registration found. *)
Definition reg_ok h (reg : option AgentRegistration) : Prop :=
  (claimed s rq body ≠ ""%string → looked_up s rq body h reg) ∧
  ∀ r, reg = Some r →
    claimed s rq body ≠ ""%string ∧ has_regCache s = true ∧
    (identity_of r = claimed s rq body ∨ authRequired s = true ∧ sub_of rq ∈ allowed_subjects r).

Lemma find_registration_ok h :
  safe cache_answer (create_ok s rq body) h (find_registration s rq body)
    (λ h' reg, h ⊆ h' ∧ reg_ok h' reg).
Proof.
  unfold find_registration, reg_ok, looked_up, claimed. destruct (has_regCache s), (authRequired s); cbn [andb]; try done.
  - gstep; [|split; [done|]; split; [|done]; intros Hne; str_tests; done]. str_tests. gstep; [done|]. destruct x as [r|].
    + cbn. split; [done|]. split; [by left|]. intros r' [= <-]. split; [done|]. split; [done|]. left.
      destruct HR as [_ (rc & Hwf & Hr)]. symmetry in Hr. by apply (wf_key rc Hwf) in Hr as [-> _].
    + apply gsafe_last; [done|]. intros reg h' HR' Hs' Hx'. split; [by etrans|]. split.
      { intros _. right. split; [by eapply gseen_mono|done]. }
      intros r ->. split; [done|]. split; [done|]. right. destruct HR' as [_ (rc & Hwf & Hr)]. symmetry in Hr.
      change (getForSubject rc "" (sub_of rq)) with (scan_all rc (sub_of rq)) in Hr.
      by apply (scan_all_spec rc _ _ Hwf) in Hr as (_ & ? & _).
  - gstep; [|split; [done|]; split; [|done]; intros Hne; str_tests; done]. str_tests.
    apply gsafe_last; [done|]. intros reg h' [_ (rc & Hwf & Hr)] Hs' Hx'. split; [done|]. split.
    { intros _. destruct reg; [by left|by right]. }
    intros r ->. split; [done|]. split; [done|]. left. symmetry in Hr. by apply (wf_key rc Hwf) in Hr as [-> _].
Qed.

Lemma govern_ok fuel h id ns a :
  identity_ok s rq body h id → draft body id ns a →
  spec_GovernedResourceRef (ar_Spec a) = None → ok h (govern s fuel rq id ns body a).
Proof.
  intros Hid Hd Href. unfold govern. gstep; [done|]. cbv zeta.
  apply (identity_ok_mono h h0) in Hid; [|done].
  assert (∀ items, listing h0 items → ok h0
    (if bool_decide (items = []) && negb (requireGovernedResource s) then
       admitted s fuel rq id ns body None a
     else
       m <- matchGovernedResource items (body_TargetURI body) "" ;;
       match m with
       | None => Ret (writeError StatusForbidden DenialCodeActionNotPermitted)
       | Some gr =>
           if bool_decide (gr_PermittedAgents (gr_Spec gr) ≠ []) &&
              negb (contains (gr_PermittedAgents (gr_Spec gr)) id) then
             Ret (writeError StatusForbidden DenialCodeIdentityInvalid)
           else if negb (contains (gr_PermittedActions (gr_Spec gr)) (body_Action body)) then
             deny_action gr a
           else admitted s fuel rq id ns body (Some gr) a
       end)) as Hitems.
  { intros items Hl. gstep.
    { apply andb_prop in E as [E1%bool_decide_eq_true E2]. subst items. str_tests. by apply admitted_ok. }
    apply safe_bind. eapply safe_mono; [| | |apply match_loop_safe]; [by intros ? [? _]|apply glob_effects|].
    intros h' r [Hs' ->]. destruct (best_of _ _ _ _) as [gr|] eqn:Hb; [|done].
    apply best_of_most_specific in Hb. gstep; [done|].
    assert (agent_permitted gr id) as Hp.
    { apply andb_false_iff in E0 as [E0|E0]; [left|right].
      - apply bool_decide_eq_false in E0. by apply dec_stable.
      - apply negb_false_iff, bool_decide_eq_true in E0. done. }
    gstep; [apply negb_true_iff, bool_decide_eq_false in E1|apply negb_false_iff, bool_decide_eq_true in E1].
    - eapply deny_ok; eauto using listing_mono, identity_ok_mono.
    - apply admitted_ok; [by eapply identity_ok_mono| |done..]. exists items. eauto using listing_mono. }
  destruct x as [items|e]; [apply Hitems; by apply LI_ok|].
  gstep; [|done]. apply Hitems. by eapply LI_no_crd.
Qed.

(** What is known once the registration policy has let the request pass. *)
Lemma resolved_ok h reg id a a' :
  (authRequired s = true → has_passed s roleAgent rq) → reg_ok h reg →
  resolve_identity s rq reg body = inr id → registered s rq reg id a = inr a' → identity_ok s rq body h id.
Proof.
  intros Hrole [Hlook Hreg] Hi Hr. unfold resolve_identity in Hi. unfold registered in Hr.
  destruct reg as [r|].
  - destruct (Hreg r eq_refl) as (Hne & Hc & Hsub). injection Hi as <-. rewrite Hc in Hr.
    destruct (validateOIDCIdentity _ _ _) eqn:Hv; [done|].
    split; [done|]. split; [done|]. exists (Some r). split; [by apply Hlook|done].
  - assert (claimed s rq body ≠ ""%string ∧ id = claimed s rq body) as [Hne ->].
    { unfold claimed in *. destruct (authRequired s) eqn:Ha; [split; [by apply Hrole|by injection Hi]|].
      destruct (String.eqb_spec (body_AgentIdentity body) ""); [done|]. by injection Hi. }
    split; [done|]. split; [done|]. exists None. split; [by apply Hlook|]. split; [done|].
    intros Hc Hst. by rewrite Hc, Hst in Hr.
Qed.

(** The object keeps its shape through the registration policy. *)
Lemma registered_draft reg id ns a :
  registered s rq reg id (new_request id ns body) = inr a →
  draft body id ns a ∧ spec_GovernedResourceRef (ar_Spec a) = None.
Proof.
  unfold registered. destruct (has_regCache s); [|by intros [= <-]].
  destruct reg as [r|]; [destruct (validateOIDCIdentity _ _ _); [done|by intros [= <-]]|].
  destruct (unregisteredAgentPolicy s ==? "strict"); [done|].
  destruct (unregisteredAgentPolicy s ==? "warn"); intros [= <-]; [|done].
  split; [|done]. apply draft_unregistered, draft_new.
Qed.

Lemma create_safe fuel : ok [] (handleCreateAgentRequest s fuel rq (Some body)).
Proof.
  unfold handleCreateAgentRequest. gstep; [done|]. gstep; [done|].
  eapply gsafe_sub; [apply find_registration_ok|]. intros reg h Hs Hreg.
  destruct (if authRequired s then _ else _) as [msg|] eqn:Hrole; [done|].
  destruct (resolve_identity s rq reg body) as [msg|id] eqn:Hi; [done|]. cbv zeta.
  set (ns := if body_Namespace body ==? "" then _ else _).
  destruct (registered _ _ _ _ _) as [msg|a] eqn:Hr; [done|].
  destruct (registered_draft _ _ _ _ Hr) as [Hd Href]. apply govern_ok; try done.
  eapply resolved_ok; [|done..]. intros Ha. rewrite Ha in E, Hrole. split; [|done]. intros _. cbn in E. by str_tests.
Qed.

End safe.

(** ** Claims *)

Section claims.
Context `{GL : GlobLib, MC : MetaConditions}.
Context (s : Server) (rq : HttpRequest) (body : createAgentRequestBody).

(** [c] is called in some execution of the submission, after a history [t] in
    which the caches answered from states that satisfy their invariants. *)
Definition submits (fuel : nat) (t : list (event gw)) (c : gcall) : Prop :=
  Forall cache_answer t ∧
  ∃ (x : gresp c) t2, emits (handleCreateAgentRequest s fuel rq (Some body)) (t ++ Ev (S:=gw) c x :: t2).

Lemma submits_ok fuel t c : submits fuel t c → create_ok s rq body t c.
Proof.
  intros (Hf & x & t2 & He). exact (safe_emits _ _ _ _ _ _ _ _ _ (create_safe s rq body fuel) Hf He).
Qed.

(** C7: A request is created only for the agent of the registration that the
    cache answered with: the one filed under the caller's subject, or else the
    one found because it lists that subject; it accepted the token's issuer
    and subject.  Where the cache knew none, which the strict policy refuses,
    the request is for the caller's subject itself.  Under authentication the
    caller has the agent role, and what the body claims plays no part. *)
Theorem created_identity_authorized fuel t a :
  submits fuel t (GCreateAR a) → identity_ok s rq body t (spec_AgentIdentity (ar_Spec a)).
Proof. by intros (id & ns & (<- & _) & ? & _)%submits_ok. Qed.

(** C6: A request is created only as admitted: without GovernedResources where
    none are required; under the most specific resource of its target, which
    permits the agent and the action, past the trust gate, with the gate's
    annotations; or, for an action that resource does not permit, marked as
    denied.  It carries the reference of that resource and no mode, approval
    or status of the caller's choosing. *)
Theorem created_as_admitted fuel t a :
  submits fuel t (GCreateAR a) →
  ∃ id ns, request_for body id ns a ∧ admission s body t id ns a.
Proof. intros (id & ns & ? & ? & ? & ?)%submits_ok. by exists id, ns. Qed.

(** The other effects of a submission: it deletes only a request that collided
    with its own name and was read in a terminal phase, and patches only the
    status of the request it just created, to mirror the reference. *)
Theorem submission_effects fuel t c :
  submits fuel t c → effect c = true →
  match c with
  | GCreateAR a => created_ok s rq body t a
  | GDeleteAR a =>
      ∃ a' e, gseen t (GCreateAR a') (Err e) ∧ IsAlreadyExists e = true ∧
        gseen t (GGetAR Cached (key_of (ar_Meta a'))) (Ok a) ∧ terminalPhases (phase a) = true
  | GPatchARStatus lock base new =>
      ∃ a gr, lock = false ∧ gseen t (GCreateAR a) (Ok base) ∧
        spec_GovernedResourceRef (ar_Spec a) = Some (ref_of gr) ∧
        new = upd_status (set_st_GovernedResourceRef (Some (ref_of gr))) base
  | _ => False
  end.
Proof. intros Hs%submits_ok He. by destruct c. Qed.

End claims.

(** Two submissions of the same agent, action, target, classification and
    explicit key in the same dedup window ask for the same object name, so in
    one namespace the API server accepts at most one of them. *)
Theorem duplicates_collide `{GL : GlobLib, MC : MetaConditions} s rq rq' body body' fuel fuel' t t' a a' :
  submits s rq body fuel t (GCreateAR a) → submits s rq' body' fuel' t' (GCreateAR a') →
  0 < dedupWindow s → gateway_denied a = None → gateway_denied a' = None →
  spec_AgentIdentity (ar_Spec a) = spec_AgentIdentity (ar_Spec a') →
  body_Action body = body_Action body' → body_TargetURI body = body_TargetURI body' →
  normalizeClassification (body_Classification body) = normalizeClassification (body_Classification body') →
  body_DedupKey body = body_DedupKey body' →
  (∀ now now', gseen t GClock now → gseen t' GClock now' → now ÷ dedupWindow s = now' ÷ dedupWindow s) →
  om_Name (ar_Meta a) = om_Name (ar_Meta a').
Proof.
  intros (id & ns & (<- & _) & _ & _ & Hn)%submits_ok (id' & ns' & (<- & _) & _ & _ & Hn')%submits_ok.
  intros Hw Hd Hd' Hid Hact Huri Hcls Hkey Hwin.
  destruct (Hn Hd Hw) as (now & Hc & ->), (Hn' Hd' Hw) as (now' & Hc' & ->).
  rewrite Hid, Hact, Huri, Hcls, Hkey. by apply request_name_stable, Hwin.
Qed.
