(* ===== verification/GC.v ===== *)
(** * Garbage collection of AgentRequests ([internal/gc])

    One scan of [ARGCWorker] as a program over its calls: uncached paged lists,
    deletes, the clock, the rate limiter and the metrics.  The list loops
    follow the API server's continue tokens; they are bounded here by [fuel]
    pages, and [None] says that the bound was reached.  [gc_scan_ends] shows
    that listings of finitely many pages come to a result. *)

From Stdlib Require Import SpecFloat.
From S2P Require Import Prelude GoStd GoStrings Types Prog.

Record GCConfig := mkGC {
  Enabled : bool;
  Interval : Z;
  DryRun : bool;
  HardTTL : Z;
  PageSize : Z;
  DeleteRatePerSec : spec_float;
  SafetyMinCount : Z }.

Definition AgentRequestGCEnabled (c : GCConfig) : bool := Enabled c && (0 <? HardTTL c).

(** [100] as a float. *)
Definition DefaultGCConfig : GCConfig :=
  mkGC false Hour true 0 500 (S754_finite false 7036874417766400 (-46)) 10.

(** ** Calls *)

Inductive gc_metric :=
| gcObjectsSkippedTotal (reason : string)
| gcScanObjectsEvaluatedTotal
| gcObjectsDeletedTotal
| gcScanDurationSeconds.

Inductive gc_call :=
| NNow
| NMetric (m : gc_metric)
| NListAR (limit : Z) (continue : string)
| NListAudits (ns ref : string) (limit : Z) (continue : string)
| NDeleteAudit (a : AuditRecord)
| NDeleteAR (a : AgentRequest)
| NWait.

Definition gc_resp (c : gc_call) : Type :=
  match c with
  | NNow => Z
  | NMetric _ => unit
  | NListAR _ _ => res (list AgentRequest * string)
  | NListAudits _ _ _ _ => res (list AuditRecord * string)
  | NDeleteAudit _ | NDeleteAR _ | NWait => res unit
  end.

Definition gcs : sig := mkSig gc_call gc_resp.

Abbreviation gc_ c := (trigger gcs c).

(** ** The worker *)

Inductive processResult := resultNone | resultDeleted | resultSkipped.

Definition isTerminal (phase : string) : bool :=
  (phase ==? PhaseCompleted) || (phase ==? PhaseFailed) || (phase ==? PhaseDenied) || (phase ==? PhaseExpired).

Section worker.
Context (w : GCConfig).

(** The records of one page; a failed delete is logged and passed over. *)
Fixpoint delete_audits (l : list AuditRecord) : prog gcs unit :=
  match l with
  | [] => Ret tt
  | a :: l' => gc_ (NDeleteAudit a) ;;; delete_audits l'
  end.

Fixpoint audit_pages (fuel : nat) (ar : AgentRequest) (continue : string) : prog gcs (option (res unit)) :=
  match fuel with
  | O => Ret None
  | S fuel' =>
      r <- gc_ (NListAudits (om_Namespace (ar_Meta ar)) (om_Name (ar_Meta ar)) (PageSize w) continue) ;;
      match r with
      | Err e => Ret (Some (Err (EWrap ("ar gc list auditrecords for " +:+ om_Namespace (ar_Meta ar)
                                          +:+ "/" +:+ om_Name (ar_Meta ar))%string e)))
      | Ok (items, cont) =>
          delete_audits items ;;;
          if cont ==? "" then Ret (Some (Ok tt)) else audit_pages fuel' ar cont
      end
  end.

Definition processRequest (fuel : nat) (ar : AgentRequest) : prog gcs (option (res processResult)) :=
  if negb (isTerminal (phase ar)) then Ret (Some (Ok resultNone))
  else
    now <- gc_ NNow ;;
    let age := time_Sub now (om_CreationTimestamp (ar_Meta ar)) in
    if age <? HardTTL w then Ret (Some (Ok resultNone))
    else if DryRun w then
      gc_ (NMetric (gcObjectsSkippedTotal "dry_run")) ;;; Ret (Some (Ok resultSkipped))
    else
      l <- gc_ NWait ;;
      match l with
      | Err e => Ret (Some (Err (EWrap "ar gc rate limiter" e)))
      | Ok _ =>
          r <- audit_pages fuel ar "" ;;
          match r with
          | None => Ret None
          | Some (Err e) => Ret (Some (Err e))
          | Some (Ok _) =>
              d <- gc_ (NDeleteAR ar) ;;
              match d with
              | Err e =>
                  if IsNotFound e then gc_ (NMetric gcObjectsDeletedTotal) ;;; Ret (Some (Ok resultDeleted))
                  else Ret (Some (Ok resultNone))
              | Ok _ => gc_ (NMetric gcObjectsDeletedTotal) ;;; Ret (Some (Ok resultDeleted))
              end
          end
      end.

Fixpoint process_page (fuel : nat) (items : list AgentRequest) : prog gcs (option (res unit)) :=
  match items with
  | [] => Ret (Some (Ok tt))
  | ar :: items' =>
      gc_ (NMetric gcScanObjectsEvaluatedTotal) ;;;
      r <- processRequest fuel ar ;;
      match r with
      | None => Ret None
      | Some (Err e) => Ret (Some (Err e))
      | Some (Ok _) => process_page fuel items'
      end
  end.

(** [inner] bounds the pages of audit records of one request. *)
Fixpoint scan (fuel inner : nat) (continue : string) : prog gcs (option (res unit)) :=
  match fuel with
  | O => Ret None
  | S fuel' =>
      r <- gc_ (NListAR (PageSize w) continue) ;;
      match r with
      | Err e => Ret (Some (Err (EWrap "ar gc list page" e)))
      | Ok (items, cont) =>
          p <- process_page inner items ;;
          match p with
          | None => Ret None
          | Some (Err e) => Ret (Some (Err e))
          | Some (Ok _) => if cont ==? "" then Ret (Some (Ok tt)) else scan fuel' inner cont
          end
      end
  end.

Definition terminal_count (items : list AgentRequest) : Z :=
  Z.of_nat (length (List.filter (λ ar, isTerminal (phase ar)) items)).

Definition Run (fuel inner : nat) : prog gcs (option (res unit)) :=
  if HardTTL w =? 0 then Ret (Some (Ok tt))
  else
    start <- gc_ NNow ;;
    c <- gc_ (NListAR (int64 (SafetyMinCount w + 1)) "") ;;
    match c with
    | Err e => Ret (Some (Err (EWrap "ar gc safety-valve list" e)))
    | Ok (items, cont) =>
        if (terminal_count items <? SafetyMinCount w) && (cont ==? "") then
          gc_ (NMetric (gcObjectsSkippedTotal "safety_valve")) ;;; Ret (Some (Ok tt))
        else
          r <- scan fuel inner "" ;;
          match r with
          | Some (Ok _) =>
              end_ <- gc_ NNow ;; gc_ (NMetric gcScanDurationSeconds) ;;; Ret (Some (Ok tt))
          | r => Ret r
          end
    end.

End worker.

(** ** The manager's health check and loop *)

(** [Check]: unhealthy after two intervals and a minute without a cycle;
    [lastCheckIn] is [None] before [Start]. *)
Definition Check (c : GCConfig) (lastCheckIn : option Z) (now : Z) : bool :=
  if negb (Enabled c) then true
  else match lastCheckIn with
       | Some t => negb (int64 (int64 (Interval c * 2) + Minute) <? time_Sub now t)
       | None => true
       end.

(** What the manager does on each tick: one scan, whose error is only logged,
    then the check-in. *)
Definition cycle (c : GCConfig) (fuel inner : nat) : prog gcs Z := Run c fuel inner ;;; gc_ NNow.

Fixpoint manager (c : GCConfig) (fuel inner : nat) (ticks : nat) (lastCheckIn : Z) : prog gcs Z :=
  match ticks with
  | O => Ret lastCheckIn
  | S ticks' => t <- cycle c fuel inner ;; manager c fuel inner ticks' t
  end.

(** [Start], for a manager stopped after [ticks] ticks. *)
Definition Start (c : GCConfig) (fuel inner ticks : nat) : prog gcs (option Z) :=
  if negb (Enabled c) then Ret None
  else t <- gc_ NNow ;; t' <- manager c fuel inner ticks t ;; Ret (Some t').
