(* ===== verification/GCFacts.v ===== *)
(** * What a garbage collection scan deletes, and that it deletes it all *)

From S2P Require Import Prelude GoStd GoStrings Types Prog GC.

Section facts.
Context (w : GCConfig).
Implicit Types (h t : list (event gcs)) (ar : AgentRequest).

Definition nseen h (c : gc_call) (x : gc_resp c) : Prop := Ev (S:=gcs) c x ∈ h.

Lemma nseen_mono h h' c x : h ⊆ h' → nseen h c x → nseen h' c x.
Proof. unfold nseen. auto. Qed.

(** The page the safety valve looks at was read, and if it was the whole
    listing, enough of it is terminal. *)
Definition valve_open h : Prop :=
  ∃ items cont, nseen h (NListAR (int64 (SafetyMinCount w + 1)) "") (Ok (items, cont)) ∧
    (cont = ""%string → SafetyMinCount w ≤ terminal_count items).

(** The request was listed, is terminal, and is as old as the TTL. *)
Definition eligible h ar : Prop :=
  DryRun w = false ∧ isTerminal (phase ar) = true ∧
  (∃ limit cont items cont', nseen h (NListAR limit cont) (Ok (items, cont')) ∧ ar ∈ items) ∧
  ∃ now, nseen h NNow now ∧ HardTTL w ≤ time_Sub now (om_CreationTimestamp (ar_Meta ar)).

Abbreviation list_audits ar cont :=
  (NListAudits (om_Namespace (ar_Meta ar)) (om_Name (ar_Meta ar)) (PageSize w) cont).

(** The deletion of every record of a page was asked for. *)
Definition asked h (items : list AuditRecord) : Prop := ∀ a, a ∈ items → ∃ x, nseen h (NDeleteAudit a) x.

(** The audit records of [ar] were listed page by page, from the token [cont]
    to a page without one, each page under the token of the page before, and
    the deletion of every record was asked for. *)
Inductive audits_cleared h ar (cont : string) : Prop :=
| AC_last items :
    nseen h (list_audits ar cont) (Ok (items, ""%string)) → asked h items → audits_cleared h ar cont
| AC_more items cont' :
    nseen h (list_audits ar cont) (Ok (items, cont')) → cont' ≠ ""%string → asked h items →
    audits_cleared h ar cont' → audits_cleared h ar cont.

Definition gc_ok h (c : gc_call) : Prop :=
  match c with
  | NDeleteAR ar => eligible h ar ∧ valve_open h ∧ nseen h NWait (Ok tt) ∧ audits_cleared h ar ""
  | NDeleteAudit a =>
      ∃ ar cont items cont', eligible h ar ∧ valve_open h ∧
        nseen h (list_audits ar cont) (Ok (items, cont')) ∧ a ∈ items
  | _ => True
  end.

Lemma eligible_mono h h' ar : h ⊆ h' → eligible h ar → eligible h' ar.
Proof.
  intros Hs (? & ? & (l & c & i & c' & ? & ?) & now & ? & ?). split_and!; [done..| |].
  - exists l, c, i, c'. eauto using nseen_mono.
  - exists now. eauto using nseen_mono.
Qed.

Lemma valve_mono h h' : h ⊆ h' → valve_open h → valve_open h'.
Proof. intros Hs (i & c & ? & ?). exists i, c. eauto using nseen_mono. Qed.

Lemma asked_mono h h' items : h ⊆ h' → asked h items → asked h' items.
Proof. intros Hs Hc a Ha. destruct (Hc a Ha) as [x Hx]. exists x. by eapply nseen_mono. Qed.

Lemma audits_cleared_mono h h' ar cont : h ⊆ h' → audits_cleared h ar cont → audits_cleared h' ar cont.
Proof.
  intros Hs. induction 1 as [cont items|cont items cont'].
  - eapply AC_last; eauto using nseen_mono, asked_mono.
  - eapply AC_more; eauto using nseen_mono, asked_mono.
Qed.

Definition grows {A} h (Q : list (event gcs) → A → Prop) : list (event gcs) → A → Prop :=
  λ h' x, h ⊆ h' ∧ Q h' x.

Abbreviation ok h p Q := (safe any gc_ok h p (grows h Q)).

Lemma delete_audits_ok h ar cont items cont' l :
  eligible h ar → valve_open h → nseen h (list_audits ar cont) (Ok (items, cont')) → l ⊆ items →
  ok h (delete_audits l) (λ h' _, asked h' l).
Proof.
  revert h. induction l as [|a l IH]; intros h He Hv Hl Hsub; [by split; [|intros a ?%elem_of_nil]|].
  apply safe_call; [exists ar, cont, items, cont'; split_and!; try done; set_solver|].
  intros x h1 _ Hs Hx. eapply safe_post; [|apply IH]; eauto using eligible_mono, valve_mono, nseen_mono.
  - intros h2 ? [Hs2 Hc]. split; [by etrans|]. intros a' [->|Ha']%elem_of_cons; [|by apply Hc].
    exists x. by apply (nseen_mono h1).
  - set_solver.
Qed.

Lemma audit_pages_ok fuel h ar cont :
  eligible h ar → valve_open h →
  ok h (audit_pages w fuel ar cont) (λ h' r, r = Some (Ok tt) → audits_cleared h' ar cont).
Proof.
  revert h cont. induction fuel as [|fuel IH]; intros h cont He Hv; [done|]. cbn [audit_pages].
  apply safe_call; [done|]. intros [[items cont']|e] h1 _ Hs1 Hx; [|by split].
  eapply safe_sub; [eapply delete_audits_ok; eauto using eligible_mono, valve_mono|].
  intros u h2 Hs2 Hc. destruct (String.eqb_spec cont' "") as [->|].
  - split; [by etrans|]. intros _. eapply AC_last; [by eapply nseen_mono|done].
  - eapply safe_post; [|apply IH]; eauto using eligible_mono, valve_mono.
    intros h3 r [Hs3 Hr]. split; [etrans; [exact Hs1|]; by etrans|]. intros E.
    apply (AC_more _ _ _ items cont'); [|done|by apply (asked_mono h2)|by apply Hr].
    apply (nseen_mono h1); [by etrans|exact Hx].
Qed.

Lemma process_ok fuel h ar :
  valve_open h →
  (∃ limit cont items cont', nseen h (NListAR limit cont) (Ok (items, cont')) ∧ ar ∈ items) →
  ok h (processRequest w fuel ar) (λ _ _, True).
Proof.
  intros Hv Hl. unfold processRequest. destruct (isTerminal (phase ar)) eqn:Ht; [|done]. cbn [negb].
  apply safe_call; [done|]. intros now h1 _ Hs1 Hnow. cbv zeta.
  destruct (Z.ltb_spec (time_Sub now (om_CreationTimestamp (ar_Meta ar))) (HardTTL w)) as [|Hage]; [by split|].
  destruct (DryRun w) eqn:Hd; [apply safe_call; [done|]; intros ? h2 _ Hs2 _; split; [by etrans|done]|].
  apply safe_call; [done|]. intros [[]|e] h2 _ Hs2 Hw; [|split; [by etrans|done]].
  assert (eligible h2 ar) as He.
  { apply (eligible_mono h1); [done|]. split_and!; [done..| |by exists now].
    destruct Hl as (l & c & i & c' & ? & ?). exists l, c, i, c'. eauto using nseen_mono. }
  assert (h ⊆ h2) as Hs by (by etrans).
  eapply safe_sub; [apply audit_pages_ok; eauto using valve_mono|].
  intros r h3 Hs3 Hr. assert (h ⊆ h3) as Hs' by (by etrans).
  destruct r as [[[]|e]|]; [|done..]. specialize (Hr eq_refl).
  assert (∀ h4, h3 ⊆ h4 → ok h4 (gc_ (NMetric gcObjectsDeletedTotal) ;;; Ret (Some (Ok resultDeleted)))
    (λ _ _, True)) as Hend.
  { intros h4 Hs4. apply safe_call; [done|]. intros ? h5 _ Hs5 _. split; [done|done]. }
  apply safe_call.
  - split; [by apply (eligible_mono h2)|]. split; [by apply (valve_mono h)|]. split; [by apply (nseen_mono h2)|done].
  - intros d h4 _ Hs4 _.
    assert (∀ h5 (x : option (res processResult)), h4 ⊆ h5 ∧ True → h ⊆ h5 ∧ True) as Hgrow.
    { intros h5 ? [? _]. split; [|done]. etrans; [exact Hs'|]. by etrans. }
    destruct d as [u'|e]; [|destruct (IsNotFound e)]; [..|split; [by etrans|done]];
      eapply safe_post; try exact Hgrow; by apply Hend.
Qed.

Lemma process_page_ok fuel h items :
  valve_open h →
  (∀ ar, ar ∈ items → ∃ limit cont l cont', nseen h (NListAR limit cont) (Ok (l, cont')) ∧ ar ∈ l) →
  ok h (process_page w fuel items) (λ _ _, True).
Proof.
  revert h. induction items as [|ar items IH]; intros h Hv Hl; [done|]. cbn [process_page].
  apply safe_call; [done|]. intros ? h1 _ Hs1 _.
  assert (∀ ar', ar' ∈ ar :: items → ∃ limit cont l cont', nseen h1 (NListAR limit cont) (Ok (l, cont')) ∧ ar' ∈ l)
    as Hl1.
  { intros ar' Hin. destruct (Hl ar' Hin) as (a & b & c & d & ? & ?). exists a, b, c, d. eauto using nseen_mono. }
  eapply safe_sub; [apply process_ok; [by eapply valve_mono|apply Hl1; left]|].
  intros r h2 Hs2 _. assert (h ⊆ h2) as Hs by (by etrans). destruct r as [[u|e]|]; [|done..].
  eapply safe_post; [|apply IH; [by eapply valve_mono|]].
  - intros h3 ? [? _]. split; [by etrans|done].
  - intros ar' Hin. destruct (Hl1 ar') as (a & b & c & d & ? & ?); [by right|].
    exists a, b, c, d. eauto using nseen_mono.
Qed.

Lemma scan_ok fuel inner h cont : valve_open h → ok h (scan w fuel inner cont) (λ _ _, True).
Proof.
  revert h cont. induction fuel as [|fuel IH]; intros h cont Hv; [done|]. cbn [scan].
  apply safe_call; [done|]. intros [[items cont']|e] h1 _ Hs1 Hx; [|done].
  eapply safe_sub; [apply process_page_ok; [by eapply valve_mono|]|].
  { intros ar Hin. exists (PageSize w), cont, items, cont'. done. }
  intros r h2 Hs2 _. assert (h ⊆ h2) as Hs by (by etrans). destruct r as [[u|e]|]; [|done..].
  destruct (cont' ==? ""); [done|]. eapply safe_post; [|apply IH; by eapply valve_mono].
  intros h3 ? [? _]. split; [by etrans|done].
Qed.

Lemma run_ok fuel inner : safe any gc_ok [] (Run w fuel inner) (λ _ _, True).
Proof.
  unfold Run. destruct (HardTTL w =? 0); [done|].
  apply safe_call; [done|]. intros start h1 _ _ _. apply safe_call; [done|].
  intros [[items cont]|e] h2 _ Hs2 Hx; [|done].
  destruct (_ && _) eqn:E; [by apply safe_call|].
  eapply safe_sub with (φ := λ _ _, True).
  - apply scan_ok. exists items, cont. split; [done|].
    intros ->. apply andb_false_iff in E as [E|E]; [by apply Z.ltb_ge|done].
  - intros r h3 _ _. destruct r as [[u|e]|]; [|done..]. apply safe_call; [done|]. intros. by apply safe_call.
Qed.

(** ** Completeness *)

(** The calls of processing: everything but the listing of requests. *)
Definition not_list (c : gc_call) : Prop := match c with NListAR _ _ => False | _ => True end.

Abbreviation quiet h p := (safe (S:=gcs) any (λ _ (c : gc_call), not_list c) h p (λ _ _, True)).

Lemma quiet_sub h {A B} (p : prog gcs A) (k : A → prog gcs B) :
  quiet h p → (∀ h x, quiet h (k x)) → quiet h (bind p k).
Proof. intros Hp Hk. apply safe_bind. eapply safe_post; [|exact Hp]. intros h' x _. apply Hk. Qed.

Lemma quiet_call h c {B} (k : gc_resp c → prog gcs B) :
  not_list c → (∀ h x, quiet h (k x)) → quiet h (bind (gc_ c) k).
Proof. intros Hc Hk. apply safe_call; [done|]. intros. apply Hk. Qed.

Lemma quiet_page fuel h items : quiet h (process_page w fuel items).
Proof.
  assert (∀ l h, quiet h (delete_audits l)) as Hdel.
  { induction l as [|a l IH]; intros h'; [done|]. by apply quiet_call. }
  assert (∀ n ar c h, quiet h (audit_pages w n ar c)) as Haud.
  { induction n as [|n IH]; intros ar c h'; [done|]. apply quiet_call; [done|].
    intros h2 [[l c']|e]; [|done]. apply quiet_sub; [apply Hdel|]. intros. by destruct (c' ==? ""). }
  revert h. induction items as [|ar items IH]; intros h; [done|]. apply quiet_call; [done|]. intros h1 _.
  apply quiet_sub; [|by intros h2 [[u|e]|]]. unfold processRequest.
  destruct (isTerminal _); [|done]. apply quiet_call; [done|]. intros h2 now. cbv zeta.
  destruct (_ <? _); [done|]. destruct (DryRun w); [by apply quiet_call|].
  apply quiet_call; [done|]. intros h3 [u|e]; [|done]. apply quiet_sub; [apply Haud|].
  intros h4 [[u'|e]|]; [|done..]. apply quiet_call; [done|].
  intros h5 [u''|e]; [|destruct (IsNotFound e)]; by try apply quiet_call.
Qed.

(** [ar] is terminal and, at every time the clock showed, as old as the TTL. *)
Definition due t ar : Prop :=
  isTerminal (phase ar) = true ∧
  ∀ now, nseen t NNow now → HardTTL w ≤ time_Sub now (om_CreationTimestamp (ar_Meta ar)).

Definition deleted t ar : Prop := ∃ x, nseen t (NDeleteAR ar) x.

Lemma due_mono t t' ar : t ⊆ t' → due t' ar → due t ar.
Proof. intros Hs [? H]. split; [done|]. intros now Hn. apply H. by eapply nseen_mono. Qed.

Lemma deleted_mono t t' ar : t ⊆ t' → deleted t ar → deleted t' ar.
Proof. intros Hs [x ?]. exists x. by eapply nseen_mono. Qed.

Lemma process_deletes inner ar t r :
  DryRun w = false → runs (processRequest w inner ar) t (Some (Ok r)) → due t ar → deleted t ar.
Proof.
  intros Hd Hr [Ht Hdue]. unfold processRequest in Hr. rewrite Ht in Hr. cbn [negb] in Hr.
  destruct Hr as (now & t1 & -> & Hr). cbn in Hr.
  destruct (Z.ltb_spec (time_Sub now (om_CreationTimestamp (ar_Meta ar))) (HardTTL w)) as [Hlt|_].
  { specialize (Hdue now). unfold nseen in Hdue. assert (HardTTL w ≤ _) by (apply Hdue; left). lia. }
  rewrite Hd in Hr. destruct Hr as ([u|e] & t2 & -> & Hr); [|by destruct Hr].
  apply runs_bind in Hr as ([[u'|e]|] & t3 & t4 & -> & _ & Hr); [|by destruct Hr..].
  destruct Hr as (x & t5 & -> & _). exists x. unfold nseen. set_solver.
Qed.

Lemma page_deletes inner items t ar :
  DryRun w = false → runs (process_page w inner items) t (Some (Ok tt)) → ar ∈ items → due t ar →
  deleted t ar.
Proof.
  intros Hd. revert t. induction items as [|ar' items IH]; intros t Hr Hin Hdue; [set_solver|].
  destruct Hr as (u & t1 & -> & Hr). cbn in Hr.
  apply runs_bind in Hr as ([[r|e]|] & t2 & t3 & -> & Hp & Hr); [|by destruct Hr..].
  apply elem_of_cons in Hin as [->|Hin].
  - apply (deleted_mono t2); [set_solver|]. eapply process_deletes; [done|exact Hp|].
    eapply due_mono; [|exact Hdue]. set_solver.
  - apply (deleted_mono t3); [set_solver|]. apply IH; [done|done|]. eapply due_mono; [|exact Hdue]. set_solver.
Qed.

(** ** The pages of a scan *)

(** The requests were listed page by page from the token [cont] to a page
    without one, each page under the token of the page before; [l] are all of
    them. *)
Inductive listed t : string → list AgentRequest → Prop :=
| LI_last cont items : nseen t (NListAR (PageSize w) cont) (Ok (items, ""%string)) → listed t cont items
| LI_more cont items cont' l :
    nseen t (NListAR (PageSize w) cont) (Ok (items, cont')) → cont' ≠ ""%string → listed t cont' l →
    listed t cont (items ++ l).

Lemma listed_mono t t' cont l : t ⊆ t' → listed t cont l → listed t' cont l.
Proof. intros Hs. induction 1; [eapply LI_last|eapply LI_more]; eauto using nseen_mono. Qed.

(** A scan that ends has listed all pages and asked for the deletion of what
    was due on them. *)
Lemma scan_collects fuel inner cont t :
  DryRun w = false → runs (scan w fuel inner cont) t (Some (Ok tt)) →
  ∃ l, listed t cont l ∧ ∀ ar, ar ∈ l → due t ar → deleted t ar.
Proof.
  intros Hd. revert cont t. induction fuel as [|fuel IH]; intros cont t Hr; [by destruct Hr|].
  destruct Hr as (r & t1 & -> & Hr). cbn in Hr. destruct r as [[items cont']|e]; [|by destruct Hr].
  apply runs_bind in Hr as ([[[]|e]|] & t2 & t3 & -> & Hp & Hr); [|by destruct Hr..].
  set (t := Ev (S:=gcs) (NListAR (PageSize w) cont) (Ok (items, cont')) :: t2 ++ t3).
  assert (∀ ar, ar ∈ items → due t ar → deleted t ar) as Hitems.
  { intros ar Hin Hdue. apply (deleted_mono t2); [set_solver|]. eapply page_deletes; [done|exact Hp|done|].
    eapply due_mono; [|exact Hdue]. set_solver. }
  destruct (String.eqb_spec cont' "") as [->|Hc]; [exists items; split; [apply LI_last; left|done]|].
  destruct (IH _ _ Hr) as (l & Hl & Hall). exists (items ++ l). split.
  - eapply LI_more; [left|done|]. eapply listed_mono; [|exact Hl]. set_solver.
  - intros ar [Hin|Hin]%elem_of_app Hdue; [by apply Hitems|]. apply (deleted_mono t3); [set_solver|].
    apply Hall; [done|]. eapply due_mono; [|exact Hdue]. set_solver.
Qed.

(** ** The number of pages *)

(** Tokens rank: each page is answered with no token or with one of a lower
    rank than that of the token asked with, as in a listing of finitely many
    pages. *)
Definition descending (rank : string → nat) (arank : string → string → string → nat) (e : event gcs) : Prop :=
  let 'Ev c x := e in
  match c return gc_resp c → Prop with
  | NListAR _ cont => λ x, match x with Ok (_, cont') => cont' = ""%string ∨ (rank cont' < rank cont)%nat | Err _ => True end
  | NListAudits ns ref _ cont =>
      λ x, match x with Ok (_, cont') => cont' = ""%string ∨ (arank ns ref cont' < arank ns ref cont)%nat | Err _ => True end
  | _ => λ _, True
  end x.

Definition lists_requests (e : event gcs) : bool := match ev_call e with NListAR _ _ => true | _ => false end.

(** How often a trace lists requests. *)
Definition pages t : nat := length (List.filter lists_requests t).

Lemma pages_app t t' : pages (t ++ t') = (pages t + pages t')%nat.
Proof. unfold pages. by rewrite List.filter_app, length_app. Qed.

Lemma pages_quiet t : Forall (λ e : event gcs, not_list (ev_call e)) t → pages t = 0%nat.
Proof.
  unfold pages. induction 1 as [|e t He _ IH]; [done|]. destruct e as [c x]. cbn in *. by destruct c.
Qed.

Section finite.
Context (rank : string → nat) (arank : string → string → string → nat).
Abbreviation finite t := (Forall (descending rank arank) t).

Lemma audit_pages_end fuel ar cont t :
  (arank (om_Namespace (ar_Meta ar)) (om_Name (ar_Meta ar)) cont < fuel)%nat → finite t →
  ~ runs (audit_pages w fuel ar cont) t None.
Proof.
  revert cont t. induction fuel as [|fuel IH]; intros cont t Hf Ht Hr; [lia|].
  destruct Hr as ([[l c]|e] & t1 & -> & Hr); cbn in Hr; [|by destruct Hr].
  apply runs_bind in Hr as (u & t2 & t3 & -> & _ & Hr).
  apply Forall_cons in Ht as [Hd Ht]. apply Forall_app in Ht as [_ Ht]. cbn in Hd.
  destruct (String.eqb_spec c ""); [by destruct Hr|]. eapply IH; [|exact Ht|exact Hr].
  destruct Hd; [done|lia].
Qed.

Lemma process_end inner ar t :
  (∀ ns ref, (arank ns ref "" < inner)%nat) → finite t → ~ runs (processRequest w inner ar) t None.
Proof.
  intros Hi Ht Hp. unfold processRequest in Hp. destruct (isTerminal _); [|by destruct Hp].
  destruct Hp as (now & t1 & -> & Hp). cbn in Hp. destruct (_ <? _); [by destruct Hp|].
  destruct (DryRun w); [destruct Hp as (? & ? & _ & Hp); by destruct Hp|].
  destruct Hp as ([v|e] & t2 & -> & Hp); [|by destruct Hp].
  apply runs_bind in Hp as (r & t3 & t4 & -> & Ha & Hp). do 2 apply Forall_cons in Ht as [_ Ht].
  apply Forall_app in Ht as [Ht _]. destruct r as [[r|e]|]; [|by destruct Hp|by eapply audit_pages_end].
  destruct Hp as ([v'|e] & ? & _ & Hp); [|destruct (IsNotFound e)]; try (by destruct Hp);
    destruct Hp as (? & ? & _ & Hp); by destruct Hp.
Qed.

Lemma process_page_end inner items t :
  (∀ ns ref, (arank ns ref "" < inner)%nat) → finite t → ~ runs (process_page w inner items) t None.
Proof.
  intros Hi. revert t. induction items as [|ar items IH]; intros t Ht Hr; [by destruct Hr|].
  destruct Hr as (u & t1 & -> & Hr). cbn in Hr. apply runs_bind in Hr as (r & t2 & t3 & -> & Hp & Hr).
  apply Forall_cons in Ht as [_ Ht]. apply Forall_app in Ht as [Ht2 Ht3].
  destruct r as [[r|e]|]; [exact (IH t3 Ht3 Hr)|by destruct Hr|exact (process_end inner ar t2 Hi Ht2 Hp)].
Qed.

Lemma scan_ends fuel inner cont t r :
  (rank cont < fuel)%nat → (∀ ns ref, (arank ns ref "" < inner)%nat) → finite t →
  runs (scan w fuel inner cont) t r → is_Some r ∧ (pages t <= S (rank cont))%nat.
Proof.
  intros Hf Hi. revert cont t Hf. induction fuel as [|fuel IH]; intros cont t Hf Ht Hr; [lia|].
  destruct Hr as ([[items c]|e] & t1 & -> & Hr); cbn in Hr.
  2:{ destruct Hr as [-> <-]. split; [done|]. cbn. lia. }
  apply runs_bind in Hr as (p & t2 & t3 & -> & Hp & Hr).
  apply Forall_cons in Ht as [Hd Ht]. apply Forall_app in Ht as [Ht2 Ht3].
  pose proof (safe_calls (S:=gcs) not_list [] _ _ _ _ (quiet_page inner [] items) Hp) as Hq.
  change (pages (Ev (S:=gcs) (NListAR (PageSize w) cont) (Ok (items, c)) :: t2 ++ t3)) with (S (pages (t2 ++ t3))).
  rewrite pages_app, (pages_quiet t2 Hq). cbn [Nat.add].
  destruct p as [[u|e]|]; [|destruct Hr as [-> <-]; split; [done|cbn; lia]|by destruct (process_page_end inner items t2)].
  destruct (String.eqb_spec c ""); [destruct Hr as [-> <-]; split; [done|cbn; lia]|].
  destruct Hd as [|Hd]; [done|]. destruct (IH c t3) as [? ?]; [lia|done|done|]. split; [done|lia].
Qed.
End finite.

(** ** Claims *)

(** C27: A scan deletes only what it may: outside dry-run, a listed request in a
    terminal phase and as old as the hard TTL by a time the clock showed, once
    the rate limiter agreed and the deletion of every audit record of the
    request was asked for, on all pages of their listing; and only audit
    records that were listed for such a request.  Where the page that the
    safety valve looks at is the whole listing, at least the configured number
    of requests on it is terminal. *)
Theorem gc_deletes_only_eligible fuel inner t c x t2 :
  emits (Run w fuel inner) (t ++ Ev (S:=gcs) c x :: t2) →
  match c with
  | NDeleteAR ar => eligible t ar ∧ valve_open t ∧ nseen t NWait (Ok tt) ∧ audits_cleared t ar ""
  | NDeleteAudit a =>
      ∃ ar cont items cont', eligible t ar ∧ valve_open t ∧
        nseen t (list_audits ar cont) (Ok (items, cont')) ∧ a ∈ items
  | _ => True
  end.
Proof. intros He. exact (safe_emits _ _ _ _ _ _ _ _ _ (run_ok fuel inner) (any_all _) He). Qed.


(** C36: A scan ends.  On listings of finitely many pages, where each token is
    ranked below the one it is answered to, it comes to a result, and it lists
    requests at most once per rank besides the page of the safety valve; the
    bounds of the model are then never reached. *)
Theorem gc_scan_ends rank arank fuel inner t r :
  (rank "" < fuel)%nat → (∀ ns ref, (arank ns ref "" < inner)%nat) →
  Forall (descending rank arank) t → runs (Run w fuel inner) t r →
  is_Some r ∧ (pages t <= rank "" + 2)%nat.
Proof.
  intros Hf Hi Ht. unfold Run. destruct (HardTTL w =? 0); [intros [-> <-]; split; [done|cbn; lia]|].
  intros (start & t1 & -> & ([[items cont]|e] & t2 & -> & Hr)); cbn in Hr.
  2:{ destruct Hr as [-> <-]. split; [done|cbn; lia]. }
  do 2 apply Forall_cons in Ht as [_ Ht].
  match goal with |- _ ∧ (pages ?t <= _)%nat => change (pages t) with (S (pages t2)) end.
  destruct (_ && _); [destruct Hr as (? & ? & -> & -> & <-); split; [done|cbn; lia]|].
  apply runs_bind in Hr as (r' & t3 & t4 & -> & Hs & Hr). apply Forall_app in Ht as [Ht3 _].
  destruct (scan_ends rank arank fuel inner "" t3 r' Hf Hi Ht3 Hs) as [[x ->] Hp]. rewrite pages_app.
  destruct x as [u|e]; [|destruct Hr as [-> <-]; split; [done|cbn; lia]].
  destruct Hr as (? & ? & -> & (? & ? & -> & -> & <-)). split; [done|cbn; lia].
Qed.

End facts.
