(* ===== verification/GatewayExamples.v ===== *)
(** * Executions of the gateway

    Concrete runs of the handlers against a fixed environment: witnesses for
    the theorems of [GatewayMatch], [GatewayFacts] and [CreateFacts]. *)

From S2P Require Import Prelude GoStd GoStrings Types Prog Kube Conditions Naming.
From S2P Require Import Registration GatewayAuth Gateway GatewayCreate GatewayMatch GatewayHandlers GatewayFacts CreateFacts.
From S2P Require Import Retry.

(** Patterns are prefixes; a retried update is tried five times. *)
Definition prefix_globs : GlobLib :=
  {| Glob := string; glob_Compile := Some; glob_Match := λ p uri, HasPrefix uri p |}.

#[local] Existing Instance prefix_globs.
#[local] Existing Instance list_conditions.
Definition five_tries : RetryLib gw := CountedRetry.counted gw 4.
#[local] Existing Instance five_tries.

(** ** Objects *)

Definition meta (name ns : string) : ObjectMeta := mkMeta name "" ns "" ∅ ∅ 1 0 0 None [] [].

Definition resource (name pattern : string) (actions agents : list string) (tr : option TrustRequirements)
  : GovernedResource := mkGR (meta name "") (mkGRSpec pattern actions agents "" None "" false tr).

Definition wide : GovernedResource := resource "wide" "k8s://prod/" ["read"; "restart"] [] None.
Definition narrow : GovernedResource :=
  resource "narrow" "k8s://prod/default/" ["read"] ["bot"]
    (Some (mkTrustReq TrustLevelAdvisor TrustLevelSupervised)).

Definition profile : AgentTrustProfile :=
  mkATP (meta "p" "default") "bot"
    (mkATPStatus TrustLevelTrusted None None 0 0 None None None None).

Definition policy : AgentGraduationPolicy :=
  mkGP (meta "default" "default")
    (mkGPSpec 10 "168h" [mkLevel TrustLevelSupervised true true None None]
       (mkDemotion (SpecFloat.S754_zero false) 0 "")).

Definition request_in (ph : string) : AgentRequest :=
  set_phase ph (mkAR (meta "r1" "default")
    (ar_Spec (new_request "bot" "default" (mkCreateBody "" "read" "k8s://prod/default/deployment/api" "" "" "" "" ""
       None None "" None None))) empty_status).

(** A cluster that shows every request in phase [ph]. *)
Definition env (ph : string) (items : list GovernedResource) (c : op gw) : ans gw c :=
  match c return gresp c with
  | GGlobLookup _ => None
  | GGlobStore _ _ => tt
  | GRegGet id => Registration.get sample_cache id
  | GRegForSubject id sub => getForSubject sample_cache id sub
  | GRegProviderFor _ _ => Some (StaticSecretProvider "n" "ns" "k")
  | GClock | GWallNow => 90 * Second
  | GListGR => Ok items
  | GGetProfile _ => Ok profile
  | GGetPolicy _ => Ok policy
  | GGetAR _ _ => Ok (request_in ph)
  | GCreateAR a => Ok a
  | GPatchAR _ new | GPatchARStatus _ _ new => Ok new
  | GDeleteAR _ => Ok tt
  | GListAR _ => Ok ([], ""%string)
  | GListAudits _ => Ok []
  | GMintToken _ _ _ _ => Ok ("token"%string, 0)
  | GProviderToken _ _ => Ok "credential"%string
  | GSelect => Tick
  | GStream _ _ _ => tt
  end.

Definition server : Server :=
  mkServer Minute (newRoleConfig "bot,svc-a" "alice" "" "" "" "") true true true true "strict".

Definition from (sub : string) : HttpRequest :=
  mkHttp (mkCaller sub [] "raw" "https://issuer") "r1" "" false.

Definition body0 : createAgentRequestBody :=
  mkCreateBody "somebody-else" "read" "k8s://prod/default/deployment/api" "why" "" "" "" "" None None "" None None.

(** Its answers satisfy what the theorems assume of the caches. *)
Lemma env_coherent ph items c : coherent (Ev (S:=gw) c (env ph items c)).
Proof. destruct c; try exact I. discriminate. Qed.

Lemma env_cache_answer ph items c : cache_answer (Ev (S:=gw) c (env ph items c)).
Proof.
  split; [apply env_coherent|]. destruct c; try exact I; exists sample_cache; (split; [apply sample_cache_wf|done]).
Qed.

(** ** Witnesses: matching and the trust gate *)

Lemma governing_resource_witness :
  most_specific "k8s://prod/default/x" "" [wide; narrow] narrow.
Proof.
  pose proof (governing_resource [wide; narrow] "k8s://prod/default/x" "" _ _
    (play_runs (env "" []) (matchGovernedResource [wide; narrow] "k8s://prod/default/x" ""))) as H.
  destruct H as [_ H].
  - apply play_answers, env_coherent.
  - apply H. vm_compute. reflexivity.
Defined.

Lemma match_order_independent_witness :
  (play (env "" []) (matchGovernedResource [wide; narrow] "k8s://prod/default/x" "")).2 =
  (play (env "" []) (matchGovernedResource [narrow; wide] "k8s://prod/default/x" "")).2.
Proof.
  pose (m1 := matchGovernedResource [wide; narrow] "k8s://prod/default/x" "").
  pose (m2 := matchGovernedResource [narrow; wide] "k8s://prod/default/x" "").
  apply (match_order_independent [wide; narrow] [narrow; wide] "k8s://prod/default/x" ""
           (play (env "" []) m1).1 (play (env "" []) m2).1).
  - apply (bool_decide_unpack _). vm_compute. exact I.
  - apply perm_swap.
  - exact (play_runs (env "" []) m1).
  - apply play_answers, env_coherent.
  - exact (play_runs (env "" []) m2).
  - apply play_answers, env_coherent.
Defined.

Lemma glob_cache_bounded_witness :
  ∃ c : gmap string Glob, reachable_cache c ∧ size c = 1%nat ∧
    coherent (Ev (S:=gw) (GGlobLookup "k8s://prod/") (globCache_lookup c "k8s://prod/")).
Proof.
  exists (@globCache_store prefix_globs "k8s://prod/" "k8s://prod/"%string ∅).
  assert (reachable_cache (@globCache_store prefix_globs "k8s://prod/" "k8s://prod/"%string ∅)) as Hc.
  { eapply (RC_store ∅ [wide] "k8s://prod/x" "" [Ev (S:=gw) (GGlobLookup "k8s://prod/") None] _ _ []);
      [apply RC_empty|constructor; [discriminate|constructor]|].
    eapply (play_emits (env "" [])). vm_compute. reflexivity. }
  split; [exact Hc|]. split; [vm_compute; reflexivity|].
  exact (proj2 (glob_cache_bounded _ Hc) "k8s://prod/"%string).
Defined.

(** A Trusted agent on a resource that caps at Supervised. *)
Lemma trust_gate_sound_witness :
  ∃ level, (TrustLevelRank TrustLevelAdvisor).1 ≤ (TrustLevelRank level).1.
Proof.
  destruct (trust_gate_sound "default" "bot" "" narrow (mkTrustReq TrustLevelAdvisor TrustLevelSupervised)
    _ (mkGate false "" (Some (gate_annotations TrustLevelSupervised true true)))
    (play_runs (env "" []) (evaluateTrustGate "default" "bot" "" narrow)))
    as (level & auto & anns & _ & _ & _ & Hmin & _); [reflexivity|reflexivity|discriminate|].
  exists level. destruct Hmin as (r & Hr & Hle); [discriminate|]. cbn in Hr. by rewrite Hr.
Defined.

(** ** Witnesses: handlers *)

(** The [n]-th call of [p], in the environment, is [c]. *)
Definition calls {A} (ph : string) (items : list GovernedResource) (p : prog gw A) (n : nat) (c : op gw) : Prop :=
  ev_call <$> (play (env ph items) p).1 !! n = Some c.

Lemma decision_guarded_witness :
  ∃ base, spec_AgentIdentity (ar_Spec base) ≠ "alice"%string ∧ phase base = PhasePending.
Proof.
  pose (c := GPatchAR (request_in PhasePending) (decided (from "alice") "fine" "approved" (request_in PhasePending))).
  assert (calls PhasePending [] (handleHumanDecision server (from "alice") "fine" "approved") 2 c) as Hc
    by (vm_compute; reflexivity).
  destruct (decision_guarded server (from "alice") "fine" "approved" _ _ _ _ (play_reaches _ _ _ _ Hc) eq_refl)
    as (base & _ & _ & Hne & Hp & _).
  exists base. split; [exact Hne|exact Hp].
Defined.

Definition grade : verdict_body := mkVerdict verdictPartial "bad_timing" "late".

Lemma verdict_guarded_witness :
  ∃ base, phase base = PhaseAwaitingVerdict ∧ st_Verdict (ar_Status base) = ""%string.
Proof.
  pose (c := GPatchARStatus true (request_in PhaseAwaitingVerdict)
          (graded (from "alice") grade (90 * Second) (request_in PhaseAwaitingVerdict))).
  assert (calls PhaseAwaitingVerdict [] (handleVerdictAgentRequest server (from "alice") (Some grade)) 2 c) as Hc
    by (vm_compute; reflexivity).
  destruct (verdict_guarded server (from "alice") (Some grade) _ _ _ _ (play_reaches _ _ _ _ Hc) eq_refl)
    as (b & base & now & _ & _ & _ & _ & Hp & Hv & _).
  exists base. split; [exact Hp|exact Hv].
Defined.

Lemma agent_report_guarded_witness :
  ∃ req, phase req = PhaseApproved ∧ owns server (from "bot") req.
Proof.
  pose (c := GPatchARStatus false (request_in PhaseApproved)
          (with_condition ConditionExecuting "AgentStarted" "Agent is now executing action" (90 * Second)
             (request_in PhaseApproved))).
  assert (calls PhaseApproved [] (handleExecutingAgentRequest server (from "bot")) 3 c) as Hc
    by (vm_compute; reflexivity).
  destruct (agent_report_guarded server (from "bot") _ _ _ _ PhaseApproved ConditionExecuting
    (or_introl (conj (play_reaches _ _ _ _ Hc) (conj eq_refl eq_refl))) eq_refl)
    as (req & base & reason & msg & now & _ & _ & Ho & Hp & _).
  exists req. split; [exact Hp|exact Ho].
Defined.

Definition outcome : option (string * string) := Some ("https://x/1"%string, "ok"%string).

Lemma result_guarded_witness :
  ∃ base : AgentRequest, phase base = PhaseExecuting ∨ phase base = PhaseCompleted.
Proof.
  pose (c := GPatchARStatus false (request_in PhaseExecuting)
          (upd_status (set_st_Result (Some (mkResult "https://x/1" "ok"))) (request_in PhaseExecuting))).
  assert (calls PhaseExecuting [] (handlePutAgentRequestResult server (from "bot") outcome) 2 c) as Hc
    by (vm_compute; reflexivity).
  destruct (result_guarded server (from "bot") outcome _ _ _ _ (play_reaches _ _ _ _ Hc) eq_refl)
    as (u & m & req & base & _ & _ & _ & _ & _ & _ & Hp & _).
  exists base. exact Hp.
Defined.

Lemma token_guarded_witness :
  ∃ req, phase req = PhaseApproved ∧ spec_AgentIdentity (ar_Spec req) = "bot"%string.
Proof.
  pose (c := GProviderToken (StaticSecretProvider "n" "ns" "k") "raw").
  assert (calls PhaseApproved [] (handleGetAgentRequestToken server (from "bot") (Some "github"%string)) 3 c) as Hc
    by (vm_compute; reflexivity).
  destruct (token_guarded server (from "bot") (Some "github"%string) _ _ _ _ (play_reaches _ _ _ _ Hc) eq_refl)
    as (svc & req & reg & p & _ & _ & _ & Hid & Hp & _).
  exists req. split; [exact Hp|exact Hid].
Defined.

(** ** Witnesses: submission *)

(** The execution of a submission by [svc-a], registered for [bot]. *)
Definition submission (b : createAgentRequestBody) : prog gw Response :=
  handleCreateAgentRequest server 3 (from "svc-a") (Some b).
Definition submission_trace (b : createAgentRequestBody) : list (event gw) :=
  (play (env PhaseApproved [wide; narrow]) (submission b)).1.

(** The request it creates, with its tenth call. *)
Definition created (b : createAgentRequestBody) : AgentRequest :=
  match submission_trace b !! 10%nat with Some (Ev (GCreateAR a) _) => a | _ => request_in "" end.

(** The same submission with another reason. *)
Definition body1 : createAgentRequestBody :=
  mkCreateBody "" "read" "k8s://prod/default/deployment/api" "again" "" "" "" "" None None "" None None.

Definition created0 : AgentRequest := Eval vm_compute in created body0.
Definition created1 : AgentRequest := Eval vm_compute in created body1.

Lemma submits_in_env b a :
  calls PhaseApproved [wide; narrow] (submission b) 10 (GCreateAR a) →
  submits server (from "svc-a") b 3 (take 10 (submission_trace b)) (GCreateAR a).
Proof.
  intros Hc. split; [apply Forall_take, play_answers, env_cache_answer|].
  eexists _, _. exact (play_reaches _ _ _ _ Hc).
Qed.

Lemma submission0 : submits server (from "svc-a") body0 3 (take 10 (submission_trace body0)) (GCreateAR created0).
Proof. apply submits_in_env. vm_compute. reflexivity. Qed.

Lemma submission1 : submits server (from "svc-a") body1 3 (take 10 (submission_trace body1)) (GCreateAR created1).
Proof. apply submits_in_env. vm_compute. reflexivity. Qed.

(** The clock of the environment stands still. *)
Definition clock_value (e : event gw) : Z :=
  let 'Ev c x := e in match c return gresp c → Z with GClock => λ x, x | _ => λ _, 90 * Second end x.

Lemma submission_clock b t : gseen (take 10 (submission_trace b)) GClock t → t = 90 * Second.
Proof.
  intros Ht.
  assert (Forall (λ e, clock_value e = 90 * Second) (take 10 (submission_trace b))) as H.
  { apply Forall_take, play_answers. by intros []. }
  rewrite Forall_forall in H. exact (H _ Ht).
Qed.

(** The body claims to be somebody else; the request is created for [bot]. *)
Lemma created_identity_authorized_witness :
  spec_AgentIdentity (ar_Spec created0) = "bot"%string ∧
  identity_ok server (from "svc-a") body0 (take 10 (submission_trace body0)) (spec_AgentIdentity (ar_Spec created0)).
Proof.
  split; [reflexivity|].
  exact (created_identity_authorized server (from "svc-a") body0 3 _ _ submission0).
Defined.

Lemma created_as_admitted_witness :
  ∃ id ns, admission server body0 (take 10 (submission_trace body0)) id ns created0.
Proof.
  destruct (created_as_admitted server (from "svc-a") body0 3 _ _ submission0) as (id & ns & _ & H).
  exists id, ns. exact H.
Defined.

Lemma submission_effects_witness :
  created_ok server (from "svc-a") body0 (take 10 (submission_trace body0)) created0.
Proof. exact (submission_effects server (from "svc-a") body0 3 _ _ submission0 eq_refl). Defined.

Lemma duplicates_collide_witness : om_Name (ar_Meta created0) = om_Name (ar_Meta created1).
Proof.
  apply (duplicates_collide server (from "svc-a") (from "svc-a") body0 body1 3 3 _ _ _ _ submission0 submission1);
    try reflexivity.
  intros now now' H H'. rewrite (submission_clock _ _ H), (submission_clock _ _ H'). reflexivity.
Defined.
