(* ===== verification/GCExamples.v ===== *)
(** * Executions of the garbage collector

    Witnesses for [GCFacts], and the scan behind a finding: the safety valve
    counts one page only. *)

From S2P Require Import Prelude GoStd GoStrings Types Prog GatewayExamples GC GCFacts.

(** Three completed requests created at the epoch, one per page; the clock is
    at two hours and each request has one audit record. *)
Definition old (n : string) : AgentRequest :=
  let a := request_in PhaseCompleted in
  mkAR (mkMeta n "" "default" "" ∅ ∅ 1 0 0 None [] []) (ar_Spec a) (ar_Status a).

Definition audit (n : string) : AuditRecord :=
  mkAuditRecord (mkMeta ("audit-" +:+ n)%string "" "default" "" ∅ ∅ 1 0 0 None [] [])
    (mkAudit 0 "bot" n AuditEventRequestCompleted "read" "" "" None [] ∅ None).

Definition store (c : op gcs) : ans gcs c :=
  match c return gc_resp c with
  | NNow => 2 * Hour
  | NMetric _ => tt
  | NListAR _ cont =>
      if cont ==? "" then Ok ([old "a"], "1"%string)
      else if cont ==? "1" then Ok ([old "b"], "2"%string)
      else Ok ([request_in PhasePending; old "c"], ""%string)
  | NListAudits _ n _ _ => Ok ([audit n], ""%string)
  | NDeleteAudit _ | NDeleteAR _ | NWait => Ok tt
  end.

Definition gc_config (minCount : Z) (ttl : Z) : GCConfig :=
  mkGC true Hour false ttl 1 (DeleteRatePerSec DefaultGCConfig) minCount.

Definition deletions (t : list (event gcs)) : list string :=
  omap (λ e : event gcs, match ev_call e with NDeleteAR a => Some (om_Name (ar_Meta a)) | _ => None end) t.

Definition scanned (c : GCConfig) : list (event gcs) * option (res unit) := play store (Run c 5 5).

(** The default configuration runs in dry mode and is off. *)
Example default_config_deletes_nothing :
  AgentRequestGCEnabled DefaultGCConfig = false ∧ deletions (scanned DefaultGCConfig).1 = [].
Proof. vm_compute. split; reflexivity. Qed.

(** The safety valve is meant to keep the collector off until ten terminal
    requests exist; here there are three, but the first page says there is
    more, and all of them are deleted. *)
Example safety_valve_bypassed :
  terminal_count [old "a"; old "b"; request_in PhasePending; old "c"] < SafetyMinCount (gc_config 10 Hour) ∧
  deletions (scanned (gc_config 10 Hour)).1 = ["a"; "b"; "c"]%string.
Proof. vm_compute. split; reflexivity. Qed.

(** A negative TTL is not "disabled": terminal requests are deleted at once. *)
Example negative_ttl_deletes_all :
  AgentRequestGCEnabled (gc_config 0 (-1)) = false ∧
  deletions (scanned (gc_config 0 (-1))).1 = ["a"; "b"; "c"]%string.
Proof. vm_compute. split; reflexivity. Qed.

(** The delete of the first request: its audit record went before. *)
Lemma gc_deletes_only_eligible_witness :
  ∃ t, eligible (gc_config 1 Hour) t (old "a") ∧ valve_open (gc_config 1 Hour) t ∧
    audits_cleared (gc_config 1 Hour) t (old "a") "".
Proof.
  assert (ev_call <$> (play store (Run (gc_config 1 Hour) 5 5)).1 !! 8%nat = Some (NDeleteAR (old "a") : op gcs)) as Hc
    by (vm_compute; reflexivity).
  destruct (gc_deletes_only_eligible (gc_config 1 Hour) 5 5 _ _ _ _ (play_reaches store _ _ _ Hc)) as (He & Hv & _ & Ha).
  eexists. split; [exact He|]. split; [exact Hv|exact Ha].
Defined.

Lemma store_clock t c : nseen (scanned c).1 NNow t → t = 2 * Hour.
Proof.
  intros Ht.
  assert (Forall (λ e : event gcs, let 'Ev c x := e in
    match c return gc_resp c → Prop with NNow => λ x, x = 2 * Hour | _ => λ _, True end x)
    (scanned c).1) as H by (apply play_answers; by intros []).
  rewrite Forall_forall in H. exact (H _ Ht).
Qed.

Lemma scanned_ok : (scanned (gc_config 1 Hour)).2 = Some (Ok tt).
Proof. vm_compute. reflexivity. Qed.


(** The pages of the store, ranked by how many follow. *)
Definition page_rank (cont : string) : nat := if cont ==? "" then 3 else if cont ==? "1" then 2 else 1.

Lemma gc_scan_ends_witness :
  is_Some (scanned (gc_config 1 Hour)).2 ∧ (pages (scanned (gc_config 1 Hour)).1 <= 5)%nat.
Proof.
  apply (gc_scan_ends (gc_config 1 Hour) page_rank (λ _ _ _, 0%nat) 5 5).
  - apply (bool_decide_unpack _). vm_compute. exact I.
  - intros ns ref. apply (bool_decide_unpack _). vm_compute. exact I.
  - apply play_answers. intros [| |limit cont|ns ref limit cont| | |]; try exact I; cbn.
    + unfold page_rank. destruct (String.eqb_spec cont "") as [->|Hne]; [right; apply (bool_decide_unpack _); vm_compute; exact I|].
      destruct (String.eqb_spec cont "1") as [->|]; [right; apply (bool_decide_unpack _); vm_compute; exact I|by left].
    + by left.
  - exact (play_runs store (Run (gc_config 1 Hour) 5 5)).
Defined.
