(* ===== verification/GovernedResourceController.v ===== *)
(** * The GovernedResource controller
      ([internal/controller/governedresource_controller.go])

    The controller keeps a finalizer on every GovernedResource and takes it
    off a deleted one when no active AgentRequest refers to it. *)

From S2P Require Import Prelude GoStd Types Prog.

(** [controllerutil]'s functions on finalizers, as documented: adding and
    removing affect the given name only. *)
Class FinalizerLib := {
  ContainsFinalizer : list string → string → bool;
  AddFinalizer : list string → string → list string;
  RemoveFinalizer : list string → string → list string;
  contains_finalizer : ∀ fs f, ContainsFinalizer fs f = true ↔ f ∈ fs;
  add_finalizer : ∀ fs f g, g ∈ AddFinalizer fs f ↔ g = f ∨ g ∈ fs;
  remove_finalizer : ∀ fs f g, g ∈ RemoveFinalizer fs f ↔ g ≠ f ∧ g ∈ fs }.

(** ** Calls *)

Inductive gr_call :=
| FGet (nn : NamespacedName)
| FListAR
| FUpdate (gr : GovernedResource).

Definition gr_resp (c : gr_call) : Type :=
  match c with
  | FGet _ => res GovernedResource
  | FListAR => res (list AgentRequest)
  | FUpdate _ => res GovernedResource
  end.

Definition grs : sig := mkSig gr_call gr_resp.

Abbreviation gr_ c := (trigger grs c).

(** ** The reconciler *)

(** The phases [hasActiveRequests] counts as done. *)
Definition done_phase (p : string) : bool :=
  (p ==? PhaseCompleted) || (p ==? PhaseFailed) || (p ==? PhaseDenied).

Definition refers_to (grName : string) (ar : AgentRequest) : bool :=
  match spec_GovernedResourceRef (ar_Spec ar) with Some ref => ref_Name ref ==? grName | None => false end.

Fixpoint any_active (grName : string) (items : list AgentRequest) : bool :=
  match items with
  | [] => false
  | ar :: items' =>
      if refers_to grName ar && negb (done_phase (phase ar)) then true else any_active grName items'
  end.

Definition hasActiveRequests (grName : string) : prog grs (res bool) :=
  l <- gr_ FListAR ;;
  match l with
  | Err e => Ret (Err (EWrap "failed to list AgentRequests" e))
  | Ok items => Ret (Ok (any_active grName items))
  end.

Definition set_gr_Finalizers (fs : list string) (gr : GovernedResource) : GovernedResource :=
  let m := gr_Meta gr in
  mkGR (mkMeta (om_Name m) (om_GenerateName m) (om_Namespace m) (om_UID m) (om_Labels m)
    (om_Annotations m) (om_Generation m) (om_ResourceVersion m) (om_CreationTimestamp m)
    (om_DeletionTimestamp m) fs (om_OwnerReferences m)) (gr_Spec gr).

Definition finalizers (gr : GovernedResource) : list string := om_Finalizers (gr_Meta gr).

Section reconciler.
Context `{FL : FinalizerLib}.

(** The result is always empty: only the error is kept. *)
Definition GR_Reconcile (nn : NamespacedName) : prog grs (option error) :=
  g <- gr_ (FGet nn) ;;
  match g with
  | Err e => Ret (IgnoreNotFound e)
  | Ok gr =>
      active <- hasActiveRequests (om_Name (gr_Meta gr)) ;;
      match active with
      | Err e => Ret (Some e)
      | Ok active =>
          let update (gr' : GovernedResource) : prog grs (option error) :=
            u <- gr_ (FUpdate gr') ;;
            Ret match u with Ok _ => None | Err e => Some e end in
          match om_DeletionTimestamp (gr_Meta gr) with
          | Some _ =>
              if negb active then
                if ContainsFinalizer (finalizers gr) GovernedResourceFinalizer then
                  update (set_gr_Finalizers (RemoveFinalizer (finalizers gr) GovernedResourceFinalizer) gr)
                else Ret None
              else Ret None
          | None =>
              if negb (ContainsFinalizer (finalizers gr) GovernedResourceFinalizer) then
                update (set_gr_Finalizers (AddFinalizer (finalizers gr) GovernedResourceFinalizer) gr)
              else Ret None
          end
      end
  end.

(** ** Facts *)

Lemma any_active_false name items :
  any_active name items = false ↔
  ∀ ar, ar ∈ items → refers_to name ar = true → done_phase (phase ar) = true.
Proof.
  induction items as [|a items IH]; cbn; [split; [set_solver|done]|].
  destruct (refers_to name a) eqn:Hr, (done_phase (phase a)) eqn:Hd; cbn; rewrite ?IH;
    (split; [try done; intros H ar [->|Hin]%elem_of_cons ?; (by auto || congruence)|]);
    intros H; try (intros ar Hin ?; apply H; [by right|done]).
  exfalso. rewrite H in Hd; [done|left|done].
Qed.

(** The events every reconcile of an existing resource starts with. *)
Definition observed (nn : NamespacedName) (gr : GovernedResource) (items : list AgentRequest)
  : list (event grs) :=
  [Ev (S:=grs) (FGet nn) (Ok gr); Ev (S:=grs) FListAR (Ok items)].

(** The update toggles the controller's own finalizer, nothing else. *)
Definition toggled (gr gr' : GovernedResource) : Prop :=
  gr' = set_gr_Finalizers (finalizers gr') gr ∧
  (∀ f, f ≠ GovernedResourceFinalizer → (f ∈ finalizers gr' ↔ f ∈ finalizers gr)) ∧
  (GovernedResourceFinalizer ∈ finalizers gr' ↔ GovernedResourceFinalizer ∉ finalizers gr).

(** Every listed request that refers to the resource is Completed, Failed or
    Denied. *)
Definition released (gr : GovernedResource) (items : list AgentRequest) : Prop :=
  ∀ ar ref, ar ∈ items → spec_GovernedResourceRef (ar_Spec ar) = Some ref → ref_Name ref = om_Name (gr_Meta gr) →
    phase ar ∈ [PhaseCompleted; PhaseFailed; PhaseDenied].

Lemma done_phase_spec p : done_phase p = true ↔ p ∈ [PhaseCompleted; PhaseFailed; PhaseDenied].
Proof. unfold done_phase. rewrite !orb_true_iff, !String.eqb_eq, !elem_of_cons, elem_of_nil. tauto. Qed.

Lemma released_spec gr items : any_active (om_Name (gr_Meta gr)) items = false ↔ released gr items.
Proof.
  rewrite any_active_false. unfold released, refers_to. split.
  - intros H ar ref Hin Hr Hn. apply done_phase_spec, H; [done|]. rewrite Hr. by apply String.eqb_eq.
  - intros H ar Hin Hr. destruct (spec_GovernedResourceRef (ar_Spec ar)) as [ref|] eqn:E; [|done].
    apply String.eqb_eq in Hr. apply done_phase_spec. by eapply H.
Qed.

Lemma contains_false fs f : ContainsFinalizer fs f = false → f ∉ fs.
Proof. intros H Hin. apply contains_finalizer in Hin. congruence. Qed.

(** The answers at the front of a trace. *)
Definition answer_gr (e : event grs) : res GovernedResource :=
  let 'Ev c x := e in
  match c return gr_resp c → res GovernedResource with FListAR => λ _, Err (EMsg "") | _ => λ x, x end x.
Definition answer_items (e : event grs) : res (list AgentRequest) :=
  let 'Ev c x := e in
  match c return gr_resp c → res (list AgentRequest) with FListAR => λ x, x | _ => λ _, Err (EMsg "") end x.

Definition idle (t : list (event grs)) (r : option error) : Prop := t = [] ∧ r = None.
Definition updates (gr' : GovernedResource) (t : list (event grs)) (r : option error) : Prop :=
  ∃ x, t = [Ev (S:=grs) (FUpdate gr') x] ∧ r = match x with Ok _ => None | Err e => Some e end.

(** What follows the two reads. *)
Lemma observed_runs nn gr items t r :
  runs (GR_Reconcile nn) (observed nn gr items ++ t) r →
  match om_DeletionTimestamp (gr_Meta gr) with
  | Some _ =>
      if negb (any_active (om_Name (gr_Meta gr)) items) && ContainsFinalizer (finalizers gr) GovernedResourceFinalizer
      then updates (set_gr_Finalizers (RemoveFinalizer (finalizers gr) GovernedResourceFinalizer) gr) t r
      else idle t r
  | None =>
      if ContainsFinalizer (finalizers gr) GovernedResourceFinalizer then idle t r
      else updates (set_gr_Finalizers (AddFinalizer (finalizers gr) GovernedResourceFinalizer) gr) t r
  end.
Proof.
  intros (x & t1 & E & Hr). cbn in E.
  assert (Ok gr = x) as <- by (by apply (f_equal (λ l, answer_gr <$> head l)) in E; injection E).
  apply (f_equal tail) in E. cbn in E, Hr. subst t1. destruct Hr as (y & t2 & E & Hr).
  assert (Ok items = y) as <- by (by apply (f_equal (λ l, answer_items <$> head l)) in E; injection E).
  apply (f_equal tail) in E. cbn in E, Hr. subst t2. unfold idle, updates.
  destruct (om_DeletionTimestamp (gr_Meta gr)); [destruct (any_active _ items); cbn in *; [by destruct Hr|]|];
    destruct (ContainsFinalizer _ _); cbn in *; try (by destruct Hr); destruct Hr as (u & t3 & -> & -> & <-); by exists u.
Qed.

(** Without the list of requests nothing is updated. *)
Lemma unlisted_runs nn gr e t r :
  runs (GR_Reconcile nn) (Ev (S:=grs) (FGet nn) (Ok gr) :: Ev (S:=grs) FListAR (Err e) :: t) r → t = [] ∧ is_Some r.
Proof.
  intros (x & t1 & E & H). assert (Ok gr = x) as <- by (by apply (f_equal (λ l, answer_gr <$> head l)) in E; injection E).
  apply (f_equal tail) in E. cbn in E, H. subst t1. destruct H as (y & t2 & E & H).
  assert (Err e = y) as <- by (by apply (f_equal (λ l, answer_items <$> head l)) in E; injection E).
  apply (f_equal tail) in E. cbn in E, H. subst t2. destruct H as [-> <-]. by split.
Qed.

Lemma removed_toggled gr :
  GovernedResourceFinalizer ∈ finalizers gr →
  toggled gr (set_gr_Finalizers (RemoveFinalizer (finalizers gr) GovernedResourceFinalizer) gr).
Proof.
  intros H. split; [done|]. cbn. setoid_rewrite remove_finalizer. split; [naive_solver|]. split; [by intros [? _]|done].
Qed.

Lemma added_toggled gr :
  GovernedResourceFinalizer ∉ finalizers gr →
  toggled gr (set_gr_Finalizers (AddFinalizer (finalizers gr) GovernedResourceFinalizer) gr).
Proof. intros H. split; [done|]. cbn. setoid_rewrite add_finalizer. split; [naive_solver|]. split; auto. Qed.


End reconciler.

(** ** An implementation of the finalizer functions, and executions *)

Module ListFinalizers.

Definition contains (fs : list string) (f : string) : bool := bool_decide (f ∈ fs).
Definition add (fs : list string) (f : string) : list string := if contains fs f then fs else fs ++ [f].
Definition remove (fs : list string) (f : string) : list string := filter (λ g, g ≠ f) fs.

Lemma add_spec fs f g : g ∈ add fs f ↔ g = f ∨ g ∈ fs.
Proof.
  unfold add, contains. case_bool_decide; [naive_solver|].
  rewrite elem_of_app, list_elem_of_singleton. tauto.
Qed.

#[export] Instance list_finalizers : FinalizerLib.
Proof.
  refine {| ContainsFinalizer := contains; AddFinalizer := add; RemoveFinalizer := remove |}.
  - intros. apply bool_decide_eq_true.
  - apply add_spec.
  - intros. unfold remove. by rewrite list_elem_of_filter.
Defined.

End ListFinalizers.

Section examples.
Import ListFinalizers.

Definition sample_gr (deleted : option Z) (fs : list string) : GovernedResource :=
  mkGR (mkMeta "gr" "" "" "" ∅ ∅ 1 0 0 deleted fs [])
    (mkGRSpec "k8s://" [] [] "" None "" false None).

Definition sample_request (ph : string) : AgentRequest :=
  mkAR (mkMeta "r" "" "default" "" ∅ ∅ 1 0 0 None [] [])
    (mkSpec "bot" "read" (mkTarget "k8s://" None ∅) "" "" "" "" None None None None None None None None None
       (Some (mkGRRef "gr" 1)))
    (mkStatus ph [] None "" 0 None None "" "" "" "" None None None).


(** A resource that is being deleted stays while a request on it is approved. *)
Example approved_request_blocks_deletion :
  runs (GR_Reconcile (NN "" "gr"))
    (observed (NN "" "gr") (sample_gr (Some 1) [GovernedResourceFinalizer]) [sample_request PhaseApproved]) None ∧
  runs (GR_Reconcile (NN "" "gr"))
    (observed (NN "" "gr") (sample_gr None []) [] ++
       [Ev (S:=grs) (FUpdate (sample_gr None [GovernedResourceFinalizer])) (Ok (sample_gr None [GovernedResourceFinalizer]))]) None.
Proof.
  split; repeat (eexists _, _; split; [reflexivity|]); split; reflexivity.
Qed.

(** An Expired request, terminal for the request controller, still blocks the
    deletion; so does an Observed one, which the garbage collector never
    removes. *)
Example expired_request_blocks_deletion :
  runs (GR_Reconcile (NN "" "gr"))
    (observed (NN "" "gr") (sample_gr (Some 1) [GovernedResourceFinalizer]) [sample_request PhaseExpired]) None ∧
  runs (GR_Reconcile (NN "" "gr"))
    (observed (NN "" "gr") (sample_gr (Some 1) [GovernedResourceFinalizer]) [sample_request PhaseObserved]) None.
Proof.
  split; (eexists _, _; split; [reflexivity|]; eexists _, _; split; [reflexivity|]; split; reflexivity).
Qed.

End examples.
