(* ===== verification/TrustKube.v ===== *)
(** * The calls of the accuracy and trust-profile controllers

    [Cached] reads are [r.Get] and [r.List]; [Live] reads are
    [r.APIReader.Get].  A [Patch] carries the object before and after the
    in-memory mutation ([client.MergeFrom(base)], no resource version); its
    answer is the object as stored. *)

From S2P Require Import Prelude Types Prog Kube.

Inductive t_call :=
| TNow
| TGetAR (nn : NamespacedName)
| TGetSummary (rd : reader) (nn : NamespacedName)
| TCreateSummary (d : DiagnosticAccuracySummary)
| TPatchSummary (base new : DiagnosticAccuracySummary)
| TGetProfile (rd : reader) (nn : NamespacedName)
| TCreateProfile (p : AgentTrustProfile)
| TPatchProfile (base new : AgentTrustProfile)
| TGetPolicy (nn : NamespacedName)
| TListRegsByProfile (ns profileName : string)
| TListRegs (ns : string)
| TListARsByProfile (ns profileName : string)
| TListARs (ns : string)
| TListAudits (ns agentIdentity : string)
| TCreateAudit (a : AuditRecord).

Definition t_resp (c : t_call) : Type :=
  match c with
  | TNow => Z
  | TGetAR _ => res AgentRequest
  | TGetSummary _ _ | TCreateSummary _ | TPatchSummary _ _ => res DiagnosticAccuracySummary
  | TGetProfile _ _ | TCreateProfile _ | TPatchProfile _ _ => res AgentTrustProfile
  | TGetPolicy _ => res AgentGraduationPolicy
  | TListRegsByProfile _ _ | TListRegs _ => res (list AgentRegistration)
  | TListARsByProfile _ _ | TListARs _ => res (list AgentRequest)
  | TListAudits _ _ => res (list AuditRecord)
  | TCreateAudit _ => res AuditRecord
  end.

Definition tcs : sig := mkSig t_call t_resp.

Abbreviation t_ c := (trigger tcs c).

(** ** Verdicts *)

Definition verdictCorrect : string := "correct".
Definition verdictIncorrect : string := "incorrect".
Definition verdictPartial : string := "partial".

(** The reason codes of verdicts that do not affect accuracy. *)
Definition skipReasons : list string :=
  ["bad_timing"; "scope_too_broad"; "precautionary"; "policy_block"]%string.

Definition skipped (reasonCode : string) : bool := existsb (String.eqb reasonCode) skipReasons.
