(* ===== verification/AccuracyController.v ===== *)
(** * The accuracy controller ([internal/controller/accuracy_controller.go])

    Keeps one DiagnosticAccuracySummary per agent: counters of the verdicts
    on its requests, the accuracy computed from them, and the names of the
    last hundred requests counted. *)

From Stdlib Require Import SpecFloat.
From S2P Require Import Prelude GoStd GoStrings Types Prog Retry Kube Naming GoFloat TrustKube.

Definition summaryNameForAgent (agentIdentity : string) : string := ProfileNameForAgent agentIdentity.

Definition das_status_zero : DiagnosticAccuracySummaryStatus := mkDASStatus 0 0 0 0 None None [].

Definition new_summary (name ns agentIdentity : string) : DiagnosticAccuracySummary :=
  mkDAS (mkMeta name "" ns "" ∅ ∅ 0 0 0 None [] []) agentIdentity das_status_zero.

(** ** One verdict counted *)

Definition bump (v expected : string) (n : Z) : Z := if v ==? expected then int64 (n + 1) else n.

(** [(correct + 0.5*partial) / totalReviewed]. *)
Definition accuracy_of (correct partial total : Z) : spec_float :=
  f64_div (f64_add (f64_of_int correct) (f64_mul f64_half (f64_of_int partial))) (f64_of_int total).

(** The last hundred names. *)
Definition keep_last (l : list string) : list string :=
  if (100 <? Z.of_nat (length l)) then drop (length l - 100) l else l.

Definition last_updated (old verdictAt : option Z) : option Z :=
  match verdictAt with
  | None => old
  | Some v =>
      match old with
      | None => Some v
      | Some l => if l <? v then Some v else old
      end
  end.

(** The in-memory mutation between [DeepCopy] and [Patch]. *)
Definition count_verdict (ar : AgentRequest) (s : DiagnosticAccuracySummaryStatus)
  : DiagnosticAccuracySummaryStatus :=
  let v := st_Verdict (ar_Status ar) in
  let total := int64 (das_TotalReviewed s + 1) in
  let correct := bump v verdictCorrect (das_CorrectCount s) in
  let partial := bump v verdictPartial (das_PartialCount s) in
  let incorrect := bump v verdictIncorrect (das_IncorrectCount s) in
  mkDASStatus total correct partial incorrect
    (if 0 <? total then Some (accuracy_of correct partial total) else das_DiagnosticAccuracy s)
    (last_updated (das_LastUpdatedAt s) (st_VerdictAt (ar_Status ar)))
    (keep_last (das_RecentVerdicts s ++ [om_Name (ar_Meta ar)])).

Definition set_das_Status (s : DiagnosticAccuracySummaryStatus) (d : DiagnosticAccuracySummary)
  : DiagnosticAccuracySummary :=
  mkDAS (das_Meta d) (das_AgentIdentity d) s.

(** ** The reconciler *)

(** [r.Get], and [r.Create] with a live read when there is none. *)
Definition get_or_create_summary (nn : NamespacedName) (agentIdentity : string)
  : prog tcs (res DiagnosticAccuracySummary) :=
  g <- t_ (TGetSummary Cached nn) ;;
  match g with
  | Ok d => Ret (Ok d)
  | Err e =>
      if IsNotFound e then
        c <- t_ (TCreateSummary (new_summary (nn_Name nn) (nn_Namespace nn) agentIdentity)) ;;
        match c with
        | Err e' => if negb (IsAlreadyExists e') then Ret (Err e') else t_ (TGetSummary Live nn)
        | Ok _ => t_ (TGetSummary Live nn)
        end
      else Ret (Err e)
  end.

(** The closure given to [RetryOnConflict]. *)
Definition record_verdict (agentReq : AgentRequest) (nn : NamespacedName) : prog tcs (unit * option error) :=
  s <- get_or_create_summary nn (spec_AgentIdentity (ar_Spec agentReq)) ;;
  match s with
  | Err e => Ret (tt, Some e)
  | Ok summary =>
      if existsb (String.eqb (om_Name (ar_Meta agentReq))) (das_RecentVerdicts (das_Status summary))
      then Ret (tt, None)
      else
        p <- t_ (TPatchSummary summary (set_das_Status (count_verdict agentReq (das_Status summary)) summary)) ;;
        Ret (tt, match p with Ok _ => None | Err e => Some e end)
  end.

(** The verdicts that count. *)
Definition countable (ar : AgentRequest) : bool :=
  (st_Verdict (ar_Status ar) <>? "") && negb (skipped (st_VerdictReasonCode (ar_Status ar))).

Definition summary_key (ar : AgentRequest) : NamespacedName :=
  NN (om_Namespace (ar_Meta ar)) (summaryNameForAgent (spec_AgentIdentity (ar_Spec ar))).

(** The result is always empty: only the error is kept. *)
Definition Accuracy_Reconcile `{RetryLib tcs} (nn : NamespacedName) : prog tcs (option error) :=
  g <- t_ (TGetAR nn) ;;
  match g with
  | Err e => Ret (IgnoreNotFound e)
  | Ok agentReq =>
      if st_Verdict (ar_Status agentReq) ==? "" then Ret None
      else if skipped (st_VerdictReasonCode (ar_Status agentReq)) then Ret None
      else
        r <- RetryOnConflict (record_verdict agentReq (summary_key agentReq)) ;;
        Ret r.2
  end.
