(* ===== verification/AccuracyFacts.v ===== *)
(** * The accuracy summary counts each verdict once

    Reconciles of one agent's requests run one after the other against the
    API server, in any order and with any repetitions, and any of their calls
    may fail.  Read through an up-to-date cache, the summary then tallies
    exactly the requests counted; each at most once while the last hundred
    names remember it. *)

From Stdlib Require Import SpecFloat.
From S2P Require Import Prelude Types Prog Retry Kube Naming GoFloat TrustKube AccuracyController.

(** ** The store *)

Section store.
(** The requests, whose verdicts do not change once given. *)
Context (reqs : NamespacedName → option AgentRequest).

(** They are the requests of one agent, whose summary is [skey]. *)
Context (skey : NamespacedName).

(** What a call may answer, and what it does to the stored summary: a failing
    call does nothing, [NotFound] and [AlreadyExists] tell the truth, and reads
    of the summary, also through the cache, are up to date. *)
Definition store_step (s : option DiagnosticAccuracySummary) (e : event tcs)
  (s' : option DiagnosticAccuracySummary) : Prop :=
  let 'Ev c x := e in
  match c return t_resp c → Prop with
  | TGetAR nn => λ x, s' = s ∧
      match x with Ok a => reqs nn = Some a | Err e => IsNotFound e = true → reqs nn = None end
  | TGetSummary _ nn => λ x, s' = s ∧
      (nn = skey → match x with Ok d => s = Some d | Err e => IsNotFound e = true → s = None end)
  | TCreateSummary d => λ x,
      match x with
      | Ok d' => s = None ∧ s' = Some d' ∧ das_Status d' = das_status_zero
      | Err e => s' = s
      end
  | TPatchSummary b n => λ x,
      match x with
      | Ok d' => s' = Some d' ∧ (s = Some b → das_Status d' = das_Status n)
      | Err e => s' = s
      end
  | _ => λ _, s' = s
  end x.

Fixpoint replay (s : option DiagnosticAccuracySummary) (t : list (event tcs))
  (s' : option DiagnosticAccuracySummary) : Prop :=
  match t with
  | [] => s' = s
  | e :: t' => ∃ s1, store_step s e s1 ∧ replay s1 t' s'
  end.

Definition status_of (s : option DiagnosticAccuracySummary) : DiagnosticAccuracySummaryStatus :=
  match s with Some d => das_Status d | None => das_status_zero end.

Definition remembers (s : option DiagnosticAccuracySummary) (a : AgentRequest) : Prop :=
  om_Name (ar_Meta a) ∈ das_RecentVerdicts (status_of s).

(** What one reconcile did. *)
Definition reconciled (s : option DiagnosticAccuracySummary) (nn : NamespacedName) (r : option error)
  (s' : option DiagnosticAccuracySummary) : Prop :=
  (status_of s' = status_of s ∧
   (r = None → ∀ a, reqs nn = Some a → countable a = true → remembers s a)) ∨
  (∃ a, reqs nn = Some a ∧ countable a = true ∧ ~ remembers s a ∧
     status_of s' = count_verdict a (status_of s)).

Lemma replay_app s t1 t2 s' : replay s (t1 ++ t2) s' ↔ ∃ s1, replay s t1 s1 ∧ replay s1 t2 s'.
Proof.
  revert s. induction t1 as [|e t1 IH]; intros s; cbn; [naive_solver|].
  setoid_rewrite IH. naive_solver.
Qed.

Lemma replay_snoc s t e s' : replay s (t ++ [e]) s' ↔ ∃ s1, replay s t s1 ∧ store_step s1 e s'.
Proof. rewrite replay_app. cbn. naive_solver. Qed.

Lemma remembered a s :
  existsb (String.eqb (om_Name (ar_Meta a))) (das_RecentVerdicts (status_of s)) = true ↔ remembers s a.
Proof.
  unfold remembers. rewrite existsb_exists. setoid_rewrite String.eqb_eq.
  setoid_rewrite <- list_elem_of_In. naive_solver.
Qed.

Section reconcile.
Context (s0 : option DiagnosticAccuracySummary).

(** The status is as it was at the start. *)
Definition untouched (h : list (event tcs)) : Prop :=
  ∀ s, replay s0 h s → status_of s = status_of s0.

Definition noP : list (event tcs) → t_call → Prop := λ _ _, True.

Lemma untouched_read h c x :
  (∀ s s', store_step s (Ev (S:=tcs) c x) s' → s' = s) → untouched h → untouched (h ++ [Ev (S:=tcs) c x]).
Proof. intros Hc Hh s (s1 & H1 & ->%Hc)%replay_snoc. by apply Hh. Qed.

(** The summary obtained is the stored one. *)
Lemma obtained_summary nn id h :
  nn = skey → untouched h →
  safe any noP h (get_or_create_summary nn id)
    (λ h' r, untouched h' ∧ ∀ d, r = Ok d → ∀ s, replay s0 h' s → s = Some d).
Proof.
  intros Hk Hh.
  assert (∀ rd h, untouched h → safe any noP h (t_ (TGetSummary rd nn))
    (λ h' r, untouched h' ∧ ∀ d, r = Ok d → ∀ s, replay s0 h' s → s = Some d)) as Hget.
  { intros rd h1 H1. split; [done|]. intros x _. cbn. split.
    - apply untouched_read; [by intros s s' [-> _]|done].
    - intros d -> s (s1 & _ & [-> H])%replay_snoc. by apply H. }
  apply safe_bind. eapply safe_post; [|by apply Hget]. intros h' [d|e] [Hu Hd]; [by cbn; eauto|].
  destruct (IsNotFound e); [|by cbn; split; [|intros ? [=]]]. split; [done|]. intros x _.
  assert (untouched (h' ++ [Ev (S:=tcs) (TCreateSummary (new_summary (nn_Name nn) (nn_Namespace nn) id)) x])) as Hc.
  { intros s (s1 & H1 & Hs)%replay_snoc. apply Hu in H1. destruct x as [d'|e'].
    - destruct Hs as (-> & -> & Hz). cbn in *. congruence.
    - cbn in Hs. by subst. }
  cbn. destruct x as [d'|e']; [by apply Hget|]. destruct (IsAlreadyExists e'); cbn [negb]; [by apply Hget|].
  by cbn; split; [|intros ? [=]].
Qed.

Lemma recorded a nn h :
  nn = skey → untouched h →
  safe any noP h (record_verdict a nn) (λ h' r,
    (∀ s, replay s0 h' s →
      (status_of s = status_of s0 ∧ (r.2 = None → remembers s0 a)) ∨
      (~ remembers s0 a ∧ status_of s = count_verdict a (status_of s0) ∧ r.2 = None)) ∧
    ∀ e, r.2 = Some e → IsConflict e = true → untouched h').
Proof.
  intros Hk Hh. unfold record_verdict. apply safe_bind. eapply safe_post; [|by apply obtained_summary].
  intros h' [d|e] [Hu Hd]; [|by cbn; split; [left; split; [apply Hu|]|]].
  destruct (existsb _ _) eqn:Hex.
  - cbn. split; [|done]. intros s Hs. left. split; [by apply Hu|]. intros _. apply remembered.
    rewrite <- (Hu s Hs). by rewrite (Hd d eq_refl s Hs).
  - split; [done|]. intros x _. cbn.
    assert (∀ s, replay s0 h' s → s = Some d ∧ das_Status d = status_of s0) as Hsd.
    { intros s Hs. pose proof (Hd d eq_refl s Hs) as ->. split; [done|]. by apply (Hu (Some d)). }
    split.
    + intros s (s1 & H1 & Hs)%replay_snoc. destruct (Hsd s1 H1) as [-> E]. rewrite E in *.
      destruct x as [d'|e'].
      * destruct Hs as [-> Hs]. right. split; [by rewrite <- remembered, Hex|]. split; [by apply Hs|done].
      * cbn in Hs. subst s. left. split; [done|]. discriminate.
    + intros e He _. destruct x as [d'|e']; [done|]. apply untouched_read; [done|done].
Qed.

End reconcile.

(** The requests are of the agent of the summary. *)
Definition one_agent : Prop := ∀ nn a, reqs nn = Some a → summary_key a = skey.

Lemma reconcile_reconciled `{RetryLib tcs} s nn t r s' :
  one_agent →
  runs (Accuracy_Reconcile nn) t r → replay s t s' → reconciled s nn r s'.
Proof.
  intros Hone (x & t' & -> & Hr) (s1 & [-> Hx] & Hs).
  cbn [bind trigger] in Hr. destruct x as [a|e].
  - destruct (st_Verdict (ar_Status a) ==? "") eqn:E1;
      [|destruct (skipped (st_VerdictReasonCode (ar_Status a))) eqn:E2].
    1,2: destruct Hr as [-> <-]; cbn in Hs; subst s'; left; split; [done|];
      intros _ a' Ha'; rewrite Hx in Ha'; injection Ha' as <-; unfold countable; by rewrite E1, ?E2.
    assert (countable a = true) as Hc by (unfold countable; by rewrite E1, E2).
    apply runs_bind in Hr as (r' & t1 & t2 & -> & Hr & -> & <-). rewrite app_nil_r in Hs.
    assert (safe any noP [] (RetryOnConflict (record_verdict a (summary_key a)))
      (λ h r, ∀ s', replay s h s' → reconciled s nn r.2 s')) as Hsafe.
    { apply (retry_rule any noP (untouched s)); [|by intros s1 ->]. intros h Hh.
      eapply safe_post; [|by apply recorded; [eapply Hone|]]. intros h' r [Hq Hcf]. split; [|done]. intros s1 H1.
      destruct (Hq s1 H1) as [[E Hrem]|(Hn & E & _)]; [left|right; eauto].
      split; [done|]. intros Hr0 a' Ha' _. rewrite Hx in Ha'. injection Ha' as <-. auto. }
    by eapply (safe_runs _ _ _ _ _ _ _ Hsafe (any_all _) Hr).
  - destruct Hr as [-> <-]. cbn in Hs. subst s'. left. split; [done|]. unfold IgnoreNotFound.
    destruct (IsNotFound e); [|done]. intros _ a Ha. rewrite Hx in Ha; done.
Qed.

(** ** Tallies *)

Definition verdict_is (v : string) (a : AgentRequest) : bool := st_Verdict (ar_Status a) ==? v.

Definition tally (v : string) (l : list AgentRequest) : Z :=
  Z.of_nat (length (List.filter (verdict_is v) l)).

(** [s] is the summary of the requests [l], counted in that order. *)
Definition tallied (l : list AgentRequest) (s : DiagnosticAccuracySummaryStatus) : Prop :=
  das_TotalReviewed s = Z.of_nat (length l) ∧
  das_CorrectCount s = tally verdictCorrect l ∧
  das_PartialCount s = tally verdictPartial l ∧
  das_IncorrectCount s = tally verdictIncorrect l ∧
  das_DiagnosticAccuracy s =
    match l with
    | [] => None
    | _ => Some (accuracy_of (tally verdictCorrect l) (tally verdictPartial l) (Z.of_nat (length l)))
    end ∧
  das_RecentVerdicts s = (λ a, om_Name (ar_Meta a)) <$> l.

Lemma tally_le v l : 0 ≤ tally v l ≤ Z.of_nat (length l).
Proof. unfold tally. pose proof (List.filter_length_le (verdict_is v) l). lia. Qed.

Lemma tally_snoc v l a : tally v (l ++ [a]) = tally v l + (if verdict_is v a then 1 else 0).
Proof.
  unfold tally. rewrite List.filter_app, length_app. cbn. destruct (verdict_is v a); cbn; lia.
Qed.

Lemma bump_tally v l a :
  Z.of_nat (length l) < 2 ^ 63 - 1 → bump (st_Verdict (ar_Status a)) v (tally v l) = tally v (l ++ [a]).
Proof.
  intros Hl. rewrite tally_snoc. unfold bump. fold (verdict_is v a). pose proof (tally_le v l).
  destruct (verdict_is v a); [|lia]. unfold int64. rewrite wrap_id; lia.
Qed.

Lemma tallied_snoc l s a :
  tallied l s → Z.of_nat (length l) < 100 → tallied (l ++ [a]) (count_verdict a s).
Proof.
  intros (Ht & Hc & Hp & Hi & Ha & Hr) Hl. unfold tallied, count_verdict. cbn.
  rewrite Ht, Hc, Hp, Hi, Hr, !bump_tally by lia.
  unfold int64. rewrite wrap_id by lia. rewrite length_app. cbn [length].
  replace (Z.of_nat (length l + 1)) with (Z.of_nat (length l) + 1) by lia.
  rewrite (proj2 (Z.ltb_lt _ _)) by lia. rewrite fmap_app. repeat (split; [done|]). split.
  - by destruct l.
  - unfold keep_last. rewrite length_app, length_fmap. cbn [length].
    rewrite (proj2 (Z.ltb_ge _ _)) by lia. done.
Qed.

(** ** Sequences of reconciles *)

Inductive sched `{RetryLib tcs} : option DiagnosticAccuracySummary →
  list (NamespacedName * option error) → option DiagnosticAccuracySummary → Prop :=
| sched_nil s : sched s [] s
| sched_snoc s l s1 nn t r s' :
    sched s l s1 → runs (Accuracy_Reconcile nn) t r → replay s1 t s' → sched s (l ++ [(nn, r)]) s'.

(** ** Any number of reconciles *)

(** A summary whose parts agree with each other. *)
Definition consistent (s : DiagnosticAccuracySummaryStatus) : Prop :=
  0 ≤ das_CorrectCount s ∧ 0 ≤ das_PartialCount s ∧ 0 ≤ das_IncorrectCount s ∧
  das_CorrectCount s + das_PartialCount s + das_IncorrectCount s = das_TotalReviewed s ∧
  das_DiagnosticAccuracy s =
    (if das_TotalReviewed s =? 0 then None
     else Some (accuracy_of (das_CorrectCount s) (das_PartialCount s) (das_TotalReviewed s))) ∧
  NoDup (das_RecentVerdicts s) ∧
  (length (das_RecentVerdicts s) <= 100)%nat ∧
  Z.of_nat (length (das_RecentVerdicts s)) ≤ das_TotalReviewed s.

(** The values the API server admits for [status.verdict]. *)
Definition valid_verdict (a : AgentRequest) : Prop :=
  st_Verdict (ar_Status a) ∈ [verdictCorrect; verdictPartial; verdictIncorrect].

Lemma keep_last_spec l :
  (length (keep_last l) <= 100)%nat ∧ (length (keep_last l) <= length l)%nat ∧ ∃ old, l = old ++ keep_last l.
Proof.
  unfold keep_last. destruct (Z.ltb_spec 100 (Z.of_nat (length l))).
  - rewrite length_drop. split; [lia|]. split; [lia|]. exists (take (length l - 100) l). by rewrite take_drop.
  - split; [lia|]. split; [lia|]. by exists [].
Qed.

Lemma count_consistent s a :
  consistent s → valid_verdict a → om_Name (ar_Meta a) ∉ das_RecentVerdicts s →
  das_TotalReviewed s < 2 ^ 63 - 1 →
  consistent (count_verdict a s) ∧ das_TotalReviewed (count_verdict a s) = das_TotalReviewed s + 1.
Proof.
  intros (Hc & Hp & Hi & Hsum & Ha & Hnd & Hlen & Hle) Hv Hn Ht.
  assert (∀ n, 0 ≤ n ≤ das_TotalReviewed s → int64 (n + 1) = n + 1) as Hw.
  { intros n Hb. apply wrap_id; lia. }
  unfold consistent, count_verdict. cbn [das_TotalReviewed das_CorrectCount das_PartialCount das_IncorrectCount
    das_DiagnosticAccuracy das_RecentVerdicts]. rewrite (Hw (das_TotalReviewed s)) by lia. split; [|done].
  rewrite (proj2 (Z.ltb_lt 0 _)), (proj2 (Z.eqb_neq _ 0)) by lia.
  destruct (keep_last_spec (das_RecentVerdicts s ++ [om_Name (ar_Meta a)])) as (H1 & H2 & old & Hold).
  rewrite length_app in H2. cbn in H2.
  assert (NoDup (das_RecentVerdicts s ++ [om_Name (ar_Meta a)])) as Hnd'.
  { apply NoDup_app. split; [done|]. split; [|apply NoDup_singleton]. intros x Hx ->%list_elem_of_singleton. done. }
  rewrite Hold in Hnd'. apply NoDup_app in Hnd' as (_ & _ & Hnd').
  assert (∀ v n, 0 ≤ n ≤ das_TotalReviewed s →
    bump (st_Verdict (ar_Status a)) v n = n + (if st_Verdict (ar_Status a) ==? v then 1 else 0)) as Hb.
  { intros v n Hb. unfold bump. destruct (_ ==? v); [by apply Hw|lia]. }
  rewrite !Hb by lia.
  assert ((if st_Verdict (ar_Status a) ==? verdictCorrect then 1 else 0) +
          (if st_Verdict (ar_Status a) ==? verdictPartial then 1 else 0) +
          (if st_Verdict (ar_Status a) ==? verdictIncorrect then 1 else 0) = 1) as H3.
  { unfold valid_verdict in Hv. rewrite !elem_of_cons, elem_of_nil in Hv.
    destruct Hv as [->|[->|[->|[]]]]; reflexivity. }
  repeat split; try done; try lia.
  all: match goal with |- context [if ?b then _ else _] => destruct b; lia end.
Qed.

(** However many reconciles run, with failures anywhere, a consistent summary
    stays consistent: the counters add up, the accuracy is theirs, and at most
    a hundred names are remembered, none twice; every reconcile counts at most
    one verdict. *)
Theorem accuracy_summary_consistent `{RetryLib tcs} s l s' :
  one_agent → (∀ nn a, reqs nn = Some a → countable a = true → valid_verdict a) →
  das_TotalReviewed (status_of s) + Z.of_nat (length l) < 2 ^ 63 →
  consistent (status_of s) → sched s l s' →
  consistent (status_of s') ∧
  das_TotalReviewed (status_of s) ≤ das_TotalReviewed (status_of s')
    ≤ das_TotalReviewed (status_of s) + Z.of_nat (length l).
Proof.
  intros Hone Hv Hb Hc Hs. induction Hs as [s|s l s1 nn t r s' Hs IH Hr Ht]; [split; [done|cbn; lia]|].
  rewrite length_app in Hb. cbn in Hb.
  destruct IH as [Hc1 [Hlo Hhi]]; [lia|done|]. rewrite length_app. cbn.
  destruct (reconcile_reconciled _ _ _ _ _ Hone Hr Ht) as [[E _]|(a & Ha & Hca & Hn & E)]; rewrite E;
    [split; [done|lia]|].
  destruct (count_consistent (status_of s1) a) as [Hc2 E2]; [done|by eapply Hv|done|lia|]. rewrite E2.
  split; [done|lia].
Qed.

(** ** At most a hundred requests *)

Section few.
Context (ns : string).

(** The requests live in the namespace [ns], under their own names. *)
Definition own_names : Prop :=
  ∀ nn a, reqs nn = Some a → nn = NN (ns) (om_Name (ar_Meta a)).

Lemma counted_bound (counted : list AgentRequest) (l : list (NamespacedName * option error)) :
  (∀ a, a ∈ counted → ∃ nn, reqs nn = Some a ∧ nn ∈ l.*1) →
  own_names → NoDup ((λ a, om_Name (ar_Meta a)) <$> counted) →
  (length counted <= size (list_to_set (l.*1) : gset NamespacedName))%nat.
Proof.
  intros Hin Hown Hnd.
  set (f := λ a : AgentRequest, NN (ns) (om_Name (ar_Meta a))).
  assert (NoDup (f <$> counted)) as Hf.
  { replace (f <$> counted) with (NN (ns) <$> ((λ a, om_Name (ar_Meta a)) <$> counted))
      by (by rewrite <- list_fmap_compose).
    apply NoDup_fmap_2; [by intros x y [= ->]|done]. }
  rewrite <- (length_fmap f), <- (size_list_to_set (C:=gset NamespacedName) _ Hf). apply subseteq_size.
  intros nn. rewrite !elem_of_list_to_set. intros (a & -> & Ha)%list_elem_of_fmap.
  destruct (Hin a Ha) as (nn & Hr & Hnn). unfold f. by rewrite <- (Hown nn a Hr).
Qed.

(** C26: For one agent with at most a hundred different requests, whose
    reconciles run one after the other, in any order, repeated and failing
    anywhere, from no summary at all and with reads of the summary that are up
    to date: the summary tallies a list of requests without repetition, only
    countable ones that were reconciled, and every one whose reconcile
    reported no error. *)
Theorem accuracy_counts_once `{RetryLib tcs} l s :
  one_agent → own_names → (size (list_to_set (l.*1) : gset NamespacedName) <= 100)%nat →
  sched None l s →
  ∃ counted, tallied counted (status_of s) ∧ NoDup ((λ a, om_Name (ar_Meta a)) <$> counted) ∧
    (∀ a, a ∈ counted → countable a = true ∧ ∃ nn, reqs nn = Some a ∧ nn ∈ l.*1) ∧
    (∀ nn a, (nn, None) ∈ l → reqs nn = Some a → countable a = true → a ∈ counted).
Proof.
  intros Hone Hown Hsz Hs. remember None as s0 eqn:Es0. induction Hs as [s|s l s1 nn t r s' Hs IH Hr Ht]; subst s.
  { exists []. split; [done|]. split; [constructor|]. split; set_solver. }
  destruct IH as (counted & Htl & Hnd & Hin & Hall); [|done|].
  { etrans; [|exact Hsz]. apply subseteq_size. rewrite fmap_app. set_solver. }
  assert (∀ a, remembers s1 a ↔ om_Name (ar_Meta a) ∈ (λ a, om_Name (ar_Meta a)) <$> counted) as Hrem.
  { intros a. unfold remembers. by destruct Htl as (_ & _ & _ & _ & _ & ->). }
  destruct (reconcile_reconciled _ _ _ _ _ Hone Hr Ht) as [[E Hdone]|(a & Ha & Hc & Hn & E)].
  - exists counted. rewrite E. split; [done|]. split; [done|]. split.
    + intros a Ha. destruct (Hin a Ha) as (? & nn' & ? & ?). split; [done|]. exists nn'.
      rewrite fmap_app. set_solver.
    + intros nn' a [Hl|Hl]%elem_of_app Ha Hc; [by eapply Hall|].
      apply list_elem_of_singleton in Hl. injection Hl as -> <-.
      pose proof (Hdone eq_refl a Ha Hc) as Hm. apply Hrem, list_elem_of_fmap in Hm as (a' & En & Ha').
      destruct (Hin a' Ha') as (_ & nn' & Hr' & _). pose proof (Hown _ _ Hr') as E'.
      rewrite <- En, <- (Hown _ _ Ha) in E'. subst nn'. congruence.
  - assert (∀ a', a' ∈ counted ++ [a] → countable a' = true ∧ ∃ nn', reqs nn' = Some a' ∧ nn' ∈ (l ++ [(nn, r)]).*1) as Hin'.
    { intros a' [Ha'|Ha'%list_elem_of_singleton]%elem_of_app; [|subst a'].
      - destruct (Hin a' Ha') as (? & nn' & ? & ?). split; [done|]. exists nn'. rewrite fmap_app. set_solver.
      - split; [done|]. exists nn. rewrite fmap_app. set_solver. }
    assert (NoDup ((λ a, om_Name (ar_Meta a)) <$> counted ++ [a])) as Hnd'.
    { rewrite fmap_app, NoDup_app. split; [done|]. rewrite Hrem in Hn. split; [|apply NoDup_singleton].
      intros n Hn1 Hn2%list_elem_of_singleton. by subst n. }
    exists (counted ++ [a]). rewrite E. split; [|split; [done|split; [done|]]].
    + apply tallied_snoc; [done|].
      pose proof (counted_bound (counted ++ [a]) (l ++ [(nn, r)]) (λ a' H', proj2 (Hin' a' H')) Hown Hnd') as Hb.
      rewrite length_app in Hb. cbn in Hb. lia.
    + intros nn' a' [Hl|Hl]%elem_of_app Ha' Hc'; [apply elem_of_app; left; by eapply Hall|].
      apply list_elem_of_singleton in Hl. injection Hl as -> _. rewrite Ha in Ha'. injection Ha' as <-. set_solver.
Qed.

End few.

End store.

(** ** Executions *)

Module AccuracyExamples.

#[local] Instance retry5 : RetryLib tcs := CountedRetry.counted tcs 5.

Definition graded (name verdict : string) : AgentRequest :=
  mkAR (mkMeta name "" "default" "" ∅ ∅ 1 0 0 None [] [])
    (mkSpec "bot" "read" (mkTarget "k8s://" None ∅) "" "" "" "" None None None None None None None None None None)
    (mkStatus PhaseCompleted [] None "" 0 None None verdict "" "" "human" (Some 5) None None).

Definition two_requests (nn : NamespacedName) : option AgentRequest :=
  if bool_decide (nn = NN "default" "r1") then Some (graded "r1" verdictCorrect)
  else if bool_decide (nn = NN "default" "r2") then Some (graded "r2" verdictPartial) else None.

Definition bot_key : NamespacedName := NN "default" (summaryNameForAgent "bot").

Definition sum0 : DiagnosticAccuracySummary := new_summary (nn_Name bot_key) "default" "bot".
Definition sum1 : DiagnosticAccuracySummary :=
  set_das_Status (count_verdict (graded "r1" verdictCorrect) das_status_zero) sum0.
Definition sum2 : DiagnosticAccuracySummary :=
  set_das_Status (count_verdict (graded "r2" verdictPartial) (das_Status sum1)) sum0.

Definition ev (c : t_call) (x : t_resp c) : event tcs := Ev (S:=tcs) c x.

Definition first_trace : list (event tcs) :=
  [ev (TGetAR (NN "default" "r1")) (Ok (graded "r1" verdictCorrect));
   ev (TGetSummary Cached bot_key) (Err (EApi NotFound));
   ev (TCreateSummary sum0) (Ok sum0); ev (TGetSummary Live bot_key) (Ok sum0);
   ev (TPatchSummary sum0 sum1) (Ok sum1)].
Definition again_trace : list (event tcs) :=
  [ev (TGetAR (NN "default" "r1")) (Ok (graded "r1" verdictCorrect)); ev (TGetSummary Cached bot_key) (Ok sum1)].
Definition failing_trace : list (event tcs) :=
  [ev (TGetAR (NN "default" "r2")) (Ok (graded "r2" verdictPartial)); ev (TGetSummary Cached bot_key) (Ok sum1);
   ev (TPatchSummary sum1 sum2) (Err (EApi (OtherStatus 500)))].
Definition second_trace : list (event tcs) :=
  [ev (TGetAR (NN "default" "r2")) (Ok (graded "r2" verdictPartial)); ev (TGetSummary Cached bot_key) (Ok sum1);
   ev (TPatchSummary sum1 sum2) (Ok sum2)].

Ltac run_trace := repeat (eexists _, _; split; [reflexivity|]); split; reflexivity.

(** Four reconciles of two requests, one repeated, one failing and retried. *)
Definition work : list (NamespacedName * option error) :=
  [(NN "default" "r1", None); (NN "default" "r1", None);
   (NN "default" "r2", Some (EApi (OtherStatus 500))); (NN "default" "r2", None)].

Ltac replay_trace := repeat (eexists; split; [repeat split; (reflexivity || (intros; (done || reflexivity)))|]); reflexivity.

Lemma work_done : sched two_requests bot_key None work (Some sum2).
Proof.
  refine (sched_snoc _ _ _ [_; _; _] (Some sum1) _ second_trace _ _ _ _ _); [|run_trace|replay_trace].
  refine (sched_snoc _ _ _ [_; _] (Some sum1) _ failing_trace _ _ _ _ _); [|run_trace|replay_trace].
  refine (sched_snoc _ _ _ [_] (Some sum1) _ again_trace _ _ _ _ _); [|run_trace|replay_trace].
  refine (sched_snoc _ _ _ [] None _ first_trace _ _ _ _ _); [constructor|run_trace|replay_trace].
Qed.

Lemma two_requests_inv nn a :
  two_requests nn = Some a →
  (nn = NN "default" "r1" ∧ a = graded "r1" verdictCorrect) ∨ (nn = NN "default" "r2" ∧ a = graded "r2" verdictPartial).
Proof. unfold two_requests. repeat case_bool_decide; intros [= <-]; auto. Qed.

Lemma one_bot : one_agent two_requests bot_key.
Proof. intros nn a [[-> ->]|[-> ->]]%two_requests_inv; reflexivity. Qed.

Lemma accuracy_counts_once_witness :
  sched two_requests bot_key None work (Some sum2) ∧
  ∃ counted, tallied counted (das_Status sum2) ∧ NoDup ((λ a, om_Name (ar_Meta a)) <$> counted) ∧
    graded "r1" verdictCorrect ∈ counted ∧ graded "r2" verdictPartial ∈ counted.
Proof.
  split; [exact work_done|].
  destruct (accuracy_counts_once two_requests bot_key "default" work (Some sum2)) as (counted & H1 & H2 & _ & H3).
  - exact one_bot.
  - intros nn a [[-> ->]|[-> ->]]%two_requests_inv; reflexivity.
  - vm_compute. lia.
  - exact work_done.
  - exists counted. split; [exact H1|]. split; [exact H2|].
    split; [eapply (H3 (NN "default" "r1"))|eapply (H3 (NN "default" "r2"))]; (reflexivity || set_solver).
Defined.

Lemma accuracy_summary_consistent_witness :
  sched two_requests bot_key None work (Some sum2) ∧ consistent (das_Status sum2) ∧ das_TotalReviewed (das_Status sum2) ≤ 4.
Proof.
  split; [exact work_done|].
  destruct (accuracy_summary_consistent two_requests bot_key None work (Some sum2)) as [H1 [_ H2]].
  - exact one_bot.
  - intros nn a [[-> ->]|[-> ->]]%two_requests_inv _; unfold valid_verdict; set_solver.
  - reflexivity.
  - repeat split; cbn; (lia || exact NoDup_nil_2).
  - exact work_done.
  - split; [exact H1|exact H2].
Defined.

(** The patch carries no resource version: a reconcile that read a cached
    summary older than the stored one overwrites the other's count.  Here the
    cache shows the empty summary to both reconciles: both report success, the
    second patch is what is stored, and one verdict is lost. *)
Definition stale_trace : list (event tcs) :=
  let n := set_das_Status (count_verdict (graded "r2" verdictPartial) das_status_zero) sum0 in
  [ev (TGetAR (NN "default" "r2")) (Ok (graded "r2" verdictPartial)); ev (TGetSummary Cached bot_key) (Ok sum0);
   ev (TPatchSummary sum0 n) (Ok n)].

Example stale_cache_loses_a_verdict :
  runs (Accuracy_Reconcile (NN "default" "r2")) stale_trace None ∧
  das_TotalReviewed (count_verdict (graded "r2" verdictPartial) das_status_zero) = 1.
Proof. split; [run_trace|reflexivity]. Qed.

(** After a hundred other requests a name is forgotten, and the same request
    is counted again. *)
Definition evicted : list string :=
  das_RecentVerdicts (foldl (λ s a, count_verdict a s) das_status_zero
    ((λ n, graded ("r" +:+ pretty n) verdictCorrect) <$> seq 0 101)).

Example evicted_name_is_forgotten :
  length evicted = 100%nat ∧ existsb (String.eqb "r0") evicted = false ∧ existsb (String.eqb "r1") evicted = true.
Proof. vm_compute. auto. Qed.

End AccuracyExamples.
