(* ===== verification/GoSort.v ===== *)
(** * Go's [sort.Slice]

    The algorithm is not part of its contract and it is not stable: the class
    states what its documentation promises, and merge sort is an instance. *)

From stdpp Require Import sorting.
From S2P Require Import Prelude.

(** "The less function must satisfy the same requirements as the Interface
    type's Less method": a strict weak order. *)
Record weak_order {A} (less : A → A → bool) : Prop := {
  less_asym : ∀ x y, less x y = true → less y x = false;
  less_ntrans : ∀ x y z, less x y = false → less y z = false → less x z = false }.

Class SortLib := {
  sort_Slice : ∀ {A}, (A → A → bool) → list A → list A;
  sort_perm : ∀ {A} (less : A → A → bool) l, sort_Slice less l ≡ₚ l;
  sort_sorted : ∀ {A} (less : A → A → bool) l,
    weak_order less → StronglySorted (λ x y, less y x = false) (sort_Slice less l) }.

(** The elements kept at the front of a sorted list are not less than those
    left behind. *)
Lemma sorted_take {A} (R : A → A → Prop) n l x y :
  StronglySorted R l → x ∈ take n l → y ∈ drop n l → R x y.
Proof.
  revert n. induction l as [|a l IH]; intros n Hs Hx Hy; [by rewrite take_nil in Hx; apply elem_of_nil in Hx|].
  destruct n as [|n]; [by apply elem_of_nil in Hx|]. apply StronglySorted_inv in Hs as [Hs Ha]. cbn in Hx, Hy.
  apply elem_of_cons in Hx as [->|Hx]; [|by eapply IH].
  rewrite Forall_forall in Ha. apply Ha. rewrite <- (take_drop n l), elem_of_app. by right.
Qed.

Module MergeSort.

Definition le {A} (less : A → A → bool) (x y : A) : Prop := less y x = false.

#[local] Instance le_dec {A} (less : A → A → bool) x y : Decision (le less x y).
Proof. unfold le. apply _. Defined.

Definition sort {A} (less : A → A → bool) (l : list A) : list A := merge_sort (le less) l.

Lemma sort_is_sorted {A} (less : A → A → bool) l : weak_order less → StronglySorted (le less) (sort less l).
Proof.
  intros [Ha Hn]. apply StronglySorted_merge_sort.
  - intros x y z. unfold le. eauto.
  - intros x y. unfold le. destruct (less y x) eqn:E; [right; auto|by left].
Qed.

#[export] Instance merge_sort_lib : SortLib.
Proof.
  refine {| sort_Slice := @sort |}.
  - intros A less l. apply merge_sort_Permutation.
  - intros A less l Hw. by apply sort_is_sorted.
Defined.

End MergeSort.
