(* ===== verification/TrustProfileController.v ===== *)
(** * The trust-profile controller
      ([internal/controller/agenttrustprofile_controller.go])

    Keeps one AgentTrustProfile per agent: the trust level that the
    namespace's graduation policy gives to the agent's recent accuracy and
    its executions. *)

From Stdlib Require Import SpecFloat.
From S2P Require Import Prelude GoStd GoStrings Types Prog Kube Conditions Evaluation Naming GoFloat.
From S2P Require Import AgentRequestController TrustKube AccuracyController GoSort.

Definition defaultGraduationPolicyName : string := "default".

(** Zero values of the structs that a failed [Get] leaves behind. *)
Definition meta_zero : ObjectMeta := mkMeta "" "" "" "" ∅ ∅ 0 0 0 None [] [].
Definition policy_zero : AgentGraduationPolicy :=
  mkGP meta_zero (mkGPSpec 0 "" [] (mkDemotion f64_zero 0 "")).
Definition atp_status_zero : AgentTrustProfileStatus := mkATPStatus "" None None 0 0 None None None None.
Definition profile_zero : AgentTrustProfile := mkATP meta_zero "" atp_status_zero.

(** [if !errors.IsNotFound(err) { return err }]. *)
Definition optional {A} (r : res A) : res (option A) :=
  match r with
  | Ok a => Ok (Some a)
  | Err e => if IsNotFound e then Ok None else Err e
  end.

(** ** Rolling accuracy *)

Record verdictEntry := mkEntry {
  ve_verdict : string;
  ve_reasonCode : string;
  ve_timestamp : option Z }.

(** The entry of an audit record; [None] is [continue]. *)
Definition entry_of (a : AuditRecord) : option verdictEntry :=
  if au_Event (au_Spec a) <>? AuditEventVerdictSubmitted then None
  else
    let verdict := map_str (au_Annotations (au_Spec a)) "verdict" in
    let reasonCode := map_str (au_Annotations (au_Spec a)) "verdictReasonCode" in
    if skipped reasonCode then None
    else Some (mkEntry verdict reasonCode (Some (au_Timestamp (au_Spec a)))).

(** The comparison given to [sort.Slice]: later entries first. *)
Definition entry_less (i j : verdictEntry) : bool :=
  match ve_timestamp i, ve_timestamp j with
  | None, None => false
  | None, _ => false
  | _, None => true
  | Some ti, Some tj => tj <? ti
  end.

(** [entries[:count]] when there are more. *)
Definition clip (count : Z) (entries : list verdictEntry) : list verdictEntry :=
  if count <? Z.of_nat (length entries) then take (Z.to_nat count) entries else entries.

Definition count_entries (v : string) (entries : list verdictEntry) : Z :=
  Z.of_nat (length (List.filter (λ e, ve_verdict e ==? v) entries)).

Section controller.
Context `{MC : MetaConditions, KL : KubeLib, SL : SortLib}.

Definition window (count : Z) (items : list AuditRecord) : list verdictEntry :=
  clip count (sort_Slice entry_less (omap entry_of items)).

Definition rolling (count : Z) (items : list AuditRecord) : option spec_float * Z :=
  let entries := window count items in
  match entries with
  | [] => (None, 0)
  | _ =>
      let total := Z.of_nat (length entries) in
      (Some (accuracy_of (count_entries verdictCorrect entries) (count_entries verdictPartial entries) total), total)
  end.

Definition computeRollingAccuracy (ns agentID : string) (count : Z) : prog tcs (res (option spec_float * Z)) :=
  l <- t_ (TListAudits ns agentID) ;;
  Ret match l with Ok items => Ok (rolling count items) | Err e => Err e end.

Definition computeDemotionAccuracy (ns agentID : string) (recentAccuracy : spec_float) (levelFound : bool)
  (policy : AgentGraduationPolicy) : prog tcs spec_float :=
  let size := dp_WindowSize (gp_DemotionPolicy (gp_Spec policy)) in
  if negb levelFound || (size <=? 0) then Ret recentAccuracy
  else
    r <- computeRollingAccuracy ns agentID size ;;
    Ret match r with
        | Ok (Some da, _) => da
        | Ok (None, _) | Err _ => recentAccuracy
        end.

(** ** Executions *)

Definition executed (agentID : string) (ar : AgentRequest) : bool :=
  (spec_AgentIdentity (ar_Spec ar) ==? agentID) &&
  ((phase ar ==? PhaseCompleted) || (phase ar ==? PhaseFailed)) &&
  IsStatusConditionTrue (conditions ar) ConditionExecuting.

Definition execution_counts (agentID : string) (items : list AgentRequest) : Z * option spec_float :=
  let total := Z.of_nat (length (List.filter (executed agentID) items)) in
  let completed :=
    Z.of_nat (length (List.filter (λ ar, executed agentID ar && (phase ar ==? PhaseCompleted)) items)) in
  if total =? 0 then (0, None) else (total, Some (f64_div (f64_of_int completed) (f64_of_int total))).

Definition countTerminalExecutions (ns agentID : string) : prog tcs (res (Z * option spec_float)) :=
  l <- t_ (TListARs ns) ;;
  Ret match l with Ok items => Ok (execution_counts agentID items) | Err e => Err e end.

(** ** Levels *)

Definition policyFound (policy : AgentGraduationPolicy) : bool :=
  (om_Name (gp_Meta policy) <>? "") && (0 <? Z.of_nat (length (gp_Levels (gp_Spec policy)))).

Definition levelMeets (level : GraduationLevel) (accuracy : spec_float) (executions : Z) : bool :=
  negb match lv_Accuracy level with
       | Some b => match ab_Min b with Some m => f64_lt accuracy m | None => false end
       | None => false
       end &&
  negb match lv_Executions level with
       | Some b => match eb_Min b with Some m => executions <? m | None => false end
       | None => false
       end.

(** The loop from the last level down. *)
Fixpoint highest_met (levels_from_last : list GraduationLevel) (accuracy : spec_float) (executions : Z) : string :=
  match levels_from_last with
  | [] => TrustLevelObserver
  | level :: rest => if levelMeets level accuracy executions then lv_Name level else highest_met rest accuracy executions
  end.

Definition resolveTrustLevel (recentAccuracy : spec_float) (totalExecutions : Z) (policy : AgentGraduationPolicy)
  : string :=
  if negb (policyFound policy) then TrustLevelObserver
  else highest_met (reverse (gp_Levels (gp_Spec policy))) recentAccuracy totalExecutions.

(** The loop over the levels: the first of that name with a minimum decides. *)
Fixpoint below_band (oldLevel : string) (accuracy dropThreshold : spec_float) (levels : list GraduationLevel) : bool :=
  match levels with
  | [] => false
  | level :: rest =>
      match lv_Accuracy level with
      | Some b =>
          match ab_Min b with
          | Some m =>
              if lv_Name level <>? oldLevel then below_band oldLevel accuracy dropThreshold rest
              else
                let buffer := match ab_DemotionBuffer b with Some d => d | None => dropThreshold end in
                f64_lt accuracy (f64_sub m buffer)
          | None => below_band oldLevel accuracy dropThreshold rest
          end
      | None => below_band oldLevel accuracy dropThreshold rest
      end
  end.

Definition checkDemotion (profile : AgentTrustProfile) (oldLevel : string) (recentAccuracy : spec_float)
  (policy : AgentGraduationPolicy) : prog tcs bool :=
  let dp := gp_DemotionPolicy (gp_Spec policy) in
  let bands := below_band oldLevel recentAccuracy (dp_AccuracyDropThreshold dp) (gp_Levels (gp_Spec policy)) in
  if dp_GracePeriod dp <>? "" then
    match ParseDuration (dp_GracePeriod dp) with
    | None => Ret bands
    | Some grace =>
        let lastPromoted :=
          match atp_LastPromotedAt (atp_Status profile) with
          | Some t => t
          | None => om_CreationTimestamp (atp_Meta profile)
          end in
        now <- t_ TNow ;;
        Ret (if now <? lastPromoted + grace then false else bands)
    end
  else Ret bands.

(** ** The audit record of a change *)

Definition bool_str (b : bool) : string := if b then "true" else "false".

Definition trust_audit (profile : AgentTrustProfile) (oldLevel newLevel : string) (demoted : bool) (now : Z)
  : AuditRecord :=
  let m := atp_Meta profile in
  mkAuditRecord
    (mkMeta (deterministicAuditName (om_Name m) AuditEventTrustProfileUpdated oldLevel newLevel) ""
       (om_Namespace m) "" {["aip.io/agentIdentity" := atp_AgentIdentity profile]}
       {["governance.aip.io/agentTrustProfileRef" := om_Name m]} 0 0 0 None [] [])
    (mkAudit now (atp_AgentIdentity profile) "-" AuditEventTrustProfileUpdated "trust-evaluation"
       "agent-trust-profile"
       ("Trust level changed from " +:+ oldLevel +:+ " to " +:+ newLevel) None []
       {["oldLevel" := oldLevel; "newLevel" := newLevel; "demoted" := bool_str demoted]} None).

Definition own_trust_audit (profile : AgentTrustProfile) (audit : AuditRecord) : AuditRecord :=
  match SetControllerReference (atp_Meta profile) (au_Meta audit) with
  | Ok refs => set_au_Meta (set_om_OwnerReferences refs (au_Meta audit)) audit
  | Err _ => audit
  end.

Fixpoint audit_attempts (n : nat) (audit : AuditRecord) (lastErr : option error) : prog tcs (option error) :=
  match n with
  | O => Ret lastErr
  | S n' =>
      x <- t_ (TCreateAudit audit) ;;
      match x with
      | Ok _ => Ret None
      | Err e => if IsAlreadyExists e then Ret None else audit_attempts n' audit (Some e)
      end
  end.

Definition emitTrustProfileAuditWithRetry (profile : AgentTrustProfile) (oldLevel newLevel : string) (demoted : bool)
  : prog tcs (option error) :=
  now <- t_ TNow ;;
  audit_attempts 3 (own_trust_audit profile (trust_audit profile oldLevel newLevel demoted now)) None.

(** ** Bootstrapping *)

Definition named_for {A} (name : string) (identity : A → string) (items : list A) : string :=
  match List.find (λ x, ProfileNameForAgent (identity x) ==? name) items with
  | Some x => identity x
  | None => ""
  end.

(** Priority 1: the registrations, by index or, when there is none, by a scan. *)
Definition registered_agent (nn : NamespacedName) : prog tcs (res string) :=
  l <- t_ (TListRegsByProfile (nn_Namespace nn) (nn_Name nn)) ;;
  match l with
  | Ok items => Ret (Ok match items with reg :: _ => reg_AgentIdentity (reg_Spec reg) | [] => "" end)
  | Err _ =>
      all <- t_ (TListRegs (nn_Namespace nn)) ;;
      Ret match all with
          | Ok items => Ok (named_for (nn_Name nn) (λ reg, reg_AgentIdentity (reg_Spec reg)) items)
          | Err e => Err (EWrap "listing AgentRegistration fallback scan" e)
          end
  end.

(** Priorities 2 and 3: the summary, then the requests, by label or by a scan.
    [None]: there is nobody the profile could belong to. *)
Definition observed_agent (nn : NamespacedName) : prog tcs (res (option string)) :=
  s <- t_ (TGetSummary Cached nn) ;;
  match s with
  | Ok summary => Ret (Ok (Some (das_AgentIdentity summary)))
  | Err e =>
      if negb (IsNotFound e) then Ret (Err e)
      else
        arList <-! t_ (TListARsByProfile (nn_Namespace nn) (nn_Name nn)) ;;
        match arList with
        | ar :: _ => Ret (Ok (Some (spec_AgentIdentity (ar_Spec ar))))
        | [] =>
            allARs <-! t_ (TListARs (nn_Namespace nn)) ;;
            let agentID := named_for (nn_Name nn) (λ ar, spec_AgentIdentity (ar_Spec ar)) allARs in
            Ret (Ok (if agentID ==? "" then None else Some agentID))
        end
  end.

Definition new_profile (nn : NamespacedName) (agentID : string) : AgentTrustProfile :=
  mkATP (mkMeta (nn_Name nn) "" (nn_Namespace nn) "" ∅ ∅ 0 0 0 None [] []) agentID atp_status_zero.

Definition bootstrap_profile (nn : NamespacedName) (agentID : string) : prog tcs (res AgentTrustProfile) :=
  c <- t_ (TCreateProfile (new_profile nn agentID)) ;;
  match c with
  | Ok _ => t_ (TGetProfile Live nn)
  | Err e => if negb (IsAlreadyExists e) then Ret (Err e) else t_ (TGetProfile Live nn)
  end.

Definition getOrBootstrapProfile (nn : NamespacedName) : prog tcs (res AgentTrustProfile) :=
  g <- t_ (TGetProfile Cached nn) ;;
  match g with
  | Ok profile => Ret (Ok profile)
  | Err e =>
      if negb (IsNotFound e) then Ret (Err e)
      else
        agentID <-! registered_agent nn ;;
        if agentID ==? "" then
          observed <-! observed_agent nn ;;
          match observed with
          | None => Ret (Ok profile_zero)
          | Some agentID => bootstrap_profile nn agentID
          end
        else bootstrap_profile nn agentID
  end.

(** ** The reconciler *)

Definition rank (level : string) : Z := (TrustLevelRank level).1.

(** The all-time figures, when the summary has an accuracy. *)
Definition all_time (summary : option DiagnosticAccuracySummary) : spec_float * Z :=
  match summary with
  | Some d =>
      match das_DiagnosticAccuracy (das_Status d) with
      | Some a => (a, das_TotalReviewed (das_Status d))
      | None => (f64_zero, 0)
      end
  | None => (f64_zero, 0)
  end.

(** The window's figures replace them where the policy has a window. *)
Definition recent_figures (ns agentID : string) (levelFound : bool) (policy : AgentGraduationPolicy)
  (summary : option DiagnosticAccuracySummary) : prog tcs (spec_float * Z) :=
  let count := gp_EvaluationWindowCount (gp_Spec policy) in
  if levelFound && (0 <? Z.of_nat (length (gp_Levels (gp_Spec policy)))) && (0 <? count) then
    r <- computeRollingAccuracy ns agentID count ;;
    Ret match r with
        | Ok (Some ra, tr) => (ra, tr)
        | Ok (None, _) | Err _ => all_time summary
        end
  else Ret (all_time summary).

(** The level to store, and whether it is a demotion under the policy. *)
Definition next_level (profile : AgentTrustProfile) (oldLevel resolved : string) (demotionAccuracy : spec_float)
  (levelFound : bool) (policy : AgentGraduationPolicy) : prog tcs (string * bool) :=
  if levelFound && (rank resolved <? rank oldLevel) then
    demote <- checkDemotion profile oldLevel demotionAccuracy policy ;;
    Ret (if demote then (resolved, true) else (oldLevel, false))
  else Ret (resolved, false).

(** The new status. *)
Definition evaluated_status (old : AgentTrustProfileStatus) (oldLevel newLevel : string)
  (allTime : option spec_float) (recent : spec_float * Z) (executions : Z * option spec_float) (now : Z)
  : AgentTrustProfileStatus :=
  let promoted := (newLevel <>? oldLevel) && (rank oldLevel <? rank newLevel) in
  let lowered := (newLevel <>? oldLevel) && negb (rank oldLevel <? rank newLevel) in
  mkATPStatus newLevel allTime (Some recent.1) recent.2 executions.1 executions.2
    (if promoted then Some now else atp_LastPromotedAt old)
    (if lowered then Some now else atp_LastDemotedAt old) (Some now).

Definition set_atp_Status (st : AgentTrustProfileStatus) (p : AgentTrustProfile) : AgentTrustProfile :=
  mkATP (atp_Meta p) (atp_AgentIdentity p) st.

Definition current_level (profile : AgentTrustProfile) : string :=
  if atp_TrustLevel (atp_Status profile) ==? "" then TrustLevelObserver else atp_TrustLevel (atp_Status profile).

(** The status patch, and the audit record when the level changed; the
    failure of the audit is only logged. *)
Definition store_level (profile new : AgentTrustProfile) (oldLevel newLevel : string) (demoted : bool)
  : prog tcs (res unit) :=
  stored <-! t_ (TPatchProfile profile new) ;;
  if newLevel <>? oldLevel then
    emitTrustProfileAuditWithRetry stored oldLevel newLevel demoted ;;; Ret (Ok tt)
  else Ret (Ok tt).

(** [Reconcile]; the [ctrl.Result] is always empty. *)
Definition Trust_Reconcile (nn : NamespacedName) : prog tcs (res unit) :=
  profile <-! getOrBootstrapProfile nn ;;
  if atp_AgentIdentity profile ==? "" then Ret (Ok tt)
  else
    let agentID := atp_AgentIdentity profile in
    let ns := om_Namespace (atp_Meta profile) in
    s <- t_ (TGetSummary Live (NN ns (summaryNameForAgent agentID))) ;;
    match optional s with
    | Err e => Ret (Err e)
    | Ok summary =>
        g <- t_ (TGetPolicy (NN ns defaultGraduationPolicyName)) ;;
        match optional g with
        | Err e => Ret (Err e)
        | Ok found =>
            let levelFound := match found with Some _ => true | None => false end in
            let policy := default policy_zero found in
            recent <- recent_figures ns agentID levelFound policy summary ;;
            demotionAccuracy <- computeDemotionAccuracy ns agentID recent.1 levelFound policy ;;
            ex <- countTerminalExecutions ns agentID ;;
            let executions := match ex with Ok c => c | Err _ => (0, None) end in
            let oldLevel := current_level profile in
            let resolved := resolveTrustLevel recent.1 executions.1 policy in
            lv <- next_level profile oldLevel resolved demotionAccuracy levelFound policy ;;
            now <- t_ TNow ;;
            let allTime := match summary with
                           | Some d => das_DiagnosticAccuracy (das_Status d)
                           | None => None
                           end in
            let st := evaluated_status (atp_Status profile) oldLevel lv.1 allTime recent executions now in
            store_level profile (set_atp_Status st profile) oldLevel lv.1 lv.2
        end
    end.

End controller.
