(* ===== verification/TrustFacts.v ===== *)
(** * What the trust-profile controller writes

    Every call of every execution is allowed by [trust_calls]: levels are
    stored only as the policy, the verdicts and the executions that were read
    justify them; profiles are created only for an agent that was seen; and
    audit records follow a stored change. *)

From Stdlib Require Import SpecFloat Sorted.
From S2P Require Import Prelude GoStd GoStrings Types Prog Kube Conditions Evaluation Naming GoFloat.
From S2P Require Import AgentRequestController TrustKube AccuracyController GoSort TrustProfileController.

Section facts.
Context `{MC : MetaConditions, KL : KubeLib, SL : SortLib}.

(** ** What was read *)

Abbreviation hist := (list (event tcs)).
Definition did (h : hist) (c : t_call) (x : t_resp c) : Prop := Ev (S:=tcs) c x ∈ h.

(** [found] is what a [Get] that may find nothing read. *)
Definition policy_read (h : hist) (ns : string) (found : option AgentGraduationPolicy) : Prop :=
  ∃ x, did h (TGetPolicy (NN ns defaultGraduationPolicyName)) x ∧ optional x = Ok found.

Definition summary_read (h : hist) (ns id : string) (found : option DiagnosticAccuracySummary) : Prop :=
  ∃ x, did h (TGetSummary Live (NN ns (summaryNameForAgent id))) x ∧ optional x = Ok found.

(** The accuracy of a window of [count] verdicts among the audits listed. *)
Definition window_accuracy (h : hist) (ns id : string) (count : Z) (acc : spec_float) (n : Z) : Prop :=
  ∃ items, did h (TListAudits ns id) (Ok items) ∧ rolling count items = (Some acc, n).

Definition recent_from (h : hist) (ns id : string) (policy : AgentGraduationPolicy)
  (summary : option DiagnosticAccuracySummary) (recent : spec_float * Z) : Prop :=
  window_accuracy h ns id (gp_EvaluationWindowCount (gp_Spec policy)) recent.1 recent.2 ∨
  recent = all_time summary.

Definition demotion_from (h : hist) (ns id : string) (policy : AgentGraduationPolicy) (recent acc : spec_float)
  : Prop :=
  (∃ n, window_accuracy h ns id (dp_WindowSize (gp_DemotionPolicy (gp_Spec policy))) acc n) ∨ acc = recent.

Definition executions_from (h : hist) (ns id : string) (ex : Z * option spec_float) : Prop :=
  (∃ items, did h (TListARs ns) (Ok items) ∧ ex = execution_counts id items) ∨ ex = (0, None).

(** ** Demotions *)

Definition promoted_at (p : AgentTrustProfile) : Z :=
  default (om_CreationTimestamp (atp_Meta p)) (atp_LastPromotedAt (atp_Status p)).

Definition grace_over (h : hist) (p : AgentTrustProfile) (policy : AgentGraduationPolicy) : Prop :=
  ∀ grace, dp_GracePeriod (gp_DemotionPolicy (gp_Spec policy)) ≠ ""%string →
    ParseDuration (dp_GracePeriod (gp_DemotionPolicy (gp_Spec policy))) = Some grace →
    ∃ now, did h TNow now ∧ promoted_at p + grace ≤ now.

(** The accuracy is under the band of the level: below the minimum by more
    than the level's buffer, or the policy's where the level has none. *)
Definition under_band (policy : AgentGraduationPolicy) (level : string) (acc : spec_float) : Prop :=
  ∃ l b m, l ∈ gp_Levels (gp_Spec policy) ∧ lv_Name l = level ∧ lv_Accuracy l = Some b ∧ ab_Min b = Some m ∧
    f64_lt acc (f64_sub m (default (dp_AccuracyDropThreshold (gp_DemotionPolicy (gp_Spec policy)))
                             (ab_DemotionBuffer b))) = true.

Definition demotion_due (h : hist) (p : AgentTrustProfile) (policy : AgentGraduationPolicy) (acc : spec_float)
  : Prop :=
  grace_over h p policy ∧ under_band policy (current_level p) acc.

(** ** The calls allowed *)

(** The figures and the level of a new status. *)
Definition level_justified (h : hist) (base : AgentTrustProfile) (found : option AgentGraduationPolicy)
  (recent : spec_float * Z) (ex : Z) (level : string) : Prop :=
  level = current_level base ∨
  level = resolveTrustLevel recent.1 ex (default policy_zero found) ∧
  (rank level < rank (current_level base) →
   ∀ policy, found = Some policy →
     ∃ acc, demotion_from h (om_Namespace (atp_Meta base)) (atp_AgentIdentity base) policy recent.1 acc ∧
       demotion_due h base policy acc).

Definition patch_justified (nn : NamespacedName) (h : hist) (base new : AgentTrustProfile) : Prop :=
  let ns := om_Namespace (atp_Meta base) in
  let id := atp_AgentIdentity base in
  (∃ rd, did h (TGetProfile rd nn) (Ok base)) ∧
  ∃ found summary recent ex now level,
    policy_read h ns found ∧ summary_read h ns id summary ∧
    recent_from h ns id (default policy_zero found) summary recent ∧ executions_from h ns id ex ∧
    did h TNow now ∧ level_justified h base found recent ex.1 level ∧
    new = set_atp_Status
      (evaluated_status (atp_Status base) (current_level base) level
         (d ← summary; das_DiagnosticAccuracy (das_Status d)) recent ex now) base.

(** Who a profile is created for. *)
Definition agent_seen (nn : NamespacedName) (h : hist) (id : string) : Prop :=
  (∃ items reg, (did h (TListRegsByProfile (nn_Namespace nn) (nn_Name nn)) (Ok items) ∨
                 did h (TListRegs (nn_Namespace nn)) (Ok items) ∧ ProfileNameForAgent id = nn_Name nn) ∧
     reg ∈ items ∧ id = reg_AgentIdentity (reg_Spec reg)) ∨
  (∃ d, did h (TGetSummary Cached nn) (Ok d) ∧ id = das_AgentIdentity d) ∨
  (∃ items ar, (did h (TListARsByProfile (nn_Namespace nn) (nn_Name nn)) (Ok items) ∨
                did h (TListARs (nn_Namespace nn)) (Ok items) ∧ ProfileNameForAgent id = nn_Name nn) ∧
     ar ∈ items ∧ id = spec_AgentIdentity (ar_Spec ar)).

Definition trust_calls (nn : NamespacedName) (h : hist) (c : t_call) : Prop :=
  match c with
  | TPatchProfile base new => patch_justified nn h base new
  | TCreateProfile p =>
      (∃ e, did h (TGetProfile Cached nn) (Err e) ∧ IsNotFound e = true) ∧
      ∃ id, p = new_profile nn id ∧ agent_seen nn h id
  | TCreateAudit a =>
      ∃ base new stored demoted now,
        did h (TPatchProfile base new) (Ok stored) ∧
        current_level base ≠ atp_TrustLevel (atp_Status new) ∧
        a = own_trust_audit stored
              (trust_audit stored (current_level base) (atp_TrustLevel (atp_Status new)) demoted now)
  | TCreateSummary _ | TPatchSummary _ _ => False
  | _ => True
  end.

(** ** Every call is allowed *)

Lemma did_mono h h' c x : h ⊆ h' → did h c x → did h' c x.
Proof. unfold did. set_solver. Qed.

Section walk.
Context (nn : NamespacedName).

Abbreviation walk h p Q := (safe any (trust_calls nn) h p Q).

(** One call that is allowed as such, first or last. *)
Ltac call x h Hs Hx := apply safe_call; [exact I|intros x h _ Hs Hx].
Ltac final x h Hs Hx := apply safe_last; [exact I|intros x h _ Hs Hx].

Lemma named_for_spec {A} name (identity : A → string) items :
  named_for name identity items ≠ ""%string →
  ProfileNameForAgent (named_for name identity items) = name ∧
  ∃ x, x ∈ items ∧ named_for name identity items = identity x.
Proof.
  unfold named_for. destruct (List.find _ items) as [x|] eqn:E; [|done]. intros _.
  apply find_some in E as [Hin E%String.eqb_eq]. split; [done|]. exists x. by rewrite list_elem_of_In.
Qed.

Lemma registered_walk h :
  walk h (registered_agent nn)
    (λ h' r, h ⊆ h' ∧ ∀ id, r = Ok id → id ≠ ""%string → agent_seen nn h' id).
Proof.
  call l h1 Hs1 H1. destruct l as [items|e].
  - split; [done|]. intros id [= <-] Hid. left. destruct items as [|reg items]; [done|].
    eexists _, reg. split; [left; exact H1|]. split; [left|done].
  - call l h2 Hs2 H2. split; [set_solver|]. destruct l as [items|e2]; [|by intros id [=]].
    intros id [= <-] Hid. apply named_for_spec in Hid as (Hn & reg & Hin & E). left.
    exists items, reg. split; [|split; [done|exact E]]. right. split; [exact H2|exact Hn].
Qed.

Lemma observed_walk h :
  walk h (observed_agent nn) (λ h' r, h ⊆ h' ∧ ∀ id, r = Ok (Some id) → agent_seen nn h' id).
Proof.
  call s h1 Hs1 H1. destruct s as [d|e].
  { split; [done|]. intros id [= <-]. right; left. eauto. }
  destruct (IsNotFound e); cbn [negb]; [|by split; [|intros ? [=]]].
  call l h2 Hs2 H2. destruct l as [[|ar items]|e2]; [| |by split; [set_solver|intros ? [=]]].
  - call l h3 Hs3 H3. destruct l as [items|e3]; (split; [set_solver|]); [|by intros ? [=]].
    destruct (String.eqb_spec (named_for (nn_Name nn) (λ ar, spec_AgentIdentity (ar_Spec ar)) items) "");
      intros id [= <-].
    apply named_for_spec in n as (Hn & ar & Hin & E). right; right. exists items, ar.
    split; [right; split; [exact H3|exact Hn]|]. split; [done|exact E].
  - split; [set_solver|]. intros id [= <-]. right; right. eexists _, ar. split; [left; exact H2|]. split; [left|done].
Qed.

(** The profile returned was read. *)
Definition profile_read (h : hist) (r : res AgentTrustProfile) : Prop :=
  ∀ p, r = Ok p → p = profile_zero ∨ ∃ rd, did h (TGetProfile rd nn) (Ok p).

Lemma bootstrap_walk h id :
  (∃ e, did h (TGetProfile Cached nn) (Err e) ∧ IsNotFound e = true) → agent_seen nn h id →
  walk h (bootstrap_profile nn id) (λ h' r, h ⊆ h' ∧ profile_read h' r).
Proof.
  intros He Hid. apply safe_call; [split; [done|eauto]|]. intros x h1 _ Hs1 H1.
  assert (walk h1 (t_ (TGetProfile Live nn)) (λ h' r, h ⊆ h' ∧ profile_read h' r)) as Hget.
  { final y h2 Hs2 H2. split; [set_solver|]. intros p ->. eauto. }
  destruct x as [p|e]; [exact Hget|]. destruct (IsAlreadyExists e); cbn [negb]; [exact Hget|].
  split; [done|]. by intros p [=].
Qed.

Lemma profile_walk h :
  walk h (getOrBootstrapProfile nn) (λ h' r, h ⊆ h' ∧ profile_read h' r).
Proof.
  call g h1 Hs1 H1. destruct g as [p|e]; [split; [done|]; intros q [= ->]; eauto|].
  destruct (IsNotFound e) eqn:He; cbn [negb]; [|by split; [|intros p [=]]].
  assert (∀ h' id, h1 ⊆ h' → agent_seen nn h' id →
    walk h' (bootstrap_profile nn id) (λ h' r, h ⊆ h' ∧ profile_read h' r)) as Hboot.
  { intros h' id Hs Hid. eapply safe_post; [|apply bootstrap_walk; [|exact Hid]].
    - intros h2 r [? ?]. split; [set_solver|done].
    - exists e. split; [by apply (did_mono h1)|done]. }
  eapply safe_sub; [apply registered_walk|]. intros r h2 Hs2 Hr.
  destruct r as [id|e2]; [|by split; [set_solver|intros p [=]]].
  destruct (String.eqb_spec id ""); [|apply Hboot; auto].
  eapply safe_sub; [apply observed_walk|]. intros r h3 Hs3 Hr3.
  destruct r as [[id'|]|e3]; [apply Hboot; [set_solver|auto]|split; [set_solver|]..].
  - intros p [= <-]. by left.
  - by intros p [=].
Qed.

Lemma rolling_walk ns id count h :
  walk h (computeRollingAccuracy ns id count)
    (λ h' r, h ⊆ h' ∧ ∀ acc n, r = Ok (Some acc, n) → window_accuracy h' ns id count acc n).
Proof.
  call l h1 Hs1 H1. split; [done|]. destruct l as [items|e]; intros acc n E; [|done]. injection E as E.
  exists items. split; [exact H1|exact E].
Qed.

Lemma recent_walk ns id found policy summary h :
  walk h (recent_figures ns id found policy summary)
    (λ h' r, h ⊆ h' ∧ recent_from h' ns id policy summary r).
Proof.
  unfold recent_figures. destruct (_ && _); [|by split; [|right]].
  eapply safe_sub; [apply rolling_walk|]. intros r h1 Hs1 Hr. split; [done|].
  destruct r as [[[acc|] n]|e]; [left; by apply Hr|by right|by right].
Qed.

Lemma demotion_walk ns id recent found policy h :
  walk h (computeDemotionAccuracy ns id recent found policy)
    (λ h' acc, h ⊆ h' ∧ demotion_from h' ns id policy recent acc).
Proof.
  unfold computeDemotionAccuracy. destruct (_ || _); [by split; [|right]|].
  eapply safe_sub; [apply rolling_walk|]. intros r h1 Hs1 Hr. split; [done|].
  destruct r as [[[acc|] n]|e]; [left; exists n; by apply Hr|by right|by right].
Qed.

Lemma executions_walk ns id h :
  walk h (countTerminalExecutions ns id)
    (λ h' r, h ⊆ h' ∧ executions_from h' ns id (match r with Ok c => c | Err _ => (0, None) end)).
Proof.
  call l h1 Hs1 H1. split; [done|]. destruct l as [items|e]; [left|by right].
  exists items. split; [exact H1|done].
Qed.

Lemma below_band_spec level acc drop_ levels :
  below_band level acc drop_ levels = true →
  ∃ l b m, l ∈ levels ∧ lv_Name l = level ∧ lv_Accuracy l = Some b ∧ ab_Min b = Some m ∧
    f64_lt acc (f64_sub m (default drop_ (ab_DemotionBuffer b))) = true.
Proof.
  induction levels as [|l levels IH]; cbn [below_band]; [done|].
  assert (below_band level acc drop_ levels = true → ∃ l' b m, l' ∈ l :: levels ∧ lv_Name l' = level ∧
    lv_Accuracy l' = Some b ∧ ab_Min b = Some m ∧
    f64_lt acc (f64_sub m (default drop_ (ab_DemotionBuffer b))) = true) as Hrest.
  { intros (l' & b & m & Hin & H)%IH. exists l', b, m. split; [by right|done]. }
  destruct (lv_Accuracy l) as [b|] eqn:Ha; [|exact Hrest]. destruct (ab_Min b) as [m|] eqn:Hm; [|exact Hrest].
  destruct (String.eqb_spec (lv_Name l) level); cbn [negb]; [|exact Hrest]. intros H.
  exists l, b, m. split; [left|]. by destruct (ab_DemotionBuffer b).
Qed.

Lemma check_walk profile acc policy h :
  walk h (checkDemotion profile (current_level profile) acc policy)
    (λ h' r, h ⊆ h' ∧ (r = true → demotion_due h' profile policy acc)).
Proof.
  unfold checkDemotion. set (dp := gp_DemotionPolicy (gp_Spec policy)).
  destruct (String.eqb_spec (dp_GracePeriod dp) "") as [E|E]; cbn [negb].
  { split; [done|]. intros Hb. split; [by intros grace ?|by apply below_band_spec]. }
  destruct (ParseDuration (dp_GracePeriod dp)) as [grace|] eqn:Hg.
  2: { split; [done|]. intros Hb. split; [|by apply below_band_spec]. intros grace _ E2. subst dp. congruence. }
  call now h1 Hs1 H1. split; [done|].
  change (match atp_LastPromotedAt (atp_Status profile) with Some t => t | None => _ end) with (promoted_at profile).
  destruct (Z.ltb_spec now (promoted_at profile + grace)) as [|Hlt]; [done|]. intros Hb.
  split; [|by apply below_band_spec]. intros grace' _ E2. subst dp. rewrite Hg in E2. injection E2 as <-.
  by exists now.
Qed.

Lemma level_walk profile recent ex found acc h :
  demotion_from h (om_Namespace (atp_Meta profile)) (atp_AgentIdentity profile) (default policy_zero found) recent.1 acc →
  walk h (next_level profile (current_level profile) (resolveTrustLevel recent.1 ex (default policy_zero found)) acc
            (match found with Some _ => true | None => false end) (default policy_zero found))
    (λ h' r, h ⊆ h' ∧ level_justified h' profile found recent ex r.1).
Proof.
  intros Hacc. unfold next_level. destruct found as [policy|]; cbn [andb].
  2: { split; [done|]. right. split; [done|]. by intros _ policy [=]. }
  change (default policy_zero (Some policy)) with policy in *.
  destruct (Z.ltb_spec (rank (resolveTrustLevel recent.1 ex policy)) (rank (current_level profile))) as [Hlt|Hge].
  - eapply safe_sub; [apply check_walk|]. intros d h1 Hs1 Hd. split; [done|].
    destruct d; [right|by left]. split; [done|]. intros _ p' [= <-]. exists acc. split; [|auto].
    destruct Hacc as [(n & items & Hi & E)| ->]; [left|by right]. exists n, items. split; [by apply (did_mono h)|done].
  - split; [done|]. right. split; [done|]. cbn. intros ?. exfalso. lia.
Qed.

Lemma audit_walk n a last h :
  trust_calls nn h (TCreateAudit a) →
  walk h (audit_attempts n a last) (λ h' _, h ⊆ h').
Proof.
  revert h last. induction n as [|n IH]; intros h last Ha; [by cbn|]. cbn [audit_attempts].
  apply safe_call; [done|]. intros x h1 _ Hs1 H1.
  assert (trust_calls nn h1 (TCreateAudit a)) as Ha1.
  { destruct Ha as (b & nw & st & d & now & Hd & Hr). exists b, nw, st, d, now. split; [by apply (did_mono h)|done]. }
  destruct x as [y|e]; [by cbn|]. destruct (IsAlreadyExists e); [by cbn|].
  eapply safe_post; [|by apply IH]. intros h2 y Hs. set_solver.
Qed.

Lemma store_walk base new demoted h :
  patch_justified nn h base new →
  walk h (store_level base new (current_level base) (atp_TrustLevel (atp_Status new)) demoted) (λ _ _, True).
Proof.
  intros Hp. apply safe_call; [exact Hp|]. intros x h1 _ Hs1 H1. destruct x as [stored|e]; [|done].
  destruct (String.eqb_spec (atp_TrustLevel (atp_Status new)) (current_level base)) as [|Hne]; cbn [negb]; [done|].
  apply safe_bind. call now h2 Hs2 H2. eapply safe_post; [|apply audit_walk]; [done|].
  exists base, new, stored, demoted, now. split; [by apply (did_mono h1)|]. split; [congruence|done].
Qed.

Lemma from_mono h h' ns id policy summary recent :
  h ⊆ h' → recent_from h ns id policy summary recent → recent_from h' ns id policy summary recent.
Proof. intros Hs [(items & Hi & E)| ->]; [left; exists items; split; [by apply (did_mono h)|done]|by right]. Qed.

Lemma executions_mono h h' ns id ex : h ⊆ h' → executions_from h ns id ex → executions_from h' ns id ex.
Proof. intros Hs [(items & Hi & E)| ->]; [left; exists items; split; [by apply (did_mono h)|done]|by right]. Qed.

Lemma level_mono h h' base found recent ex level :
  h ⊆ h' → level_justified h base found recent ex level → level_justified h' base found recent ex level.
Proof.
  intros Hs [->|[E Hd]]; [by left|right]. split; [done|]. intros Hlt policy Hf.
  destruct (Hd Hlt policy Hf) as (acc & Hacc & Hg & Hb). exists acc. split.
  - destruct Hacc as [(n & items & Hi & E1)| ->]; [left|by right]. exists n, items. split; [by apply (did_mono h)|done].
  - split; [|done]. intros grace H1 H2. destruct (Hg grace H1 H2) as (now & Hn & ?). exists now.
    split; [by apply (did_mono h)|done].
Qed.

Lemma trust_walk : walk [] (Trust_Reconcile nn) (λ _ _, True).
Proof.
  eapply safe_sub; [apply profile_walk|]. intros r h1 _ Hr. destruct r as [profile|e]; [|done].
  destruct (String.eqb_spec (atp_AgentIdentity profile) "") as [|Hid]; [done|].
  destruct (Hr profile eq_refl) as [->|Hprof]; [done|].
  call s h2 Hs2 H2. destruct (optional s) as [summary|e] eqn:Es; [|done].
  call g h3 Hs3 H3. destruct (optional g) as [found|e] eqn:Eg; [|done].
  eapply safe_sub; [apply recent_walk|]. intros recent h4 Hs4 H4.
  eapply safe_sub; [apply demotion_walk|]. intros acc h5 Hs5 H5.
  eapply safe_sub; [apply executions_walk|]. intros ex h6 Hs6 H6.
  set (exs := match ex with Ok c => c | Err _ => (0, None) end) in *.
  eapply safe_sub; [apply (level_walk profile recent exs.1 found acc)|].
  { destruct H5 as [(n & items & Hi & E)| ->]; [left|by right]. exists n, items. split; [by apply (did_mono h5)|done]. }
  intros lv h7 Hs7 H7. call now h8 Hs8 H8. cbn beta zeta in *.
  match goal with |- context [store_level _ ?nw _ _ _] => apply (store_walk profile nw) end.
  split.
  { destruct Hprof as [rd Hp]. exists rd. apply (did_mono h1); [set_solver|done]. }
  exists found, summary, recent, exs, now, lv.1.
  split; [exists g; split; [apply (did_mono h3); [set_solver|exact H3]|done]|].
  split; [exists s; split; [apply (did_mono h2); [set_solver|exact H2]|done]|].
  split; [eapply from_mono; [|exact H4]; set_solver|].
  split; [eapply executions_mono; [|exact H6]; set_solver|].
  split; [exact H8|]. split; [eapply level_mono; [|exact H7]; set_solver|].
  by destruct summary.
Qed.

End walk.

(** ** Levels *)

Lemma highest_met_spec levels acc ex :
  highest_met (reverse levels) acc ex =
  from_option lv_Name TrustLevelObserver (last (List.filter (λ l, levelMeets l acc ex) levels)).
Proof.
  induction levels as [|l levels IH] using rev_ind; [done|].
  rewrite reverse_snoc, List.filter_app. cbn [highest_met List.filter].
  destruct (levelMeets l acc ex); [by rewrite last_snoc|]. by rewrite app_nil_r.
Qed.

Lemma resolved_level acc ex policy :
  resolveTrustLevel acc ex policy = TrustLevelObserver ∨
  ∃ l, l ∈ gp_Levels (gp_Spec policy) ∧ lv_Name l = resolveTrustLevel acc ex policy ∧ levelMeets l acc ex = true.
Proof.
  unfold resolveTrustLevel. destruct (policyFound policy); cbn [negb]; [|by left].
  rewrite highest_met_spec. destruct (last _) as [l|] eqn:E; [right|by left]. cbn.
  apply last_Some_elem_of, list_elem_of_In, filter_In in E as [Hin Hm]. exists l. by rewrite list_elem_of_In.
Qed.

Lemma sorted_last {A} (R : A → A → Prop) l x y :
  (∀ x, R x x) → StronglySorted R l → last l = Some x → y ∈ l → R y x.
Proof.
  intros Hrefl. induction l as [|a l IH]; [done|]. intros [Hs Ha]%StronglySorted_inv Hl Hy.
  destruct l as [|b l].
  - injection Hl as ->. apply list_elem_of_singleton in Hy as ->. done.
  - rewrite last_cons_cons in Hl. apply elem_of_cons in Hy as [->|Hy]; [|by apply IH].
    rewrite Forall_forall in Ha. apply Ha. by apply last_Some_elem_of.
Qed.

Lemma sorted_filter {A} (R : A → A → Prop) f l : StronglySorted R l → StronglySorted R (List.filter f l).
Proof.
  induction 1 as [|a l Hs IH Ha]; cbn; [constructor|]. destruct (f a); [|done]. constructor; [done|].
  rewrite Forall_forall in *. intros x [Hx _]%list_elem_of_In%filter_In. by apply Ha, list_elem_of_In.
Qed.

(** Under a policy that lists its levels from the lowest to the highest, the
    level resolved is the highest whose accuracy and execution minima are both
    met, and Observer when none is. *)
Theorem resolve_highest acc ex policy :
  StronglySorted (λ l1 l2, rank (lv_Name l1) ≤ rank (lv_Name l2)) (gp_Levels (gp_Spec policy)) →
  om_Name (gp_Meta policy) ≠ ""%string →
  (∀ l, l ∈ gp_Levels (gp_Spec policy) → levelMeets l acc ex = true →
     rank (lv_Name l) ≤ rank (resolveTrustLevel acc ex policy)) ∧
  (resolveTrustLevel acc ex policy = TrustLevelObserver ∨
   ∃ l, l ∈ gp_Levels (gp_Spec policy) ∧ levelMeets l acc ex = true ∧
     lv_Name l = resolveTrustLevel acc ex policy).
Proof.
  intros Hs Hname. split; [|destruct (resolved_level acc ex policy) as [|(l & ? & ? & ?)]; eauto].
  intros l Hl Hm. unfold resolveTrustLevel, policyFound. rewrite (proj2 (String.eqb_neq _ _) Hname).
  destruct (gp_Levels (gp_Spec policy)) as [|l0 levels] eqn:Elv; [by apply elem_of_nil in Hl|].
  rewrite (proj2 (Z.ltb_lt _ _)) by (cbn; lia). cbn [negb andb]. rewrite highest_met_spec.
  assert (l ∈ List.filter (λ l, levelMeets l acc ex) (l0 :: levels)) as Hf.
  { by apply list_elem_of_In, filter_In; rewrite <- list_elem_of_In. }
  destruct (last _) as [x|] eqn:E; [|by apply last_None in E; rewrite E in Hf; apply elem_of_nil in Hf].
  cbn. by apply (sorted_last (λ l1 l2, rank (lv_Name l1) ≤ rank (lv_Name l2)) _ x l) in E; [|intros; lia|apply sorted_filter|].
Qed.

(** ** Windows *)

Lemma entry_order : weak_order entry_less.
Proof.
  split; unfold entry_less.
  - intros x y. destruct (ve_timestamp x), (ve_timestamp y); try done. rewrite Z.ltb_lt, Z.ltb_ge. lia.
  - intros x y z. destruct (ve_timestamp x), (ve_timestamp y), (ve_timestamp z); try done. rewrite !Z.ltb_ge. lia.
Qed.

(** The verdict an audit record reports, if it counts. *)
Definition counting (a : AuditRecord) : Prop :=
  au_Event (au_Spec a) = AuditEventVerdictSubmitted ∧
  skipped (map_str (au_Annotations (au_Spec a)) "verdictReasonCode") = false.

Lemma entry_of_some a e :
  entry_of a = Some e → counting a ∧ ve_timestamp e = Some (au_Timestamp (au_Spec a)) ∧
    ve_verdict e = map_str (au_Annotations (au_Spec a)) "verdict".
Proof.
  unfold entry_of, counting. destruct (String.eqb_spec (au_Event (au_Spec a)) AuditEventVerdictSubmitted); [|done].
  cbn [negb]. destruct (skipped _); [done|]. by intros [= <-].
Qed.

(** Whatever sort is used, the window holds [min count n] of the [n] counting
    verdicts listed, the rest is not later than any of it, and the accuracy
    and the number reported are those of the window. *)
Theorem window_most_recent count items :
  0 < count →
  ∃ rest, window count items ++ rest ≡ₚ omap entry_of items ∧
    Z.of_nat (length (window count items)) = Z.min count (Z.of_nat (length (omap entry_of items))) ∧
    (∀ e, e ∈ window count items → ∃ a, a ∈ items ∧ counting a ∧ ve_timestamp e = Some (au_Timestamp (au_Spec a)) ∧
       ve_verdict e = map_str (au_Annotations (au_Spec a)) "verdict") ∧
    (∀ e e' t t', e ∈ window count items → e' ∈ rest → ve_timestamp e = Some t → ve_timestamp e' = Some t' → t' ≤ t) ∧
    rolling count items =
      match omap entry_of items with
      | [] => (None, 0)
      | _ => (Some (accuracy_of (count_entries verdictCorrect (window count items))
                      (count_entries verdictPartial (window count items))
                      (Z.of_nat (length (window count items)))),
              Z.of_nat (length (window count items)))
      end.
Proof.
  intros Hc. set (l := sort_Slice entry_less (omap entry_of items)).
  pose proof (sort_perm entry_less (omap entry_of items)) as Hp. fold l in Hp.
  assert (window count items = take (Z.to_nat count) l) as Hw.
  { unfold window, clip. fold l. destruct (Z.ltb_spec count (Z.of_nat (length l))); [done|].
    rewrite take_ge; [done|lia]. }
  exists (drop (Z.to_nat count) l). rewrite <- (Permutation_length Hp).
  split; [by rewrite Hw, take_drop|]. split; [rewrite Hw, length_take; lia|]. split; [|split].
  - intros e He. assert (e ∈ omap entry_of items) as Hin.
    { rewrite <- Hp, <- (take_drop (Z.to_nat count) l). rewrite Hw in He. set_solver. }
    apply list_elem_of_omap in Hin as (a & Ha & (? & ? & ?)%entry_of_some). eauto.
  - intros e e' t t' He He' Ht Ht'. rewrite Hw in He.
    pose proof (sorted_take _ _ _ _ _ (sort_sorted entry_less (omap entry_of items) entry_order) He He') as Hle.
    cbn in Hle. unfold entry_less in Hle. rewrite Ht, Ht' in Hle. by apply Z.ltb_ge in Hle.
  - unfold rolling. rewrite Hw. destruct (omap entry_of items) as [|e0 es] eqn:E.
    + apply Permutation_nil_r in Hp. by rewrite Hp, take_nil.
    + destruct l as [|e1 l']; [by apply Permutation_nil_l in Hp|].
      destruct (Z.to_nat count) as [|n] eqn:En; [lia|]. by cbn [take].
Qed.

(** ** Stored levels *)

(** C25: Every status write of every execution, complete or not, changes only the
    status of a profile that was read; it raises a known level only to one of the
    policy whose minima the figures it stores meet; it lowers it only when the
    policy is gone, or when the grace period since the last promotion (or the
    creation) is over and the accuracy of the demotion window is under the band
    of the old level; and it stamps the
    promotion and the demotion time exactly when it promotes or otherwise
    changes the level. *)
Theorem trust_changes_justified nn t1 base new x t2 :
  emits (Trust_Reconcile nn) (t1 ++ Ev (S:=tcs) (TPatchProfile base new) x :: t2) →
  let old := current_level base in
  let level := atp_TrustLevel (atp_Status new) in
  let ns := om_Namespace (atp_Meta base) in
  (∃ rd, did t1 (TGetProfile rd nn) (Ok base)) ∧
  atp_Meta new = atp_Meta base ∧ atp_AgentIdentity new = atp_AgentIdentity base ∧
  (0 ≤ rank old < rank level → ∃ policy l acc,
     policy_read t1 ns (Some policy) ∧ l ∈ gp_Levels (gp_Spec policy) ∧ lv_Name l = level ∧
     atp_RecentAccuracy (atp_Status new) = Some acc ∧ levelMeets l acc (atp_TotalExecutions (atp_Status new)) = true) ∧
  (rank level < rank old → policy_read t1 ns None ∨ ∃ policy acc recent,
     policy_read t1 ns (Some policy) ∧ atp_RecentAccuracy (atp_Status new) = Some recent ∧
     demotion_from t1 ns (atp_AgentIdentity base) policy recent acc ∧ demotion_due t1 base policy acc) ∧
  (∃ now, did t1 TNow now ∧ atp_LastEvaluatedAt (atp_Status new) = Some now ∧
     atp_LastPromotedAt (atp_Status new) =
       (if (level <>? old) && (rank old <? rank level) then Some now else atp_LastPromotedAt (atp_Status base)) ∧
     atp_LastDemotedAt (atp_Status new) =
       (if (level <>? old) && negb (rank old <? rank level) then Some now else atp_LastDemotedAt (atp_Status base))).
Proof.
  intros He. pose proof (safe_emits _ _ _ _ _ _ _ _ _ (trust_walk nn) (any_all _) He) as Hp. cbn [app] in Hp.
  destruct Hp as [Hrd (found & summary & recent & ex & now & level & Hpol & Hsum & Hrec & Hex & Hnow & Hlv & ->)].
  cbn. split; [done|]. split; [done|]. split; [done|]. split; [|split; [|by exists now]].
  - intros Hlt. destruct Hlv as [->|[-> _]]; [lia|].
    destruct (resolved_level recent.1 ex.1 (default policy_zero found)) as [E|(l & Hin & E & Hm)].
    + rewrite E in Hlt. change (rank TrustLevelObserver) with 0 in Hlt. lia.
    + destruct found as [policy|]; [|by apply elem_of_nil in Hin]. exists policy, l, recent.1. done.
  - intros Hlt. destruct Hlv as [->|[-> Hd]]; [lia|]. destruct found as [policy|]; [right|by left].
    destruct (Hd Hlt policy eq_refl) as (acc & ? & ?). by exists policy, acc, recent.1.
Qed.

(** ** After the status write *)

Definition quiet (c : t_call) : Prop :=
  match c with TPatchProfile _ _ | TCreateAudit _ => False | _ => True end.

Definition failed (y : res AuditRecord) : Prop := ∃ e, y = Err e ∧ IsAlreadyExists e = false.

(** One to three attempts, each but the last failed, and the last one only if
    it is the third. *)
Definition audit_answers (l : list (res AuditRecord)) : Prop :=
  (length l <= 3)%nat ∧
  ∃ init y, l = init ++ [y] ∧ Forall failed init ∧ (failed y → length l = 3%nat).

Definition outcome (base new : AgentTrustProfile) (x : res AgentTrustProfile) (t : hist) (r : res unit) : Prop :=
  match x with
  | Err e => t = [] ∧ r = Err e
  | Ok stored =>
      r = Ok tt ∧
      if atp_TrustLevel (atp_Status new) ==? current_level base then t = []
      else ∃ now demoted answers,
        t = Ev (S:=tcs) TNow now ::
          ((λ y, Ev (S:=tcs) (TCreateAudit (own_trust_audit stored
              (trust_audit stored (current_level base) (atp_TrustLevel (atp_Status new)) demoted now))) y) <$> answers) ∧
        audit_answers answers
  end.

Definition finishes (t : hist) (r : res unit) : Prop :=
  Forall (λ e : event tcs, quiet (ev_call e)) t ∨
  ∃ t1 base new x t2, t = t1 ++ Ev (S:=tcs) (TPatchProfile base new) x :: t2 ∧
    Forall (λ e : event tcs, quiet (ev_call e)) t1 ∧ outcome base new x t2 r.

Lemma finishes_after {A} (p : prog tcs A) (k : A → prog tcs (res unit)) t r :
  safe (S:=tcs) any (λ _ c, quiet c) [] p (λ _ _, True) →
  (∀ a t', runs (k a) t' r → finishes t' r) →
  runs (bind p k) t r → finishes t r.
Proof.
  intros Hp Hk (a & u1 & u2 & -> & H1 & H2)%runs_bind.
  pose proof (safe_calls (S:=tcs) quiet [] p _ u1 a Hp H1) as Hu.
  destruct (Hk a u2 H2) as [Hq|(t1 & b & n & x & t2 & -> & Hq & Ho)]; [left; by apply Forall_app|].
  right. exists (u1 ++ t1), b, n, x, t2. rewrite <- app_assoc. split; [done|]. split; [by apply Forall_app|done].
Qed.

Lemma attempts_answers n a last t r :
  runs (audit_attempts (S n) a last) t r →
  ∃ answers, t = (λ y, Ev (S:=tcs) (TCreateAudit a) y) <$> answers ∧ (length answers <= S n)%nat ∧
    ∃ init y, answers = init ++ [y] ∧ Forall failed init ∧ (failed y → length answers = S n).
Proof.
  revert last t. induction n as [|n IH]; intros last t (x & t' & -> & Hr).
  - exists [x]. split; [|split; [done|by exists [], x]].
    destruct x as [y|e]; [by destruct Hr as [-> _]|]. cbn in Hr. by destruct (IsAlreadyExists e), Hr as [-> _].
  - assert (~ failed x ∧ t' = [] ∨ failed x ∧ ∃ last', runs (audit_attempts (S n) a last') t' r) as [[Hf ->]|[Hf [last' Hr']]].
    { destruct x as [y|e]; [left; destruct Hr as [-> _]; split; [by intros (? & ? & _)|done]|].
      cbn [bind trigger] in Hr. destruct (IsAlreadyExists e) eqn:E.
      - left. destruct Hr as [-> _]. split; [|done]. intros (e' & [= <-] & ?). congruence.
      - right. split; [by exists e|by exists (Some e)]. }
    + exists [x]. split; [done|]. split; [cbn; lia|]. exists [], x. split; [done|]. split; [done|by intros ?].
    + destruct (IH last' t' Hr') as (answers & -> & Hlen & init & y & -> & Hi & Hy).
      exists (x :: init ++ [y]). split; [done|]. split; [by apply le_n_S|]. exists (x :: init), y. split; [done|].
      split; [by constructor|]. intros Hfy. exact (f_equal S (Hy Hfy)).
Qed.

Lemma store_finishes base new demoted t r :
  runs (store_level base new (current_level base) (atp_TrustLevel (atp_Status new)) demoted) t r → finishes t r.
Proof.
  intros (x & t' & -> & Hr). right. exists [], base, new, x, t'. split; [done|]. split; [constructor|].
  destruct x as [stored|e]; [|by destruct Hr as [-> <-]]. cbn [bind trigger] in Hr. unfold outcome.
  destruct (_ ==? _); cbn [negb] in Hr; [by destruct Hr as [-> <-]|].
  apply runs_bind in Hr as (a & t1 & t2 & -> & Hr & -> & <-). split; [done|].
  destruct Hr as (now & t3 & -> & Hr). apply (attempts_answers 2 _ None) in Hr as (answers & -> & Hl & Ha).
  exists now, demoted, answers. rewrite app_nil_r. split; [done|]. by split.
Qed.
(** The parts before the status write make no other writes that matter here. *)
Ltac hush := repeat first
  [ exact I
  | match goal with |- safe _ _ _ (bind _ _) _ => apply safe_bind end
  | match goal with |- safe _ _ _ (trigger _ _) _ => split; [exact I|intros ? _] end
  | match goal with |- safe _ _ _ (Ret _) _ => cbn [safe] end
  | match goal with |- safe _ _ _ (if ?b then _ else _) _ => destruct b end
  | match goal with |- safe _ _ _ (match ?b with _ => _ end) _ => destruct b end
  | progress cbn beta zeta ].

Lemma profile_quiet nn : safe (S:=tcs) any (λ _ c, quiet c) [] (getOrBootstrapProfile nn) (λ _ _, True).
Proof. unfold getOrBootstrapProfile, registered_agent, observed_agent, bootstrap_profile. hush. Qed.
Lemma recent_quiet ns id found policy summary :
  safe (S:=tcs) any (λ _ c, quiet c) [] (recent_figures ns id found policy summary) (λ _ _, True).
Proof. unfold recent_figures, computeRollingAccuracy. hush. Qed.

Lemma demotion_quiet ns id recent found policy :
  safe (S:=tcs) any (λ _ c, quiet c) [] (computeDemotionAccuracy ns id recent found policy) (λ _ _, True).
Proof. unfold computeDemotionAccuracy, computeRollingAccuracy. hush. Qed.

Lemma executions_quiet ns id :
  safe (S:=tcs) any (λ _ c, quiet c) [] (countTerminalExecutions ns id) (λ _ _, True).
Proof. unfold countTerminalExecutions. hush. Qed.

Lemma level_quiet profile old resolved acc found policy :
  safe (S:=tcs) any (λ _ c, quiet c) [] (next_level profile old resolved acc found policy) (λ _ _, True).
Proof. unfold next_level, checkDemotion. hush. Qed.

(** Every reconcile writes the status at most once.  When that fails nothing
    follows and its error is returned; when it succeeds the reconcile
    succeeds, and a record of the change is created, with up to three
    attempts, exactly when the level changed. *)
Theorem trust_change_audited nn t r : runs (Trust_Reconcile nn) t r → finishes t r.
Proof.
  apply finishes_after; [apply profile_quiet|]. intros [profile|e] t1 Hr; [|destruct Hr as [-> _]; by left].
  destruct (_ ==? _); [destruct Hr as [-> _]; by left|]. revert Hr.
  apply finishes_after; [by hush|]. intros s t2 Hr. destruct (optional s) as [summary|e]; [|destruct Hr as [-> _]; by left].
  revert Hr. apply finishes_after; [by hush|]. intros g t3 Hr. destruct (optional g) as [found|e]; [|destruct Hr as [-> _]; by left].
  revert Hr. apply finishes_after; [apply recent_quiet|]. intros recent t4.
  apply finishes_after; [apply demotion_quiet|]. intros acc t5.
  apply finishes_after; [apply executions_quiet|]. intros ex t6. cbv zeta.
  apply finishes_after; [apply level_quiet|]. intros lv t7.
  apply finishes_after; [by hush|]. intros now t8. cbv zeta.
  match goal with |- runs (store_level _ ?nw _ _ _) _ _ → _ => apply (store_finishes profile nw) end.
Qed.

End facts.
