(* ===== verification/TrustExamples.v ===== *)
(** * Executions of the trust-profile controller

    Witnesses for [TrustFacts], and the executions behind two findings: a
    deleted policy demotes at once, and a repeated transition has the name of
    the record that is already there. *)

From Stdlib Require Import SpecFloat Sorted.
From S2P Require Import Prelude GoStd GoStrings Types Prog Kube Conditions Evaluation Naming GoFloat.
From S2P Require Import AgentRequestController LifecycleExamples.
From S2P Require Import TrustKube AccuracyController GoSort TrustProfileController TrustFacts.
Import MergeSort.

#[local] Existing Instance list_conditions.
#[local] Existing Instance toy_lib.

Definition ratio (a b : Z) : spec_float := f64_div (f64_of_int a) (f64_of_int b).

Definition level (name : string) (min : option spec_float) (ex : option Z) : GraduationLevel :=
  mkLevel name true false ((λ m, mkAccuracyBand (Some m) None None) <$> min) ((λ n, mkExecutionBand (Some n) None) <$> ex).

(** Advisors need half their verdicts right, trusted agents four fifths and an
    execution; a day of grace. *)
Definition policy : AgentGraduationPolicy :=
  mkGP (mkMeta "default" "" "default" "" ∅ ∅ 1 0 0 None [] [])
    (mkGPSpec 2 "" [level TrustLevelObserver None None; level TrustLevelAdvisor (Some (ratio 1 2)) None;
                    level TrustLevelTrusted (Some (ratio 4 5)) (Some 1)]
       (mkDemotion (ratio 1 10) 2 "24h")).

Definition bot_profile (lv : string) : AgentTrustProfile :=
  mkATP (mkMeta (ProfileNameForAgent "bot") "" "default" "u" ∅ ∅ 1 0 0 None [] []) "bot"
    (mkATPStatus lv None None 0 0 None (Some Hour) None None).

Definition verdict_audit (v : string) (t : Z) : AuditRecord :=
  mkAuditRecord (mkMeta "a" "" "default" "" ∅ ∅ 1 0 0 None [] [])
    (mkAudit t "bot" "r" AuditEventVerdictSubmitted "" "" "" None [] {["verdict" := v]} None).

Definition executed_request : AgentRequest :=
  mkAR (mkMeta "r" "" "default" "" ∅ ∅ 1 0 0 None [] [])
    (mkSpec "bot" "read" (mkTarget "k8s://" None ∅) "" "" "" "" None None None None None None None None None None)
    (mkStatus PhaseCompleted [cond ConditionExecuting ConditionTrue "" ""] None "" 0 None None "" "" "" "" None None None).

(** An API server with one profile, the policy or none, and some verdicts. *)
Definition server (lv : string) (found : bool) (audits : list AuditRecord) (now : Z) (c : t_call) : t_resp c :=
  match c with
  | TNow => now
  | TGetAR _ => Ok executed_request
  | TGetSummary _ _ => Err (EApi NotFound)
  | TCreateSummary d | TPatchSummary _ d => Ok d
  | TGetProfile _ _ => Ok (bot_profile lv)
  | TCreateProfile p | TPatchProfile _ p => Ok p
  | TGetPolicy _ => if found then Ok policy else Err (EApi NotFound)
  | TListRegsByProfile _ _ | TListRegs _ => Ok []
  | TListARsByProfile _ _ | TListARs _ => Ok [executed_request]
  | TListAudits _ _ => Ok audits
  | TCreateAudit a => Ok a
  end.

Definition nn : NamespacedName := NN "default" (ProfileNameForAgent "bot").

Definition good : list AuditRecord :=
  [verdict_audit verdictIncorrect 1; verdict_audit verdictCorrect 3; verdict_audit verdictCorrect 2].
Definition bad : list AuditRecord :=
  [verdict_audit verdictCorrect 1; verdict_audit verdictIncorrect 3; verdict_audit verdictIncorrect 2].

(** The levels stored by a reconcile. *)
Definition stored (t : list (event tcs)) : list string :=
  omap (λ e : event tcs, match ev_call e with TPatchProfile _ n => Some (atp_TrustLevel (atp_Status n)) | _ => None end) t.

Definition run (lv : string) (found : bool) (audits : list AuditRecord) (now : Z) : list (event tcs) :=
  (play (S:=tcs) (server lv found audits now) (Trust_Reconcile nn)).1.

(** The two latest verdicts decide; a day after the last promotion and not
    before; a missing policy demotes at once, grace or not. *)
Example levels_stored :
  stored (run TrustLevelAdvisor true good (2 * Hour)) = [TrustLevelTrusted] ∧
  stored (run TrustLevelTrusted true bad (2 * Hour)) = [TrustLevelTrusted] ∧
  stored (run TrustLevelTrusted true bad (25 * Hour)) = [TrustLevelObserver] ∧
  stored (run TrustLevelTrusted false good (2 * Hour)) = [TrustLevelObserver].
Proof. vm_compute. auto. Qed.

(** The grace period runs from the promotion, not from the fall: a day after
    it, the first evaluation that finds the accuracy too low demotes. *)
Example grace_runs_from_promotion :
  stored (run TrustLevelTrusted true good (25 * Hour)) = [TrustLevelTrusted] ∧
  stored (run TrustLevelTrusted true bad (25 * Hour)) = [TrustLevelObserver].
Proof. vm_compute. auto. Qed.

(** A reconcile that demotes: its status write is its ninth call. *)
Lemma trust_changes_justified_witness :
  ∃ t, (∃ rd, did t (TGetProfile rd nn) (Ok (bot_profile TrustLevelTrusted))) ∧
    (policy_read t "default" None ∨
     ∃ p acc, policy_read t "default" (Some p) ∧ demotion_due t (bot_profile TrustLevelTrusted) p acc).
Proof.
  pose (o := server TrustLevelTrusted true bad (25 * Hour) : ∀ c : op tcs, ans tcs c).
  pose (new := set_atp_Status
    (mkATPStatus TrustLevelObserver None (Some (ratio 0 1)) 2 1 (Some (ratio 1 1)) (Some Hour) (Some (25 * Hour))
       (Some (25 * Hour))) (bot_profile TrustLevelTrusted)).
  assert (ev_call <$> (play o (Trust_Reconcile nn)).1 !! 8%nat
          = Some (TPatchProfile (bot_profile TrustLevelTrusted) new : op tcs)) as Hc by (vm_compute; reflexivity).
  destruct (trust_changes_justified nn _ _ _ _ _ (play_reaches o _ _ _ Hc)) as (Hr & _ & _ & _ & Hd & _).
  eexists. split; [exact Hr|].
  destruct Hd as [Hn|(p & acc & recent & Hp & _ & _ & Hdue)]; [reflexivity|left; exact Hn|right].
  exists p, acc. split; [exact Hp|exact Hdue].
Defined.

Lemma trust_change_audited_witness :
  finishes (run TrustLevelTrusted true bad (25 * Hour)) (Ok tt) ∧
  stored (run TrustLevelTrusted true bad (25 * Hour)) = [TrustLevelObserver].
Proof.
  split; [|vm_compute; reflexivity].
  pose proof (play_runs (S:=tcs) (server TrustLevelTrusted true bad (25 * Hour)) (Trust_Reconcile nn)) as H.
  assert ((play (S:=tcs) (server TrustLevelTrusted true bad (25 * Hour)) (Trust_Reconcile nn)).2 = Ok tt) as E
    by (vm_compute; reflexivity).
  rewrite E in H. exact (trust_change_audited nn _ _ H).
Defined.

Lemma resolve_highest_witness :
  rank TrustLevelAdvisor ≤ rank (resolveTrustLevel (ratio 3 5) 7 policy) ∧
  resolveTrustLevel (ratio 3 5) 7 policy = TrustLevelAdvisor.
Proof.
  split; [|vm_compute; reflexivity].
  apply (proj1 (resolve_highest (ratio 3 5) 7 policy
    ltac:(repeat constructor; vm_compute; discriminate) ltac:(discriminate))
    (level TrustLevelAdvisor (Some (ratio 1 2)) None)); [set_solver|vm_compute; reflexivity].
Defined.

Lemma window_most_recent_witness :
  ∃ rest, window 2 bad ++ rest ≡ₚ omap entry_of bad ∧ length (window 2 bad) = 2%nat ∧
    count_entries verdictCorrect (window 2 bad) = 0.
Proof.
  destruct (window_most_recent 2 bad) as (rest & Hp & _); [reflexivity|].
  exists rest. split; [exact Hp|]. split; vm_compute; reflexivity.
Defined.

(** The name of the record depends on the profile and the two levels only:
    losing and regaining a level twice names the same record twice, and the
    second creation is answered [AlreadyExists]. *)
Example repeated_transition_same_name stored d1 d2 t1 t2 :
  om_Name (au_Meta (own_trust_audit stored (trust_audit stored "Trusted" "Observer" d1 t1))) =
  om_Name (au_Meta (own_trust_audit stored (trust_audit stored "Trusted" "Observer" d2 t2))).
Proof. reflexivity. Qed.
