(* ===== verification/Jwt.v ===== *)
(** * AIP tokens ([internal/jwt/manager.go])

    The manager signs a token for an approved request and validates tokens
    with the current key, or with the previous one for five minutes after a
    rotation.  The clock is injected in the source; here every reading of it
    is an argument.  The fields are read and written under one mutex, so each
    operation is one step. *)

From S2P Require Import Prelude GoStd GoStrings.

Definition keyRotationGracePeriod : Z := 5 * Minute.
Definition tokenTTL : Z := 30 * Minute.
Definition issuer : string := "aip-gateway".

(** [jwt.NumericDate]: whole seconds. *)
Definition NewNumericDate (t : Z) : Z := t / Second.

Record Claims := mkClaims {
  jc_ExpiresAt : option Z;
  jc_NotBefore : option Z;
  jc_IssuedAt : option Z;
  jc_Issuer : string;
  jc_Subject : string;
  jc_ID : string;
  jc_Action : string;
  jc_Resource : string;
  jc_Request : string }.

(** The registered claims hold at an instant, as [jwt.ParseWithClaims] checks
    them with [WithIssuer] and [WithTimeFunc]. *)
Definition claims_hold (c : Claims) (now : Z) : Prop :=
  match jc_ExpiresAt c with Some e => now < e * Second | None => True end ∧
  match jc_NotBefore c with Some n => n * Second ≤ now | None => True end ∧
  jc_Issuer c = issuer.

(** The key and token libraries.  [signed_by pk c tok]: [tok] carries the
    claims [c] and its EdDSA signature verifies with [pk].  Strings survive
    the JSON encoding of claims when they are valid UTF-8 ([utf8]). *)
Class JwtLib := {
  PrivateKey : Type;
  PublicKey : Type;
  #[global] publickey_eq_dec :: EqDecision PublicKey;
  Public : PrivateKey → PublicKey;
  pem_Decode : string → option string;
  (** [None] on the right: not an Ed25519 key. *)
  ParsePKCS8PrivateKey : string → error + option PrivateKey;
  utf8 : string → Prop;
  signed_by : PublicKey → Claims → string → Prop;
  SignedString : PrivateKey → Claims → res string;
  (** [ParseWithClaims tok pk now]: with the key function that accepts EdDSA
      only. *)
  ParseWithClaims : string → PublicKey → Z → res Claims;
  signed_spec : ∀ sk c tok, SignedString sk c = Ok tok →
    Forall utf8 [jc_Issuer c; jc_Subject c; jc_ID c; jc_Action c; jc_Resource c; jc_Request c] →
    signed_by (Public sk) c tok;
  signed_unique : ∀ pk pk' c c' tok, signed_by pk c tok → signed_by pk' c' tok → c = c';
  parse_spec : ∀ tok pk now c,
    ParseWithClaims tok pk now = Ok c ↔ signed_by pk c tok ∧ claims_hold c now }.

Section manager.
Context `{JL : JwtLib}.

Record Manager := mkManager {
  privateKey : PrivateKey;
  publicKey : PublicKey;
  prevPublic : option PublicKey;
  lastRotate : Z }.

(** From PEM data to an Ed25519 key. *)
Definition parse_key (data : string) : res PrivateKey :=
  match pem_Decode data with
  | None => Err (EMsg "no PEM block found in key data")
  | Some block =>
      match ParsePKCS8PrivateKey block with
      | inl e => Err (EWrap "parse private key" e)
      | inr None => Err (EMsg "not an Ed25519 key")
      | inr (Some pk) => Ok pk
      end
  end.

Definition NewManagerFromPEM (pemData : string) (now : Z) : res Manager :=
  match parse_key pemData with
  | Ok pk => Ok (mkManager pk (Public pk) None now)
  | Err e => Err e
  end.

(** [data] is the answer of [os.ReadFile]. *)
Definition ReloadKey (data : res string) (now : Z) (m : Manager) : Manager * option error :=
  match data with
  | Err e => (m, Some (EWrap "read key file" e))
  | Ok data =>
      match parse_key data with
      | Err e => (m, Some e)
      | Ok pk =>
          let newPub := Public pk in
          if bool_decide (newPub = publicKey m) then (m, None)
          else (mkManager pk newPub (Some (publicKey m)) now, None)
      end
  end.

(** [%s-%d] of the request and the nanoseconds. *)
Definition token_id (requestName : string) (now : Z) : string :=
  (requestName +:+ "-" +:+ FormatInt10 now)%string.

Definition new_claims (agentID action resource requestName : string) (now : Z) : Claims :=
  mkClaims (Some (NewNumericDate (now + tokenTTL))) None (Some (NewNumericDate now)) issuer agentID
    (token_id requestName now) action resource requestName.

Definition MintToken (m : Manager) (agentID action resource requestName : string) (now : Z) : res (string * Z) :=
  match SignedString (privateKey m) (new_claims agentID action resource requestName now) with
  | Ok signed => Ok (signed, now + tokenTTL)
  | Err e => Err (EWrap "sign token" e)
  end.

Definition validateWithKey (tokenString : string) (pubKey : PublicKey) (now : Z) : res Claims :=
  match ParseWithClaims tokenString pubKey now with
  | Ok claims => Ok claims
  | Err e => Err (EWrap "parse token" e)
  end.

(** The clock is read by the first parse, by the grace check, and by the
    second parse. *)
Definition ValidateToken (m : Manager) (tokenString : string) (now1 now2 now3 : Z) : res Claims :=
  match validateWithKey tokenString (publicKey m) now1 with
  | Ok claims => Ok claims
  | Err err =>
      match prevPublic m with
      | Some prevPub =>
          if now2 - lastRotate m <=? keyRotationGracePeriod then
            match validateWithKey tokenString prevPub now3 with
            | Ok claims => Ok claims
            | Err _ => Err err
            end
          else Err err
      | None => Err err
      end
  end.

(** ** Facts *)

Lemma validate_with_key tok pk now c :
  validateWithKey tok pk now = Ok c ↔ signed_by pk c tok ∧ claims_hold c now.
Proof.
  unfold validateWithKey. rewrite <- parse_spec. destruct (ParseWithClaims tok pk now); [done|].
  by split; intros [=].
Qed.

(** The keys a manager accepts at an instant. *)
Definition accepts (m : Manager) (pk : PublicKey) (now : Z) : Prop :=
  pk = publicKey m ∨ (prevPublic m = Some pk ∧ now - lastRotate m ≤ keyRotationGracePeriod).

Lemma validate_sound m tok n1 n2 n3 c :
  ValidateToken m tok n1 n2 n3 = Ok c →
  ∃ pk n, signed_by pk c tok ∧ accepts m pk n2 ∧ claims_hold c n ∧ (n = n1 ∨ n = n3).
Proof.
  unfold ValidateToken. destruct (validateWithKey tok (publicKey m) n1) as [c1|e] eqn:E1.
  - intros [= <-]. apply validate_with_key in E1 as [? ?]. exists (publicKey m), n1.
    split; [done|]. split; [by left|]. auto.
  - destruct (prevPublic m) as [prev|] eqn:Ep; [|done].
    destruct (Z.leb_spec (n2 - lastRotate m) keyRotationGracePeriod); [|done].
    destruct (validateWithKey tok prev n3) as [c3|] eqn:E3; [|done]. intros [= <-].
    apply validate_with_key in E3 as [? ?]. exists prev, n3.
    split; [done|]. split; [by right|]. auto.
Qed.

Lemma validate_complete m tok n1 n2 n3 c pk :
  signed_by pk c tok → accepts m pk n2 → claims_hold c n1 → claims_hold c n3 →
  ValidateToken m tok n1 n2 n3 = Ok c.
Proof.
  intros Hs Ha H1 H3. unfold ValidateToken.
  destruct (validateWithKey tok (publicKey m) n1) as [c1|e] eqn:E1.
  - apply validate_with_key in E1 as [Hs1 _]. by rewrite (signed_unique _ _ _ _ _ Hs1 Hs).
  - assert (validateWithKey tok pk n3 = Ok c) as E3 by (by apply validate_with_key).
    destruct Ha as [->|[-> Hg]].
    + assert (validateWithKey tok (publicKey m) n1 = Ok c) by (by apply validate_with_key). congruence.
    + rewrite (proj2 (Z.leb_le _ _) Hg). by rewrite E3.
Qed.

(** ** Rotations *)

(** The manager after the reload attempts [l], each with what the file held
    and the instant. *)
Definition key_after (m : Manager) (l : list (res string * Z)) : Manager :=
  foldl (λ m r, (ReloadKey r.1 r.2 m).1) m l.

(** [pk] was the key until a reload at [t]. *)
Definition replaced_at (m : Manager) (l : list (res string * Z)) (pk : PublicKey) (t : Z) : Prop :=
  ∃ l1 data l2, l = l1 ++ (data, t) :: l2 ∧ publicKey (key_after m l1) = pk.

Lemma reload_cases data now m :
  (ReloadKey data now m).1 = m ∨
  ∃ sk, Public sk ≠ publicKey m ∧ (ReloadKey data now m).1 = mkManager sk (Public sk) (Some (publicKey m)) now.
Proof.
  unfold ReloadKey. destruct data as [d|e]; [|by left]. destruct (parse_key d) as [sk|e]; [|by left].
  case_bool_decide; [by left|right; eauto].
Qed.

(** The keys belong together, and the previous one is what the last change
    replaced. *)
Definition rotation_inv (m0 : Manager) (l : list (res string * Z)) (m : Manager) : Prop :=
  publicKey m = Public (privateKey m) ∧
  ∀ pk, prevPublic m = Some pk → pk ≠ publicKey m ∧ replaced_at m0 l pk (lastRotate m).

Lemma key_after_snoc m l r : key_after m (l ++ [r]) = (ReloadKey r.1 r.2 (key_after m l)).1.
Proof. unfold key_after. by rewrite foldl_snoc. Qed.

Lemma rotations m0 l :
  prevPublic m0 = None → publicKey m0 = Public (privateKey m0) → rotation_inv m0 l (key_after m0 l).
Proof.
  intros Hn Hp. induction l as [|[data now] l [IH1 IH2]] using rev_ind.
  { split; [done|]. intros pk. cbn. congruence. }
  rewrite key_after_snoc. cbn [fst snd].
  destruct (reload_cases data now (key_after m0 l)) as [E|(sk & Hne & E)]; rewrite E.
  - split; [done|]. intros pk Hpk. destruct (IH2 pk Hpk) as (Hd & l1 & d & l2 & El & H1).
    split; [done|]. exists l1, d, (l2 ++ [(data, now)]). split; [|done]. by rewrite El at 1; rewrite <- app_assoc.
  - split; [done|]. intros pk [= <-]. split; [done|]. by exists l, data, [].
Qed.

(** C12: After any sequence of reloads, of good or broken key files, a token is
    accepted only if it is signed, issued by the gateway, unexpired, and
    signed with the current key or with the key that a reload at most five
    minutes ago replaced. *)
Theorem token_validation_sound m0 l tok n1 n2 n3 c pem now0 :
  NewManagerFromPEM pem now0 = Ok m0 →
  ValidateToken (key_after m0 l) tok n1 n2 n3 = Ok c →
  ∃ pk n, signed_by pk c tok ∧ claims_hold c n ∧ (n = n1 ∨ n = n3) ∧
    (pk = publicKey (key_after m0 l) ∨
     ∃ t, n2 - t ≤ keyRotationGracePeriod ∧ replaced_at m0 l pk t).
Proof.
  intros Hm (pk & n & Hs & Ha & Hc & Hn)%validate_sound. exists pk, n. split; [done|]. split; [done|]. split; [done|].
  assert (prevPublic m0 = None ∧ publicKey m0 = Public (privateKey m0)) as [H1 H2].
  { unfold NewManagerFromPEM in Hm. destruct (parse_key pem); [|done]. by injection Hm as <-. }
  destruct Ha as [->|[Hp Hg]]; [by left|right]. exists (lastRotate (key_after m0 l)). split; [done|].
  by apply (rotations m0 l H1 H2).
Qed.

(** C38: A minted token is accepted, with the claims it was minted for, until its
    expiry (rounded down to the second), by a manager that still has the key
    or replaced it at most five minutes ago. *)
Theorem token_roundtrip m0 l m agentID action resource requestName now tok exp m' n1 n2 n3 :
  prevPublic m0 = None → publicKey m0 = Public (privateKey m0) → m = key_after m0 l →
  MintToken m agentID action resource requestName now = Ok (tok, exp) →
  Forall utf8 [issuer; agentID; token_id requestName now; action; resource; requestName] →
  accepts m' (publicKey m) n2 → n1 < exp / Second * Second → n3 < exp / Second * Second →
  ValidateToken m' tok n1 n2 n3 = Ok (new_claims agentID action resource requestName now).
Proof.
  intros Hn Hp -> Hm Hu Ha H1 H3. unfold MintToken in Hm.
  destruct (SignedString _ _) as [tok'|] eqn:E; [|done]. injection Hm as -> <-.
  destruct (rotations m0 l Hn Hp) as [Hk _]. apply signed_spec in E; [|done]. rewrite <- Hk in E.
  by eapply validate_complete; [exact E|exact Ha|split; [|split; done]..].
Qed.

End manager.

(** ** A library with two keys, and executions *)

Module ToyJwt.

#[local] Instance claims_eq_dec : EqDecision Claims.
Proof. solve_decision. Defined.

#[local] Instance claims_hold_dec c now : Decision (claims_hold c now).
Proof. unfold claims_hold. destruct (jc_ExpiresAt c), (jc_NotBefore c); apply _. Defined.

Section toy.
(** The one set of claims that it can sign. *)
Context (sample : Claims).

Definition token_of (pk : Z) : string := ("token-" +:+ pretty pk)%string.
Definition signed (pk : Z) (c : Claims) (tok : string) : Prop := c = sample ∧ tok = token_of pk.
Definition sign (sk : Z) (c : Claims) : res string :=
  if bool_decide (c = sample) then Ok (token_of sk) else Err (EMsg "unsupported").
Definition parse (tok : string) (pk now : Z) : res Claims :=
  if bool_decide (tok = token_of pk ∧ claims_hold sample now) then Ok sample else Err (EMsg "invalid").
Definition parse_pkcs8 (s : string) : error + option Z :=
  if s ==? "k1" then inr (Some 1) else if s ==? "k2" then inr (Some 2) else inl (EMsg "bad").

Definition toy_jwt : JwtLib.
Proof.
  refine {| PrivateKey := Z; PublicKey := Z; Public := λ k, k; pem_Decode := λ s, Some s;
            ParsePKCS8PrivateKey := parse_pkcs8; utf8 := λ _, True; signed_by := signed;
            SignedString := sign; ParseWithClaims := parse |}.
  - intros sk c tok H _. unfold sign in H. case_bool_decide; [|done]. by injection H as <-.
  - by intros pk pk' c c' tok [-> _] [-> _].
  - intros tok pk now c. unfold parse, signed. case_bool_decide as H; split.
    + intros [= <-]. naive_solver.
    + by intros [[-> _] _].
    + done.
    + intros [[-> ->] ?]. by destruct H.
Defined.

End toy.

Definition sample : Claims := new_claims "bot" "github/merge" "github://o/r" "r1" (100 * Second).
#[local] Instance toy : JwtLib := toy_jwt sample.

Definition m1 : Manager := mkManager (1 : PrivateKey) (1 : PublicKey) None 0.
(** A broken file is ignored; then the key is rotated at 200 seconds. *)
Definition history : list (res string * Z) := [(Ok "garbage"%string, 150 * Second); (Ok "k2"%string, 200 * Second)].

Example rotation_grace :
  MintToken m1 "bot" "github/merge" "github://o/r" "r1" (100 * Second) = Ok (token_of 1, 1900 * Second) ∧
  ValidateToken (key_after m1 history) (token_of 1) (500 * Second) (500 * Second) (500 * Second) = Ok sample ∧
  (∃ e, ValidateToken (key_after m1 history) (token_of 1) (501 * Second) (501 * Second) (501 * Second) = Err e) ∧
  ∃ e, ValidateToken m1 (token_of 1) (1900 * Second) (1900 * Second) (1900 * Second) = Err e.
Proof. repeat split; try (vm_compute; reflexivity); eexists; vm_compute; reflexivity. Qed.

Lemma token_validation_sound_witness :
  ∃ pk n, signed_by pk sample (token_of 1) ∧ claims_hold sample n ∧
    (pk = publicKey (key_after m1 history) ∨
     ∃ t, 500 * Second - t ≤ keyRotationGracePeriod ∧ replaced_at m1 history pk t).
Proof.
  destruct (token_validation_sound m1 history (token_of 1) (500 * Second) (500 * Second) (500 * Second) sample "k1" 0)
    as (pk & n & H1 & H2 & _ & H3); [reflexivity|vm_compute; reflexivity|].
  exists pk, n. split; [exact H1|]. split; [exact H2|exact H3].
Defined.

Lemma token_roundtrip_witness :
  ValidateToken (key_after m1 history) (token_of 1) (500 * Second) (500 * Second) (500 * Second) = Ok sample.
Proof.
  apply (token_roundtrip m1 [] m1 "bot" "github/merge" "github://o/r" "r1" (100 * Second) (token_of 1) (1900 * Second)).
  - reflexivity.
  - reflexivity.
  - reflexivity.
  - vm_compute. reflexivity.
  - repeat constructor.
  - right. split; [reflexivity|vm_compute; discriminate].
  - vm_compute. reflexivity.
  - vm_compute. reflexivity.
Defined.

End ToyJwt.
