(* ===== verification/McpServers.v ===== *)
(** * The gateway's MCP servers ([cmd/gateway/mcp_watch.go], [mcp_registry.go])

    The cache maps names to pointers; handlers keep the pointer they got and
    write session state through it, the watch goroutine replaces entries, and
    snapshots share the slice of tools.  So the model has a heap: servers,
    slices of tools, and the map.  The cache's methods hold its mutex for
    their whole body and are one step each; the writes of [ensureSession] and
    [resetSession] on an object are steps of their own. *)

From S2P Require Import Prelude GoStd GoStrings Types.

(** ** Data *)

Record MCPTool := mkTool { mt_Name : string; mt_ReadOnly : bool; mt_Schema : option JSON }.

(** [MCPServer] of the registry; [Tools] is a reference to a slice. *)
Record MCPServer := mkServer_ {
  ms_Name : string;
  ms_URL : string;
  ms_Status : string;
  ms_Tools : nat;
  ms_BearerToken : string;
  ms_SessionID : string;
  ms_Pinned : bool;
  ms_sessionReady : bool }.

Record SecretKeySelector := mkSecretRef { sk_Name : string; sk_Key : string }.

(** The custom resource. *)
Record MCPServerCRD := mkMCPServerCRD {
  mcs_Meta : ObjectMeta;
  mcs_URL : string;
  mcs_SecretNamespace : string;
  mcs_BearerTokenSecretRef : option SecretKeySelector;
  mcs_ReadOnlyTools : list string;
  mcs_Tools : list (string * bool)   (** [Status.Tools] *) }.

Record mcpServerCache := mkMcpCache {
  mc_objs : gmap nat MCPServer;
  mc_slices : gmap nat (list MCPTool);
  mc_servers : gmap string nat;
  mc_next : nat }.

Definition newMCPServerCache : mcpServerCache := mkMcpCache ∅ ∅ ∅ 0.

(** ** Methods of the cache *)

(** [c.servers[name] = &srv]. *)
Definition put (name : string) (srv : MCPServer) (c : mcpServerCache) : mcpServerCache :=
  mkMcpCache (<[mc_next c := srv]> (mc_objs c)) (mc_slices c) (<[name := mc_next c]> (mc_servers c)) (S (mc_next c)).

(** A new object that no name refers to yet. *)
Definition new_object (srv : MCPServer) (c : mcpServerCache) : nat * mcpServerCache :=
  (mc_next c, mkMcpCache (<[mc_next c := srv]> (mc_objs c)) (mc_slices c) (mc_servers c) (S (mc_next c))).

(** A new slice; its reference is the one returned. *)
Definition make_slice (tools : list MCPTool) (c : mcpServerCache) : nat * mcpServerCache :=
  (mc_next c, mkMcpCache (mc_objs c) (<[mc_next c := tools]> (mc_slices c)) (mc_servers c) (S (mc_next c))).

Definition cache_get (c : mcpServerCache) (name : string) : option (nat * MCPServer) :=
  p ← mc_servers c !! name; o ← mc_objs c !! p; Some (p, o).

Definition listNames (c : mcpServerCache) : list string := (map_to_list (mc_servers c)).*1.

Definition seed (name url bearerToken : string) (tools : nat) (c : mcpServerCache) : mcpServerCache :=
  put name (mkServer_ name url "" tools bearerToken "" true false) c.

Definition mcp_upsert (name url bearerToken : string) (tools : nat) (c : mcpServerCache) : mcpServerCache :=
  let '(sessionID, ready, pinned) :=
    match cache_get c name with
    | Some (_, existing) =>
        if (ms_URL existing ==? url) && (ms_BearerToken existing ==? bearerToken)
        then (ms_SessionID existing, ms_sessionReady existing, ms_Pinned existing)
        else (""%string, false, false)
    | None => (""%string, false, false)
    end in
  put name (mkServer_ name url "" tools bearerToken sessionID pinned ready) c.

Definition commitSession (name sessionID : string) (sessionReady : bool) (expectedURL : string) (c : mcpServerCache)
  : mcpServerCache :=
  match cache_get c name with
  | None => c
  | Some (_, srv) =>
      if ms_URL srv <>? expectedURL then c
      else put name (mkServer_ (ms_Name srv) (ms_URL srv) "" (ms_Tools srv) (ms_BearerToken srv)
                       sessionID (ms_Pinned srv) sessionReady) c
  end.

Definition cache_resetSession (name expectedURL : string) (c : mcpServerCache) : mcpServerCache :=
  commitSession name "" false expectedURL c.

Definition mcp_remove (name : string) (c : mcpServerCache) : mcpServerCache :=
  mkMcpCache (mc_objs c) (mc_slices c) (delete name (mc_servers c)) (mc_next c).

(** ** Writes through a pointer *)

Definition set_session (sessionID : string) (o : MCPServer) : MCPServer :=
  mkServer_ (ms_Name o) (ms_URL o) (ms_Status o) (ms_Tools o) (ms_BearerToken o) sessionID (ms_Pinned o)
    (ms_sessionReady o).
Definition set_ready (b : bool) (o : MCPServer) : MCPServer :=
  mkServer_ (ms_Name o) (ms_URL o) (ms_Status o) (ms_Tools o) (ms_BearerToken o) (ms_SessionID o) (ms_Pinned o) b.

Definition write (p : nat) (f : MCPServer → MCPServer) (c : mcpServerCache) : mcpServerCache :=
  mkMcpCache (alter f p (mc_objs c)) (mc_slices c) (mc_servers c) (mc_next c).

(** The name after the last slash. *)
Definition bare_name (n : string) : string := match cut_last slash n with Some (_, b) => b | None => n end.

(** The end of [fetchSchemasForServer]: the schemas by tool name. *)
Definition fill_schema (schemaByName : gmap string JSON) (t : MCPTool) : MCPTool :=
  match schemaByName !! bare_name (mt_Name t) with
  | Some s => mkTool (mt_Name t) (mt_ReadOnly t) (Some s)
  | None => t
  end.

Definition fill_schemas (slice : nat) (schemaByName : gmap string JSON) (c : mcpServerCache) : mcpServerCache :=
  mkMcpCache (mc_objs c) (alter (fmap (fill_schema schemaByName)) slice (mc_slices c)) (mc_servers c) (mc_next c).

(** ** The watch *)

(** The token of a server, given the answer of [cl.Get] for its Secret; [None]
    is the early return that keeps the cached entry. *)
Definition crd_token (crd : MCPServerCRD) (secret : res (gmap string string)) : option string :=
  match mcs_BearerTokenSecretRef crd with
  | None => Some ""
  | Some ref =>
      if mcs_SecretNamespace crd ==? "" then None
      else
        let key := if sk_Key ref ==? "" then "token" else sk_Key ref in
        match secret with
        | Err e => if negb (IsNotFound e) then None else Some ""
        | Ok data => Some (map_str data key)
        end
  end%string.

Definition tools_of_crd (crd : MCPServerCRD) : list MCPTool := (λ t, mkTool t.1 t.2 None) <$> mcs_Tools crd.

Definition crd_name (crd : MCPServerCRD) : string := om_Name (mcs_Meta crd).

Definition upsertMCPServerFromCRD (crd : MCPServerCRD) (secret : res (gmap string string)) (c : mcpServerCache)
  : mcpServerCache :=
  match crd_token crd secret with
  | None => c
  | Some bearerToken =>
      let '(tools, c) := make_slice (tools_of_crd crd) c in
      mcp_upsert (crd_name crd) (mcs_URL crd) bearerToken tools c
  end.

(** One name of the eviction loop: not listed and not pinned. *)
Definition evict (present : list string) (c : mcpServerCache) (name : string) : mcpServerCache :=
  if bool_decide (name ∈ present) then c
  else match cache_get c name with
       | Some (_, srv) => if ms_Pinned srv then c else mcp_remove name c
       | None => mcp_remove name c
       end.

(** The listed resources, each with the answer for its Secret, then the
    eviction. *)
Definition mcp_relist (items : list (MCPServerCRD * res (gmap string string))) (c : mcpServerCache)
  : mcpServerCache :=
  let c := fold_left (λ c i, upsertMCPServerFromCRD i.1 i.2 c) items c in
  fold_left (evict ((λ i, crd_name i.1) <$> items)) (listNames c) c.

Inductive mcp_event :=
| McpAdded (crd : MCPServerCRD) (secret : res (gmap string string))
| McpModified (crd : MCPServerCRD) (secret : res (gmap string string))
| McpDeleted (crd : MCPServerCRD)
| McpOther
| McpError.

(** [None]: the watch ends. *)
Definition mcp_watch_step (c : mcpServerCache) (e : mcp_event) : option mcpServerCache :=
  match e with
  | McpAdded crd secret | McpModified crd secret => Some (upsertMCPServerFromCRD crd secret c)
  | McpDeleted crd => Some (mcp_remove (crd_name crd) c)
  | McpOther => Some c
  | McpError => None
  end.

(** The events until the channel closes or an error ends the watch; the flag
    says whether the loop returned without an error. *)
Fixpoint mcp_watch_events (c : mcpServerCache) (es : list mcp_event) : mcpServerCache * bool :=
  match es with
  | [] => (c, true)
  | e :: es' => match mcp_watch_step c e with Some c' => mcp_watch_events c' es' | None => (c, false) end
  end.

(** [watchMCPServersOnce]: what the list answered after its retries, and the
    events of the watch; [None] is an error. *)
Definition watchMCPServersOnce (listed : option (list (MCPServerCRD * res (gmap string string))))
  (watched : option (list mcp_event)) (c : mcpServerCache) : mcpServerCache * bool :=
  match listed with
  | None => (c, false)
  | Some items =>
      let c := mcp_relist items c in
      match watched with None => (c, false) | Some es => mcp_watch_events c es end
  end.

(** [watchMCPServers]: cycle after cycle, whatever each returned. *)
Definition watchMCPServers
  (cycles : list (option (list (MCPServerCRD * res (gmap string string))) * option (list mcp_event)))
  (c : mcpServerCache) : mcpServerCache :=
  fold_left (λ c cy, (watchMCPServersOnce cy.1 cy.2 c).1) cycles c.

(** ** Interleavings

    What the watch goroutine, start-up and any number of handlers do to the
    cache, one step at a time.  [issued] collects the session ids that
    upstream servers gave out, with their URLs.  A handler commits the fields
    of an object it holds, read at possibly different moments: a session id
    that the object had, and its URL. *)
Definition sessions := gset (string * string).

Inductive cstep : sessions * mcpServerCache → sessions * mcpServerCache → Prop :=
| cs_slice i c tools : cstep (i, c) (i, (make_slice tools c).2)
| cs_object i c srv :
    ms_SessionID srv = ""%string → is_Some (mc_slices c !! ms_Tools srv) → cstep (i, c) (i, (new_object srv c).2)
| cs_seed i c name url tok tools :
    is_Some (mc_slices c !! tools) → cstep (i, c) (i, seed name url tok tools c)
| cs_upsert i c crd secret : cstep (i, c) (i, upsertMCPServerFromCRD crd secret c)
| cs_remove i c name : cstep (i, c) (i, mcp_remove name c)
| cs_commit i c name sid ready url :
    sid = ""%string ∨ (url, sid) ∈ i → cstep (i, c) (i, commitSession name sid ready url c)
| cs_session i c p o sid :
    mc_objs c !! p = Some o → cstep (i, c) ({[(ms_URL o, sid)]} ∪ i, write p (set_session sid) c)
| cs_ready i c p b : cstep (i, c) (i, write p (set_ready b) c)
| cs_schemas i c slice schemas : cstep (i, c) (i, fill_schemas slice schemas c).

(** What everybody may rely on. *)
Record mcp_wf (i : sessions) (c : mcpServerCache) : Prop := {
  wf_named : ∀ name p, mc_servers c !! name = Some p → ∃ o, mc_objs c !! p = Some o ∧ ms_Name o = name;
  wf_session : ∀ p o, mc_objs c !! p = Some o → ms_SessionID o = ""%string ∨ (ms_URL o, ms_SessionID o) ∈ i;
  wf_tools : ∀ p o, mc_objs c !! p = Some o → is_Some (mc_slices c !! ms_Tools o);
  wf_fresh : ∀ p, (mc_next c <= p)%nat → mc_objs c !! p = None ∧ mc_slices c !! p = None }.

(** The fields of a server that no write changes. *)
Definition identity_of_srv (o : MCPServer) : string * string * nat * string * bool :=
  (ms_Name o, ms_URL o, ms_Tools o, ms_BearerToken o, ms_Pinned o).

(** The names and permissions of the tools. *)
Definition permissions (tools : list MCPTool) : list (string * bool) := (λ t, (mt_Name t, mt_ReadOnly t)) <$> tools.

(** What a holder of a pointer still sees later. *)
Definition stable (c c' : mcpServerCache) : Prop :=
  (∀ p o, mc_objs c !! p = Some o → ∃ o', mc_objs c' !! p = Some o' ∧ identity_of_srv o' = identity_of_srv o) ∧
  (∀ p l, mc_slices c !! p = Some l → ∃ l', mc_slices c' !! p = Some l' ∧ permissions l' = permissions l).

#[export] Instance stable_preorder : PreOrder stable.
Proof.
  split.
  - intros c. split; eauto.
  - intros c1 c2 c3 [H1 H2] [H3 H4]. split.
    + intros p o Ho. destruct (H1 p o Ho) as (o2 & Ho2 & E2), (H3 p o2 Ho2) as (o3 & Ho3 & E3).
      exists o3. split; [done|congruence].
    + intros p l Hl. destruct (H2 p l Hl) as (l2 & Hl2 & E2), (H4 p l2 Hl2) as (l3 & Hl3 & E3).
      exists l3. split; [done|congruence].
Qed.

Lemma cache_get_some c name p o :
  cache_get c name = Some (p, o) → mc_servers c !! name = Some p ∧ mc_objs c !! p = Some o.
Proof.
  unfold cache_get. intros (q & Hq & (o' & Ho & [= -> ->])%bind_Some)%bind_Some. done.
Qed.

(** A new entry. *)
Lemma put_wf i c name srv :
  mcp_wf i c → ms_Name srv = name → (ms_SessionID srv = ""%string ∨ (ms_URL srv, ms_SessionID srv) ∈ i) →
  is_Some (mc_slices c !! ms_Tools srv) → mcp_wf i (put name srv c).
Proof.
  intros [Hn Hs Ht Hf] Hname Hsid Htools. split; cbn.
  - intros n p. rewrite lookup_insert. case_decide as E.
    + intros [= <-]. subst n. exists srv. by rewrite lookup_insert_eq.
    + intros (o & Ho & E2)%Hn. exists o. rewrite lookup_insert_ne; [done|].
      intros <-. by rewrite (proj1 (Hf _ (le_n _))) in Ho.
  - intros p o. rewrite lookup_insert. case_decide; [by intros [= <-]|apply Hs].
  - intros p o. rewrite lookup_insert. case_decide; [by intros [= <-]|apply Ht].
  - intros p Hp. rewrite lookup_insert_ne by lia. apply Hf. lia.
Qed.

Lemma put_stable i c name srv : mcp_wf i c → stable c (put name srv c).
Proof.
  intros [_ _ _ Hf]. split; cbn; [|by eauto]. intros p o Ho. exists o. split; [|done].
  rewrite lookup_insert_ne; [done|]. intros <-. by rewrite (proj1 (Hf _ (le_n _))) in Ho.
Qed.

Lemma slice_wf i c tools : mcp_wf i c → mcp_wf i (make_slice tools c).2.
Proof.
  intros [Hn Hs Ht Hf]. split; cbn; [done|done| |].
  - intros p o Ho. rewrite lookup_insert. case_decide; [by eexists|by eapply Ht].
  - intros p Hp. rewrite lookup_insert_ne by lia. apply Hf. lia.
Qed.

Lemma named_below i c name p : mcp_wf i c → mc_servers c !! name = Some p → p ≠ mc_next c.
Proof.
  intros Hwf Hp ->. destruct (wf_named _ _ Hwf _ _ Hp) as (o & Ho & _).
  by rewrite (proj1 (wf_fresh _ _ Hwf _ (le_n _))) in Ho.
Qed.

Lemma new_object_wf i c srv :
  mcp_wf i c → ms_SessionID srv = ""%string → is_Some (mc_slices c !! ms_Tools srv) →
  mcp_wf i (new_object srv c).2 ∧ stable c (new_object srv c).2.
Proof.
  intros Hwf Hs Ht. split; [split; cbn|split; cbn; [|by eauto]].
  - intros n p Hp. rewrite lookup_insert_ne by (symmetry; by eapply named_below). by apply (wf_named _ _ Hwf).
  - intros p o. rewrite lookup_insert. case_decide; [intros [= <-]; by left|apply (wf_session _ _ Hwf)].
  - intros p o. rewrite lookup_insert. case_decide; [by intros [= <-]|apply (wf_tools _ _ Hwf)].
  - intros p Hp. rewrite lookup_insert_ne by lia. apply (wf_fresh _ _ Hwf). lia.
  - intros p o Ho. exists o. split; [|done]. rewrite lookup_insert_ne; [done|].
    intros <-. by rewrite (proj1 (wf_fresh _ _ Hwf _ (le_n _))) in Ho.
Qed.

Lemma slice_stable i c tools : mcp_wf i c → stable c (make_slice tools c).2.
Proof.
  intros [_ _ _ Hf]. split; cbn; [by eauto|]. intros p l Hl. exists l. split; [|done].
  rewrite lookup_insert_ne; [done|]. intros <-. by rewrite (proj2 (Hf _ (le_n _))) in Hl.
Qed.

Lemma write_wf i c p f :
  mcp_wf i c → (∀ o, identity_of_srv (f o) = identity_of_srv o) →
  (∀ o, mc_objs c !! p = Some o → ms_SessionID (f o) = ""%string ∨ (ms_URL o, ms_SessionID (f o)) ∈ i) →
  mcp_wf i (write p f c) ∧ stable c (write p f c).
Proof.
  intros [Hn Hs Ht Hf] Hid Hsid.
  assert (∀ o, ms_Name (f o) = ms_Name o ∧ ms_URL (f o) = ms_URL o ∧ ms_Tools (f o) = ms_Tools o) as Hid'.
  { intros o. specialize (Hid o). unfold identity_of_srv in Hid. naive_solver. }
  split; [split; cbn|split; cbn; [|by eauto]].
  - intros n q (o & Ho & E)%Hn. destruct (decide (p = q)) as [<-|].
    + exists (f o). rewrite lookup_alter_eq, Ho. split; [done|]. by rewrite (proj1 (Hid' o)).
    + exists o. by rewrite lookup_alter_ne.
  - intros q o'. destruct (decide (p = q)) as [<-|]; [|by rewrite lookup_alter_ne by done; apply Hs].
    rewrite lookup_alter_eq. intros (o & Ho & ->)%fmap_Some. destruct (Hid' o) as (_ & -> & _). by apply Hsid.
  - intros q o'. destruct (decide (p = q)) as [<-|]; [|by rewrite lookup_alter_ne by done; apply Ht].
    rewrite lookup_alter_eq. intros (o & Ho & ->)%fmap_Some. destruct (Hid' o) as (_ & _ & ->). by eapply Ht.
  - intros q Hq. split; [|by apply Hf]. apply lookup_alter_None. by apply Hf.
  - intros q o Ho. destruct (decide (p = q)) as [<-|].
    + exists (f o). by rewrite lookup_alter_eq, Ho.
    + exists o. by rewrite lookup_alter_ne.
Qed.

Lemma fill_permissions schemas tools : permissions (fill_schema schemas <$> tools) = permissions tools.
Proof.
  unfold permissions. rewrite <- list_fmap_compose. apply list_fmap_ext. intros _ t _. cbn.
  unfold fill_schema. by destruct (schemas !! _).
Qed.

Lemma mcp_upsert_wf i c name url tok tools :
  mcp_wf i c → is_Some (mc_slices c !! tools) →
  mcp_wf i (mcp_upsert name url tok tools c) ∧ stable c (mcp_upsert name url tok tools c).
Proof.
  intros Hwf Ht. unfold mcp_upsert. destruct (cache_get c name) as [[p ex]|] eqn:Eg.
  2: { split; [|by eapply put_stable]. apply put_wf; cbn; auto. }
  apply cache_get_some in Eg as [_ Hex].
  destruct (_ && _) eqn:Eu; (split; [|by eapply put_stable]); apply put_wf; cbn; auto.
  apply andb_prop in Eu as [<-%String.eqb_eq _]. by apply (wf_session _ _ Hwf p).
Qed.

Lemma crd_upsert_wf i c crd secret :
  mcp_wf i c → mcp_wf i (upsertMCPServerFromCRD crd secret c) ∧ stable c (upsertMCPServerFromCRD crd secret c).
Proof.
  intros Hwf. unfold upsertMCPServerFromCRD. destruct (crd_token crd secret) as [tok|]; [|by split].
  pose proof (slice_wf i c (tools_of_crd crd) Hwf) as Hwf1. pose proof (slice_stable i c (tools_of_crd crd) Hwf) as Hst.
  destruct (make_slice (tools_of_crd crd) c) as [sl c1] eqn:E. cbn in *.
  destruct (mcp_upsert_wf i c1 (crd_name crd) (mcs_URL crd) tok sl) as [H1 H2]; [done| |split; [done|by etrans]].
  unfold make_slice in E. injection E as <- <-. cbn. rewrite lookup_insert_eq. by eexists.
Qed.

Lemma remove_wf i c name : mcp_wf i c → mcp_wf i (mcp_remove name c) ∧ stable c (mcp_remove name c).
Proof.
  intros [Hn Hs Ht Hf]. split; [split; cbn; [|done..]|split; cbn; by eauto].
  intros n p Hp. apply lookup_delete_Some in Hp as [_ Hp]. by apply Hn.
Qed.

Lemma commit_wf i c name sid ready url :
  mcp_wf i c → sid = ""%string ∨ (url, sid) ∈ i →
  mcp_wf i (commitSession name sid ready url c) ∧ stable c (commitSession name sid ready url c).
Proof.
  intros Hwf Hsid. unfold commitSession. destruct (cache_get c name) as [[p srv]|] eqn:Eg; [|by split].
  apply cache_get_some in Eg as [Hp Ho].
  destruct (String.eqb_spec (ms_URL srv) url) as [Eu|]; cbn [negb]; [|by split]. subst url.
  split; [|by eapply put_stable]. apply put_wf; cbn; [done| |done|by eapply (wf_tools _ _ Hwf)].
  destruct (wf_named _ _ Hwf name p Hp) as (o & Ho' & E). rewrite Ho in Ho'. by injection Ho' as <-.
Qed.

Lemma mcp_wf_mono i i' c : i ⊆ i' → mcp_wf i c → mcp_wf i' c.
Proof.
  intros Hi [Hn Hs Ht Hf]. split; [done| |done|done]. intros p o Ho. destruct (Hs p o Ho); [by left|right; set_solver].
Qed.

Lemma cstep_wf i c i' c' : cstep (i, c) (i', c') → mcp_wf i c → mcp_wf i' c' ∧ stable c c' ∧ i ⊆ i'.
Proof.
  intros Hstep Hwf. inversion Hstep; subst; clear Hstep.
  - split; [by apply slice_wf|]. split; [by eapply slice_stable|done].
  - by destruct (new_object_wf i' c srv Hwf) as [? ?].
  - split; [by apply put_wf; cbn; auto|]. split; [by eapply put_stable|done].
  - destruct (crd_upsert_wf i' c crd secret Hwf). done.
  - destruct (remove_wf i' c name Hwf). done.
  - by destruct (commit_wf i' c name sid ready url Hwf) as [? ?].
  - destruct (write_wf ({[(ms_URL o, sid)]} ∪ i) c p (set_session sid)) as [? ?]; [|done| |split; [done|]; split; [done|set_solver]].
    + eapply mcp_wf_mono; [|done]. set_solver.
    + intros o' Ho'. assert (o' = o) as -> by congruence. right. cbn. set_solver.
  - destruct (write_wf i' c p (set_ready b)) as [? ?]; [done|done| |done].
    intros o Ho. by apply (wf_session _ _ Hwf p o Ho).
  - split; [|split; [|done]].
    + destruct Hwf as [Hn Hs Ht Hf]. split; cbn; [done|done| |].
      * intros p o Ho. apply lookup_alter_is_Some. by eapply Ht.
      * intros p Hp. rewrite lookup_alter_None. by apply Hf.
    + split; cbn; [by eauto|]. intros p l Hl. destruct (decide (slice = p)) as [<-|].
      * exists (fill_schema schemas <$> l). rewrite lookup_alter_eq, Hl. split; [done|]. apply fill_permissions.
      * exists l. by rewrite lookup_alter_ne.
Qed.

(** The watch goroutine does nothing but such steps. *)
Lemma fold_csteps {A} (f : mcpServerCache → A → mcpServerCache) i l c :
  (∀ c x, rtc cstep (i, c) (i, f c x)) → rtc cstep (i, c) (i, fold_left f l c).
Proof. intros Hf. revert c. induction l as [|x l IH]; intros c; [done|]. cbn. by etrans; [apply Hf|apply IH]. Qed.

Lemma watch_csteps i cycles c : rtc cstep (i, c) (i, watchMCPServers cycles c).
Proof.
  apply fold_csteps. clear c. intros c [[items|] watched]; [|done]. cbn.
  assert (rtc cstep (i, c) (i, mcp_relist items c)) as H.
  { unfold mcp_relist. transitivity (i, fold_left (λ c i, upsertMCPServerFromCRD i.1 i.2 c) items c).
    - apply fold_csteps. intros c' x. apply rtc_once. constructor.
    - apply fold_csteps. intros c' n. unfold evict. repeat case_match; try done; apply rtc_once; constructor. }
  destruct watched as [es|]; [|exact H]. etrans; [exact H|]. generalize (mcp_relist items c). clear.
  induction es as [|e es IH]; intros c; [done|]. cbn.
  destruct e; cbn; try apply IH; try done; (etrans; [apply rtc_once; constructor|apply IH]).
Qed.

Lemma empty_wf : mcp_wf ∅ newMCPServerCache.
Proof. by split. Qed.

Lemma csteps_wf s s' : rtc cstep s s' → mcp_wf s.1 s.2 → mcp_wf s'.1 s'.2 ∧ stable s.2 s'.2 ∧ s.1 ⊆ s'.1.
Proof.
  induction 1 as [s|s s1 s' H1 _ IH]; intros Hwf; [by split; [|split]|].
  destruct s as [i c], s1 as [i1 c1], s' as [i' c']. cbn in *.
  destruct (cstep_wf _ _ _ _ H1 Hwf) as (Hwf1 & Hs1 & Hi1). destruct (IH Hwf1) as (Hwf' & Hs' & Hi').
  split; [done|]. split; [by etrans|set_solver].
Qed.

(** C22: In every interleaving of start-up, watch and handlers: an entry is filed
    under its own name; a session id is only ever kept with a URL that issued
    it; and whoever holds a pointer sees the same name, URL, credential and
    tools, with the same permissions, from then on. *)
Theorem mcp_cache_stable i c i' c' name p o :
  rtc cstep (∅, newMCPServerCache) (i, c) → cache_get c name = Some (p, o) →
  rtc cstep (i, c) (i', c') →
  ms_Name o = name ∧
  ∃ o', mc_objs c' !! p = Some o' ∧ identity_of_srv o' = identity_of_srv o ∧
    (ms_SessionID o' = ""%string ∨ (ms_URL o, ms_SessionID o') ∈ i') ∧
    ∃ tools tools', mc_slices c !! ms_Tools o = Some tools ∧ mc_slices c' !! ms_Tools o' = Some tools' ∧
      permissions tools' = permissions tools.
Proof.
  intros H1 [Hp Ho]%cache_get_some H2.
  destruct (csteps_wf _ _ H1 empty_wf) as (Hwf & _ & _). cbn in Hwf.
  destruct (csteps_wf _ _ H2 Hwf) as (Hwf' & [Hs1 Hs2] & _). cbn in *.
  destruct (wf_named _ _ Hwf name p Hp) as (o1 & Ho1 & En). rewrite Ho in Ho1. injection Ho1 as <-.
  split; [done|]. destruct (Hs1 p o Ho) as (o' & Ho' & Eid). exists o'. split; [done|]. split; [done|].
  assert (ms_URL o' = ms_URL o ∧ ms_Tools o' = ms_Tools o) as [Eu Et] by (unfold identity_of_srv in Eid; naive_solver).
  rewrite <- Eu. split; [by apply (wf_session _ _ Hwf' p)|].
  destruct (wf_tools _ _ Hwf p o Ho) as [l Hl]. destruct (Hs2 _ l Hl) as (l' & Hl' & El). exists l, l'.
  by rewrite Et.
Qed.

(** ** Relisting *)

Definition names_of (items : list (MCPServerCRD * res (gmap string string))) : list string :=
  (λ i, crd_name i.1) <$> items.

Lemma put_get_ne i c name srv n :
  mcp_wf i c → n ≠ name → cache_get (put name srv c) n = cache_get c n.
Proof.
  intros Hwf Hne. unfold cache_get, put. cbn. rewrite lookup_insert_ne by done.
  destruct (mc_servers c !! n) as [p|] eqn:Hp; cbn; [|done].
  destruct (wf_named _ _ Hwf n p Hp) as (o & Ho & _). rewrite lookup_insert_ne; [done|].
  intros <-. by rewrite (proj1 (wf_fresh _ _ Hwf _ (le_n _))) in Ho.
Qed.

Lemma put_get_eq c name srv : cache_get (put name srv c) name = Some (mc_next c, srv).
Proof. unfold cache_get, put. cbn. rewrite !lookup_insert_eq. cbn. by rewrite lookup_insert_eq. Qed.

Lemma crd_upsert_get i c crd secret n :
  mcp_wf i c →
  let c' := upsertMCPServerFromCRD crd secret c in
  (n ≠ crd_name crd → cache_get c' n = cache_get c n) ∧
  (n = crd_name crd → is_Some (cache_get c n) ∨ is_Some (crd_token crd secret) → is_Some (cache_get c' n)).
Proof.
  intros Hwf c'. subst c'. unfold upsertMCPServerFromCRD. destruct (crd_token crd secret) as [tok|] eqn:Et.
  2: { split; [done|]. intros _ [H|[? H]]; [done|done]. }
  pose proof (slice_wf i c (tools_of_crd crd) Hwf) as Hwf1.
  destruct (make_slice (tools_of_crd crd) c) as [sl c1] eqn:E. cbn in Hwf1.
  assert (∀ n, cache_get c1 n = cache_get c n) as E1 by (unfold make_slice in E; by injection E as <- <-).
  unfold mcp_upsert. split.
  - intros Hne. rewrite <- E1. by repeat case_match; eapply put_get_ne.
  - intros -> _. repeat case_match; rewrite put_get_eq; by eexists.
Qed.

Lemma upserts_get i items c n :
  mcp_wf i c →
  let c' := fold_left (λ c i, upsertMCPServerFromCRD i.1 i.2 c) items c in
  mcp_wf i c' ∧ (n ∉ names_of items → cache_get c' n = cache_get c n) ∧
  (is_Some (cache_get c n) ∨ (∃ it, it ∈ items ∧ crd_name it.1 = n ∧ is_Some (crd_token it.1 it.2)) →
   is_Some (cache_get c' n)).
Proof.
  revert c. induction items as [|it items IH]; intros c Hwf; cbn.
  { split; [done|]. split; [done|]. intros [H|(it & Hin & _)]; [done|by apply elem_of_nil in Hin]. }
  destruct (crd_upsert_wf i c it.1 it.2 Hwf) as [Hwf1 _].
  destruct (crd_upsert_get i c it.1 it.2 n Hwf) as [Hne Heq].
  destruct (IH _ Hwf1) as (H1 & H2 & H3). split; [done|]. split.
  - intros Hn. rewrite not_elem_of_cons in Hn. destruct Hn as [Hn1 Hn2]. rewrite H2 by done. by apply Hne.
  - intros H. destruct (decide (n = crd_name it.1)) as [E|E].
    + destruct H as [H|(it' & Hin & Hn & Ht)]; [apply H3; left; by apply Heq; [|left]|].
      apply elem_of_cons in Hin as [->|Hin]; apply H3; [left; by apply Heq; [|right]|right; by exists it'].
    + apply H3. destruct H as [H|(it' & Hin & Hn & Ht)]; [left; by rewrite Hne|right].
      apply elem_of_cons in Hin as [->|Hin]; [done|by exists it'].
Qed.

Lemma remove_get c name n : cache_get (mcp_remove name c) n = if bool_decide (n = name) then None else cache_get c n.
Proof.
  unfold cache_get, mcp_remove. cbn. case_bool_decide as E; [by rewrite E, lookup_delete_eq|].
  by rewrite lookup_delete_ne.
Qed.

(** What the eviction makes of an entry. *)
Definition survives (present : list string) (n : string) (e : option (nat * MCPServer)) : option (nat * MCPServer) :=
  if bool_decide (n ∈ present) then e
  else match e with Some (p, o) => if ms_Pinned o then e else None | None => None end.

Lemma evict_get present c name n :
  cache_get (evict present c name) n =
  if bool_decide (n = name) then survives present n (cache_get c n) else cache_get c n.
Proof.
  unfold evict, survives. destruct (decide (n = name)) as [->|Hn].
  - rewrite (bool_decide_eq_true_2 (name = name)) by done. case_bool_decide; [done|]. destruct (cache_get c name) as [[p o]|] eqn:E.
    + destruct (ms_Pinned o); [done|]. by rewrite remove_get, bool_decide_eq_true_2.
    + by rewrite remove_get, bool_decide_eq_true_2.
  - rewrite (bool_decide_eq_false_2 (n = name)) by done. case_bool_decide; [done|].
    destruct (cache_get c name) as [[p o]|].
    + destruct (ms_Pinned o); [done|]. by rewrite remove_get, bool_decide_eq_false_2.
    + by rewrite remove_get, bool_decide_eq_false_2.
Qed.

Lemma survives_idem present n e : survives present n (survives present n e) = survives present n e.
Proof. unfold survives. case_bool_decide; [done|]. destruct e as [[p o]|]; [|done]. by destruct (ms_Pinned o) eqn:E; rewrite ?E. Qed.

Lemma evictions_get present names c n :
  cache_get (fold_left (evict present) names c) n =
  if bool_decide (n ∈ names) then survives present n (cache_get c n) else cache_get c n.
Proof.
  revert c. induction names as [|m names IH]; intros c; cbn [fold_left].
  { by rewrite bool_decide_eq_false_2 by apply not_elem_of_nil. }
  rewrite IH, evict_get. destruct (decide (n = m)) as [->|Hne].
  - rewrite (bool_decide_eq_true_2 (m = m)), (bool_decide_eq_true_2 (m ∈ m :: names)) by (done || left).
    case_bool_decide; [apply survives_idem|done].
  - rewrite (bool_decide_eq_false_2 (n = m)) by done.
    assert (bool_decide (n ∈ m :: names) = bool_decide (n ∈ names)) as ->; [|done].
    apply bool_decide_ext. rewrite elem_of_cons. naive_solver.
Qed.

(** A relist keeps every cached server that is listed and adds every listed
    one whose credential could be read; of the others exactly the pinned ones
    stay, untouched. *)
Theorem mcp_relist_spec i items c n :
  mcp_wf i c →
  (n ∉ names_of items → cache_get (mcp_relist items c) n = survives [] n (cache_get c n)) ∧
  (n ∈ names_of items →
     is_Some (cache_get c n) ∨ (∃ it, it ∈ items ∧ crd_name it.1 = n ∧ is_Some (crd_token it.1 it.2)) →
     is_Some (cache_get (mcp_relist items c) n)).
Proof.
  intros Hwf. destruct (upserts_get i items c n Hwf) as (Hwf' & Hne & Heq). cbn in *.
  unfold mcp_relist. set (c1 := fold_left _ items c) in *. fold (names_of items). rewrite evictions_get.
  assert (n ∉ listNames c1 → cache_get c1 n = None) as Hnone.
  { intros Hn. unfold cache_get. destruct (mc_servers c1 !! n) as [p|] eqn:Hp; [|done]. destruct Hn.
    apply list_elem_of_fmap. exists (n, p). split; [done|]. by apply elem_of_map_to_list. }
  split.
  - intros Hn. rewrite (Hne Hn). unfold survives. rewrite (bool_decide_eq_false_2 _ Hn), (bool_decide_eq_false_2 (n ∈ [])) by apply not_elem_of_nil.
    case_bool_decide as Hl; [done|]. apply Hnone in Hl. rewrite Hne in Hl by done. by rewrite Hl.
  - intros Hn H. apply Heq in H. unfold survives. rewrite (bool_decide_eq_true_2 _ Hn). by case_bool_decide.
Qed.

(** ** Executions *)

Module McpExamples.

Definition crd (url : string) : MCPServerCRD :=
  mkMCPServerCRD (mkMeta "github" "" "" "" ∅ ∅ 1 0 0 None [] []) url "default" (Some (mkSecretRef "s" "")) []
    [("merge", false); ("get", true)]%string.
Definition tok (t : string) : res (gmap string string) := Ok {["token" := t]}%string.

(** The registry of the environment names the server. *)
Definition seeded : mcpServerCache :=
  let '(sl, c) := make_slice [mkTool "merge" false None] newMCPServerCache in seed "github" "http://a" "t" sl c.

Definition pinned_now (c : mcpServerCache) : option bool := (λ e, ms_Pinned e.2) <$> cache_get c "github".

(** A pinned server survives a relist without it; but the deletion of a
    resource of the same name evicts it, and a resource with another URL
    unpins it. *)
Example pinned_servers :
  pinned_now (mcp_relist [] seeded) = Some true ∧
  pinned_now <$> mcp_watch_step seeded (McpDeleted (crd "http://a")) = Some None ∧
  pinned_now (mcp_relist [(crd "http://b", tok "t")] seeded) = Some false ∧
  pinned_now (mcp_relist [] (mcp_relist [(crd "http://b", tok "t")] seeded)) = None.
Proof. vm_compute. auto. Qed.

(** The session of the old credential, committed by a handler that still holds
    the old entry, ends up in the entry with the new credential. *)
Definition rotated : mcpServerCache :=
  let c := upsertMCPServerFromCRD (crd "http://a") (tok "old") newMCPServerCache in
  let c := write 1 (set_session "sid") (upsertMCPServerFromCRD (crd "http://a") (tok "new") c) in
  commitSession "github" "sid" true "http://a" c.

Example session_of_old_credential :
  (λ e, (ms_BearerToken e.2, ms_SessionID e.2)) <$> cache_get rotated "github" = Some ("new", "sid")%string.
Proof. vm_compute. reflexivity. Qed.

Lemma steps_to_rotated :
  let c := upsertMCPServerFromCRD (crd "http://a") (tok "old") newMCPServerCache in
  rtc cstep (∅, newMCPServerCache) (∅, c) ∧ rtc cstep (∅, c) ({[("http://a", "sid")]} ∪ ∅, rotated)%string.
Proof.
  intros c. split; [eapply rtc_l; [apply cs_upsert|apply rtc_refl]|].
  eapply rtc_l; [apply (cs_upsert _ _ (crd "http://a") (tok "new"))|].
  eapply rtc_l; [apply (cs_session _ _ 1%nat (mkServer_ "github" "http://a" "" 0 "old" "" false false) "sid"); vm_compute; reflexivity|].
  eapply rtc_l; [apply (cs_commit _ _ "github" "sid" true "http://a"); right; set_solver|apply rtc_refl].
Qed.

Lemma mcp_cache_stable_witness :
  ∃ o, mc_objs rotated !! 1%nat = Some o ∧ ms_URL o = "http://a"%string ∧ ms_BearerToken o = "old"%string.
Proof.
  destruct steps_to_rotated as [H1 H2].
  destruct (mcp_cache_stable _ _ _ _ "github" 1 (mkServer_ "github" "http://a" "" 0 "old" "" false false) H1 eq_refl H2)
    as (_ & o & Ho & Hid & _).
  exists o. split; [exact Ho|]. injection Hid as _ -> _ -> _. split; reflexivity.
Defined.

Lemma mcp_relist_spec_witness :
  cache_get (mcp_relist [] seeded) "github" = cache_get seeded "github" ∧
  is_Some (cache_get (mcp_relist [(crd "http://a", tok "t")] seeded) "github").
Proof.
  assert (mcp_wf ∅ seeded) as Hwf.
  { assert (rtc cstep (∅, newMCPServerCache) (∅, seeded)) as H.
    { eapply rtc_l; [apply (cs_slice _ _ [mkTool "merge" false None])|].
      eapply rtc_l; [apply (cs_seed _ _ "github" "http://a" "t" 0%nat); eexists; reflexivity|apply rtc_refl]. }
    apply (csteps_wf _ _ H empty_wf). }
  split.
  - rewrite (proj1 (mcp_relist_spec ∅ [] seeded "github" Hwf)); [vm_compute; reflexivity|apply not_elem_of_nil].
  - apply (mcp_relist_spec ∅ [(crd "http://a", tok "t")] seeded "github" Hwf); [left|].
    left. eexists. vm_compute. reflexivity.
Defined.

End McpExamples.
