(* ===== verification/Mcp.v ===== *)
(** * Tool calls through the gateway ([cmd/gateway/mcp_proxy.go],
      [mcp_handler.go], [mcp_aip_tools.go], [mcp_registry.go],
      [internal/mcp])

    An agent calls the tools of upstream MCP servers through the gateway.  A
    tool that is not read-only needs a token of an approved request; without
    one the call becomes a request for approval.  Handlers are programs over
    the gateway's calls and those of this file. *)

From S2P Require Import Prelude GoStd GoStrings Types Prog Kube Conditions Naming.
From S2P Require Import Retry Registration GatewayAuth Gateway GatewayCreate Jwt McpServers.

(** ** Arguments and JSON *)

(** A decoded argument: a string, or some other JSON value. *)
Inductive arg := AStr (s : string) | AOther (raw : string).
Definition args := gmap string arg.

(** [v, _ := m[key].(string)]. *)
Definition str_arg (m : args) (key : string) : string :=
  match m !! key with Some (AStr s) => s | _ => "" end.

Record JSONRPCRequest := mkRpc { rpc_JSONRPC : string; rpc_ID : option JSON; rpc_Method : string; rpc_Params : JSON }.

Record mcpProxyResult := mkProxyResult { mr_Content : list JSON; mr_IsError : bool }.

(** [encoding/json] at the types of these files, and [strings.ToLower], which
    is the one on ASCII. *)
Class McpLib := {
  Unmarshal_rpc : string → error + JSONRPCRequest;
  Unmarshal_call : JSON → error + (string * args);
  (** The envelope of a response: [result] and [error.message]. *)
  Unmarshal_envelope : string → option (option mcpProxyResult * option string);
  (** [{"text": ...}] of a content block; [""] when it is not one. *)
  Unmarshal_text : JSON → string;
  Marshal_args : args → option JSON;
  Marshal_call : args → string → option JSON → error + string;
  strings_ToLower : string → string;
  to_lower_ascii : ∀ s, all_chars (λ a, ord a <? 128) s = true → strings_ToLower s = ToLower_ascii s }.

(** ** [internal/mcp] *)

Definition JSONRPCVersion : string := "2.0".
Definition ErrCodeParse : Z := -32700.
Definition ErrCodeInvalid : Z := -32602.
Definition ErrCodeMethod : Z := -32601.
Definition ErrCodeInternal : Z := -32603.
Definition ErrCodeAuth : Z := -32001.
Definition ErrCodeForbidden : Z := -32003.

Definition newline : Ascii.ascii := chr 10.

(** A line without the carriage return at its end. *)
Definition chomp (line : string) : string :=
  match cut_last (chr 13) line with Some (l, EmptyString) => l | _ => line end.

Fixpoint first_data (lines : list string) : option string :=
  match lines with
  | [] => None
  | line :: rest =>
      match cut_prefix "data: " (chomp line) with Some after => Some after | None => first_data rest end
  end.

Definition ExtractSSEDataLine (body : string) : option string :=
  if body ==? "" then None else first_data (split newline body).

Section pure.
Context `{ML : McpLib}.

Definition ParseJSONRPCRequest (body : string) : string + JSONRPCRequest :=
  match Unmarshal_rpc body with
  | inl _ => inl "invalid JSON-RPC: malformed JSON"%string
  | inr req =>
      if rpc_JSONRPC req <>? JSONRPCVersion then inl "unsupported JSON-RPC version"%string else inr req
  end.

(** The left side is the error's text. *)
Definition extractMCPResult (body : string) : string + mcpProxyResult :=
  match ExtractSSEDataLine body with
  | None => inl "SSE response missing data line"%string
  | Some dataLine =>
      match Unmarshal_envelope dataLine with
      | None => inl "MCP server returned invalid JSON-RPC response"%string
      | Some (_, Some msg) => inl ("MCP server error: " +:+ msg)%string
      | Some (None, None) => inl "MCP server returned empty result"%string
      | Some (Some result, None) => inr result
      end
  end.

(** ** Names, targets and claims *)

(** [{server}/{tool}]. *)
Definition splitPrefixedName (prefixed : string) : option (string * string) :=
  match cut slash prefixed with
  | Some (server, tool) => if (server ==? "") || (tool ==? "") then None else Some (server, tool)
  | None => None
  end.

Definition prefixed (serverName toolName : string) : string := (serverName +:+ "/" +:+ toolName)%string.

Definition buildTargetURI (m : args) : string :=
  let ns := if str_arg m "namespace" ==? "" then "default" else str_arg m "namespace" in
  let name := str_arg m "name" in
  let kind := str_arg m "kind" in
  if (name <>? "") && (kind <>? "") then ("k8s://" +:+ ns +:+ "/" +:+ strings_ToLower kind +:+ "/" +:+ name)
  else
    let dep := str_arg m "deployment" in
    if dep <>? "" then ("k8s://" +:+ ns +:+ "/deployment/" +:+ dep) else ("k8s://" +:+ ns)%string.

(** [strings.SplitN(claim, "/", 3)]: owner and repository. *)
Definition repo_of_claim (claim : string) : option (string * string) :=
  match cut slash claim with
  | None => None
  | Some (owner, rest) => Some (owner, match cut slash rest with Some (repo, _) => repo | None => rest end)
  end.

(** [""] is acceptance, as in the source. *)
Definition enforceRepoClaim (claimsResource : string) (m : args) : string :=
  if claimsResource ==? "" then "token missing resource claim"
  else
    match repo_of_claim (TrimPrefix claimsResource "github://") with
    | None => "token has invalid resource claim"
    | Some (claimsOwner, claimsRepoName) =>
        let argOwner := str_arg m "owner" in
        let argRepo := str_arg m "repo" in
        if (argOwner ==? "") || (argRepo ==? "") then "request body missing owner or repo arguments"
        else if argOwner <>? claimsOwner then
          ("owner mismatch: token has " +:+ quote claimsOwner +:+ ", request has " +:+ quote argOwner)
        else if argRepo <>? claimsRepoName then
          ("repo mismatch: token has " +:+ quote claimsRepoName +:+ ", request has " +:+ quote argRepo)
        else ""
    end%string.

Definition enforceResourceClaim (claimsResource : string) (m : args) : string :=
  if claimsResource ==? "" then "token missing resource claim"
  else
    let expected := buildTargetURI m in
    if claimsResource <>? expected then
      ("resource mismatch: token has " +:+ quote claimsResource +:+ ", request targets " +:+ quote expected)%string
    else "".

Definition enforceResourceClaimForTool (serverName resource : string) (m : args) : string :=
  if serverName ==? "github" then enforceRepoClaim resource m else enforceResourceClaim resource m.

End pure.

(** ** Calls *)

(** What a handler sees of a server through the pointer it got; [McpServers]
    shows that these fields do not change. *)
Record server_view := mkView {
  sv_ptr : nat;
  sv_Name : string;
  sv_URL : string;
  sv_BearerToken : string;
  sv_Tools : list MCPTool }.

(** A [tools/call] request to an upstream server. *)
Record upstream_call := mkUpstream {
  up_URL : string;
  up_SessionID : string;     (** no header when empty *)
  up_Bearer : string;        (** no header when empty *)
  up_Body : string }.

Inductive upstream_answer :=
| UpUnavailable
| UpReadFailed
| UpResponse (status : Z) (body : string).

Inductive watch_answer :=
| WTimeout                          (** the context is done *)
| WClosed
| WError                            (** an error or deletion event *)
| WOther                            (** another kind of event *)
| WObject (ar : AgentRequest).      (** added or modified *)

Inductive mcall `{GL : GlobLib} :=
| MGw (c : gcall)
| MCacheGet (name : string)
| MCacheAll
| MSessionReady (p : nat)
| MSession (p : nat)
| MInitialize (url bearer : string)
| MListTools (url session bearer : string)
| MSetSession (p : nat) (session : string)
| MFillSchemas (p : nat) (schemas : gmap string JSON)
| MSetReady (p : nat) (b : bool)
| MCommitSession (name session : string) (ready : bool) (url : string)
| MValidateToken (token : string)
| MForward (u : upstream_call)
| MRandomName
| MWatchAR (name : string) (resourceVersion : Z)
| MWatchNext.

Definition mresp `{GL : GlobLib} (c : mcall) : Type :=
  match c with
  | MGw c => gresp c
  | MCacheGet _ => option server_view
  | MCacheAll => list (string * list MCPTool)
  | MSessionReady _ => bool
  | MSession _ => string * bool
  | MInitialize _ _ => option string          (** the [Mcp-Session-Id] header *)
  | MListTools _ _ _ => option (gmap string JSON)
  | MSetSession _ _ | MFillSchemas _ _ | MSetReady _ _ | MCommitSession _ _ _ _ => unit
  | MValidateToken _ => res Claims
  | MForward _ => upstream_answer
  | MRandomName => string
  | MWatchAR _ _ => res unit
  | MWatchNext => watch_answer
  end.

Definition ms `{GL : GlobLib} : sig := mkSig mcall mresp.

Abbreviation mcall_ c := (trigger ms c).

(** A program of the gateway, run by these handlers. *)
Fixpoint lift `{GL : GlobLib} {A} (p : prog gw A) : prog ms A :=
  match p with
  | Ret a => Ret a
  | Vis c k => Vis (S:=ms) (MGw c) (λ r, lift (k r))
  end.

(** ** Responses *)

Inductive tool_content :=
| CResult (r : mcpProxyResult)
| CPendingApproval (requestId : string)
| CApproved (jwt approvedBy requestId : string)
| CDenied (reason requestId : string)
| CExpired (requestId : string)
| CGraded (verdict reasonCode note requestId : string)
| CFailed (requestId : string).

Inductive mcp_response :=
| MHttpError (status : Z) (msg : string)
| MHttpResult (r : mcpProxyResult)
| MRpcError (code : Z) (msg : string)
| MRpcContent (c : tool_content)
| MRpcInitialize
| MRpcTools (upstream : list (string * option JSON)) (governance : list string)
| MRpcEmpty
| MNothing
| MWaiting.     (** still waiting for an event *)

Definition StatusServiceUnavailable : Z := 503.
Definition StatusBadGateway : Z := 502.

(** The server's fields that only these handlers use. *)
Record mcp_config := mkMcpConfig {
  mc_server : Server;
  has_mcpCache : bool;
  has_client : bool;
  mcpServers : list server_view   (** the registry of the environment *) }.

Section handlers.
Context `{GL : GlobLib, MC : MetaConditions, RL : RetryLib gw, ML : McpLib}.
Context (s : mcp_config).

Definition findMCPServer (name : string) : prog ms (option server_view) :=
  cached <- (if has_mcpCache s then mcall_ (MCacheGet name) else Ret None) ;;
  Ret match cached with
      | Some v => Some v
      | None => List.find (λ v, sv_Name v ==? name) (mcpServers s)
      end.

Definition findTool (v : server_view) (toolName : string) : option MCPTool :=
  List.find (λ t, mt_Name t ==? toolName) (sv_Tools v).

(** ** Sessions *)

Definition initUpstreamSession (v : server_view) : prog ms (option string) :=
  r <- mcall_ (MInitialize (sv_URL v) (sv_BearerToken v)) ;;
  Ret match r with
      | Some sessionID => if sessionID ==? "" then None else Some sessionID
      | None => None
      end.

Definition fetchSchemasForServer (v : server_view) (sessionID : string) : prog ms unit :=
  r <- mcall_ (MListTools (sv_URL v) sessionID (sv_BearerToken v)) ;;
  match r with
  | None => Ret tt
  | Some schemas => mcall_ (MFillSchemas (sv_ptr v) schemas)
  end.

(** Under the server's mutex. *)
Definition ensureSession (v : server_view) : prog ms bool :=
  ready <- mcall_ (MSessionReady (sv_ptr v)) ;;
  if ready then Ret true
  else
    r <- initUpstreamSession v ;;
    match r with
    | None => Ret false
    | Some sessionID =>
        mcall_ (MSetSession (sv_ptr v) sessionID) ;;;
        fetchSchemasForServer v sessionID ;;;
        mcall_ (MSetReady (sv_ptr v) true) ;;;
        Ret true
    end.

(** [s.mcpCache.commitSession(...)] with the fields of the object at hand. *)
Definition commit_session (v : server_view) : prog ms unit :=
  if has_mcpCache s then
    st <- mcall_ (MSession (sv_ptr v)) ;;
    mcall_ (MCommitSession (sv_Name v) st.1 st.2 (sv_URL v))
  else Ret tt.

(** ** Forwarding *)

(** A result, an error text, or a response already written ([done]). *)
Inductive forwarded :=
| FResult (r : mcpProxyResult)
| FFailed (msg : string)
| FDone (resp : mcp_response).

Definition maxMCPResponseSize : Z := 10 * 2 ^ 20.

Definition reset_sessions (v : server_view) : prog ms unit :=
  mcall_ (MSetReady (sv_ptr v) false) ;;;
  if has_mcpCache s then mcall_ (MCommitSession (sv_Name v) "" false (sv_URL v)) else Ret tt.

Definition receive (v : server_view) (a : upstream_answer) : prog ms forwarded :=
  match a with
  | UpUnavailable => Ret (FFailed "MCP server unavailable")
  | UpReadFailed => Ret (FFailed "failed to read MCP response")
  | UpResponse status body =>
      if maxMCPResponseSize <? Z.of_nat (String.length body) then Ret (FFailed "MCP response too large")
      else if negb (status =? StatusOK) then
        (if status =? StatusUnauthorized then reset_sessions v else Ret tt) ;;;
        Ret (FFailed ("MCP server returned status " +:+ FormatInt10 status))
      else
        Ret match extractMCPResult body with
            | inl rpcErr => FFailed rpcErr
            | inr result => FResult result
            end
  end.

Definition no_binding_msg (agentIdentity serverName : string) : string :=
  ("no credential binding for agent " +:+ quote agentIdentity +:+ " on server " +:+ quote serverName
     +:+ ": register an AgentRegistration with an ExternalIdentityBinding")%string.

(** [oidcTokenRequired e]: [errors.Is(err, credential.ErrOIDCTokenRequired)]. *)
Context (oidcTokenRequired : error → bool).

Definition forwardToolCall (c : caller) (v : server_view) (m : args) (toolName : string) (id : option JSON)
  (agentIdentity : string) : prog ms forwarded :=
  match Marshal_call m toolName id with
  | inl _ => Ret (FFailed "failed to build request")
  | inr rpcBody =>
      match url_Parse (sv_URL v) with
      | None => Ret (FFailed "failed to create request")
      | Some _ =>
          st <- mcall_ (MSession (sv_ptr v)) ;;
          p <- (if has_regCache (mc_server s) then mcall_ (MGw (GRegProviderFor agentIdentity (sv_Name v)))
                else Ret None) ;;
          match p with
          | None => Ret (FDone (MHttpError StatusForbidden (no_binding_msg agentIdentity (sv_Name v))))
          | Some p =>
              t <- mcall_ (MGw (GProviderToken p (cl_RawToken c))) ;;
              match t with
              | Err e =>
                  Ret (FDone (if oidcTokenRequired e then MHttpError StatusBadRequest "OIDC token required"
                              else MHttpError StatusInternalServerError "failed to resolve credential"))
              | Ok bearerToken =>
                  a <- mcall_ (MForward (mkUpstream (sv_URL v) st.1 bearerToken rpcBody)) ;;
                  receive v a
              end
          end
      end
  end.

(** ** Authorisation *)

Inductive auth_error := ErrJWTNotConfigured | ErrJWTMissing | ErrJWTInvalid | ErrJWTActionDenied.

Definition authorizeWriteToolFromToken (toolName token : string) : prog ms (auth_error + Claims) :=
  if negb (has_jwtManager (mc_server s)) then Ret (inl ErrJWTNotConfigured)
  else
    r <- mcall_ (MValidateToken token) ;;
    Ret match r with
        | Err _ => inl ErrJWTInvalid
        | Ok claims => if jc_Action claims <>? toolName then inl ErrJWTActionDenied else inr claims
        end.

(** [header] is [X-AIP-Authorization]. *)
Definition authorizeWriteTool (header toolName : string) : prog ms (auth_error + Claims) :=
  if negb (has_jwtManager (mc_server s)) then Ret (inl ErrJWTNotConfigured)
  else if negb (HasPrefix header "Bearer ") then Ret (inl ErrJWTMissing)
  else authorizeWriteToolFromToken toolName (TrimPrefix header "Bearer ").

(** ** The state of the request behind a token *)

(** One condition, retried on conflict. *)
Definition setARCondition (name condType reason msg : string) : prog gw (option error) :=
  r <- RetryOnConflict (
         g <- gcall_ (GGetAR Cached (NN defaultNamespace name)) ;;
         match g with
         | Err e => Ret (tt, Some e)
         | Ok ar =>
             now <- gcall_ GWallNow ;;
             p <- gcall_ (GPatchARStatus false ar
                    (set_conditions (SetStatusCondition (conditions ar)
                       (cond condType ConditionTrue reason msg) now) ar)) ;;
             Ret (tt, match p with Ok _ => None | Err e => Some e end)
         end) ;;
  Ret r.2.

Definition set_executing (name : string) : prog gw (option error) :=
  setARCondition name ConditionExecuting "AgentStarted" "Agent executing via MCP".

Definition completeAgentRequest (name outcome : string) : prog gw unit :=
  if negb (has_client s) || (name ==? "") then Ret tt
  else
    e <- set_executing name ;;
    match e with
    | Some _ => Ret tt
    | None =>
        let msg := if outcome <>? "" then outcome else "Agent successfully completed the action"%string in
        setARCondition name ConditionCompleted "ActionSuccess" msg ;;; Ret tt
    end.

Definition failAgentRequest (name reason : string) : prog gw unit :=
  if negb (has_client s) || (name ==? "") then Ret tt
  else
    g <- gcall_ (GGetAR Cached (NN defaultNamespace name)) ;;
    match g with
    | Err _ => Ret tt
    | Ok ar =>
        if phase ar ==? PhaseApproved then
          e <- set_executing name ;;
          match e with
          | Some _ => Ret tt
          | None => setARCondition name ConditionFailed "ExecutionFailed" reason ;;; Ret tt
          end
        else if phase ar ==? PhaseExecuting then
          setARCondition name ConditionFailed "ExecutionFailed" reason ;;; Ret tt
        else if (phase ar ==? PhasePending) || (phase ar ==? PhaseAwaitingVerdict) then
          setARCondition name ConditionFailed "Abandoned" reason ;;; Ret tt
        else Ret tt
    end.

(** ** Requests for approval *)

Inductive submit_error := ErrAgentNotRegistered | ErrIdentityMismatch | ErrOther.

(** The identity to use, and whether it is unregistered. *)
Definition enforceRegistrationPolicy (c : caller) (agentID : string) : prog gw (submit_error + string * bool) :=
  if negb (has_regCache (mc_server s)) then Ret (inr (agentID, false))
  else
    reg <- gcall_ (GRegForSubject agentID (cl_Sub c)) ;;
    match reg with
    | None =>
        ex <- (if agentID <>? "" then gcall_ (GRegGet agentID) else Ret None) ;;
        match ex with
        | Some _ => Ret (inl ErrIdentityMismatch)
        | None =>
            Ret (if unregisteredAgentPolicy (mc_server s) ==? "strict" then inl ErrAgentNotRegistered
                 else inr (agentID, true))
        end
    | Some reg =>
        Ret (if authRequired (mc_server s) && (cl_Sub c ==? "") then inl ErrIdentityMismatch
             else inr (identity_of reg, false))
    end.

(** The request literal, with the parameters. *)
Definition tool_request (agentID prefixedToolName targetURI reason : string) (toolArgs : args) : AgentRequest :=
  mkAR
    (mkMeta "" "" defaultNamespace ""
       (<[label_profile := ProfileNameForAgent agentID]> {[ label_agent := sanitizeLabelValue agentID ]}) ∅
       0 0 0 None [] [])
    (mkSpec agentID prefixedToolName (mkTarget targetURI None ∅) reason "" "" "" None None None None None
       (if bool_decide (toolArgs = ∅) then None else Marshal_args toolArgs) None None None None)
    empty_status.

(** The governing resource and the trust gate; errors are only logged. *)
Definition scope_request (agentID targetURI prefixedToolName : string) (ar : AgentRequest) : prog gw AgentRequest :=
  l <- gcall_ GListGR ;;
  match l with
  | Err _ | Ok [] => Ret ar
  | Ok items =>
      g <- matchGovernedResource items targetURI prefixedToolName ;;
      match g with
      | None => Ret ar
      | Some gr =>
          let ar := set_ref gr ar in
          match gr_TrustRequirements (gr_Spec gr) with
          | None => Ret ar
          | Some _ =>
              t <- evaluateTrustGate defaultNamespace agentID "" gr ;;
              Ret match t with
                  | Err _ => ar
                  | Ok res_ =>
                      if rejected res_ then annotate AnnotationCanExecute "false" ar
                      else match annotations res_ with
                           | Some anns => set_annotations (λ old, anns ∪ old) ar
                           | None => ar
                           end
                  end
          end
      end
  end.

(** Up to three random names. *)
Fixpoint create_named (n : nat) (ar : AgentRequest) : prog ms (submit_error + AgentRequest) :=
  match n with
  | O => Ret (inl ErrOther)
  | S n' =>
      name <- mcall_ MRandomName ;;
      x <- mcall_ (MGw (GCreateAR (set_name name ar))) ;;
      match x with
      | Ok created => Ret (inr created)
      | Err e => if IsAlreadyExists e then create_named n' ar else Ret (inl ErrOther)
      end
  end.

Definition submitAgentRequestForTool (c : caller) (agentID prefixedToolName targetURI reason : string)
  (toolArgs : args) : prog ms (submit_error + AgentRequest) :=
  if negb (has_client s) then Ret (inl ErrOther)
  else
    r <- lift (enforceRegistrationPolicy c agentID) ;;
    match r with
    | inl e => Ret (inl e)
    | inr (agentID, unregistered) =>
        let targetURI := if targetURI ==? "" then buildTargetURI toolArgs else targetURI in
        let reason := if reason ==? "" then ("Agent tool call: " +:+ prefixedToolName)%string else reason in
        let ar := tool_request agentID prefixedToolName targetURI reason toolArgs in
        let ar := if unregistered && (unregisteredAgentPolicy (mc_server s) ==? "warn")
                  then annotate annotation_unregistered "true" ar else ar in
        ar <- lift (scope_request agentID targetURI prefixedToolName ar) ;;
        create_named 3 ar
    end.

Definition governanceSubmissionPath (c : caller) (toolName : string) (m : args) (aipTargetURI aipReason : string)
  : prog ms mcp_response :=
  if (cl_Sub c ==? "") && authRequired (mc_server s) then
    Ret (MRpcError ErrCodeAuth "caller identity required for write tools")
  else
    let agentID := if cl_Sub c ==? "" then "unauthenticated"%string else cl_Sub c in
    r <- submitAgentRequestForTool c agentID toolName aipTargetURI aipReason m ;;
    Ret match r with
        | inl ErrOther => MRpcError ErrCodeInternal "failed to submit governance request"
        | inl _ => MRpcError ErrCodeForbidden "failed to submit governance request"
        | inr ar => MRpcContent (CPendingApproval (om_Name (ar_Meta ar)))
        end.

(** ** Waiting for approval *)

(** The token minted for an approved request; [""] when there is none. *)
Definition approval_token (ar : AgentRequest) : prog gw string :=
  if has_jwtManager (mc_server s) then
    t <- gcall_ (GMintToken (spec_AgentIdentity (ar_Spec ar)) (spec_Action (ar_Spec ar))
                   (tgt_URI (spec_Target (ar_Spec ar))) (om_Name (ar_Meta ar))) ;;
    Ret match t with Ok (tok, _) => tok | Err _ => ""%string end
  else Ret ""%string.

(** [None]: still in progress. *)
Definition aipApprovalResult (ar : AgentRequest) : prog gw (option tool_content) :=
  let name := om_Name (ar_Meta ar) in
  let st := ar_Status ar in
  if phase ar ==? PhaseApproved then
    jwtToken <- approval_token ar ;;
    let approvedBy := match spec_HumanApproval (ar_Spec ar) with Some ha => ha_ApprovedBy ha | None => ""%string end in
    Ret (Some (CApproved jwtToken approvedBy name))
  else if phase ar ==? PhaseDenied then
    Ret (Some (CDenied (match st_Denial st with Some d => dn_Message d | None => "denied by policy"%string end) name))
  else if phase ar ==? PhaseExpired then Ret (Some (CExpired name))
  else if phase ar ==? PhaseCompleted then
    Ret (if st_Verdict st <>? ""
         then Some (CGraded (st_Verdict st) (st_VerdictReasonCode st) (st_VerdictNote st) name) else None)
  else if phase ar ==? PhaseFailed then Ret (Some (CFailed name))
  else Ret None.

(** The loop over the watch's events; [fuel] bounds their number. *)
Fixpoint await_events (fuel : nat) (requestID : string) : prog ms mcp_response :=
  match fuel with
  | O => Ret MWaiting
  | S fuel' =>
      w <- mcall_ MWatchNext ;;
      match w with
      | WTimeout =>
          lift (failAgentRequest requestID "timed out waiting for agent to complete execution") ;;;
          Ret (MRpcError ErrCodeInternal "timed out waiting for approval")
      | WClosed => Ret (MRpcError ErrCodeInternal "watch channel closed unexpectedly")
      | WError => Ret (MRpcError ErrCodeInternal "request watch error or deleted")
      | WOther => await_events fuel' requestID
      | WObject updated =>
          if om_Name (ar_Meta updated) <>? requestID then await_events fuel' requestID
          else
            r <- lift (aipApprovalResult updated) ;;
            match r with
            | Some c => Ret (MRpcContent c)
            | None => await_events fuel' requestID
            end
      end
  end.

Definition handleAIPAwaitApproval (fuel : nat) (m : args) : prog ms mcp_response :=
  let requestID := str_arg m "requestId" in
  if requestID ==? "" then Ret (MRpcError ErrCodeInvalid "requestId is required")
  else
    g <- mcall_ (MGw (GGetAR Live (NN defaultNamespace requestID))) ;;
    match g with
    | Err _ => Ret (MRpcError ErrCodeInvalid ("AgentRequest not found: " +:+ requestID))
    | Ok ar =>
        r <- lift (aipApprovalResult ar) ;;
        match r with
        | Some c => Ret (MRpcContent c)
        | None =>
            w <- mcall_ (MWatchAR requestID (om_ResourceVersion (ar_Meta ar))) ;;
            match w with
            | Err _ => Ret (MRpcError ErrCodeInternal "failed to watch request")
            | Ok _ => await_events fuel requestID
            end
        end
    end.

Definition handleAIPTool (fuel : nat) (toolName : string) (m : args) : prog ms mcp_response :=
  if toolName ==? "await_approval" then handleAIPAwaitApproval fuel m
  else Ret (MRpcError ErrCodeInvalid ("unknown aip tool: " +:+ toolName)).

(** ** [tools/call] *)

Definition writeAuthError (e : auth_error) : mcp_response :=
  match e with
  | ErrJWTNotConfigured => MRpcError ErrCodeInternal "JWT signing not configured"
  | ErrJWTActionDenied => MRpcError ErrCodeForbidden "tool not allowed for this action"
  | ErrJWTMissing => MRpcError ErrCodeAuth "missing AIP bearer token"
  | ErrJWTInvalid => MRpcError ErrCodeAuth "invalid AIP token"
  end.

(** A finished handler: its response, and the request that a goroutine it
    started completes. *)
Definition finished : Type := mcp_response * option string.

(** The call of an authorised tool; [requestRef] is [""] for read-only ones. *)
Definition call_tool (c : caller) (v : server_view) (m : args) (toolName : string) (id : option JSON)
  (agent requestRef : string) : prog ms finished :=
  f <- forwardToolCall c v m toolName id agent ;;
  match f with
  | FDone resp =>
      (if requestRef <>? "" then lift (failAgentRequest requestRef "MCP tool credential error") else Ret tt) ;;;
      Ret (resp, None)
  | FFailed errMsg =>
      (if requestRef <>? "" then lift (failAgentRequest requestRef ("MCP tool execution failed: " +:+ errMsg))
       else Ret tt) ;;;
      Ret (MRpcError ErrCodeInternal errMsg, None)
  | FResult result =>
      Ret (MRpcContent (CResult result), if requestRef <>? "" then Some requestRef else None)
  end.

Definition strip (m : args) : args :=
  delete "_aip_reason" (delete "_aip_target_uri" (delete "_aip_authorization" m)).

(** [header] is [X-AIP-Authorization]. *)
Definition handleToolsCall (fuel : nat) (c : caller) (header : string) (req : JSONRPCRequest) : prog ms finished :=
  let answer r := Ret (r, None) in
  match Unmarshal_call (rpc_Params req) with
  | inl _ => answer (MRpcError ErrCodeInvalid "invalid tools/call params")
  | inr (name, m) =>
      match splitPrefixedName name with
      | None => answer (MRpcError ErrCodeInvalid "invalid tool name")
      | Some (serverName, toolName) =>
          if serverName ==? "aip" then r <- handleAIPTool fuel toolName m ;; answer r
          else
            sv <- findMCPServer serverName ;;
            match sv with
            | None => answer (MRpcError ErrCodeInvalid ("MCP server not found: " +:+ serverName))
            | Some v =>
                ensureSession v ;;;
                commit_session v ;;;
                match findTool v toolName with
                | None => answer (MRpcError ErrCodeInvalid ("tool not found: " +:+ toolName))
                | Some tool =>
                    let aipJWT := str_arg m "_aip_authorization" in
                    let aipTargetURI := str_arg m "_aip_target_uri" in
                    let aipReason := str_arg m "_aip_reason" in
                    let m := strip m in
                    let action := prefixed serverName toolName in
                    if mt_ReadOnly tool then call_tool c v m toolName (rpc_ID req) (cl_Sub c) ""
                    else
                      a <- (if aipJWT <>? "" then authorizeWriteToolFromToken action aipJWT
                            else authorizeWriteTool header action) ;;
                      match a with
                      | inl ErrJWTMissing =>
                          r <- governanceSubmissionPath c name m aipTargetURI aipReason ;; answer r
                      | inl e => answer (writeAuthError e)
                      | inr claims =>
                          let err := enforceResourceClaimForTool serverName (jc_Resource claims) m in
                          if err <>? "" then answer (MRpcError ErrCodeForbidden err)
                          else call_tool c v m toolName (rpc_ID req) (jc_Subject claims) (jc_Request claims)
                      end
                end
            end
      end
  end.

(** ** The proxy endpoint *)

(** The text of an error result. *)
Definition error_text (r : mcpProxyResult) : string :=
  match mr_Content r with
  | c :: _ => if Unmarshal_text c <>? "" then Unmarshal_text c else "MCP tool returned an error"%string
  | [] => "MCP tool returned an error"
  end.

Definition parseProxyBody (body toolName : string) : option args :=
  match Unmarshal_call (mkJSON body) with
  | inl _ => None
  | inr (name, m) => if (name <>? "") && (name <>? toolName) then None else Some m
  end.

(** After authorisation; [claims] is [None] for a read-only tool. *)
Definition proxy_call (c : caller) (v : server_view) (toolName : string) (body : option string)
  (claims : option Claims) : prog ms finished :=
  let answer r := Ret (r, None) in
  let agent := match claims with Some cl => jc_Subject cl | None => cl_Sub c end in
  let requestRef := match claims with Some cl => jc_Request cl | None => ""%string end in
  let fail_request (reason : string) : prog ms unit :=
    if requestRef <>? "" then lift (failAgentRequest requestRef reason) else Ret tt in
  match body with
  | None => answer (MHttpError StatusBadRequest "failed to read body")
  | Some body =>
      match parseProxyBody body toolName with
      | None => answer (MHttpError StatusBadRequest "invalid request body")
      | Some m =>
          ok <- ensureSession v ;;
          if negb ok then answer (MHttpError StatusBadGateway "Failed to establish upstream MCP session")
          else
            commit_session v ;;;
            let repoErr := match claims with Some cl => enforceRepoClaim (jc_Resource cl) m | None => ""%string end in
            if repoErr <>? "" then answer (MHttpError StatusForbidden repoErr)
            else
              f <- forwardToolCall c v m toolName (Some (mkJSON "1")) agent ;;
              match f with
              | FDone resp => answer resp
              | FFailed errMsg =>
                  fail_request ("MCP tool execution failed: " +:+ errMsg)%string ;;;
                  answer (MHttpError StatusBadGateway errMsg)
              | FResult result =>
                  if mr_IsError result then
                    fail_request ("MCP tool returned an error: " +:+ error_text result)%string ;;;
                    answer (MHttpError StatusBadGateway (error_text result))
                  else Ret (MHttpResult result, if requestRef <>? "" then Some requestRef else None)
              end
      end
  end.

Definition handleMCPProxy (c : caller) (header serverName toolName : string) (body : option string) : prog ms finished :=
  let answer r := Ret (r, None) in
  sv <- findMCPServer serverName ;;
  match sv with
  | None => answer (MHttpError StatusNotFound ("MCP server not found: " +:+ serverName))
  | Some v =>
      match findTool v toolName with
      | None => answer (MHttpError StatusNotFound ("tool not found: " +:+ toolName))
      | Some tool =>
          if mt_ReadOnly tool then proxy_call c v toolName body None
          else
            a <- authorizeWriteTool header (prefixed serverName toolName) ;;
            match a with
            | inl ErrJWTNotConfigured => answer (MHttpError StatusServiceUnavailable "JWT signing not configured")
            | inl ErrJWTActionDenied => answer (MHttpError StatusForbidden "tool not allowed for this action")
            | inl ErrJWTMissing => answer (MHttpError StatusUnauthorized "missing AIP bearer token")
            | inl ErrJWTInvalid => answer (MHttpError StatusUnauthorized "invalid AIP token")
            | inr claims => proxy_call c v toolName body (Some claims)
            end
      end
  end.

(** ** The JSON-RPC endpoint *)

(** The names of the governance tools. *)
Definition aipToolDefs : list string := ["aip/await_approval"%string].

Definition handleToolsList : prog ms mcp_response :=
  cached <- (if has_mcpCache s then mcall_ MCacheAll else Ret []) ;;
  let servers := match cached with [] => (λ v, (sv_Name v, sv_Tools v)) <$> mcpServers s | _ => cached end in
  Ret (MRpcTools (servers ≫= λ sv, (λ t, (prefixed sv.1 (mt_Name t), mt_Schema t)) <$> sv.2) aipToolDefs).

Definition handleMCP (fuel : nat) (c : caller) (header : string) (body : option string) : prog ms finished :=
  let answer r := Ret (r, None) in
  match body with
  | None => answer (MRpcError ErrCodeParse "failed to read body")
  | Some body =>
      match ParseJSONRPCRequest body with
      | inl err => answer (MRpcError ErrCodeParse err)
      | inr req =>
          if rpc_Method req ==? "initialize" then answer MRpcInitialize
          else if rpc_Method req ==? "notifications/initialized" then
            answer (match rpc_ID req with Some _ => MRpcEmpty | None => MNothing end)
          else if rpc_Method req ==? "tools/list" then r <- handleToolsList ;; answer r
          else if rpc_Method req ==? "tools/call" then handleToolsCall fuel c header req
          else answer (MRpcError ErrCodeMethod ("Method not found: " +:+ rpc_Method req))
      end
  end.

(** A handler with the goroutine it started; between the two it makes no
    calls. *)
Definition with_background (p : prog ms finished) : prog ms mcp_response :=
  r <- p ;;
  match r.2 with
  | Some requestRef => lift (completeAgentRequest requestRef "") ;;; Ret r.1
  | None => Ret r.1
  end.

End handlers.
