(* ===== verification/McpFacts.v ===== *)
(** * What tool calls can do

    Every call of the two MCP endpoints is allowed by [mcp_allowed]: a tool is
    called upstream only with a credential bound to the agent, and a tool that
    writes only under a validated token whose action and resource are those of
    the call; tokens are minted only for requests seen Approved; nothing but
    conditions of the request behind the call is written. *)

From S2P Require Import Prelude GoStd GoStrings Types Prog Kube Conditions Naming.
From S2P Require Import Retry Registration GatewayAuth Gateway GatewayCreate Jwt McpServers Mcp.

Section facts.
Context `{GL : GlobLib, MC : MetaConditions, RL : RetryLib gw, ML : McpLib}.
Context (s : mcp_config) (oidcTokenRequired : error → bool).

Abbreviation mhist := (list (event ms)).
Definition mdid (h : mhist) (c : mcall) (x : mresp c) : Prop := Ev (S:=ms) c x ∈ h.

Lemma mdid_mono h h' c x : h ⊆ h' → mdid h c x → mdid h' c x.
Proof. unfold mdid. set_solver. Qed.

(** ** Lifted programs *)

Definition lift_ev (e : event gw) : event ms := let 'Ev c x := e in Ev (S:=ms) (MGw c) x.

Lemma safe_lift {A} (P : mhist → mcall → Prop) h (p : prog gw A) Q :
  safe any (λ hg c, P (h ++ (lift_ev <$> hg)) (MGw c)) [] p (λ hg a, Q (h ++ (lift_ev <$> hg)) a) →
  safe (S:=ms) any P h (lift p) Q.
Proof.
  enough (∀ hg, safe any (λ hg c, P (h ++ (lift_ev <$> hg)) (MGw c)) hg p (λ hg a, Q (h ++ (lift_ev <$> hg)) a) →
    safe (S:=ms) any P (h ++ (lift_ev <$> hg)) (lift p) Q) as H.
  { intros Hs. specialize (H [] Hs). by rewrite app_nil_r in H. }
  induction p as [a|c k IH]; intros hg Hs; cbn in *; [done|]. destruct Hs as [Hc Hk]. split; [done|].
  intros r _. specialize (IH r (hg ++ [Ev (S:=gw) c r]) (Hk r I)). by rewrite fmap_app, app_assoc in IH.
Qed.

(** ** Claims *)

(** The repository of a token is the one of the arguments. *)
Definition repo_matches (resource : string) (m : args) : Prop :=
  ∃ owner repo, repo_of_claim (TrimPrefix resource "github://") = Some (owner, repo) ∧
    str_arg m "owner" = owner ∧ str_arg m "repo" = repo ∧ owner ≠ ""%string ∧ repo ≠ ""%string.

Lemma repo_claim_spec resource m :
  enforceRepoClaim resource m = ""%string ↔ resource ≠ ""%string ∧ repo_matches resource m.
Proof.
  unfold enforceRepoClaim, repo_matches. destruct (String.eqb_spec resource "") as [->|Hr]; [naive_solver|].
  destruct (repo_of_claim _) as [[o r]|]; [|naive_solver].
  destruct (String.eqb_spec (str_arg m "owner") "") as [E1|E1], (String.eqb_spec (str_arg m "repo") "") as [E2|E2];
    cbn [orb]; try (split; [discriminate|]; intros (_ & o' & r' & [= <- <-] & ? & ? & ? & ?); congruence).
  destruct (String.eqb_spec (str_arg m "owner") o) as [<-|Ho]; cbn [negb].
  2: { split; [discriminate|]. intros (_ & o' & r' & [= <- <-] & ? & ?). done. }
  destruct (String.eqb_spec (str_arg m "repo") r) as [<-|Hp]; cbn [negb].
  2: { split; [discriminate|]. intros (_ & o' & r' & [= <- <-] & ? & ? & ?). done. }
  split; [|done]. intros _. split; [done|]. eauto 10.
Qed.

Lemma resource_claim_spec resource m :
  enforceResourceClaim resource m = ""%string ↔ resource ≠ ""%string ∧ resource = buildTargetURI m.
Proof.
  unfold enforceResourceClaim. destruct (String.eqb_spec resource "") as [->|Hr]; [naive_solver|].
  destruct (String.eqb_spec resource (buildTargetURI m)); cbn [negb]; [naive_solver|].
  split; [discriminate|naive_solver].
Qed.

(** The resource of the token is the target of the call. *)
Definition claim_matches (serverName resource : string) (m : args) : Prop :=
  if serverName ==? "github" then repo_matches resource m else resource = buildTargetURI m.

Lemma tool_claim_spec serverName resource m :
  enforceResourceClaimForTool serverName resource m = ""%string → claim_matches serverName resource m.
Proof.
  unfold enforceResourceClaimForTool, claim_matches. destruct (serverName ==? "github").
  - by intros [_ ?]%repo_claim_spec.
  - by intros [_ ?]%resource_claim_spec.
Qed.

(** ** The calls allowed *)

(** The server of that name, as the cache or the environment has it. *)
Definition server_found (h : mhist) (name : string) (v : server_view) : Prop :=
  mdid h (MCacheGet name) (Some v) ∨ (v ∈ mcpServers s ∧ sv_Name v = name).

(** A validated token for a tool. *)
Definition token_for (h : mhist) (action : string) (claims : Claims) : Prop :=
  ∃ tok, mdid h (MValidateToken tok) (Ok claims) ∧ jc_Action claims = action.

(** Who the call is made for: the subject of a token whose action and resource
    are those of the call, or the caller of a read-only tool. *)
Definition authorised (h : mhist) (c : caller) (serverName toolName : string) (m : args)
  (matches : string → args → Prop) (tool : MCPTool) (agent : string) : Prop :=
  (mt_ReadOnly tool = true ∧ agent = cl_Sub c) ∨
  (mt_ReadOnly tool = false ∧ ∃ claims, token_for h (prefixed serverName toolName) claims ∧
     matches (jc_Resource claims) m ∧ agent = jc_Subject claims).

(** An upstream call as the gateway may make it. *)
Definition forward_ok (h : mhist) (c : caller) (serverName toolName : string) (m : args) (id : option JSON)
  (matches : string → args → Prop) (u : upstream_call) : Prop :=
  ∃ v tool agent p, server_found h serverName v ∧ findTool v toolName = Some tool ∧
    authorised h c serverName toolName m matches tool agent ∧
    up_URL u = sv_URL v ∧ Marshal_call m toolName id = inr (up_Body u) ∧
    mdid h (MGw (GRegProviderFor agent (sv_Name v))) (Some p) ∧
    mdid h (MGw (GProviderToken p (cl_RawToken c))) (Ok (up_Bearer u)).

(** A write of one condition of a request that was read. *)
Definition condition_write (h : mhist) (name : string) (types : list string) (base new : AgentRequest) : Prop :=
  mdid h (MGw (GGetAR Cached (NN defaultNamespace name))) (Ok base) ∧
  ∃ ty reason msg now, ty ∈ types ∧
    new = set_conditions (SetStatusCondition (conditions base) (cond ty ConditionTrue reason msg) now) base.

(** A token for an Approved request as it was read or watched. *)
Definition mint_ok (h : mhist) (agent action resource name : string) : Prop :=
  ∃ ar, ((∃ nn, mdid h (MGw (GGetAR Live nn)) (Ok ar)) ∨ mdid h MWatchNext (WObject ar)) ∧
    phase ar = PhaseApproved ∧ agent = spec_AgentIdentity (ar_Spec ar) ∧ action = spec_Action (ar_Spec ar) ∧
    resource = tgt_URI (spec_Target (ar_Spec ar)) ∧ name = om_Name (ar_Meta ar).

(** The setting of one request: the tool called, its arguments, how the
    resource of a token must match them, and the request waited for. *)
Section setting.
Context (c : caller) (serverName toolName : string) (m : args) (id : option JSON)
  (matches : string → args → Prop) (target : string) (awaited : option string).

(** Which request's conditions may be set: the one behind the token, Completed
    only after the server answered; or the one waited for, which times out. *)
Definition ref_ok (h : mhist) (name ty : string) : Prop :=
  (awaited = Some name ∧ ty ∈ [ConditionExecuting; ConditionFailed]) ∨
  (∃ claims, token_for h (prefixed serverName toolName) claims ∧ name = jc_Request claims ∧
     (ty ∈ [ConditionExecuting; ConditionFailed] ∨
      ty ∈ [ConditionExecuting; ConditionCompleted] ∧ ∃ u body, mdid h (MForward u) (UpResponse StatusOK body))).

(** The identity a request for approval is created with. *)
Definition submitter_ok (h : mhist) (agentID : string) : Prop :=
  (authRequired (mc_server s) = true → cl_Sub c ≠ ""%string) ∧
  let claimed := if cl_Sub c ==? "" then "unauthenticated"%string else cl_Sub c in
  (has_regCache (mc_server s) = false ∧ agentID = claimed) ∨
  (∃ reg, mdid h (MGw (GRegForSubject claimed (cl_Sub c))) (Some reg) ∧ agentID = identity_of reg) ∨
  (mdid h (MGw (GRegForSubject claimed (cl_Sub c))) None ∧ mdid h (MGw (GRegGet claimed)) None ∧
   unregisteredAgentPolicy (mc_server s) ≠ "strict"%string ∧ agentID = claimed).

(** A request for approval of this call: nothing is decided in it. *)
Definition asks_approval (agentID : string) (a : AgentRequest) : Prop :=
  spec_AgentIdentity (ar_Spec a) = agentID ∧ spec_Action (ar_Spec a) = prefixed serverName toolName ∧
  tgt_URI (spec_Target (ar_Spec a)) = (if target ==? "" then buildTargetURI m else target) ∧
  spec_HumanApproval (ar_Spec a) = None ∧ ar_Status a = empty_status ∧ om_Namespace (ar_Meta a) = defaultNamespace.

Definition create_ok (h : mhist) (a : AgentRequest) : Prop :=
  (∃ v tool, server_found h serverName v ∧ findTool v toolName = Some tool ∧ mt_ReadOnly tool = false) ∧
  ∃ agentID, submitter_ok h agentID ∧ asks_approval agentID a.

Definition mcp_allowed (h : mhist) (call : mcall) : Prop :=
  match call with
  | MForward u => forward_ok h c serverName toolName m id matches u
  | MGw (GPatchARStatus l base new) =>
      l = false ∧ ∃ name ty, ref_ok h name ty ∧ condition_write h name [ty] base new
  | MGw (GMintToken agent action resource name) => mint_ok h agent action resource name
  | MGw (GCreateAR a) => create_ok h a
  | MGw (GPatchAR _ _) | MGw (GDeleteAR _) => False
  | _ => True
  end.

Abbreviation walk h p Q := (safe (S:=ms) any mcp_allowed h p Q).

(** One call that is allowed as such. *)
Ltac mcall x h Hs Hx := apply (safe_call (S:=ms)); [exact I|intros x h _ Hs Hx].
Ltac mlast x h Hs Hx := apply (safe_last (S:=ms)); [exact I|intros x h _ Hs Hx].

Lemma token_for_mono h h' action claims : h ⊆ h' → token_for h action claims → token_for h' action claims.
Proof. intros Hs (tok & Ht & E). exists tok. split; [by eapply mdid_mono|done]. Qed.

Lemma ref_ok_mono h h' name ty : h ⊆ h' → ref_ok h name ty → ref_ok h' name ty.
Proof.
  intros Hs [H|(claims & Ht & En & Hty)]; [by left|right]. exists claims. split; [by eapply token_for_mono|].
  split; [done|]. destruct Hty as [Hty|[Hty (u & body & Hu)]]; [by left|right]. split; [done|]. exists u, body.
  by eapply mdid_mono.
Qed.

(** *** The request behind a call *)

Definition gwalk (h : mhist) (hg : list (event gw)) (call : gcall) : Prop :=
  mcp_allowed (h ++ (lift_ev <$> hg)) (MGw call).

Lemma set_condition_walk h hg name ty reason msg :
  ref_ok h name ty → safe any (gwalk h) hg (setARCondition name ty reason msg) (λ _ _, True).
Proof.
  intros Hr. unfold setARCondition. apply safe_bind.
  apply (retry_rule (S:=gw) any (gwalk h) (λ _, True) (λ _ _, True)); [|done]. intros hg1 _.
  split; [exact I|]. intros g _. destruct g as [ar|e]; [|done].
  split; [exact I|]. intros now _. split; [|by intros p _; destruct p].
  split; [done|]. exists name, ty. split; [eapply ref_ok_mono; [|exact Hr]; set_solver|].
  split.
  - unfold mdid. rewrite !fmap_app. cbn. set_solver.
  - exists ty, reason, msg, now. split; [set_solver|done].
Qed.

Lemma complete_walk h hg name outcome :
  ref_ok h name ConditionExecuting → ref_ok h name ConditionCompleted →
  safe any (gwalk h) hg (completeAgentRequest s name outcome) (λ _ _, True).
Proof.
  intros H1 H2. unfold completeAgentRequest. destruct (_ || _); [done|]. apply safe_bind.
  eapply safe_post; [|by apply set_condition_walk]. intros hg1 [e|] _; [done|]. apply safe_bind.
  eapply safe_post; [|by apply set_condition_walk]. done.
Qed.

Lemma fail_walk h hg name reason :
  ref_ok h name ConditionExecuting → ref_ok h name ConditionFailed →
  safe any (gwalk h) hg (failAgentRequest s name reason) (λ _ _, True).
Proof.
  intros H1 H2. unfold failAgentRequest. destruct (_ || _); [done|].
  apply (safe_call (S:=gw)); [exact I|]. intros g hg0 _ _ _. destruct g as [ar|e]; [|done].
  assert (∀ hg r, safe any (gwalk h) hg (bind (setARCondition name ConditionFailed r reason) (λ _, Ret tt)) (λ _ _, True)) as Hf.
  { intros hg1 r. apply safe_bind. eapply safe_post; [|by apply set_condition_walk]. done. }
  destruct (phase ar ==? PhaseApproved);
    [|destruct (phase ar ==? PhaseExecuting); [apply Hf|destruct (_ || _); [apply Hf|done]]].
  apply safe_bind. eapply safe_post; [|by apply set_condition_walk]. intros hg1 [e|] _; [done|]. apply Hf.
Qed.

Lemma lift_walk {A} h (p : prog gw A) :
  safe any (gwalk h) [] p (λ _ _, True) → walk h (lift p) (λ h' _, h ⊆ h').
Proof. intros Hp. apply safe_lift. eapply safe_post; [|exact Hp]. intros hg a _. set_solver. Qed.

(** *** Sessions and servers *)

Lemma server_found_mono h h' name v : h ⊆ h' → server_found h name v → server_found h' name v.
Proof. intros Hs [H|H]; [left; by eapply mdid_mono|by right]. Qed.

Lemma find_walk h name :
  walk h (findMCPServer s name) (λ h' r, h ⊆ h' ∧ ∀ v, r = Some v → server_found h' name v).
Proof.
  assert (∀ v, List.find (λ v, sv_Name v ==? name) (mcpServers s) = Some v → v ∈ mcpServers s ∧ sv_Name v = name) as Hf.
  { intros v [Hin E%String.eqb_eq]%find_some. by rewrite list_elem_of_In. }
  unfold findMCPServer. destruct (has_mcpCache s); [|by split; [|intros v Hv; right; apply Hf]].
  mcall r h1 Hs1 H1. split; [done|]. intros v Hv. destruct r as [v'|].
  - injection Hv as ->. by left.
  - right. by apply Hf.
Qed.

Lemma ensure_walk h v : walk h (ensureSession v) (λ h' _, h ⊆ h').
Proof.
  mcall ready h1 Hs1 H1. destruct ready; [cbn; set_solver|]. apply safe_bind. mcall r h2 Hs2 H2.
  destruct r as [sid|]; [|cbn; set_solver]. destruct (sid ==? ""); [cbn; set_solver|].
  mcall u h3 Hs3 H3. apply safe_bind. mcall l h4 Hs4 H4. 
  assert (∀ h', h ⊆ h' → walk h' (bind (mcall_ (MSetReady (sv_ptr v) true)) (λ _, Ret true)) (λ h' _, h ⊆ h')) as Hend.
  { intros h' Hh. mcall u' h5 Hs5 H5. cbn. set_solver. }
  destruct l as [sch|]; [|apply Hend; set_solver]. mlast u' h5 Hs5 H5. apply Hend. set_solver.
Qed.

Lemma commit_walk h v : walk h (commit_session s v) (λ h' _, h ⊆ h').
Proof.
  unfold commit_session. destruct (has_mcpCache s); [|by cbn]. mcall st h1 Hs1 H1. mlast u h2 Hs2 H2. set_solver.
Qed.

(** *** Authorisation *)

Lemma token_walk h action token :
  walk h (authorizeWriteToolFromToken s action token)
    (λ h' r, h ⊆ h' ∧ ∀ claims, r = inr claims → token_for h' action claims).
Proof.
  unfold authorizeWriteToolFromToken. destruct (has_jwtManager _); cbn [negb]; [|by split; [|intros ? [=]]].
  mcall r h1 Hs1 H1. split; [done|]. intros claims. destruct r as [cl|e]; [|done].
  destruct (String.eqb_spec (jc_Action cl) action); cbn [negb]; [|done]. intros [= ->]. by exists token.
Qed.

Lemma header_walk h action header :
  walk h (authorizeWriteTool s header action)
    (λ h' r, h ⊆ h' ∧ ∀ claims, r = inr claims → token_for h' action claims).
Proof.
  unfold authorizeWriteTool. destruct (negb _); [by split; [|intros ? [=]]|].
  destruct (negb _); [by split; [|intros ? [=]]|]. apply token_walk.
Qed.

(** *** Forwarding *)

Lemma authorised_mono h h' tool agent :
  h ⊆ h' → authorised h c serverName toolName m matches tool agent →
  authorised h' c serverName toolName m matches tool agent.
Proof.
  intros Hs [H|(Hro & claims & Ht & H)]; [by left|right]. split; [done|]. exists claims.
  split; [by eapply token_for_mono|done].
Qed.

Lemma receive_walk h v a :
  walk h (receive s v a) (λ h' r, h ⊆ h' ∧ ∀ res_, r = FResult res_ → ∃ body, a = UpResponse StatusOK body).
Proof.
  destruct a as [| |status body]; cbn [receive]; [by split|by split|].
  destruct (_ <? _); [by split|]. destruct (Z.eqb_spec status StatusOK) as [->|]; cbn [negb].
  - split; [done|]. intros res_ _. by eexists.
  - apply safe_bind. destruct (status =? StatusUnauthorized); [|by split].
    apply safe_bind. mlast u h1 Hs1 H1. destruct (has_mcpCache s); [|by split].
    mlast u' h2 Hs2 H2. split; [set_solver|done].
Qed.

(** A result means that the server answered. *)
Definition answered (h : mhist) (f : forwarded) : Prop :=
  ∀ r, f = FResult r → ∃ u body, mdid h (MForward u) (UpResponse StatusOK body).

Lemma forward_walk h v tool agent :
  server_found h serverName v → findTool v toolName = Some tool →
  authorised h c serverName toolName m matches tool agent →
  walk h (forwardToolCall s oidcTokenRequired c v m toolName id agent) (λ h' f, h ⊆ h' ∧ answered h' f).
Proof.
  intros Hv Ht Ha. unfold forwardToolCall. destruct (Marshal_call m toolName id) as [e|rpcBody] eqn:Em; [by split|].
  destruct (url_Parse (sv_URL v)); [|by split]. mcall st h1 Hs1 H1.
  apply (safe_sub any _ _ _ (λ h' r, ∀ p, r = Some p →
    mdid h' (MGw (GRegProviderFor agent (sv_Name v))) (Some p))).
  { destruct (has_regCache (mc_server s)); [|by split]. mlast x h2 Hs2 H2. split; [done|]. by intros p ->. }
  intros p h2 Hs2 H2. destruct p as [p|]; [|cbn; split; [set_solver|done]]. specialize (H2 p eq_refl).
  mcall t h3 Hs3 H3. destruct t as [bearer|e]; [|cbn; split; [set_solver|done]].
  apply (safe_call (S:=ms)).
  - exists v, tool, agent, p. split; [eapply server_found_mono; [|exact Hv]; set_solver|]. split; [done|].
    split; [eapply authorised_mono; [|exact Ha]; set_solver|]. split; [done|]. split; [done|].
    split; [by eapply mdid_mono|exact H3].
  - intros a h4 _ Hs4 H4. eapply safe_post; [|apply receive_walk]. cbn. intros h5 f [Hs5 Hf]. split; [set_solver|].
    intros r Er. destruct (Hf r Er) as [body ->]. eexists _, body. by eapply mdid_mono.
Qed.

(** *** Requests for approval *)

(** Reads, and the cache of patterns. *)
Definition harmless (call : gcall) : Prop :=
  match call with
  | GCreateAR _ | GDeleteAR _ | GPatchAR _ _ | GPatchARStatus _ _ _ | GMintToken _ _ _ _ | GProviderToken _ _ => False
  | _ => True
  end.

Lemma harmless_allowed h call : harmless call → mcp_allowed h (MGw call).
Proof. by destruct call. Qed.

Lemma match_harmless hg items targetURI action best :
  safe (S:=gw) any (λ _ call, harmless call) hg (match_loop items targetURI action best) (λ _ _, True).
Proof.
  revert hg best. induction items as [|gr items IH]; intros hg best; [done|]. cbn [match_loop].
  destruct (negb _); [apply IH|]. apply safe_bind. apply (safe_call (S:=gw)); [done|]. intros hit hg1 _ _ _.
  destruct hit as [g|]; [apply IH|]. destruct (glob_Compile _) as [g|]; [|apply IH].
  apply (safe_call (S:=gw)); [done|]. intros u hg2 _ _ _. apply IH.
Qed.

Lemma gate_harmless hg ns agentID mode gr :
  safe (S:=gw) any (λ _ call, harmless call) hg (evaluateTrustGate ns agentID mode gr) (λ _ _, True).
Proof.
  unfold evaluateTrustGate. destruct (gr_TrustRequirements _) as [tr|]; [|done]. destruct (mode ==? ModeObserve); [done|].
  assert (∀ hg lv, safe (S:=gw) any (λ _ call, harmless call) hg (gate_level tr ns lv) (λ _ _, True)) as Hg.
  { intros hg1 lv. unfold gate_level. destruct (below_minimum _ _); [done|]. cbv zeta.
    apply (safe_call (S:=gw)); [done|]. intros po hg2 _ _ _. destruct po as [po|e]; [done|]. by destruct (negb _). }
  apply (safe_call (S:=gw)); [done|]. intros po hg2 _ _ _. destruct po as [po|e]; [apply Hg|].
  destruct (negb _); [done|apply Hg].
Qed.

Lemma scope_harmless hg agentID targetURI action ar :
  asks_approval agentID ar →
  safe (S:=gw) any (λ _ call, harmless call) hg (scope_request agentID targetURI action ar)
    (λ _ ar', asks_approval agentID ar').
Proof.
  intros Ha. apply (safe_call (S:=gw)); [done|]. intros l hg1 _ _ _. destruct l as [[|gr items]|e]; [done| |done].
  apply safe_bind. eapply safe_post; [|apply match_harmless]. intros hg2 [g|] _; [|done].
  assert (asks_approval agentID (set_ref g ar)) as Hr by exact Ha. cbv zeta.
  destruct (gr_TrustRequirements _); [|exact Hr]. apply safe_bind. eapply safe_post; [|apply gate_harmless].
  intros hg3 [r|e] _; [|exact Hr]. destruct (rejected r); [exact Hr|]. destruct (annotations r); exact Hr.
Qed.

Lemma lift_harmless {A} h (p : prog gw A) φ :
  safe (S:=gw) any (λ _ call, harmless call) [] p (λ _ a, φ a) → walk h (lift p) (λ h' a, h ⊆ h' ∧ φ a).
Proof.
  intros Hp. apply safe_lift. eapply safe_mono; [| | |exact Hp]; [done|by intros; apply harmless_allowed|].
  intros hg a Hφ. split; [set_solver|done].
Qed.

Lemma policy_walk h :
  (authRequired (mc_server s) = true → cl_Sub c ≠ ""%string) →
  walk h (lift (enforceRegistrationPolicy s c (if cl_Sub c ==? "" then "unauthenticated"%string else cl_Sub c)))
    (λ h' r, h ⊆ h' ∧ ∀ agentID u, r = inr (agentID, u) → submitter_ok h' agentID).
Proof.
  intros Hauth. set (claimed := if cl_Sub c ==? "" then "unauthenticated"%string else cl_Sub c).
  assert (claimed ≠ ""%string) as Hne by (subst claimed; by destruct (String.eqb_spec (cl_Sub c) "")).
  unfold enforceRegistrationPolicy. destruct (has_regCache (mc_server s)) eqn:Hc; cbn [negb lift].
  2: { split; [done|]. intros a u [= <- _]. split; [done|]. by left. }
  cbn [bind trigger]. split; [exact I|]. intros reg _. cbn.
  destruct reg as [reg|]; cbn.
  - split; [set_solver|]. intros a u. destruct (_ && _); [done|]. intros [= <- _]. split; [done|]. right; left.
    exists reg. split; [unfold mdid; set_solver|done].
  - rewrite (proj2 (String.eqb_neq _ _) Hne). cbn. split; [exact I|]. intros ex _. destruct ex as [r|]; cbn.
    + split; [set_solver|]. by intros a u [=].
    + split; [set_solver|]. intros a u. destruct (String.eqb_spec (unregisteredAgentPolicy (mc_server s)) "strict"); [done|].
      intros [= <- _]. split; [done|]. right; right. repeat split; auto; unfold mdid; set_solver.
Qed.

Lemma submitter_mono h h' agentID : h ⊆ h' → submitter_ok h agentID → submitter_ok h' agentID.
Proof.
  intros Hs [Ha H]. split; [done|]. destruct H as [H|[(reg & Hr & E)|(H1 & H2 & H3)]]; [by left|right; left|right; right].
  - exists reg. split; [by eapply mdid_mono|done].
  - split; [by eapply mdid_mono|]. split; [by eapply mdid_mono|done].
Qed.

Lemma create_walk n h agentID ar :
  (∃ v tool, server_found h serverName v ∧ findTool v toolName = Some tool ∧ mt_ReadOnly tool = false) →
  submitter_ok h agentID → asks_approval agentID ar →
  walk h (create_named n ar) (λ h' _, h ⊆ h').
Proof.
  revert h. induction n as [|n IH]; intros h Hv Hsub Ha; [by cbn|]. cbn [create_named].
  assert (∀ h', h ⊆ h' → (∃ v tool, server_found h' serverName v ∧ findTool v toolName = Some tool ∧ mt_ReadOnly tool = false)
    ∧ submitter_ok h' agentID) as Hmono.
  { intros h' Hs. destruct Hv as (v & tool & Hf & H). split; [|by eapply submitter_mono].
    exists v, tool. split; [by eapply server_found_mono|done]. }
  mcall name h1 Hs1 H1. apply (safe_call (S:=ms)).
  - destruct (Hmono h1 Hs1) as [Hv1 Hsub1]. split; [done|]. exists agentID. split; [done|exact Ha].
  - intros x h2 _ Hs2 H2. destruct x as [created|e]; [cbn; set_solver|].
    destruct (IsAlreadyExists e); [|cbn; set_solver].
    assert (h ⊆ h2) as Hs by set_solver. destruct (Hmono h2 Hs) as [Hv2 Hsub2].
    eapply safe_post; [|by apply IH]. intros h3 r Hs3. set_solver.
Qed.

Lemma submission_walk h v tool reason :
  server_found h serverName v → findTool v toolName = Some tool → mt_ReadOnly tool = false →
  walk h (governanceSubmissionPath s c (prefixed serverName toolName) m target reason) (λ h' _, h ⊆ h').
Proof.
  intros Hv Ht Hro. unfold governanceSubmissionPath. destruct (_ && _) eqn:Hauth; [by cbn|].
  assert (authRequired (mc_server s) = true → cl_Sub c ≠ ""%string) as Ha.
  { intros Ha. rewrite Ha, andb_true_r in Hauth. by apply String.eqb_neq. }
  cbv zeta. eapply (safe_sub any _ _ _ (λ _ _, True)); [|intros r h1 Hs1 _; destruct r as [[]|]; cbn; set_solver].
  unfold submitAgentRequestForTool. destruct (has_client s); cbn [negb]; [|by cbn].
  eapply safe_sub; [by apply policy_walk|]. intros r h1 Hs1 Hr. destruct r as [e|[agentID u]]; [by cbn|].
  specialize (Hr agentID u eq_refl). cbv zeta.
  eapply safe_sub; [apply (lift_harmless h1 _ (asks_approval agentID))|].
  { apply scope_harmless. destruct (u && _); repeat split. }
  intros ar h2 Hs2 Har. eapply safe_post; [|apply (create_walk 3 h2 agentID ar); [|by eapply submitter_mono|exact Har]].
  - cbn. intros h3 r Hs3. split; [set_solver|done].
  - exists v, tool. split; [eapply server_found_mono; [|exact Hv]; set_solver|done].
Qed.

(** *** Waiting *)

Lemma approval_walk h ar :
  ((∃ nn, mdid h (MGw (GGetAR Live nn)) (Ok ar)) ∨ mdid h MWatchNext (WObject ar)) →
  walk h (lift (aipApprovalResult s ar)) (λ h' _, h ⊆ h').
Proof.
  intros Hr. apply lift_walk. unfold aipApprovalResult.
  destruct (String.eqb_spec (phase ar) PhaseApproved) as [Hp|Hp]; [|by repeat case_match].
  apply safe_bind. unfold approval_token. destruct (has_jwtManager _); [|done].
  split; [|by intros t _]. unfold gwalk. cbn [mcp_allowed fmap list_fmap]. rewrite app_nil_r.
  exists ar. split; [exact Hr|done].
Qed.

Lemma await_walk fuel h requestID :
  awaited = Some requestID → walk h (await_events s fuel requestID) (λ h' _, h ⊆ h').
Proof.
  intros Haw. revert h. induction fuel as [|fuel IH]; intros h; [by cbn|]. cbn [await_events].
  assert (∀ h', h ⊆ h' → walk h' (await_events s fuel requestID) (λ h' _, h ⊆ h')) as Hnext.
  { intros h' Hs. eapply safe_post; [|apply IH]. cbn. intros. set_solver. }
  mcall w h1 Hs1 H1. destruct w as [| | | |updated]; [|cbn; set_solver|cbn; set_solver|by apply Hnext|].
  - apply safe_bind. eapply safe_post.
    2: { apply lift_walk, fail_walk; left; (split; [exact Haw|set_solver]). }
    cbn. intros. set_solver.
  - destruct (negb _); [by apply Hnext|]. apply safe_bind.
    eapply safe_post; [|apply approval_walk; right; exact H1]. intros h2 [ct|] Hs2; [cbn; set_solver|].
    apply Hnext. set_solver.
Qed.

Lemma aip_walk fuel h tn args_ :
  awaited = Some (str_arg args_ "requestId") → walk h (handleAIPTool s fuel tn args_) (λ h' _, h ⊆ h').
Proof.
  intros Haw. unfold handleAIPTool. destruct (_ ==? "await_approval"); [|by cbn].
  unfold handleAIPAwaitApproval. destruct (_ ==? ""); [by cbn|]. mcall g h1 Hs1 H1.
  destruct g as [ar|e]; [|cbn; set_solver]. apply safe_bind.
  eapply safe_post; [|apply approval_walk; left; eexists; exact H1]. intros h2 [ct|] Hs2; [cbn; set_solver|].
  mcall w h3 Hs3 H3. destruct w as [u|e]; [|cbn; set_solver].
  eapply safe_post; [|by apply await_walk]. cbn. intros. set_solver.
Qed.

(** *** Tool calls *)

Definition background_ok (h : mhist) (r : finished) : Prop :=
  ∀ ref, r.2 = Some ref → ref_ok h ref ConditionExecuting ∧ ref_ok h ref ConditionCompleted.

(** The request that a call acts for: none, or the one of its token. *)
Definition acts_for (h : mhist) (requestRef : string) : Prop :=
  requestRef ≠ ""%string →
  ∃ claims, token_for h (prefixed serverName toolName) claims ∧ requestRef = jc_Request claims.

Lemma acts_refs h requestRef :
  acts_for h requestRef → requestRef ≠ ""%string →
  ref_ok h requestRef ConditionExecuting ∧ ref_ok h requestRef ConditionFailed.
Proof.
  intros H Hne. destruct (H Hne) as (claims & Ht & ->). split; right; exists claims; (split; [done|]; split; [done|]); left; set_solver.
Qed.

Lemma acts_mono h h' requestRef : h ⊆ h' → acts_for h requestRef → acts_for h' requestRef.
Proof. intros Hs H Hne. destruct (H Hne) as (claims & Ht & E). exists claims. split; [by eapply token_for_mono|done]. Qed.

Lemma fail_if_walk h requestRef reason :
  acts_for h requestRef →
  walk h (if requestRef <>? "" then lift (failAgentRequest s requestRef reason) else Ret tt) (λ h' _, h ⊆ h').
Proof.
  intros Ha. destruct (String.eqb_spec requestRef ""); cbn [negb]; [by cbn|].
  apply lift_walk. by apply fail_walk; apply acts_refs.
Qed.

Lemma completes h requestRef f r :
  acts_for h requestRef → answered h f → f = FResult r → requestRef ≠ ""%string →
  ref_ok h requestRef ConditionExecuting ∧ ref_ok h requestRef ConditionCompleted.
Proof.
  intros Ha Hf -> Hne. destruct (Ha Hne) as (claims & Ht & ->). destruct (Hf r eq_refl) as (u & body & Hu).
  split; right; exists claims; (split; [done|]; split; [done|]); right; (split; [set_solver|eauto]).
Qed.

Lemma call_walk h v tool agent requestRef :
  server_found h serverName v → findTool v toolName = Some tool →
  authorised h c serverName toolName m matches tool agent → acts_for h requestRef →
  walk h (call_tool s oidcTokenRequired c v m toolName id agent requestRef) background_ok.
Proof.
  intros Hv Ht Ha Hact. eapply safe_sub; [by eapply forward_walk|]. intros f h1 Hs1 Hf.
  pose proof (acts_mono _ _ _ Hs1 Hact) as Hact1. destruct f as [r|errMsg|resp].
  - intros ref. cbn. destruct (String.eqb_spec requestRef ""); cbn [negb]; [done|]. intros [= <-]. by eapply completes.
  - apply safe_bind. eapply safe_post; [|by apply fail_if_walk]. by intros h2 u _ ref [=].
  - apply safe_bind. eapply safe_post; [|by apply fail_if_walk]. by intros h2 u _ ref [=].
Qed.

End setting.

(** ** The endpoints *)

Lemma cut_some ch str l r : cut ch str = Some (l, r) → str = (l +:+ String ch r)%string.
Proof.
  revert l. induction str as [|a str IH]; intros l; cbn; [done|].
  destruct (Ascii.eqb_spec a ch) as [->|]; [by intros [= <- <-]|].
  destruct (cut ch str) as [[l' r']|]; [|done]. intros [= <- <-]. by rewrite (IH l' eq_refl).
Qed.

Lemma split_prefixed name a b : splitPrefixedName name = Some (a, b) → name = prefixed a b.
Proof.
  unfold splitPrefixedName. destruct (cut slash name) as [[l r]|] eqn:E; [|done]. apply cut_some in E.
  destruct (_ || _); [done|]. by intros [= <- <-].
Qed.

(** What a [tools/call] request is about. *)
Definition tool_setting (req : JSONRPCRequest) (serverName toolName : string) (m0 : args) : Prop :=
  ∃ name, Unmarshal_call (rpc_Params req) = inr (name, m0) ∧ splitPrefixedName name = Some (serverName, toolName).

Definition tool_awaits (serverName : string) (m0 : args) : option string :=
  if serverName ==? "aip" then Some (str_arg m0 "requestId") else None.

(** The calls a request may make. *)
Definition rpc_allowed (c : caller) (req : JSONRPCRequest) (h : mhist) (call : mcall) : Prop :=
  ∃ serverName toolName m0, tool_setting req serverName toolName m0 ∧
    mcp_allowed c serverName toolName (strip m0) (rpc_ID req) (claim_matches serverName)
      (str_arg m0 "_aip_target_uri") (tool_awaits serverName m0) h call.

Lemma background_walk c serverName toolName m id matches target awaited h p :
  safe (S:=ms) any (mcp_allowed c serverName toolName m id matches target awaited) h p
    (background_ok serverName toolName awaited) →
  safe (S:=ms) any (mcp_allowed c serverName toolName m id matches target awaited) h (with_background s p) (λ _ _, True).
Proof.
  intros Hp. apply safe_bind. eapply safe_post; [|exact Hp]. intros h1 [r [ref|]] Hb; [|done]. cbn [snd fst].
  apply safe_bind. destruct (Hb ref eq_refl) as [H1 H2].
  eapply safe_post; [|apply lift_walk, complete_walk; [exact H1|exact H2]]. done.
Qed.

Lemma done_walk c serverName toolName m id matches target awaited h (r : mcp_response) :
  safe (S:=ms) any (mcp_allowed c serverName toolName m id matches target awaited) h (Ret (r, None))
    (background_ok serverName toolName awaited).
Proof. by intros ref [=]. Qed.

Lemma tools_call_walk fuel c header req serverName toolName name m0 :
  Unmarshal_call (rpc_Params req) = inr (name, m0) → splitPrefixedName name = Some (serverName, toolName) →
  safe (S:=ms) any (mcp_allowed c serverName toolName (strip m0) (rpc_ID req) (claim_matches serverName)
      (str_arg m0 "_aip_target_uri") (tool_awaits serverName m0)) []
    (handleToolsCall s oidcTokenRequired fuel c header req) (background_ok serverName toolName (tool_awaits serverName m0)).
Proof.
  intros Hu Hn. unfold handleToolsCall. rewrite Hu, Hn. pose proof (split_prefixed _ _ _ Hn) as ->. cbv zeta.
  unfold tool_awaits. destruct (serverName ==? "aip").
  { apply safe_bind. eapply safe_post; [|by apply aip_walk]. intros h r _. apply done_walk. }
  eapply safe_sub; [apply find_walk|]. intros sv h1 Hs1 Hv. destruct sv as [v|]; [|apply done_walk].
  specialize (Hv v eq_refl). apply safe_bind. eapply safe_post; [|apply ensure_walk]. intros h2 ok Hs2.
  apply safe_bind. eapply safe_post; [|apply commit_walk]. intros h3 u Hs3.
  assert (h1 ⊆ h3) as Hs by set_solver. apply (server_found_mono _ _ _ _ Hs) in Hv. clear Hs2 Hs3 Hs.
  destruct (findTool v toolName) as [tool|] eqn:Ht; [|apply done_walk].
  destruct (mt_ReadOnly tool) eqn:Hro.
  { eapply call_walk; [done|done|by left|by intros ?]. }
  eapply safe_sub; [destruct (negb _); [apply token_walk|apply header_walk]|].
  intros a h4 Hs4 Ha. apply (server_found_mono _ _ _ _ Hs4) in Hv.
  destruct a as [e|claims].
  - destruct e; try apply done_walk. apply safe_bind. eapply safe_post; [|by eapply submission_walk].
    intros h5 r _. apply done_walk.
  - specialize (Ha claims eq_refl).
    destruct (String.eqb_spec (enforceResourceClaimForTool serverName (jc_Resource claims) (strip m0)) "") as [E|];
      cbn [negb]; [|apply done_walk]. apply tool_claim_spec in E.
    eapply call_walk; [done|done| |intros _; by exists claims]. right. split; [done|]. by exists claims.
Qed.

Lemma mcp_walk fuel c header body :
  safe (S:=ms) any (λ h call, match call with
      | MForward _ | MGw (GPatchARStatus _ _ _) | MGw (GMintToken _ _ _ _) | MGw (GCreateAR _)
      | MGw (GPatchAR _ _) | MGw (GDeleteAR _) =>
          ∃ req, ParseJSONRPCRequest body = inr req ∧ rpc_allowed c req h call
      | _ => True
      end) [] (with_background s (handleMCP s oidcTokenRequired fuel c header (Some body))) (λ _ _, True).
Proof.
  unfold handleMCP. destruct (ParseJSONRPCRequest body) as [err|req] eqn:Eb; [done|].
  destruct (_ ==? "initialize"); [done|]. destruct (_ ==? "notifications/initialized"); [done|].
  destruct (_ ==? "tools/list").
  { unfold with_background, handleToolsList. destruct (has_mcpCache s); [|done]. split; [done|]. by intros r _. }
  destruct (_ ==? "tools/call"); [|done].
  destruct (Unmarshal_call (rpc_Params req)) as [e|[name m0]] eqn:Hu; [by unfold handleToolsCall; rewrite Hu|].
  destruct (splitPrefixedName name) as [[serverName toolName]|] eqn:Hn; [|by unfold handleToolsCall; rewrite Hu, Hn].
  pose proof (background_walk _ _ _ _ _ _ _ _ _ _ (tools_call_walk fuel c header req serverName toolName name m0 Hu Hn)) as Hw.
  eapply safe_mono; [| | |exact Hw]; [done| |done]. intros h call Hc.
  assert (rpc_allowed c req h call) as Ha by (exists serverName, toolName, m0; split; [by exists name|done]).
  destruct call as [g| | | | | | | | | | | | | | |]; try done; [destruct g; try done|]; by exists req.
Qed.

(** The proxy endpoint checks every token against the repository. *)
Lemma proxy_walk c header serverName toolName body m :
  (body ≫= λ b, parseProxyBody b toolName) = Some m →
  safe (S:=ms) any (mcp_allowed c serverName toolName m (Some (mkJSON "1")) repo_matches "" None) []
    (handleMCPProxy s oidcTokenRequired c header serverName toolName body) (background_ok serverName toolName None).
Proof.
  intros Hb. eapply safe_sub; [apply find_walk|]. intros sv h1 Hs1 Hv. destruct sv as [v|]; [|apply done_walk].
  specialize (Hv v eq_refl). destruct (findTool v toolName) as [tool|] eqn:Ht; [|apply done_walk].
  assert (∀ h claims, h1 ⊆ h →
    match claims with
    | Some cl => mt_ReadOnly tool = false ∧ token_for h (prefixed serverName toolName) cl
    | None => mt_ReadOnly tool = true
    end →
    safe (S:=ms) any (mcp_allowed c serverName toolName m (Some (mkJSON "1")) repo_matches "" None) h
      (proxy_call s oidcTokenRequired c v toolName body claims) (background_ok serverName toolName None)) as Hcall.
  { intros h claims Hsh Hcl. unfold proxy_call. destruct body as [body|]; [|done]. cbn in Hb. rewrite Hb. cbv zeta.
    eapply (safe_sub any _ _ _ (λ _ _, True)); [eapply safe_post; [|apply ensure_walk]; cbn beta; intros h2 ok Hs2; by split|].
    intros ok h2 Hs2 _. destruct (negb ok); [apply done_walk|].
    apply safe_bind. eapply safe_post; [|apply commit_walk]. intros h3 u Hs3.
    destruct (String.eqb_spec (match claims with Some cl => enforceRepoClaim (jc_Resource cl) m | None => ""%string end) "")
      as [E|]; cbn [negb]; [|apply done_walk].
    assert (acts_for serverName toolName h3 (match claims with Some cl => jc_Request cl | None => ""%string end)) as Hact.
    { destruct claims as [cl|]; [|by intros ?]. intros _. exists cl. split; [|done].
      eapply token_for_mono; [|apply Hcl]. set_solver. }
    eapply safe_sub.
    { apply (forward_walk c serverName toolName m (Some (mkJSON "1")) repo_matches "" None h3 v tool).
      - eapply server_found_mono; [|exact Hv]. set_solver.
      - done.
      - destruct claims as [cl|]; [right|by left]. destruct Hcl as [Hro Htk]. split; [done|]. exists cl.
        split; [eapply token_for_mono; [|exact Htk]; set_solver|]. by apply repo_claim_spec in E as [_ ?]. }
    intros f h4 Hs4 Hf. pose proof (acts_mono _ _ _ _ _ Hs4 Hact) as Hact4. destruct f as [r|errMsg|resp]; [|apply safe_bind|apply done_walk].
    - destruct (mr_IsError r); [apply safe_bind; eapply safe_post; [|by apply fail_if_walk]; intros; apply done_walk|].
      intros ref. cbn. destruct (String.eqb_spec (match claims with Some cl => jc_Request cl | None => ""%string end) "");
        cbn [negb]; [done|]. intros [= <-]. by apply (completes serverName toolName m repo_matches _ _ _ _ r Hact4 Hf eq_refl).
    - eapply safe_post; [|by apply fail_if_walk]. intros. apply done_walk. }
  destruct (mt_ReadOnly tool) eqn:Hro; [by apply Hcall|].
  eapply safe_sub; [apply header_walk|]. intros a h4 Hs4 Ha. destruct a as [e|claims]; [destruct e; apply done_walk|].
  apply Hcall; [done|]. split; [done|]. by apply Ha.
Qed.

(** Without arguments to read nothing is forwarded and nothing written. *)
Lemma proxy_refuses c header serverName toolName body :
  (body ≫= λ b, parseProxyBody b toolName) = None →
  safe (S:=ms) any (λ _ call, match call with MForward _ | MGw _ => False | _ => True end) []
    (with_background s (handleMCPProxy s oidcTokenRequired c header serverName toolName body)) (λ _ _, True).
Proof.
  intros Hb.
  assert (∀ v claims, ∃ r, proxy_call s oidcTokenRequired c v toolName body claims = Ret (r, None)) as Hc.
  { intros v claims. unfold proxy_call. destruct body as [b|]; [|by eexists]. cbn in Hb. rewrite Hb. by eexists. }
  set (P := λ (_ : mhist) (call : mcall), match call with MForward _ | MGw _ => False | _ => True end).
  assert (∀ h v claims, safe (S:=ms) any P h (proxy_call s oidcTokenRequired c v toolName body claims)
    (λ _ r, r.2 = None)) as Hp by (intros h v claims; by destruct (Hc v claims) as [r ->]).
  apply safe_bind, (safe_post _ _ _ _ (λ _ r, r.2 = None)); [by intros h r ->|].
  apply safe_bind, (safe_post _ _ _ _ (λ _ _, True)); [|unfold findMCPServer; by destruct (has_mcpCache s)].
  intros h [v|] _; [|done]. destruct (findTool v toolName) as [tool|]; [|done].
  destruct (mt_ReadOnly tool); [apply Hp|]. apply safe_bind, (safe_post _ _ _ _ (λ _ _, True)).
  - intros h' [e|claims] _; [by destruct e|apply Hp].
  - unfold authorizeWriteTool, authorizeWriteToolFromToken. destruct (has_jwtManager _); [|done].
    by destruct (HasPrefix header _).
Qed.

(** ** Properties *)

(** C11: Every tool call that the gateway forwards is for a tool of a server it
    knows, with a credential that the provider registered for the agent and
    that server gave.  The agent of a tool that writes is the subject of a
    token that was validated for exactly this tool and whose resource is the
    target of the arguments; the governance arguments are not forwarded. *)
Theorem tool_calls_authorised fuel c header body t1 u x t2 :
  emits (with_background s (handleMCP s oidcTokenRequired fuel c header (Some body)))
    (t1 ++ Ev (S:=ms) (MForward u) x :: t2) →
  ∃ req serverName toolName m0, ParseJSONRPCRequest body = inr req ∧ tool_setting req serverName toolName m0 ∧
    forward_ok t1 c serverName toolName (strip m0) (rpc_ID req) (claim_matches serverName) u ∧
    strip m0 !! "_aip_authorization"%string = None.
Proof.
  intros He. pose proof (safe_emits _ _ _ _ _ _ _ _ _ (mcp_walk fuel c header body) (any_all _) He) as Hp.
  destruct Hp as (req & Hb & serverName & toolName & m0 & Hset & Hf). exists req, serverName, toolName, m0.
  split; [done|]. split; [done|]. split; [exact Hf|].
  unfold strip, args in *. rewrite !lookup_delete_ne by done. by rewrite lookup_delete_eq.
Qed.

(** The same of the proxy endpoint, where the resource of the token must be
    the repository of the arguments. *)
Theorem proxy_calls_authorised c header serverName toolName body t1 u x t2 :
  emits (with_background s (handleMCPProxy s oidcTokenRequired c header serverName toolName body))
    (t1 ++ Ev (S:=ms) (MForward u) x :: t2) →
  ∃ m, (body ≫= λ b, parseProxyBody b toolName) = Some m ∧
    forward_ok t1 c serverName toolName m (Some (mkJSON "1")) repo_matches u.
Proof.
  intros He. destruct (body ≫= λ b, parseProxyBody b toolName) as [m|] eqn:Hb.
  - exists m. split; [done|].
    pose proof (safe_emits _ _ _ _ _ _ _ _ _ (background_walk _ _ _ _ _ _ _ _ _ _
      (proxy_walk c header serverName toolName body m Hb)) (any_all _) He) as Hp. exact Hp.
  - exfalso. exact (safe_emits _ _ _ _ _ _ _ _ _ (proxy_refuses c header serverName toolName body Hb) (any_all _) He).
Qed.

(** C21: What one JSON-RPC request writes.  A token is minted only for a request
    that was read Approved, and for its own agent, action and target; a request
    for approval is created only for a tool that writes, and undecided, under
    the identity the registrations give the caller; no other object is
    deleted or rewritten, and the only status changes are one condition of the
    request behind the token or of the one waited for: Completed follows an
    answer of the server. *)
Theorem mcp_effects_scoped fuel c header body t1 call x t2 :
  emits (with_background s (handleMCP s oidcTokenRequired fuel c header (Some body)))
    (t1 ++ Ev (S:=ms) (MGw call) x :: t2) →
  match call with
  | GMintToken agent action resource name => mint_ok t1 agent action resource name
  | GCreateAR a => ∃ req serverName toolName m0, ParseJSONRPCRequest body = inr req ∧
      tool_setting req serverName toolName m0 ∧
      create_ok c serverName toolName (strip m0) (str_arg m0 "_aip_target_uri") t1 a
  | GPatchARStatus _ base new => ∃ req serverName toolName m0 name ty, ParseJSONRPCRequest body = inr req ∧
      tool_setting req serverName toolName m0 ∧
      ref_ok serverName toolName (tool_awaits serverName m0) t1 name ty ∧ condition_write t1 name [ty] base new
  | GPatchAR _ _ | GDeleteAR _ => False
  | _ => True
  end.
Proof.
  intros He. pose proof (safe_emits _ _ _ _ _ _ _ _ _ (mcp_walk fuel c header body) (any_all _) He) as Hp.
  destruct call; try done; destruct Hp as (req & Hb & serverName & toolName & m0 & Hset & Hf); try done.
  - by exists req, serverName, toolName, m0.
  - destruct Hf as (_ & name & ty & Hr & Hc). by exists req, serverName, toolName, m0, name, ty.
Qed.
End facts.
