(* ===== verification/McpRuns.v ===== *)
(** * Executions of the MCP endpoints

    Concrete runs of the endpoints against a fixed environment: witnesses for
    the theorems of [McpFacts], and runs that show what the endpoints do not
    check. *)

From S2P Require Import Prelude GoStd GoStrings Types Prog Kube Conditions Naming.
From S2P Require Import Retry Registration GatewayAuth Gateway GatewayCreate GatewayExamples Jwt McpServers Mcp McpFacts.

#[local] Existing Instance prefix_globs.
#[local] Existing Instance list_conditions.
#[local] Existing Instance five_tries.

(** ** A toy encoding *)

(** A request is [tool|owner|repo|token|requestId], always for [tools/call]. *)
Definition field (n : nat) (body : string) : string := default "" (split (chr 124) body !! n).

Definition toy_args (body : string) : args :=
  {["owner" := AStr (field 1 body); "repo" := AStr (field 2 body);
    "_aip_authorization" := AStr (field 3 body); "requestId" := AStr (field 4 body)]}%string.

Definition toy_mcp : McpLib := {|
  Unmarshal_rpc body := inr (mkRpc "2.0" (Some (mkJSON "7")) "tools/call" (mkJSON body));
  Unmarshal_call j := let '(mkJSON body) := j in inr (field 0 body, toy_args body);
  Unmarshal_envelope _ := Some (Some (mkProxyResult [] false), None);
  Unmarshal_text _ := ""%string;
  Marshal_args _ := None;
  Marshal_call m toolName _ := inr (toolName +:+ "|" +:+ str_arg m "owner" +:+ "|" +:+ str_arg m "repo")%string;
  strings_ToLower := ToLower_ascii;
  to_lower_ascii _ _ := eq_refl |}.
#[local] Existing Instance toy_mcp.

(** ** The environment *)

Definition github : server_view :=
  mkView 0 "github" "https://mcp.example/" "gw-token" [mkTool "get_file" true None; mkTool "merge" false None].

Definition config (has_cache : bool) : mcp_config := mkMcpConfig server has_cache true [github].

Definition bot_claims : Claims := mkClaims None None None "aip" "bot" "id" "github/merge" "github://acme/api" "r1".

Definition menv (ph : string) (c : op ms) : ans ms c :=
  match c return mresp c with
  | MGw c => env ph [] c
  | MCacheGet name => if name ==? "github" then Some github else None
  | MCacheAll => []
  | MSessionReady _ => true
  | MSession _ => ("session"%string, true)
  | MInitialize _ _ => None
  | MListTools _ _ _ => None
  | MSetSession _ _ | MFillSchemas _ _ | MSetReady _ _ | MCommitSession _ _ _ _ => tt
  | MValidateToken t => if t ==? "signed" then Ok bot_claims else Err (EMsg "invalid token")
  | MForward _ => UpResponse StatusOK "data: {}"
  | MRandomName => "x1"%string
  | MWatchAR _ _ => Ok tt
  | MWatchNext => WTimeout
  end.

Definition never (_ : error) : bool := false.
Definition who (sub : string) : caller := mkCaller sub [] "raw" "https://issuer".

Definition rpc (sub body : string) : prog ms mcp_response :=
  with_background (config true) (handleMCP (config true) never 3 (who sub) "" (Some body)).

Definition mcalls {A} (ph : string) (p : prog ms A) (n : nat) (c : op ms) : Prop :=
  ev_call <$> (play (menv ph) p).1 !! n = Some c.

(** ** Witnesses *)

(** A token whose claims name this tool and this repository. *)
Definition merge_call : upstream_call := mkUpstream "https://mcp.example/" "session" "credential" "merge|acme|api".

Lemma tool_calls_authorised_witness :
  ∃ h serverName toolName m id,
    forward_ok (config true) h (who "eve") serverName toolName m id (claim_matches serverName) merge_call.
Proof.
  assert (mcalls PhaseApproved (rpc "eve" "github/merge|acme|api|signed|") 8 (MForward merge_call)) as Hc
    by (vm_compute; reflexivity).
  destruct (tool_calls_authorised (config true) never 3 (who "eve") "" _ _ merge_call _ _ (play_reaches _ _ _ _ Hc))
    as (req & serverName & toolName & m0 & _ & _ & Hf & _).
  eexists _, serverName, toolName, _, _. exact Hf.
Defined.

Definition proxied (sub header body : string) : prog ms mcp_response :=
  with_background (config true)
    (handleMCPProxy (config true) never (who sub) header "github" "merge" (Some body)).

Lemma proxy_calls_authorised_witness :
  ∃ h m, parseProxyBody "merge|acme|api" "merge" = Some m ∧
    forward_ok (config true) h (who "eve") "github" "merge" m (Some (mkJSON "1")) repo_matches merge_call.
Proof.
  assert (mcalls PhaseApproved (proxied "eve" "Bearer signed" "merge|acme|api") 8 (MForward merge_call)) as Hc
    by (vm_compute; reflexivity).
  destruct (proxy_calls_authorised (config true) never (who "eve") "Bearer signed" "github" "merge"
    (Some "merge|acme|api"%string) _ merge_call _ _ (play_reaches _ _ _ _ Hc)) as (m & Hm & Hf).
  eexists _, m. split; [exact Hm|exact Hf].
Defined.

(** The condition that completes the request behind the token. *)
Definition completion : AgentRequest :=
  set_conditions (SetStatusCondition (conditions (request_in PhaseApproved))
    (cond ConditionCompleted ConditionTrue "ActionSuccess" "Agent successfully completed the action") (90 * Second))
    (request_in PhaseApproved).

Lemma mcp_effects_scoped_witness :
  ∃ h name ty, condition_write h name [ty] (request_in PhaseApproved) completion.
Proof.
  assert (mcalls PhaseApproved (rpc "eve" "github/merge|acme|api|signed|") 14
    (MGw (GPatchARStatus false (request_in PhaseApproved) completion))) as Hc by (vm_compute; reflexivity).
  destruct (mcp_effects_scoped (config true) never 3 (who "eve") "" _ _
    (GPatchARStatus false (request_in PhaseApproved) completion) _ _ (play_reaches _ _ _ _ Hc))
    as (req & serverName & toolName & m0 & name & ty & _ & _ & _ & Hw).
  eexists _, name, ty. exact Hw.
Defined.

(** ** What is not checked *)

(** Whoever asks for an Approved request gets the token of its agent. *)
Example await_mints_for_anyone :
  (play (menv PhaseApproved) (rpc "eve" "aip/await_approval||||r1")).2 = MRpcContent (CApproved "token" "" "r1") ∧
  spec_AgentIdentity (ar_Spec (request_in PhaseApproved)) = "bot"%string.
Proof. split; vm_compute; reflexivity. Qed.

(** The request of another agent that is waited for, until the wait times out,
    is marked Failed. *)
Example await_fails_anyones_request :
  ∃ base new, mcalls PhasePending (rpc "eve" "aip/await_approval||||r1") 6 (MGw (GPatchARStatus false base new)) ∧
    spec_AgentIdentity (ar_Spec base) = "bot"%string ∧ IsStatusConditionTrue (conditions new) ConditionFailed = true.
Proof.
  pose (new := set_conditions (SetStatusCondition (conditions (request_in PhasePending))
    (cond ConditionFailed ConditionTrue "Abandoned" "timed out waiting for agent to complete execution") (90 * Second))
      (request_in PhasePending)).
  exists (request_in PhasePending), new. split; [|split]; vm_compute; reflexivity.
Qed.
