(* ===== verification/Credential.v ===== *)
(** * Credentials for upstream servers ([internal/credential])

    A provider turns the caller's OIDC token into a credential and keeps it in
    a [TokenCache].  The providers that exchange tokens keep one cache for each
    digest of an inbound token in a [sync.Map].  Goroutines share these caches,
    so their operations are calls; an execution of several goroutines is one
    list of their calls, in the order in which they took effect.

    [golang.org/x/sync/singleflight] is described by the class [Singleflight]:
    a caller of [Do] either runs the function itself or receives the result
    that another caller's run ended with. *)

From S2P Require Import Prelude GoStd GoStrings GoFloat Prog Registration GatewayHandlers.
From Stdlib Require Import SpecFloat.

(** ** Calls *)

(** [res string], as [Do] returns it. *)
Definition flight : Type := nat * string * res string.

(** The answer of an HTTP exchange. *)
Inductive http_answer := HFailed (e : error) | HResponse (status : Z) (body : string).

(** Caches are pointers. *)
Inductive ccall :=
| KLoad (key : string)                              (** [p.caches.Load] *)
| KLoadOrStore (key assertion : string)             (** of a new cache that captures [assertion] *)
| KCompareAndDelete (key : string) (c : nat)
| KRange
| KDelete (key : string)
| KFetch (c : nat)                                  (** what [c.fetch] captured *)
| KRead (c : nat)                                   (** [c.token], [c.expiresAt] under the lock *)
| KWrite (c : nat) (token : string) (expiresAt : Z)
| KEntry (c : nat) (key : string)                   (** [c.store[key]] *)
| KStore (c : nat) (key token : string) (expiry : Z)
| KForget (c : nat) (key : string)
| KFlight (c : nat) (key : string)                  (** [c.sf.Do]: [None] to run the function *)
| KLand (c : nat) (key : string) (r : res string)   (** the function returns *)
| KNow
| KPost (url : string) (form : gmap string string) (auth : option (string * string))
| KGetSecret (namespace name : string)
| KTokenRequest (namespace name : string) (audiences : list string) (expirationSeconds : Z).

Definition cresp (c : ccall) : Type :=
  match c with
  | KLoad _ => option nat
  | KLoadOrStore _ _ => nat * bool                  (** the cache, and whether it is the new one *)
  | KRange => list (string * nat)
  | KFetch _ => string
  | KRead _ => string * Z
  | KEntry _ _ => option (string * Z)
  | KFlight _ _ => option (res string)
  | KNow => Z
  | KPost _ _ _ => http_answer
  | KGetSecret _ _ => res (gmap string string)
  | KTokenRequest _ _ _ _ => res (string * Z)
  | _ => unit
  end.

Definition cr : sig := mkSig ccall cresp.
Abbreviation ccall_ c := (trigger cr c).

(** ** [TokenCache] *)

Definition refreshBuffer : Z := 5 * Minute.
Definition legacyRefreshBuffer : Z := 30 * Second.

(** A fresh token and its expiry. *)
Definition fetcher : Type := prog cr (res (string * Z)).

(** The cached token, when it is valid and has [legacyRefreshBuffer] left. *)
Definition cached_token (c : nat) : prog cr (option string) :=
  v <- ccall_ (KRead c) ;;
  if v.1 <>? "" then
    now <- ccall_ KNow ;;
    Ret (if now + legacyRefreshBuffer <? v.2 then Some v.1 else None)
  else Ret None.

(** The function that [Get] gives to [Do]. *)
Definition refresh (c : nat) (fetch : fetcher) : prog cr (res string) :=
  v <- cached_token c ;;
  match v with
  | Some token => Ret (Ok token)
  | None =>
      f <-! fetch ;;
      ccall_ (KWrite c f.1 f.2) ;;;
      Ret (Ok f.1)
  end.

(** [c.sf.Do(key, fn)]. *)
Definition Do (c : nat) (key : string) (fn : prog cr (res string)) : prog cr (res string) :=
  f <- ccall_ (KFlight c key) ;;
  match f with
  | Some r => Ret r
  | None => r <- fn ;; ccall_ (KLand c key r) ;;; Ret r
  end.

Definition cache_Get (c : nat) (fetch : fetcher) : prog cr (res string) :=
  v <- cached_token c ;;
  match v with
  | Some token => Ret (Ok token)
  | None => Do c "fetch" (refresh c fetch)
  end.

Definition IsExpired (c : nat) : prog cr bool :=
  v <- ccall_ (KRead c) ;;
  if v.1 <>? "" then now <- ccall_ KNow ;; Ret (v.2 <? now) else Ret false.

(** The entry for [key], when it has [refreshBuffer] left. *)
Definition cached_entry (c : nat) (key : string) : prog cr (option string) :=
  e <- ccall_ (KEntry c key) ;;
  match e with
  | Some (token, expiry) =>
      now <- ccall_ KNow ;; Ret (if refreshBuffer <=? expiry - now then Some token else None)
  | None => Ret None
  end.

Definition GetOrFetch (c : nat) (key : string) (fetch : fetcher) : prog cr (res string) :=
  v <- cached_entry c key ;;
  match v with
  | Some token => Ret (Ok token)
  | None =>
      Do c key (
        v <- cached_entry c key ;;
        match v with
        | Some token => Ret (Ok token)
        | None =>
            f <-! fetch ;;
            ccall_ (KStore c key f.1 f.2) ;;;
            Ret (Ok f.1)
        end)
  end.

Definition cache_Delete (c : nat) (key : string) : prog cr unit := ccall_ (KForget c key).

(** ** Expiry *)

(** [time.Time{}] on the clock, and [time.Unix(sec, 0)], whose seconds wrap. *)
Definition zero_time : Z := - 62135596800 * Second.
Definition Unix (sec : Z) : Z := (int64 (sec + 62135596800) - 62135596800) * Second.

(** [expires_in]: absent, a number, a string, or something else. *)
Inductive expires_in := NoExpiry | ExpiryNumber (v : spec_float) | ExpiryString (s : string) | ExpiryOther.

Record aws_credentials := mkAwsCreds {
  AccessKeyId : string; SecretAccessKey : string; SessionToken : string; Expiration : string }.

(** [encoding/json], [encoding/xml], [encoding/base64] and [time.Parse] at the
    types of this package; a conversion of a [float64] to [int64] is the
    truncation when that fits. *)
Class CredLib := {
  decode_token_response : string → error + (string * expires_in);
  decode_sts_response : string → error + aws_credentials;
  Marshal_bundle : aws_credentials → error + string;
  Parse_RFC3339 : string → option Z;
  (** The [exp] of a base64url-encoded JSON payload. *)
  payload_exp : string → option spec_float;
  int64_of_f64 : spec_float → Z;
  int64_of_f64_fits : ∀ x, 0 < f64_trunc x < 2 ^ 63 → int64_of_f64 x = f64_trunc x;
  int64_of_f64_range : ∀ x, - 2 ^ 63 ≤ int64_of_f64 x < 2 ^ 63 }.

(** [time.Duration(n) * time.Second]. *)
Definition seconds (n : Z) : Z := int64 (n * Second).

Definition dot : Ascii.ascii := chr 46.

Section providers.
Context `{CL : CredLib}.

Definition jwtExpClaim (token : string) : option Z :=
  match cut dot token with
  | Some (_, rest) =>
      match cut dot rest with
      | Some (payload, _) =>
          v ← payload_exp payload;
          if f64_lt f64_zero v then Some (Unix (int64_of_f64 v)) else None
      | None => None
      end
  | None => None
  end.

(** A positive [expires_in], or the minute assumed without one. *)
Definition oidc_expires_in (e : expires_in) : Z :=
  match e with
  | ExpiryNumber v => if f64_lt f64_zero v then int64_of_f64 v else 60
  | ExpiryString s => match ParseInt64 s with Some n => if 0 <? n then n else 60 | None => 60 end
  | _ => 60
  end.

Definition azure_expires_in (e : expires_in) : Z :=
  match e with
  | ExpiryNumber v => int64_of_f64 v
  | ExpiryString s => default 3600 (ParseInt64 s)
  | _ => 3600
  end.

(** ** Exchanges *)

(** The parts that all exchanges share: the request, and a status that is not
    200.  [what], [sent] and [failed] are the words of the errors. *)
Definition post_form (what sent failed url : string) (form : gmap string string) (auth : option (string * string))
  : prog cr (res string) :=
  match url_Parse url with
  | None => Ret (Err (EMsg ("failed to create " +:+ what)))
  | Some _ =>
      a <- ccall_ (KPost url form auth) ;;
      Ret match a with
          | HFailed e => Err (EWrap (sent +:+ " failed")%string e)
          | HResponse status body =>
              if status =? 200 then Ok body
              else Err (EMsg (failed +:+ " failed with status " +:+ FormatInt10 status +:+ ": "
                                +:+ String.substring 0 4096 body)%string)
          end
  end.

Definition oidc_form (audience clientID assertion : string) : gmap string string :=
  let form : gmap string string :=
    {["grant_type" := "urn:ietf:params:oauth:grant-type:token-exchange"; "subject_token" := assertion;
      "subject_token_type" := "urn:ietf:params:oauth:token-type:access_token"]}%string in
  let form := if audience <>? "" then <["audience"%string := audience]> form else form in
  if clientID <>? "" then <["client_id"%string := clientID]> form else form.

Definition oidc_doExchange (tokenExchangeURL audience clientID clientSecret assertion : string) : fetcher :=
  body <-! post_form "token exchange request" "token exchange request" "token exchange" tokenExchangeURL
             (oidc_form audience clientID assertion)
             (if (clientID <>? "") && (clientSecret <>? "") then Some (clientID, clientSecret) else None) ;;
  match decode_token_response (String.substring 0 4096 body) with
  | inl e => Ret (Err (EWrap "failed to decode token response" e))
  | inr (accessToken, expiresIn) =>
      if accessToken ==? "" then Ret (Err (EMsg "token response did not contain access_token"))
      else
        now <- ccall_ KNow ;;
        let expiresAt := now + seconds (oidc_expires_in expiresIn) in
        let expiresAt := match jwtExpClaim accessToken with
                         | Some jwtExp => if jwtExp <? expiresAt then jwtExp else expiresAt
                         | None => expiresAt
                         end in
        Ret (Ok (accessToken, expiresAt))
  end.

Definition azure_tokenURL (tenantID : string) : string :=
  ("https://login.microsoftonline.com/" +:+ tenantID +:+ "/oauth2/v2.0/token")%string.

Definition azure_form (clientID scope assertion : string) : gmap string string :=
  {["grant_type" := "client_credentials"; "client_id" := clientID;
    "client_assertion_type" := "urn:ietf:params:oauth:client-assertion-type:jwt-bearer";
    "client_assertion" := assertion; "scope" := scope]}%string.

Definition azure_doExchange (tenantID clientID scope assertion : string) : fetcher :=
  body <-! post_form "token request" "token exchange request" "token exchange" (azure_tokenURL tenantID)
             (azure_form clientID scope assertion) None ;;
  match decode_token_response body with
  | inl e => Ret (Err (EWrap "failed to decode token response" e))
  | inr (accessToken, expiresIn) =>
      if accessToken ==? "" then Ret (Err (EMsg "token response did not contain access_token"))
      else
        now <- ccall_ KNow ;;
        Ret (Ok (accessToken, now + seconds (azure_expires_in expiresIn)))
  end.

Definition aws_form (roleARN roleSessionName : string) (durationSeconds : option Z) (assertion : string)
  : gmap string string :=
  let form : gmap string string :=
    {["Action" := "AssumeRoleWithWebIdentity"; "Version" := "2011-06-15"; "RoleArn" := roleARN;
      "RoleSessionName" := roleSessionName; "WebIdentityToken" := assertion]}%string in
  match durationSeconds with
  | Some d => <["DurationSeconds"%string := FormatInt10 d]> form
  | None => form
  end.

Definition aws_doExchange (roleARN roleSessionName region : string) (durationSeconds : option Z)
  (stsEndpoint assertion : string) : fetcher :=
  let endpoint := if stsEndpoint ==? "" then ("https://sts." +:+ region +:+ ".amazonaws.com/")%string
                  else stsEndpoint in
  body <-! post_form "STS request" "STS request" "STS request" endpoint
             (aws_form roleARN roleSessionName durationSeconds assertion) None ;;
  match decode_sts_response body with
  | inl e => Ret (Err (EWrap "failed to decode STS XML response" e))
  | inr creds =>
      if SessionToken creds ==? "" then Ret (Err (EMsg "STS response did not contain SessionToken"))
      else
        let parsed := if Expiration creds <>? "" then default zero_time (Parse_RFC3339 (Expiration creds))
                      else zero_time in
        expiresAt <- (if parsed =? zero_time then now <- ccall_ KNow ;; Ret (now + 3600 * Second) else Ret parsed) ;;
        Ret match Marshal_bundle creds with
            | inl e => Err e
            | inr b => Ok (b, expiresAt)
            end
  end.

(** ** Fixed credentials *)

Definition static_fetchToken (name namespace key : string) : fetcher :=
  s <- ccall_ (KGetSecret namespace name) ;;
  match s with
  | Err e => Ret (Err (EWrap ("failed to get secret " +:+ namespace +:+ "/" +:+ name)%string e))
  | Ok data =>
      match data !! key with
      | None => Ret (Err (EMsg ("key " +:+ quote key +:+ " not found in secret " +:+ namespace +:+ "/" +:+ name)%string))
      | Some val => now <- ccall_ KNow ;; Ret (Ok (val, now + 5 * Minute))
      end
  end.

Definition request_fetchToken (name namespace : string) (expirationSeconds : option Z) (audiences : list string)
  : fetcher :=
  let expSec := default 300 expirationSeconds in
  r <- ccall_ (KTokenRequest namespace name audiences expSec) ;;
  match r with
  | Err e => Ret (Err (EWrap ("failed to create TokenRequest for service account " +:+ namespace +:+ "/" +:+ name)%string e))
  | Ok (token, expiresAt) =>
      if token ==? "" then
        Ret (Err (EMsg ("TokenRequest returned empty token for service account " +:+ namespace +:+ "/" +:+ name)%string))
      else
        expiresAt <- (if expiresAt =? zero_time then now <- ccall_ KNow ;; Ret (now + seconds expSec)
                      else Ret expiresAt) ;;
        Ret (Ok (token, expiresAt))
  end.

(** ** [Token] *)

Definition tokenKey (rawToken : string) : string := sha256_hex rawToken.

(** [c.Get] of a cache made for an inbound token. *)
Definition exchange_Get (exchange : string → fetcher) (c : nat) : prog cr (res string) :=
  cache_Get c (assertion <- ccall_ (KFetch c) ;; exchange assertion).

Fixpoint evict_expired (entries : list (string * nat)) : prog cr unit :=
  match entries with
  | [] => Ret tt
  | (k, c) :: rest =>
      expired <- IsExpired c ;;
      (if expired then ccall_ (KDelete k) else Ret tt) ;;;
      evict_expired rest
  end.

(** The body of [Token] for the providers that exchange tokens. *)
Definition exchange_token (exchange : string → fetcher) (rawOIDCToken : string) : prog cr (res string) :=
  let key := tokenKey rawOIDCToken in
  v <- ccall_ (KLoad key) ;;
  match v with
  | Some c => exchange_Get exchange c
  | None =>
      actual <- ccall_ (KLoadOrStore key rawOIDCToken) ;;
      result <- exchange_Get exchange actual.1 ;;
      (match result with
       | Err _ => if actual.2 : bool then ccall_ (KCompareAndDelete key actual.1) else Ret tt
       | Ok _ => Ret tt
       end) ;;;
      entries <- ccall_ KRange ;;
      evict_expired entries ;;;
      Ret result
  end.

(** The exchange a provider makes for an inbound token. *)
Definition doExchange (p : Provider) : option (string → fetcher) :=
  match p with
  | AzureWorkloadIdentityProvider tenantID clientID scope => Some (azure_doExchange tenantID clientID scope)
  | AWSWebIdentityProvider roleARN roleSessionName region durationSeconds stsEndpoint =>
      Some (aws_doExchange roleARN roleSessionName region durationSeconds stsEndpoint)
  | KubernetesOIDCProvider url audience clientID clientSecret =>
      Some (oidc_doExchange url audience clientID clientSecret)
  | StaticSecretProvider _ _ _ | KubernetesTokenRequestProvider _ _ _ _ => None
  end.

(** [Token] of the three providers that exchange the caller's token; the code
    after the checks is the same in each. *)
Definition azure_Token (tenantID clientID scope rawOIDCToken : string) : prog cr (res string) :=
  if rawOIDCToken ==? "" then Ret (Err (EMsg "raw OIDC token is required for Azure exchange"))
  else exchange_token (azure_doExchange tenantID clientID scope) rawOIDCToken.

Definition aws_Token (roleARN roleSessionName region : string) (durationSeconds : option Z)
  (stsEndpoint rawOIDCToken : string) : prog cr (res string) :=
  if rawOIDCToken ==? "" then Ret (Err (EMsg "raw OIDC token is required for AWS exchange"))
  else exchange_token (aws_doExchange roleARN roleSessionName region durationSeconds stsEndpoint) rawOIDCToken.

Definition oidc_Token (url audience clientID clientSecret rawOIDCToken : string) : prog cr (res string) :=
  if url ==? "" then
    Ret (Err (EMsg "KubernetesOIDC: tokenExchangeURL is required; passthrough is not supported"))
  else if rawOIDCToken ==? "" then Ret (Err ErrOIDCTokenRequired)
  else exchange_token (oidc_doExchange url audience clientID clientSecret) rawOIDCToken.

(** [p.Token(ctx, rawOIDCToken)]; a provider without an exchange has one cache,
    at [0]. *)
Definition Token (p : Provider) (rawOIDCToken : string) : prog cr (res string) :=
  match p with
  | StaticSecretProvider name namespace key => cache_Get 0 (static_fetchToken name namespace key)
  | KubernetesTokenRequestProvider name namespace expirationSeconds audiences =>
      cache_Get 0 (request_fetchToken name namespace expirationSeconds audiences)
  | AzureWorkloadIdentityProvider tenantID clientID scope => azure_Token tenantID clientID scope rawOIDCToken
  | AWSWebIdentityProvider roleARN roleSessionName region durationSeconds stsEndpoint =>
      aws_Token roleARN roleSessionName region durationSeconds stsEndpoint rawOIDCToken
  | KubernetesOIDCProvider url audience clientID clientSecret =>
      oidc_Token url audience clientID clientSecret rawOIDCToken
  end.

End providers.

Arguments tokenKey : simpl never.

(** ** Goroutines *)

Record tcache := mkTCache {
  tc_captured : string; tc_token : string; tc_expiresAt : Z; tc_store : gmap string (string * Z) }.

Definition new_cache (assertion : string) : tcache := mkTCache assertion "" zero_time ∅.

(** The caches of one provider; [cs_landed] are the results of the functions
    given to [Do]. *)
Record cstate := mkCState {
  cs_map : gmap string nat; cs_objs : gmap nat tcache; cs_landed : list flight }.

(** The caches a provider is constructed with. *)
Definition initial (p : Provider) : cstate :=
  match p with
  | StaticSecretProvider _ _ _ | KubernetesTokenRequestProvider _ _ _ _ => mkCState ∅ {[0%nat := new_cache ""]} []
  | _ => mkCState ∅ ∅ []
  end.

(** A call takes effect. *)
Definition effect (st : cstate) (e : event cr) : cstate :=
  match e with
  | Ev c r =>
      match c as c' return cresp c' → cstate with
      | KLoadOrStore key assertion => λ r,
          if r.2 then mkCState (<[key := r.1]> (cs_map st)) (<[r.1 := new_cache assertion]> (cs_objs st)) (cs_landed st)
          else st
      | KCompareAndDelete key c => λ _,
          if bool_decide (cs_map st !! key = Some c)
          then mkCState (delete key (cs_map st)) (cs_objs st) (cs_landed st) else st
      | KDelete key => λ _, mkCState (delete key (cs_map st)) (cs_objs st) (cs_landed st)
      | KWrite c token expiresAt => λ _,
          mkCState (cs_map st)
            (alter (λ o, mkTCache (tc_captured o) token expiresAt (tc_store o)) c (cs_objs st)) (cs_landed st)
      | KStore c key token expiry => λ _,
          mkCState (cs_map st)
            (alter (λ o, mkTCache (tc_captured o) (tc_token o) (tc_expiresAt o) (<[key := (token, expiry)]> (tc_store o)))
               c (cs_objs st)) (cs_landed st)
      | KForget c key => λ _,
          mkCState (cs_map st)
            (alter (λ o, mkTCache (tc_captured o) (tc_token o) (tc_expiresAt o) (delete key (tc_store o))) c (cs_objs st))
            (cs_landed st)
      | KLand c key r => λ _, mkCState (cs_map st) (cs_objs st) (cs_landed st ++ [(c, key, r)])
      | _ => λ _, st
      end r
  end.

(** Who receives which result from [Do] without running the function. *)
Class Singleflight := {
  joins : list flight → flight → Prop;
  joins_landed : ∀ landed f, joins landed f → f ∈ landed }.

(** The answer a call may get. *)
Definition answers `{SF : Singleflight} (st : cstate) (e : event cr) : Prop :=
  match e with
  | Ev c r =>
      match c as c' return cresp c' → Prop with
      | KLoad key => λ r, r = cs_map st !! key
      | KLoadOrStore key _ => λ r,
          match cs_map st !! key with
          | Some c => r = (c, false)
          | None => r.2 = true ∧ cs_objs st !! r.1 = None
          end
      | KFetch c => λ r, tc_captured <$> cs_objs st !! c = Some r
      | KRead c => λ r, (λ o, (tc_token o, tc_expiresAt o)) <$> cs_objs st !! c = Some r
      | KEntry c key => λ r, (λ o, tc_store o !! key) <$> cs_objs st !! c = Some r
      | KFlight c key => λ r, match r with Some x => joins (cs_landed st) (c, key, x) | None => True end
      | _ => λ _, True
      end r
  end.

(** Calls of goroutines, in the order in which they took effect. *)
Abbreviation trace := (list (nat * event cr)).
Definition state_after (st : cstate) (T : trace) : cstate := foldl effect st T.*2.
Definition of_goroutine (i : nat) (T : trace) : list (event cr) := (filter (λ x, x.1 = i) T).*2.

(** Goroutine [i] runs [progs i]; all may have come to any point. *)
Definition interleaving `{SF : Singleflight} {A} (st : cstate) (progs : nat → prog cr A) (T : trace) : Prop :=
  (∀ i, emits (progs i) (of_goroutine i T)) ∧
  ∀ T1 i e T2, T = T1 ++ (i, e) :: T2 → answers (state_after st T1) e.
