(* ===== verification/CredentialFacts.v ===== *)
(** * Whose credential a caller receives

    Goroutines that share the caches of a provider: a token is the result of a
    fetch for the cache it was found in, is served only while it has time
    left or straight from that fetch, and a cache is found only under the
    digest of the inbound token it was made for. *)

From S2P Require Import Prelude GoStd GoStrings GoFloat Prog Registration GatewayHandlers Credential.

(** ** Traces *)

Lemma goroutine_app i T1 T2 : of_goroutine i (T1 ++ T2) = of_goroutine i T1 ++ of_goroutine i T2.
Proof. unfold of_goroutine. by rewrite filter_app, fmap_app. Qed.

Lemma goroutine_cons i e T : of_goroutine i ((i, e) :: T) = e :: of_goroutine i T.
Proof. unfold of_goroutine. by rewrite filter_cons_True. Qed.

Lemma goroutine_elem i e T : e ∈ of_goroutine i T ↔ (i, e) ∈ T.
Proof.
  unfold of_goroutine. rewrite list_elem_of_fmap. split.
  - intros ([j e'] & -> & [Hj Hin]%list_elem_of_filter). cbn in *. by subst.
  - intros Hin. exists (i, e). split; [done|]. by apply list_elem_of_filter.
Qed.

Lemma state_snoc st T i e : state_after st (T ++ [(i, e)]) = effect (state_after st T) e.
Proof. unfold state_after. by rewrite fmap_app, foldl_app. Qed.

(** A program whose calls are all of a kind runs as some events. *)
Lemma safe_traced {S A} (φ : op S → Prop) (R : event S → Prop) (P : list (event S) → op S → Prop) (p : prog S A) h :
  (∀ h c, φ c → P h c) → safe any (λ _ c, φ c) [] p (λ _ _, True) →
  safe R P h p (λ h' r, ∃ evs, h' = h ++ evs ∧ Forall R evs ∧ runs p evs r).
Proof.
  intros HP. enough (∀ h0, safe any (λ _ c, φ c) h0 p (λ _ _, True) →
    safe R P h p (λ h' r, ∃ evs, h' = h ++ evs ∧ Forall R evs ∧ runs p evs r)) as H by apply H.
  revert h. induction p as [a|c k IH]; intros h h0 Hs; cbn in *.
  - exists []. by rewrite app_nil_r.
  - destruct Hs as [Hc Hk]. split; [by apply HP|]. intros r Hr.
    eapply safe_post; [|eapply IH, Hk; exact I]. cbn. intros h' a (evs & -> & Hf & Hrun).
    exists (Ev c r :: evs). split; [by rewrite <- app_assoc|]. split; [by constructor|]. eauto.
Qed.

(** ** One provider's caches *)

Section shared.
Context `{SF : Singleflight}.
Context (fetch_of : nat → fetcher) (st0 : cstate) (progs : nat → prog cr (res string)) (T : trace).

(** [c.fetch] gave this token and expiry, in some goroutine. *)
Definition fetched_by (j c : nat) (t : string) (exp : Z) : Prop :=
  ∃ evs, evs ⊆ of_goroutine j T ∧ runs (fetch_of c) evs (Ok (t, exp)).

Definition fetched (c : nat) (t : string) (exp : Z) : Prop := ∃ j, fetched_by j c t exp.

(** Goroutine [j] saw that the token has time left, or fetched it. *)
Definition vouched (j c : nat) (t : string) (exp : Z) : Prop :=
  fetched c t exp ∧
  ((∃ now, Ev (S:=cr) KNow now ∈ of_goroutine j T ∧ now + legacyRefreshBuffer < exp) ∨ fetched_by j c t exp).

(** [i] was given the token by [j]: they are the same, or [i] waited for [j]. *)
Definition given (i j c : nat) (t : string) : Prop :=
  i = j ∨ ∃ key, Ev (S:=cr) (KFlight c key) (Some (Ok t)) ∈ of_goroutine i T ∧
                 Ev (S:=cr) (KLand c key (Ok t)) tt ∈ of_goroutine j T.

Definition served (i c : nat) (t : string) : Prop :=
  ∃ j exp, given i j c t ∧ vouched j c t exp.

(** The cache captured this inbound token. *)
Definition owner (c : nat) (a : string) : Prop := tc_captured <$> cs_objs (state_after st0 T) !! c = Some a.

Definition rely (i : nat) (e : event cr) : Prop :=
  e ∈ of_goroutine i T ∧
  match e with
  | Ev c r =>
      match c as c' return cresp c' → Prop with
      | KRead c => λ v, v.1 ≠ ""%string → fetched c v.1 v.2
      | KFlight c key => λ r, ∀ t, r = Some (Ok t) →
          ∃ j exp, Ev (S:=cr) (KLand c key (Ok t)) tt ∈ of_goroutine j T ∧ vouched j c t exp
      | KLoad key => λ r, ∀ c, r = Some c → ∃ a, owner c a ∧ tokenKey a = key
      | KLoadOrStore key _ => λ r, ∃ a, owner r.1 a ∧ tokenKey a = key
      | KFetch c => λ a, owner c a
      | _ => λ _, True
      end r
  end.

Definition guarantee (i : nat) (_ : list (event cr)) (c : op cr) : Prop :=
  match c with
  | KWrite c t exp => fetched c t exp
  | KLand c _ r => ∀ t, r = Ok t → ∃ exp, vouched i c t exp
  | KLoadOrStore key a => key = tokenKey a
  | _ => True
  end.

(** Calls that write no cache. *)
Definition harmless (c : ccall) : Prop :=
  match c with KWrite _ _ _ | KLand _ _ _ | KLoadOrStore _ _ => False | _ => True end.

Lemma harmless_guarantee i h c : harmless c → guarantee i h c.
Proof. by destruct c. Qed.

Lemma rely_events i evs : Forall (rely i) evs → evs ⊆ of_goroutine i T.
Proof. intros Hf e He. rewrite Forall_forall in Hf. by apply Hf. Qed.

(** *** A goroutine *)

Lemma cached_safe i h c :
  safe (rely i) (guarantee i) h (cached_token c) (λ _ r, ∀ t, r = Some t → ∃ exp, vouched i c t exp).
Proof.
  apply (safe_call (S:=cr)); [done|]. intros v h1 [_ Hv] Hs1 _. cbn in Hv.
  destruct (String.eqb_spec v.1 "") as [E|Hne]; cbn [negb]; [done|].
  apply (safe_call (S:=cr)); [done|]. intros now h2 [Hin _] Hs2 _. cbn.
  destruct (Z.ltb_spec (now + legacyRefreshBuffer) v.2); [|done]. intros t [= <-].
  exists v.2. split; [by apply Hv|]. left. by exists now.
Qed.

Lemma refresh_safe i h c :
  safe (S:=cr) any (λ _ c, harmless c) [] (fetch_of c) (λ _ _, True) →
  safe (rely i) (guarantee i) h (refresh c (fetch_of c)) (λ _ r, ∀ t, r = Ok t → ∃ exp, vouched i c t exp).
Proof.
  intros Hf. apply safe_bind. eapply safe_post; [|apply cached_safe]. cbn. intros h1 [t|] Hv.
  { intros t' [= <-]. by apply Hv. }
  apply safe_bind. eapply safe_post; [|apply (safe_traced (S:=cr) harmless); [apply harmless_guarantee|exact Hf]].
  cbn. intros h2 [[t exp]|e] (evs & -> & Hr & Hrun); [|done]. cbn.
  assert (fetched_by i c t exp) as Hby by (exists evs; split; [by apply rely_events|done]).
  split; [by exists i|]. intros _ _ t' [= <-]. exists exp. split; [by exists i|by right].
Qed.

Lemma do_safe i h c key fn :
  (∀ h, safe (rely i) (guarantee i) h fn (λ _ r, ∀ t, r = Ok t → ∃ exp, vouched i c t exp)) →
  safe (rely i) (guarantee i) h (Do c key fn) (λ _ r, ∀ t, r = Ok t → served i c t).
Proof.
  intros Hfn. apply (safe_call (S:=cr)); [done|]. intros f h2 [Hin Hj] Hs2 _. destruct f as [r|].
  - cbn. intros t ->. destruct (Hj t eq_refl) as (j & exp & Hl & Ho). exists j, exp. split; [right; by exists key|done].
  - apply safe_bind. eapply safe_post; [|apply Hfn]. intros h3 r Hr. split; [exact Hr|].
    intros _ _ t ->. destruct (Hr t eq_refl) as [exp ?]. exists i, exp. split; [by left|done].
Qed.

Lemma get_safe i h c :
  safe (S:=cr) any (λ _ c, harmless c) [] (fetch_of c) (λ _ _, True) →
  safe (rely i) (guarantee i) h (cache_Get c (fetch_of c)) (λ _ r, ∀ t, r = Ok t → served i c t).
Proof.
  intros Hf. apply safe_bind. eapply safe_post; [|apply cached_safe]. cbn beta. intros h1 [t|] Hv.
  - intros t' [= <-]. destruct (Hv t eq_refl) as [exp ?]. exists i, exp. split; [by left|done].
  - apply do_safe. intros h2. by apply refresh_safe.
Qed.

(** *** All goroutines *)

Definition inv (st : cstate) : Prop :=
  (∀ c o, cs_objs st !! c = Some o → tc_token o ≠ ""%string → fetched c (tc_token o) (tc_expiresAt o)) ∧
  (∀ c key t, (c, key, Ok t) ∈ cs_landed st →
     ∃ j exp, Ev (S:=cr) (KLand c key (Ok t)) tt ∈ of_goroutine j T ∧ vouched j c t exp) ∧
  (∀ key c, cs_map st !! key = Some c → ∃ a, tc_captured <$> cs_objs st !! c = Some a ∧ tokenKey a = key).

Context (Hinit : inv st0) (HT : interleaving st0 progs T).
Context (Hsafe : ∀ i, ∃ Q, safe (rely i) (guarantee i) [] (progs i) Q).

(** What a cache captured does not change. *)
Lemma captured_effect st e c a :
  answers st e → tc_captured <$> cs_objs st !! c = Some a → tc_captured <$> cs_objs (effect st e) !! c = Some a.
Proof.
  destruct e as [call r]. intros Ha Hc. destruct call; cbn in *; try done.
  - destruct r as [p []]; [|done]. cbn in *. destruct (cs_map st !! key); [done|]. destruct Ha as [_ Hnone].
    rewrite lookup_insert_ne; [done|]. intros ->. by rewrite Hnone in Hc.
  - by case_bool_decide.
  - rewrite lookup_alter. destruct (decide _) as [->|]; [|done]. by destruct (cs_objs st !! c).
  - rewrite lookup_alter. destruct (decide _) as [->|]; [|done]. by destruct (cs_objs st !! c).
  - rewrite lookup_alter. destruct (decide _) as [->|]; [|done]. by destruct (cs_objs st !! c).
Qed.

Lemma captured_after T1 T2 c a :
  T = T1 ++ T2 → tc_captured <$> cs_objs (state_after st0 T1) !! c = Some a → owner c a.
Proof.
  unfold owner. revert T1. induction T2 as [|[i e] T2 IH]; intros T1 E Hc; [by rewrite E, app_nil_r|].
  apply (IH (T1 ++ [(i, e)])); [by rewrite <- app_assoc|]. rewrite state_snoc. apply captured_effect; [|done].
  by eapply (proj2 HT).
Qed.

(** One more call: the invariant justifies its answer, and the goroutine's
    guarantee the invariant after it. *)
Lemma answer_relied st i e T1 T2 :
  st = state_after st0 T1 → T = T1 ++ (i, e) :: T2 → answers st e → inv st →
  guarantee i (of_goroutine i T1) (ev_call e) → rely i e.
Proof.
  intros -> E Ha (Ho & Hl & Hm) Hg. split; [rewrite goroutine_elem, E; set_solver|].
  destruct e as [call r]. destruct call; cbn in *; try done.
  - intros c ->. destruct (Hm key c) as (a & Hc & Ek); [done|]. exists a. split; [by eapply captured_after|done].
  - subst key. destruct r as [p mine]. destruct (cs_map (state_after st0 T1) !! tokenKey assertion) as [c|] eqn:Em.
    + injection Ha as -> ->. destruct (Hm _ c Em) as (a & Hc & Ek). exists a. split; [by eapply captured_after|done].
    + destruct Ha as [Hmine _]. cbn in *. subst mine. exists assertion. split; [|done].
      eapply (captured_after (T1 ++ [(i, _)])); [by rewrite <- app_assoc, E|]. rewrite state_snoc. cbn.
      by rewrite lookup_insert_eq.
  - by eapply captured_after.
  - destruct (cs_objs _ !! c) as [o|] eqn:Eo; [|done]. injection Ha as <-. cbn. by apply Ho.
  - intros t ->. by apply joins_landed, Hl in Ha.
Qed.

Lemma effect_inv st i e T1 T2 :
  T = T1 ++ (i, e) :: T2 → answers st e → inv st → guarantee i (of_goroutine i T1) (ev_call e) → inv (effect st e).
Proof.
  intros E Ha (Ho & Hl & Hm) Hg. assert (e ∈ of_goroutine i T) as Hin by (rewrite goroutine_elem, E; set_solver).
  assert (∀ c a, tc_captured <$> cs_objs st !! c = Some a → tc_captured <$> cs_objs (effect st e) !! c = Some a) as Hcap
    by (intros; by apply captured_effect).
  split; [|split].
  - destruct e as [call r]. intros c o. destruct call; cbn in *; try by apply Ho.
    + destruct r as [p []]; [|by apply Ho]. cbn. rewrite lookup_insert. destruct (decide _); [|by apply Ho].
      intros [= <-] Hne. by destruct Hne.
    + case_bool_decide; by apply Ho.
    + rewrite lookup_alter. destruct (decide _) as [->|]; [|by apply Ho].
      destruct (cs_objs st !! c); [|done]. intros [= <-] _. exact Hg.
    + rewrite lookup_alter. destruct (decide _) as [->|]; [|by apply Ho].
      destruct (cs_objs st !! c) as [o'|] eqn:Eo; [|done]. intros [= <-]. exact (Ho _ _ Eo).
    + rewrite lookup_alter. destruct (decide _) as [->|]; [|by apply Ho].
      destruct (cs_objs st !! c) as [o'|] eqn:Eo; [|done]. intros [= <-]. exact (Ho _ _ Eo).
  - destruct e as [call r]. intros c k t. destruct call; cbn in *; try by apply Hl.
    + destruct r as [p []]; by apply Hl.
    + case_bool_decide; by apply Hl.
    + rewrite elem_of_app, list_elem_of_singleton. intros [H|[= <- <- <-]]; [by apply Hl|].
      destruct (Hg t eq_refl) as [exp ?]. exists i, exp. by destruct r.
  - intros k c Hk.
    assert (cs_map st !! k = Some c ∨ (k = k ∧ ∃ a, tokenKey a = k ∧ tc_captured <$> cs_objs (effect st e) !! c = Some a)) as Hc.
    { destruct e as [call r]. destruct call; cbn in *; try by left.
      - destruct r as [p []]; [|by left]. cbn in *. rewrite lookup_insert in Hk. destruct (decide _) as [<-|]; [|by left].
        injection Hk as <-. right. split; [done|]. exists assertion. split; [by rewrite Hg|]. by rewrite lookup_insert_eq.
      - case_bool_decide; [|by left]. cbn in Hk. apply lookup_delete_Some in Hk as [_ ?]. by left.
      - apply lookup_delete_Some in Hk as [_ ?]. by left. }
    destruct Hc as [Hc|(_ & a & Ek & Hc)]; [|by exists a].
    destruct (Hm k c Hc) as (a & Hca & Ek). exists a. split; [by apply Hcap|done].
Qed.

Lemma all_relied T1 T2 :
  T = T1 ++ T2 → inv (state_after st0 T1) ∧ ∀ i, Forall (rely i) (of_goroutine i T1).
Proof.
  revert T2. induction T1 as [|[i e] T1 IH] using rev_ind; intros T2 E.
  { split; [done|]. intros i. constructor. }
  rewrite <- app_assoc in E. cbn in E. destruct (IH _ E) as [Hinv Hr].
  pose proof (proj2 HT T1 i e T2 E) as Ha.
  assert (guarantee i (of_goroutine i T1) (ev_call e)) as Hg.
  { destruct (Hsafe i) as [Q Hs], e as [c r]. pose proof (proj1 HT i) as He.
    rewrite E, goroutine_app, goroutine_cons in He. exact (safe_emits _ _ _ _ _ _ _ _ _ Hs (Hr i) He). }
  rewrite state_snoc. split; [by eapply effect_inv|]. intros j. rewrite goroutine_app. apply Forall_app. split; [done|].
  unfold of_goroutine. destruct (decide (i = j)) as [<-|Hne].
  - rewrite filter_cons_True by done. cbn. constructor; [by eapply answer_relied|constructor].
  - rewrite filter_cons_False by done. constructor.
Qed.

(** What a goroutine's proof concludes holds of its result. *)
Lemma concluded i Q r :
  safe (rely i) (guarantee i) [] (progs i) Q → runs (progs i) (of_goroutine i T) r → Q (of_goroutine i T) r.
Proof.
  intros Hs Hr. apply (safe_runs _ _ _ _ _ _ _ Hs); [|done].
  by apply (all_relied T []); rewrite app_nil_r.
Qed.
End shared.

(** ** The providers *)

Section providers.
Context `{SF : Singleflight, CL : CredLib}.

Lemma post_harmless h what sent failed url form auth :
  safe (S:=cr) any (λ _ c, harmless c) h (post_form what sent failed url form auth) (λ _ _, True).
Proof. unfold post_form. by destruct (url_Parse url). Qed.

(** A clock reading, if any. *)
Lemma clock_harmless {A} h (b : bool) (f : Z → A) (v : A) :
  safe (S:=cr) any (λ _ c, harmless c) h (if b then bind (trigger cr KNow) (λ now, Ret (f now)) else Ret v) (λ _ _, True).
Proof. by destruct b. Qed.

Lemma exchange_harmless p ex a h :
  doExchange p = Some ex → safe (S:=cr) any (λ _ c, harmless c) h (ex a) (λ _ _, True).
Proof.
  intros Hp. destruct p; try discriminate Hp; injection Hp as <-.
  - apply safe_bind. eapply safe_post; [|apply post_harmless]. intros h1 [body|e] _; [|done].
    destruct (decode_token_response body) as [e|[tok ei]]; [done|]. by destruct (tok ==? "").
  - apply safe_bind. eapply safe_post; [|apply post_harmless]. intros h1 [body|e] _; [|done].
    destruct (decode_sts_response body) as [e|creds]; [done|]. destruct (_ ==? ""); [done|]. cbv zeta.
    apply safe_bind. eapply safe_post; [|apply clock_harmless]. done.
  - apply safe_bind. eapply safe_post; [|apply post_harmless]. intros h1 [body|e] _; [|done].
    destruct (decode_token_response _) as [e|[tok ei]]; [done|]. by destruct (tok ==? "").
Qed.

(** [c.fetch] of a cache made for an inbound token. *)
Definition exchange_of (ex : string → fetcher) (c : nat) : fetcher := a <- trigger cr (KFetch c) ;; ex a.

Lemma evict_safe fetch_of st0 T i h entries :
  safe (rely fetch_of st0 T i) (guarantee fetch_of T i) h (evict_expired entries) (λ _ _, True).
Proof.
  revert h. induction entries as [|[k c] rest IH]; intros h; [done|]. cbn [evict_expired].
  apply safe_bind. apply (safe_post _ _ _ _ (λ _ _, True)).
  - intros h1 expired _. apply safe_bind. destruct expired; [|apply IH]. split; [done|]. intros r _. apply IH.
  - split; [done|]. intros v _. cbn. by destruct (v.1 ==? "").
Qed.

Lemma exchange_token_safe ex st0 T i h raw :
  (∀ a h, safe (S:=cr) any (λ _ c, harmless c) h (ex a) (λ _ _, True)) →
  safe (rely (exchange_of ex) st0 T i) (guarantee (exchange_of ex) T i) h (exchange_token ex raw)
    (λ _ r, ∀ t, r = Ok t → ∃ c a, owner st0 T c a ∧ tokenKey a = tokenKey raw ∧ served (exchange_of ex) T i c t).
Proof.
  intros Hex.
  assert (∀ c, safe (S:=cr) any (λ _ c, harmless c) [] (exchange_of ex c) (λ _ _, True)) as Hof
    by (intros c; split; [done|]; intros a _; apply Hex).
  apply (safe_call (S:=cr)); [done|]. intros v h1 [_ Hv] _ _. cbn in Hv. destruct v as [c|].
  - destruct (Hv c eq_refl) as (a & Ho & Ek). eapply safe_post; [|apply (get_safe (exchange_of ex)), Hof].
    intros h2 r Hr t Ht. exists c, a. auto.
  - apply (safe_call (S:=cr)); [done|]. intros actual h2 [_ (a & Ho & Ek)] _ _. cbn in Ho, Ek.
    apply safe_bind. eapply safe_post; [|apply (get_safe (exchange_of ex)), Hof]. intros h3 r Hr.
    apply safe_bind. apply (safe_post _ _ _ _ (λ _ _, True)).
    + intros h4 u _. apply (safe_call (S:=cr)); [done|]. intros entries h5 _ _ _.
      apply safe_bind. eapply safe_post; [|apply evict_safe]. intros h6 [] _ t Ht. exists actual.1, a. auto.
    + destruct r as [t|e]; [done|]. destruct actual.2; [|done]. by split.
Qed.

(** C13: The tokens of one provider are used by all callers at once; yet what a
    caller receives was obtained by exchanging an inbound token with the
    digest of its own.  It comes from that exchange, or from a cache when a
    clock reading had left it half a minute; of another goroutine only when
    the caller waited for it. *)
Theorem credential_isolated p ex raws T i tok :
  doExchange p = Some ex →
  interleaving (initial p) (λ i, Token p (raws i)) T →
  runs (Token p (raws i)) (of_goroutine i T) (Ok tok) →
  ∃ c assertion exp j k evs, tokenKey assertion = tokenKey (raws i) ∧
    evs ⊆ of_goroutine j T ∧ runs (ex assertion) evs (Ok (tok, exp)) ∧
    given T i k c tok ∧
    ((∃ now, Ev (S:=cr) KNow now ∈ of_goroutine k T ∧ now + legacyRefreshBuffer < exp) ∨
     fetched_by (exchange_of ex) T k c tok exp).
Proof.
  intros Hp HT Hr. pose proof (λ a h, exchange_harmless p ex a h Hp) as Hex.
  assert (∀ j, safe (rely (exchange_of ex) (initial p) T j) (guarantee (exchange_of ex) T j) [] (Token p (raws j))
    (λ _ r, ∀ t, r = Ok t → ∃ c a, owner (initial p) T c a ∧ tokenKey a = tokenKey (raws j) ∧
       served (exchange_of ex) T j c t)) as Hsafe.
  { intros j. destruct p; try discriminate Hp; cbn [Token]; unfold azure_Token, aws_Token, oidc_Token; injection Hp as <-;
      repeat (destruct (_ ==? ""); [done|]); by apply exchange_token_safe. }
  assert (inv (exchange_of ex) T (initial p)) as Hinit.
  { destruct p; try discriminate Hp; (split; [|split]; cbn; [by intros|set_solver|by intros]). }
  destruct (all_relied (exchange_of ex) (initial p) _ T Hinit HT (λ j, ex_intro _ _ (Hsafe j)) T []) as [_ Hall];
    [by rewrite app_nil_r|].
  destruct (concluded _ _ _ _ Hinit HT (λ j, ex_intro _ _ (Hsafe j)) _ _ _ (Hsafe i) Hr tok eq_refl)
    as (c & a & Ho & Ek & k & exp & Hgiven & (j & evs & Hevs & Hrun) & Hv).
  destruct Hrun as (a' & evs' & -> & Hrun).
  assert (owner (initial p) T c a') as Ho'.
  { assert (Ev (S:=cr) (KFetch c) a' ∈ of_goroutine j T) as Hin by set_solver.
    by apply (proj1 (Forall_forall _ _) (Hall j)) in Hin as [_ ?]. }
  unfold owner in *. rewrite Ho in Ho'. injection Ho' as <-.
  exists c, a, exp, j, k, evs'. split; [done|]. split; [set_solver|]. by split.
Qed.

(** A provider with one cache. *)
Lemma one_cache fetch T i tok :
  safe (S:=cr) any (λ _ c, harmless c) [] fetch (λ _ _, True) →
  interleaving (mkCState ∅ {[0%nat := new_cache ""]} []) (λ _, cache_Get 0 fetch) T →
  runs (cache_Get 0 fetch) (of_goroutine i T) (Ok tok) → served (λ _, fetch) T i 0 tok.
Proof.
  intros Hf HT Hr. set (st0 := mkCState _ _ _) in *.
  pose proof (λ j h, get_safe (λ _, fetch) st0 T j h 0 Hf) as Hsafe.
  assert (inv (λ _, fetch) T st0) as Hinit.
  { split; [|split]; cbn; [|set_solver|done]. intros c o [_ <-]%lookup_singleton_Some Hne. by destruct Hne. }
  exact (concluded _ _ _ _ Hinit HT (λ j, ex_intro _ _ (Hsafe j [])) _ _ _ (Hsafe i []) Hr tok eq_refl).
Qed.

(** C39: A static credential is the value of the Secret's key as it was read less
    than four and a half minutes before a clock reading of the caller, or of
    the caller it waited for, unless that one has just read it itself. *)
Theorem static_secret_staleness name namespace key raws T i v :
  let p := StaticSecretProvider name namespace key in
  interleaving (initial p) (λ i, Token p (raws i)) T →
  runs (Token p (raws i)) (of_goroutine i T) (Ok v) →
  ∃ data read j k,
    Ev (S:=cr) (KGetSecret namespace name) (Ok data) ∈ of_goroutine j T ∧ data !! key = Some v ∧
    Ev (S:=cr) KNow read ∈ of_goroutine j T ∧ given T i k 0 v ∧
    ((∃ now, Ev (S:=cr) KNow now ∈ of_goroutine k T ∧ now < read + 270 * Second) ∨
     ∃ data', Ev (S:=cr) (KGetSecret namespace name) (Ok data') ∈ of_goroutine k T ∧ data' !! key = Some v).
Proof.
  intros p HT Hr. unfold p in *. cbn [Token] in *.
  assert (∀ evs exp, runs (static_fetchToken name namespace key) evs (Ok (v, exp)) →
    ∃ data read, evs = [Ev (S:=cr) (KGetSecret namespace name) (Ok data); Ev (S:=cr) KNow read] ∧
      data !! key = Some v ∧ exp = read + 5 * Minute) as Hruns.
  { intros evs exp (s & evs1 & -> & Hs). destruct s as [data|e]; [|by destruct Hs].
    cbn [bind trigger] in Hs. destruct (data !! key) as [v'|] eqn:Ek; [|by destruct Hs as [_ ?]].
    destruct Hs as (now & evs2 & -> & -> & [= -> <-]). by exists data, now. }
  destruct (one_cache (static_fetchToken name namespace key) T i v) as (k & exp & Hg & (j & evs & Hsub & Hev) & Hv).
  - split; [done|]. intros [data|e] _; [|done]. cbn. by destruct (data !! key).
  - exact HT.
  - exact Hr.
  - destruct (Hruns _ _ Hev) as (data & read & -> & Ek & ->). exists data, read, j, k.
    split; [apply Hsub; set_solver|]. split; [done|]. split; [apply Hsub; set_solver|]. split; [done|].
    destruct Hv as [(now & Hin & Hlt)|(evs' & Hsub' & Hev')].
    + left. exists now. split; [done|]. unfold legacyRefreshBuffer, Minute, Second in *. lia.
    + right. destruct (Hruns _ _ Hev') as (data' & read' & -> & Ek' & _). exists data'. split; [apply Hsub'; set_solver|done].
Qed.

(** A token exchanged by the OIDC provider is cached no longer than its own
    expiry claim says, and no longer than the server said or, when that is not a positive number, a
    minute. *)
Theorem oidc_expiry_bounded url audience clientID clientSecret assertion evs tok exp :
  runs (oidc_doExchange url audience clientID clientSecret assertion) evs (Ok (tok, exp)) →
  tok ≠ ""%string ∧ (∀ e, jwtExpClaim tok = Some e → exp ≤ e) ∧
  ∃ body ei now, Ev (S:=cr) (KPost url (oidc_form audience clientID assertion)
      (if (clientID <>? "") && (clientSecret <>? "") then Some (clientID, clientSecret) else None))
      (HResponse 200 body) ∈ evs ∧
    decode_token_response (String.substring 0 4096 body) = inr (tok, ei) ∧
    Ev (S:=cr) KNow now ∈ evs ∧ exp ≤ now + seconds (oidc_expires_in ei).
Proof.
  intros (r & t1 & t2 & -> & H1 & H2)%runs_bind. destruct r as [body|e]; [|by destruct H2].
  assert (Ev (S:=cr) (KPost url (oidc_form audience clientID assertion)
      (if (clientID <>? "") && (clientSecret <>? "") then Some (clientID, clientSecret) else None))
      (HResponse 200 body) ∈ t1) as Hpost.
  { unfold post_form in H1. destruct (url_Parse url); [|by destruct H1].
    destruct H1 as (a & t' & -> & -> & E). destruct a as [e|status b]; [done|].
    destruct (Z.eqb_spec status 200) as [->|]; [|done]. injection E as ->. set_solver. }
  destruct (decode_token_response _) as [e|[tok' ei]] eqn:Ed; [by destruct H2|].
  destruct (String.eqb_spec tok' "") as [|Hne]; [by destruct H2|].
  destruct H2 as (now & t3 & -> & -> & [= -> Eexp]). split; [done|].
  assert (exp ≤ now + seconds (oidc_expires_in ei) ∧ ∀ e, jwtExpClaim tok = Some e → exp ≤ e) as [Hle Hcl].
  { destruct (jwtExpClaim tok) as [e|]; [|by split; [lia|intros ? [=]]].
    destruct (Z.ltb_spec e (now + seconds (oidc_expires_in ei))); (split; [lia|intros ? [= <-]; lia]). }
  split; [done|]. exists body, ei, now. split; [set_solver|]. split; [done|]. split; [set_solver|done].
Qed.
End providers.
