(* ===== verification/CredentialExamples.v ===== *)
(** * Goroutines that share a provider

    Concrete interleavings: witnesses for the theorems of [CredentialFacts],
    and two properties of the caches that do not hold. *)

From S2P Require Import Prelude GoStd GoStrings GoFloat Prog Registration GatewayHandlers Credential CredentialFacts.

(** ** Instances *)

Definition landed_flights : Singleflight := {| joins landed f := f ∈ landed; joins_landed _ _ H := H |}.
#[local] Existing Instance landed_flights.

(** A response is the token itself. *)
Definition clamp64 (x : Z) : Z := if (0 <? x) && (x <? 2 ^ 63) then x else - 2 ^ 63.

Lemma clamp64_fits x : 0 < x < 2 ^ 63 → clamp64 x = x.
Proof. unfold clamp64. intros H. destruct (Z.ltb_spec 0 x), (Z.ltb_spec x (2 ^ 63)); cbn; lia. Qed.

Lemma clamp64_range x : - 2 ^ 63 ≤ clamp64 x < 2 ^ 63.
Proof. unfold clamp64. destruct (Z.ltb_spec 0 x), (Z.ltb_spec x (2 ^ 63)); cbn; lia. Qed.

Definition plain_tokens : CredLib := {|
  decode_token_response body := inr (body, NoExpiry);
  decode_sts_response _ := inl (EMsg "not XML");
  Marshal_bundle c := inr (SessionToken c);
  Parse_RFC3339 _ := None;
  payload_exp _ := None;
  int64_of_f64 x := clamp64 (f64_trunc x);
  int64_of_f64_fits x := clamp64_fits (f64_trunc x);
  int64_of_f64_range x := clamp64_range (f64_trunc x) |}.
#[local] Existing Instance plain_tokens.

(** ** Checking an interleaving *)

Fixpoint consistent (st : cstate) (T : trace) : Prop :=
  match T with
  | [] => True
  | (_, e) :: T' => answers st e ∧ consistent (effect st e) T'
  end.

Lemma consistent_answers st T T1 i e T2 :
  consistent st T → T = T1 ++ (i, e) :: T2 → answers (state_after st T1) e.
Proof.
  intros Hc ->. revert st Hc. induction T1 as [|[j e'] T1 IH]; intros st [Ha Hc]; [done|]. exact (IH _ Hc).
Qed.

Ltac step := right; eexists _, _; split; [reflexivity|].

(** ** A waiting caller *)

Definition idp : Provider := KubernetesOIDCProvider "https://idp/" "" "" "".
Definition inbound (i : nat) : string := match i with 0%nat | 1%nat => "alice" | _ => "bob" end.

(** Goroutine 0 exchanges, 1 waits for it, 2 is somebody else's. *)
Definition shared_run : trace :=
  [(0%nat, Ev (S:=cr) (KLoad (tokenKey "alice")) None);
   (2%nat, Ev (S:=cr) (KLoad (tokenKey "bob")) None);
   (0%nat, Ev (S:=cr) (KLoadOrStore (tokenKey "alice") "alice") (0%nat, true));
   (1%nat, Ev (S:=cr) (KLoad (tokenKey "alice")) (Some 0%nat));
   (0%nat, Ev (S:=cr) (KRead 0) (""%string, zero_time));
   (1%nat, Ev (S:=cr) (KRead 0) (""%string, zero_time));
   (0%nat, Ev (S:=cr) (KFlight 0 "fetch") None);
   (0%nat, Ev (S:=cr) (KRead 0) (""%string, zero_time));
   (0%nat, Ev (S:=cr) (KFetch 0) "alice"%string);
   (0%nat, Ev (S:=cr) (KPost "https://idp/" (oidc_form "" "" "alice") None) (HResponse 200 "T1"));
   (0%nat, Ev (S:=cr) KNow (100 * Second));
   (0%nat, Ev (S:=cr) (KWrite 0 "T1" (160 * Second)) tt);
   (0%nat, Ev (S:=cr) (KLand 0 "fetch" (Ok "T1"%string)) tt);
   (1%nat, Ev (S:=cr) (KFlight 0 "fetch") (Some (Ok "T1"%string)))].

Lemma shared_run_ok : interleaving (initial idp) (λ i, Token idp (inbound i)) shared_run.
Proof.
  split.
  - intros [|[|[|i]]].
    + do 10 step. by left.
    + do 3 step. by left.
    + do 1 step. by left.
    + by left.
  - intros T1 i e T2. apply consistent_answers.
    repeat split; try done; try (vm_compute; reflexivity).
    cbn. set_solver.
Qed.

Lemma credential_isolated_witness :
  ∃ assertion evs j exp, tokenKey assertion = tokenKey "alice" ∧ evs ⊆ of_goroutine j shared_run ∧
    runs (oidc_doExchange "https://idp/" "" "" "" assertion) evs (Ok ("T1"%string, exp)).
Proof.
  destruct (credential_isolated idp (oidc_doExchange "https://idp/" "" "" "") inbound shared_run 1 "T1")
    as (c & assertion & exp & j & k & evs & Hk & Hs & Hr & _).
  - reflexivity.
  - exact shared_run_ok.
  - do 3 (eexists _, _; split; [reflexivity|]). split; reflexivity.
  - exists assertion, evs, j, exp. split; [exact Hk|]. split; [exact Hs|exact Hr].
Defined.

Lemma oidc_expiry_bounded_witness : 160 * Second ≤ 100 * Second + seconds 60.
Proof.
  destruct (oidc_expiry_bounded "https://idp/" "" "" "" "alice"
    [Ev (S:=cr) (KPost "https://idp/" (oidc_form "" "" "alice") None) (HResponse 200 "T1"); Ev (S:=cr) KNow (100 * Second)]
    "T1" (160 * Second)) as (_ & _ & body & ei & now & _ & _ & Hin & Hle).
  - do 2 (eexists _, _; split; [reflexivity|]). split; reflexivity.
  - vm_compute. discriminate.
Defined.

(** ** A static secret *)

Definition secret : Provider := StaticSecretProvider "s" "ns" "token".
Definition value : gmap string string := {["token" := "v1"]}%string.

Definition static_run : trace :=
  [(0%nat, Ev (S:=cr) (KRead 0) (""%string, zero_time));
   (0%nat, Ev (S:=cr) (KFlight 0 "fetch") None);
   (0%nat, Ev (S:=cr) (KRead 0) (""%string, zero_time));
   (0%nat, Ev (S:=cr) (KGetSecret "ns" "s") (Ok value));
   (0%nat, Ev (S:=cr) KNow (100 * Second));
   (0%nat, Ev (S:=cr) (KWrite 0 "v1" (400 * Second)) tt);
   (1%nat, Ev (S:=cr) (KRead 0) ("v1"%string, 400 * Second));
   (1%nat, Ev (S:=cr) KNow (369 * Second))].

Lemma static_run_ok : interleaving (initial secret) (λ _, Token secret "") static_run.
Proof.
  split.
  - intros [|[|i]]; [do 6 step; by left|do 2 step; by left|by left].
  - intros T1 i e T2. apply consistent_answers. repeat split; try done; vm_compute; reflexivity.
Qed.

Lemma static_secret_staleness_witness :
  ∃ data j, Ev (S:=cr) (KGetSecret "ns" "s") (Ok data) ∈ of_goroutine j static_run ∧ data !! "token"%string = Some "v1"%string.
Proof.
  destruct (static_secret_staleness "s" "ns" "token" (λ _, ""%string) static_run 1 "v1" static_run_ok)
    as (data & read & j & k & Hin & Hd & _).
  - do 2 (eexists _, _; split; [reflexivity|]). split; reflexivity.
  - exists data, j. split; [exact Hin|exact Hd].
Defined.

(** ** What the caches do not guarantee *)

(** The keys of [GetOrFetch] share the flights of [Get]: a caller of [Get]
    that waits for an entry called "fetch" receives that entry's token. *)
Example flight_keys_collide :
  let entry := GetOrFetch 0 "fetch" (Ret (Ok ("other"%string, 900 * Second))) in
  let get := cache_Get 0 (Ret (Ok ("mine"%string, 900 * Second))) in
  let T :=
    [(0%nat, Ev (S:=cr) (KEntry 0 "fetch") None); (0%nat, Ev (S:=cr) (KFlight 0 "fetch") None);
     (1%nat, Ev (S:=cr) (KRead 0) (""%string, zero_time)); (0%nat, Ev (S:=cr) (KEntry 0 "fetch") None);
     (0%nat, Ev (S:=cr) (KStore 0 "fetch" "other" (900 * Second)) tt);
     (0%nat, Ev (S:=cr) (KLand 0 "fetch" (Ok "other"%string)) tt);
     (1%nat, Ev (S:=cr) (KFlight 0 "fetch") (Some (Ok "other"%string)))] in
  interleaving (initial secret) (λ i, if bool_decide (i = 0%nat) then entry else get) T ∧
  runs get (of_goroutine 1 T) (Ok "other"%string).
Proof.
  cbv zeta. split; [split|].
  - intros [|[|i]]; [do 5 step; by left|do 2 step; by left|by left].
  - intros T1 i e T2. apply consistent_answers.
    repeat split; try done; try (vm_compute; reflexivity). cbn. set_solver.
  - do 2 (eexists _, _; split; [reflexivity|]). split; reflexivity.
Qed.

(** A lifetime of more than 292 years ends before it starts. *)
Example huge_lifetime_wraps : seconds (oidc_expires_in (ExpiryString "9223372037")) < 0.
Proof. vm_compute. reflexivity. Qed.
