(* ===== verification/McpServerController.v ===== *)
(** * The MCPServer controller ([internal/controller/mcpserver_controller.go])

    The controller asks an upstream server for its tools and stores them in
    the status, from which the gateway takes which tools may be called without
    approval. *)

From S2P Require Import Prelude GoStd GoStrings Types Prog Kube Conditions Naming GatewayAuth McpServers Mcp.

Definition mcpRequeueInterval : Z := 5 * Minute.
Definition mcpDefaultTokenKey : string := "token".
Definition conditionTypeSynced : string := "Synced".
Definition conditionReasonOK : string := "DiscoverySucceeded".
Definition conditionReasonError : string := "DiscoveryFailed".
Definition maxMessageLen : nat := 256.

(** The status besides [Tools], which is [mcs_Tools]; a condition's own
    [ObservedGeneration] is left out. *)
Record MCPServerStatus := mkMcpStatus {
  mss_LastSyncTime : option Z;
  mss_ObservedGeneration : Z;
  mss_Conditions : list Condition;
  mss_DiscoveredToolCount : Z }.

Definition mcp_object : Type := MCPServerCRD * MCPServerStatus.

Definition set_tools (tools : list (string * bool)) (crd : MCPServerCRD) : MCPServerCRD :=
  mkMCPServerCRD (mcs_Meta crd) (mcs_URL crd) (mcs_SecretNamespace crd) (mcs_BearerTokenSecretRef crd)
    (mcs_ReadOnlyTools crd) tools.

(** ** Calls *)

(** An answer: a transport error, or a status with the session header or with
    the body, [None] when reading it fails. *)
Inductive dcall :=
| DGet (name : string)
| DGetSecret (nn : NamespacedName)
| DNow
| DInitialize (url bearer : string)
| DListTools (url session bearer : string)
| DPatchStatus (base new : mcp_object)
| DListServers.

Definition dresp (c : dcall) : Type :=
  match c with
  | DGet _ => res mcp_object
  | DGetSecret _ => res (gmap string string)
  | DNow => Z
  | DInitialize _ _ => res (Z * string)
  | DListTools _ _ _ => res (Z * option string)
  | DPatchStatus _ _ => res unit
  | DListServers => res (list mcp_object)
  end.

Definition ds : sig := mkSig dcall dresp.
Abbreviation dcall_ c := (trigger ds c).

(** ** Messages *)

(** [utf8.ValidString]: no byte decodes to an error, which has width one. *)
Fixpoint valid_runes (fuel : nat) (bs : list Z) : bool :=
  match bs, fuel with
  | [], _ => true
  | b0 :: rest, S fuel' =>
      let '(rn, rest') := decode_rune b0 rest in
      if (rn =? RuneError) && bool_decide (rest' = rest) then false else valid_runes fuel' rest'
  | _ :: _, O => false
  end.

Definition ValidString (s : string) : bool := valid_runes (String.length s) (bytes_of s).

(** [for !utf8.ValidString(s) { s = s[:len(s)-1] }] from [n] bytes on. *)
Fixpoint drop_partial (n : nat) (s : string) : string :=
  if ValidString (String.substring 0 n s) then String.substring 0 n s
  else match n with O => "" | S n' => drop_partial n' s end.

Definition truncateMessage (msg : string) : string :=
  if (String.length msg <=? maxMessageLen)%nat then msg else drop_partial maxMessageLen msg.

(** ** Discovery *)

(** [bytes.TrimRight(line, "\r")]. *)
Fixpoint trim_cr (fuel : nat) (line : string) : string :=
  match fuel with
  | O => line
  | S fuel' => match cut_last (chr 13) line with Some (l, EmptyString) => trim_cr fuel' l | _ => line end
  end.

Fixpoint first_data_line (lines : list string) : option string :=
  match lines with
  | [] => None
  | line :: rest =>
      match cut_prefix "data:" (trim_cr (String.length line) line) with
      | Some after => Some (TrimSpace after)
      | None => first_data_line rest
      end
  end.

Definition readSSEDataLine (body : option string) : res string :=
  match body with
  | None => Err (EMsg "failed to read body")
  | Some body => match first_data_line (split newline body) with
                 | Some l => Ok l
                 | None => Err (EMsg "no SSE data line in response")
                 end
  end.

(** [encoding/json] at the response of [tools/list]: the names in [result] and
    [error.message]; and the text of an error. *)
Class ToolsLib := {
  Unmarshal_tools : string → error + (option (list string) * option string);
  error_string : error → string }.

Section reconciler.
Context `{MC : MetaConditions, TL : ToolsLib}.

Definition resolveBearerToken (server : MCPServerCRD) : prog ds (res string) :=
  match mcs_BearerTokenSecretRef server with
  | None => Ret (Ok ""%string)
  | Some ref =>
      let key := if sk_Key ref ==? "" then mcpDefaultTokenKey else sk_Key ref in
      let secretNS := mcs_SecretNamespace server in
      if secretNS ==? "" then
        Ret (Err (EMsg ("secretNamespace is required for cluster-scoped MCPServer " +:+ crd_name server)%string))
      else
        s <- dcall_ (DGetSecret (NN secretNS (sk_Name ref))) ;;
        Ret match s with
            | Err e => Err (EWrap ("get secret " +:+ secretNS +:+ "/" +:+ sk_Name ref)%string e)
            | Ok data =>
                match data !! key with
                | Some v => Ok v
                | None => Err (EMsg ("secret " +:+ secretNS +:+ "/" +:+ sk_Name ref +:+ " has no key " +:+ quote key)%string)
                end
            end
  end.

Definition initSession (rawURL bearerToken : string) : prog ds (res string) :=
  match url_Parse rawURL with
  | None => Ret (Err (EMsg "build request"))
  | Some _ =>
      a <- dcall_ (DInitialize rawURL bearerToken) ;;
      Ret match a with
          | Err e => Err (EWrap "request failed" e)
          | Ok (status, sessionID) =>
              if 400 <=? status then Err (EMsg ("upstream returned HTTP " +:+ FormatInt10 status)%string)
              else if sessionID ==? "" then Err (EMsg "upstream returned empty Mcp-Session-Id")
              else Ok sessionID
          end
  end.

Definition in_set (readOnlyTools : list string) (t : string) : bool := existsb (String.eqb t) readOnlyTools.

(** The tools of a response, with the permissions of the spec. *)
Definition tools_of_response (readOnlyTools : list string) (dataLine : string) : res (list (string * bool)) :=
  match Unmarshal_tools dataLine with
  | inl e => Err (EWrap "decode tools/list response" e)
  | inr (_, Some msg) => Err (EMsg ("upstream error: " +:+ msg)%string)
  | inr (None, None) => Err (EMsg "empty tools/list result")
  | inr (Some names, None) => Ok ((λ t, (t, in_set readOnlyTools t)) <$> names)
  end.

Definition discoverTools (server : MCPServerCRD) : prog ds (res (list (string * bool))) :=
  t <- resolveBearerToken server ;;
  match t with
  | Err e => Ret (Err (EWrap "resolve token" e))
  | Ok bearerToken =>
      s <- initSession (mcs_URL server) bearerToken ;;
      match s with
      | Err e => Ret (Err (EWrap "initialize session" e))
      | Ok sessionID =>
          a <- dcall_ (DListTools (mcs_URL server) sessionID bearerToken) ;;
          Ret match a with
              | Err e => Err (EWrap "tools/list request" e)
              | Ok (status, body) =>
                  if 400 <=? status then Err (EMsg ("tools/list returned HTTP " +:+ FormatInt10 status)%string)
                  else match readSSEDataLine body with
                       | Err e => Err (EWrap "read SSE data" e)
                       | Ok dataLine => tools_of_response (mcs_ReadOnlyTools server) dataLine
                       end
              end
      end
  end.

(** The object with the outcome of a discovery. *)
Definition synced (server : mcp_object) (r : res (list (string * bool))) (now : Z) : mcp_object :=
  let '(crd, st) := server in
  let set st_ reason msg := SetStatusCondition (mss_Conditions st) (mkCond conditionTypeSynced st_ reason msg now) now in
  match r with
  | Err e =>
      (crd, mkMcpStatus (Some now) (om_Generation (mcs_Meta crd))
              (set ConditionFalse conditionReasonError (truncateMessage (error_string e))) (mss_DiscoveredToolCount st))
  | Ok tools =>
      (set_tools tools crd,
       mkMcpStatus (Some now) (om_Generation (mcs_Meta crd))
         (set ConditionTrue conditionReasonOK
            ("Discovered " +:+ FormatInt10 (Z.of_nat (length tools)) +:+ " tools from upstream")%string)
         (Z.of_nat (length tools)))
  end.

(** [Ok (Some d)]: again after [d]. *)
Definition McpServer_Reconcile (name : string) : prog ds (res (option Z)) :=
  g <- dcall_ (DGet name) ;;
  match g with
  | Err e => Ret (if IsNotFound e then Ok None else Err e)
  | Ok server =>
      r <- discoverTools server.1 ;;
      now <- dcall_ DNow ;;
      p <- dcall_ (DPatchStatus server (synced server r now)) ;;
      Ret match p with Err e => Err e | Ok _ => Ok (Some mcpRequeueInterval) end
  end.

Definition references_secret (nn : NamespacedName) (srv : MCPServerCRD) : bool :=
  match mcs_BearerTokenSecretRef srv with
  | None => false
  | Some ref =>
      (mcs_SecretNamespace srv <>? "") && (sk_Name ref ==? nn_Name nn) && (mcs_SecretNamespace srv ==? nn_Namespace nn)
  end.

(** The servers to reconcile when a Secret changes. *)
Definition mapSecretToMCPServer (nn : NamespacedName) : prog ds (list NamespacedName) :=
  l <- dcall_ DListServers ;;
  Ret match l with
      | Err _ => []
      | Ok items => key_of ∘ mcs_Meta <$> filter (λ srv, references_secret nn srv = true) items.*1
      end.
End reconciler.
