(* ===== verification/McpServerFacts.v ===== *)
(** * What the MCPServer controller stores

    Its messages are cut between runes, and a tool is stored as read-only only
    if the spec lists it or it already was. *)

From S2P Require Import Prelude GoStd GoStrings Types Prog Kube Conditions Naming GatewayAuth McpServers Mcp.
From S2P Require Import McpServerController.

(** ** Cutting a message *)

Lemma bytes_substring n s : bytes_of (String.substring 0 n s) = take n (bytes_of s).
Proof. revert n. induction s as [|a s IH]; intros [|n]; cbn; [done..|]. by rewrite IH. Qed.

Lemma bytes_length s : length (bytes_of s) = String.length s.
Proof. induction s as [|a s IH]; cbn; [done|]. by rewrite IH. Qed.

(** A rune is at most four bytes, and is decoded without what follows it. *)
Lemma decode_rune_local b0 rest rn rest' :
  decode_rune b0 rest = (rn, rest') → ¬ (rn = RuneError ∧ rest' = rest) →
  ∃ chunk, (length chunk ≤ 3)%nat ∧ rest = chunk ++ rest' ∧ ∀ x, decode_rune b0 (chunk ++ x) = (rn, x).
Proof.
  unfold decode_rune. intros Hd Hv.
  destruct (b0 <? 128) eqn:E0; [injection Hd as <- <-; exists []; cbn; rewrite ?E0; auto with lia|].
  destruct (in_range 194 223 b0) eqn:E1.
  { destruct rest as [|b1 r]; [injection Hd as <- <-; by destruct Hv|].
    destruct (cont b1) eqn:C1; injection Hd as <- <-; [|by destruct Hv]. exists [b1]. cbn. rewrite C1. auto with lia. }
  destruct (in_range 224 239 b0) eqn:E2.
  { destruct rest as [|b1 [|b2 r]]; [injection Hd as <- <-; by destruct Hv..|].
    destruct (second_ok b0 b1 && cont b2) eqn:C; injection Hd as <- <-; [|by destruct Hv].
    exists [b1; b2]. cbn. rewrite C. auto with lia. }
  destruct (in_range 240 244 b0) eqn:E3; [|injection Hd as <- <-; by destruct Hv].
  destruct rest as [|b1 [|b2 [|b3 r]]]; [injection Hd as <- <-; by destruct Hv..|].
  destruct (second_ok b0 b1 && cont b2 && cont b3) eqn:C; injection Hd as <- <-; [|by destruct Hv].
  exists [b1; b2; b3]. cbn. rewrite C. auto with lia.
Qed.

Lemma valid_more f g bs : (f ≤ g)%nat → valid_runes f bs = true → valid_runes g bs = true.
Proof.
  revert g bs. induction f as [|f IH]; intros g bs Hf Hv; destruct bs as [|b0 rest]; try done; try (by destruct g).
  destruct g as [|g]; [lia|]. cbn in *. destruct (decode_rune b0 rest) as [rn rest'].
  destruct (_ && _); [done|]. apply IH; [lia|done].
Qed.

(** One rune of a valid text. *)
Lemma valid_first f b0 rest :
  valid_runes (S f) (b0 :: rest) = true →
  ∃ chunk rest', (length chunk ≤ 3)%nat ∧ rest = chunk ++ rest' ∧ valid_runes f rest' = true ∧
    ∀ x g, valid_runes g x = true → valid_runes (S g) (b0 :: chunk ++ x) = true.
Proof.
  cbn. destruct (decode_rune b0 rest) as [rn rest'] eqn:Ed.
  destruct ((rn =? RuneError) && bool_decide (rest' = rest)) eqn:Eb; [done|]. intros Hv.
  assert (¬ (rn = RuneError ∧ rest' = rest)) as Hne.
  { intros [-> ->]. by rewrite Z.eqb_refl, bool_decide_eq_true_2 in Eb. }
  destruct (decode_rune_local _ _ _ _ Ed Hne) as (chunk & Hc & -> & Hloc). exists chunk, rest'.
  split; [done|]. split; [done|]. split; [done|]. intros x g Hx. cbn. rewrite Hloc.
  destruct (Z.eqb_spec rn RuneError) as [->|]; [|done]. rewrite bool_decide_eq_false_2; [done|].
  intros E. apply (f_equal length) in E. destruct Hne. split; [done|]. rewrite length_app in E.
  by destruct chunk; [|cbn in E; lia].
Qed.

(** Near every position of a valid text there is one between runes. *)
Lemma valid_cut f bs n :
  valid_runes f bs = true → (n ≤ length bs)%nat →
  ∃ k, (n - 3 ≤ k ≤ n)%nat ∧ valid_runes k (take k bs) = true.
Proof.
  revert bs n. induction f as [|f IH]; intros bs n Hv Hn.
  { destruct bs; [|done]. exists 0%nat. cbn in *. split; [lia|done]. }
  destruct bs as [|b0 rest]; [exists 0%nat; cbn in *; split; [lia|done]|].
  destruct (valid_first _ _ _ Hv) as (chunk & rest' & Hc & -> & Hv' & Hext).
  cbn in Hn. rewrite length_app in Hn.
  destruct (decide (n ≤ length chunk)%nat) as [Hs|Hs]; [exists 0%nat; split; [lia|done]|].
  destruct (IH rest' (n - 1 - length chunk)%nat Hv') as (k & Hk & Hvk); [lia|].
  exists (S (length chunk + k)). split; [lia|]. cbn [take].
  rewrite take_app_ge, Nat.add_sub_swap, Nat.sub_diag, Nat.add_0_l by lia.
  apply (Hext _ (length chunk + k)%nat). by eapply valid_more; [|exact Hvk]; lia.
Qed.

Lemma substring_whole s : String.substring 0 (String.length s) s = s.
Proof. induction s as [|a s IH]; cbn; [done|]. by rewrite IH. Qed.

Lemma drop_partial_spec n s :
  (n ≤ String.length s)%nat →
  ∃ k, (k ≤ n)%nat ∧ drop_partial n s = String.substring 0 k s ∧ ValidString (String.substring 0 k s) = true ∧
    ∀ m, (k < m ≤ n)%nat → ValidString (String.substring 0 m s) = false.
Proof.
  induction n as [|n IH]; intros Hn; cbn [drop_partial].
  { exists 0%nat. destruct s; cbn; (split; [done|]; split; [done|]; split; [done|]; lia). }
  destruct (ValidString (String.substring 0 (S n) s)) eqn:Ev.
  { exists (S n). split; [lia|]. split; [done|]. split; [done|]. lia. }
  destruct IH as (k & Hk & E & Hv & Hmax); [lia|]. exists k. split; [lia|]. split; [done|]. split; [done|].
  intros m Hm. destruct (decide (m = S n)) as [->|]; [done|]. apply Hmax. lia.
Qed.

(** A message is stored unchanged if it has at most 256 bytes, and otherwise
    as its longest prefix of at most 256 bytes that ends between runes, which
    for a valid text is at most three bytes shorter. *)
Theorem truncate_message_spec msg :
  ∃ k, truncateMessage msg = String.substring 0 k msg ∧
    ((String.length msg ≤ 256)%nat → truncateMessage msg = msg) ∧
    ((256 < String.length msg)%nat → (k ≤ 256)%nat ∧ ValidString (truncateMessage msg) = true ∧
       (∀ m, (k < m ≤ 256)%nat → ValidString (String.substring 0 m msg) = false) ∧
       (ValidString msg = true → (253 ≤ k)%nat)).
Proof.
  unfold truncateMessage, maxMessageLen. destruct (Nat.leb_spec (String.length msg) 256) as [Hl|Hl].
  { exists (String.length msg). rewrite substring_whole. split; [done|]. split; [done|]. lia. }
  destruct (drop_partial_spec 256 msg) as (k & Hk & E & Hv & Hmax); [lia|]. exists k. rewrite E.
  split; [done|]. split; [lia|]. intros _. split; [done|]. split; [done|]. split; [done|]. intros Hvalid.
  destruct (valid_cut _ _ 256 Hvalid) as (k' & Hk' & Hv'); [rewrite bytes_length; lia|].
  destruct (decide (253 ≤ k)%nat) as [|Hlt]; [done|]. exfalso.
  assert (ValidString (String.substring 0 k' msg) = true) as Ht.
  { unfold ValidString. by rewrite bytes_substring, substring_length by lia. }
  rewrite Hmax in Ht; [done|lia].
Qed.

(** ** What is stored *)

Section facts.
Context `{MC : MetaConditions, TL : ToolsLib}.

(** The upstream server listed these tools. *)
Definition discovered (h : list (event ds)) (server : MCPServerCRD) (tools : list (string * bool)) : Prop :=
  ∃ session bearer status body line names,
    Ev (S:=ds) (DListTools (mcs_URL server) session bearer) (Ok (status, Some body)) ∈ h ∧ status < 400 ∧
    readSSEDataLine (Some body) = Ok line ∧ Unmarshal_tools line = inr (Some names, None) ∧
    tools = (λ t, (t, in_set (mcs_ReadOnlyTools server) t)) <$> names.

Definition allowed_patch (name : string) (h : list (event ds)) (c : op ds) : Prop :=
  match c with
  | DPatchStatus base new =>
      Ev (S:=ds) (DGet name) (Ok base) ∈ h ∧
      ((∃ tools now, discovered h base.1 tools ∧ new = synced base (Ok tools) now) ∨
       (∃ e now, new = synced base (Err e) now))
  | _ => True
  end.

Lemma token_reads h server name :
  safe any (allowed_patch name) h (resolveBearerToken server) (λ h' _, h ⊆ h').
Proof.
  unfold resolveBearerToken. destruct (mcs_BearerTokenSecretRef server) as [ref|]; [|by cbn].
  cbv zeta. destruct (mcs_SecretNamespace server ==? ""); [by cbn|].
  apply (safe_call (S:=ds)); [done|]. by intros s h' _ Hs _.
Qed.

Lemma session_reads h name url bearer :
  safe any (allowed_patch name) h (initSession url bearer) (λ h' _, h ⊆ h').
Proof.
  unfold initSession. destruct (url_Parse url); [|by cbn]. apply (safe_call (S:=ds)); [done|]. by intros s h' _ Hs _.
Qed.

Lemma discover_walk h server name :
  safe any (allowed_patch name) h (discoverTools server)
    (λ h' r, h ⊆ h' ∧ ∀ tools, r = Ok tools → discovered h' server tools).
Proof.
  apply safe_bind. eapply safe_post; [|apply token_reads]. intros h1 [bearer|e] Hs1; [|by split].
  apply safe_bind. eapply safe_post; [|apply session_reads]. intros h2 [session|e] Hs2; [|split; [set_solver|done]].
  apply (safe_call (S:=ds)); [done|]. intros a h3 _ Hs3 Ha. cbn. split; [set_solver|]. intros tools.
  destruct a as [[status body]|e]; [|done]. destruct (Z.leb_spec 400 status); [done|].
  destruct (readSSEDataLine body) as [line|e] eqn:El; [|done]. destruct body as [body|]; [|done].
  unfold tools_of_response. destruct (Unmarshal_tools line) as [e|[[names|] [msg|]]] eqn:Eu; try done.
  intros [= <-]. exists session, bearer, status, body, line, names. done.
Qed.

Lemma reconcile_walk name : safe any (allowed_patch name) [] (McpServer_Reconcile name) (λ _ _, True).
Proof.
  apply (safe_call (S:=ds)); [done|]. intros g h1 _ _ Hg. destruct g as [server|e]; [|done].
  eapply safe_sub; [apply discover_walk|]. intros r h2 Hs2 Hr.
  apply (safe_call (S:=ds)); [done|]. intros now h3 _ Hs3 _.
  apply (safe_call (S:=ds)); [|done]. split; [set_solver|]. destruct r as [tools|e]; [left|right; by exists e, now].
  exists tools, now. split; [|done]. destruct (Hr tools eq_refl) as (s & b & st & body & line & names & Hin & Hrest).
  exists s, b, st, body, line, names. split; [set_solver|done].
Qed.

(** C23: The controller changes only the status of the server it read.  If the
    upstream server listed its tools they are stored, with exactly those
    marked read-only that the spec lists; otherwise the stored ones stay.  So
    a tool becomes read-only only by being listed in the spec. *)
Theorem mcp_permissions_from_spec name t1 base new x t2 :
  emits (McpServer_Reconcile name) (t1 ++ Ev (S:=ds) (DPatchStatus base new) x :: t2) →
  Ev (S:=ds) (DGet name) (Ok base) ∈ t1 ∧
  new.1 = set_tools (mcs_Tools new.1) base.1 ∧
  mss_ObservedGeneration new.2 = om_Generation (mcs_Meta base.1) ∧
  (mcs_Tools new.1 = mcs_Tools base.1 ∨
   (discovered t1 base.1 (mcs_Tools new.1) ∧ mss_DiscoveredToolCount new.2 = Z.of_nat (length (mcs_Tools new.1)))) ∧
  ∀ tool, (tool, true) ∈ mcs_Tools new.1 → tool ∈ mcs_ReadOnlyTools base.1 ∨ (tool, true) ∈ mcs_Tools base.1.
Proof.
  intros He. pose proof (safe_emits _ _ _ _ _ _ _ _ _ (reconcile_walk name) (any_all _) He) as [Hin Hp].
  split; [exact Hin|]. destruct base as [crd st], Hp as [(tools & now & Hd & ->)|(e & now & ->)]; cbn.
  - split; [done|]. split; [done|]. split; [by right|]. intros tool Ht. left.
    destruct Hd as (_ & _ & _ & _ & _ & names & _ & _ & _ & _ & ->).
    apply list_elem_of_fmap in Ht as (t & [= -> Hset] & _). symmetry in Hset. unfold in_set in Hset.
    apply existsb_exists in Hset as (u & Hu & ->%String.eqb_eq). by apply list_elem_of_In.
  - split; [by destruct crd|]. split; [done|]. split; [by left|]. by right.
Qed.
End facts.

(** ** Executions *)

Module McpServerExamples.
#[local] Existing Instance list_conditions.

(** A line is the name of the one tool. *)
Definition one_tool : ToolsLib := {|
  Unmarshal_tools line := inr (Some [line], None); error_string _ := "error"%string |}.
#[local] Existing Instance one_tool.

(** [merge] was read-only and is no longer listed as such. *)
Definition object : mcp_object :=
  (mkMCPServerCRD (mkMeta "github" "" "" "" ∅ ∅ 2 0 0 None [] []) "https://mcp.example/" "" None ["get_file"%string]
     [("merge"%string, true)],
   mkMcpStatus None 1 [] 1).

Definition upstream (up : bool) (c : op ds) : ans ds c :=
  match c return dresp c with
  | DGet _ => Ok object
  | DGetSecret _ => Ok ∅
  | DNow => 90 * Second
  | DInitialize _ _ => if up then Ok (200, "session"%string) else Err (EMsg "connection refused")
  | DListTools _ _ _ => Ok (200, Some "data: get_file"%string)
  | DPatchStatus _ _ => Ok tt
  | DListServers => Ok [object]
  end.

Definition stored (up : bool) : mcp_object :=
  synced object (if up then Ok [("get_file"%string, true)]
                 else Err (EWrap "initialize session" (EWrap "request failed" (EMsg "connection refused"))))
    (90 * Second).

(** The [n]-th call of a reconcile. *)
Definition calls (up : bool) (n : nat) (c : op ds) : Prop :=
  ev_call <$> (play (upstream up) (McpServer_Reconcile "github")).1 !! n = Some c.

Lemma mcp_permissions_from_spec_witness :
  calls true 4 (DPatchStatus object (stored true)) ∧
  ∀ tool, (tool, true) ∈ mcs_Tools (stored true).1 → tool ∈ ["get_file"%string] ∨ (tool, true) ∈ [("merge"%string, true)].
Proof.
  assert (calls true 4 (DPatchStatus object (stored true))) as Hc by (vm_compute; reflexivity). split; [exact Hc|].
  destruct (mcp_permissions_from_spec "github" _ object (stored true) _ _ (play_reaches _ _ _ _ Hc))
    as (_ & _ & _ & _ & H).
  exact H.
Defined.

(** While the server cannot be reached, a tool that the spec no longer lists
    stays read-only; and the time of the last sync moves on. *)
Example removed_tool_stays_read_only :
  calls false 3 (DPatchStatus object (stored false)) ∧
  mcs_ReadOnlyTools (stored false).1 = ["get_file"%string] ∧
  mcs_Tools (stored false).1 = [("merge"%string, true)] ∧
  mss_LastSyncTime (stored false).2 = Some (90 * Second).
Proof. split; [vm_compute; reflexivity|]. by split. Qed.

(** A message with an invalid byte early on is cut there. *)
Definition spaces : string := String.string_of_list_ascii (replicate 300 (chr 32)).

Example invalid_message_lost :
  String.length (truncateMessage spaces) = 256%nat ∧
  truncateMessage (String (chr 255) spaces) = ""%string.
Proof. split; vm_compute; reflexivity. Qed.

End McpServerExamples.
