(* ===== verification/JwtKey.v ===== *)
(** * The signing key's controller ([internal/controller/jwtkey_controller.go])

    Keeps the Secret that holds the gateway's signing key, and replaces the
    key when it is older than the rotation period. *)

From S2P Require Import Prelude GoStd GoStrings Types Prog Kube.

Definition jwtKeySecretName : string := "aip-jwt-signing-key".
Definition jwtKeySecretKey : string := "tls.key".
Definition jwtKeySecretCert : string := "tls.crt".
Definition annotationLastRotated : string := "aip.io/jwt-key-rotated-at".
Definition defaultRotationTTL : Z := 90 * 24 * Hour.
Definition requeueInterval : Z := 1 * Hour.

(** [corev1.Secret]. *)
Record Secret := mkSecret { sec_Meta : ObjectMeta; sec_Type : string; sec_Data : gmap string string }.

Record JWTKeyReconciler := mkKeyReconciler { kr_Namespace : string; kr_RotationTTL : Z }.

(** [time.RFC3339] of the times whose year has four digits: formatting drops
    the part of a second. *)
Class Rfc3339 := {
  Format : Z → string;
  Parse : string → option Z;
  four_digit_year : Z → Prop;
  parse_format : ∀ t, four_digit_year t → Parse (Format t) = Some (t / Second * Second) }.

(** ** Calls *)

Inductive kcall :=
| KeyNow
| KeyGet                                  (** [r.APIReader.Get] of the Secret *)
| KeyGenerate                             (** [jwt.GenerateKeyPair]: private, public *)
| KeyCreate (s : Secret)
| KeyPatch (base new : Secret).

Definition kresp (c : kcall) : Type :=
  match c with
  | KeyNow => Z
  | KeyGet => res Secret
  | KeyGenerate => res (string * string)
  | KeyCreate _ | KeyPatch _ _ => res unit
  end.

Definition ks : sig := mkSig kcall kresp.
Abbreviation kcall_ c := (trigger ks c).

Section reconciler.
Context `{TF : Rfc3339}.
Context (r : JWTKeyReconciler).

Definition ttl : Z := if 0 <? kr_RotationTTL r then kr_RotationTTL r else defaultRotationTTL.

Definition lastRotatedAt (secret : Secret) : Z :=
  match om_Annotations (sec_Meta secret) !! annotationLastRotated with
  | Some raw => match Parse raw with Some t => t | None => om_CreationTimestamp (sec_Meta secret) end
  | None => om_CreationTimestamp (sec_Meta secret)
  end.

Definition isStale (secret : Secret) (now : Z) : bool := ttl <=? now - lastRotatedAt secret.

Definition pair_data (keys : string * string) : gmap string string :=
  {[ jwtKeySecretKey := keys.1; jwtKeySecretCert := keys.2 ]}.

Definition new_secret (keys : string * string) (now : Z) : Secret :=
  mkSecret (mkMeta jwtKeySecretName "" (kr_Namespace r) "" ∅ {[ annotationLastRotated := Format now ]} 0 0 0 None [] [])
    "Opaque" (pair_data keys).

(** The Secret with the new key and the time of its rotation. *)
Definition rotated (existing : Secret) (keys : string * string) (now : Z) : Secret :=
  let m := sec_Meta existing in
  mkSecret (mkMeta (om_Name m) (om_GenerateName m) (om_Namespace m) (om_UID m) (om_Labels m)
              (<[annotationLastRotated := Format now]> (om_Annotations m)) (om_Generation m) (om_ResourceVersion m)
              (om_CreationTimestamp m) (om_DeletionTimestamp m) (om_Finalizers m) (om_OwnerReferences m))
    (sec_Type existing) (pair_data keys).

Definition key_name : string := (kr_Namespace r +:+ "/" +:+ jwtKeySecretName)%string.

Definition rotateKey (now : Z) : prog ks (res unit) :=
  k <- kcall_ KeyGenerate ;;
  match k with
  | Err e => Ret (Err (EWrap "generate key pair" e))
  | Ok keys =>
      g <- kcall_ KeyGet ;;
      match g with
      | Err e =>
          if IsNotFound e then
            c <- kcall_ (KeyCreate (new_secret keys now)) ;;
            Ret match c with
                | Ok _ => Ok tt
                | Err e => if IsAlreadyExists e then Ok tt else Err (EWrap ("create secret " +:+ key_name)%string e)
                end
          else Ret (Err (EWrap ("get existing secret " +:+ key_name)%string e))
      | Ok existing =>
          p <- kcall_ (KeyPatch existing (rotated existing keys now)) ;;
          Ret match p with Ok _ => Ok tt | Err e => Err (EWrap ("patch secret " +:+ key_name)%string e) end
      end
  end.

(** [Ok d]: again after [d]. *)
Definition JwtKey_Reconcile : prog ks (res Z) :=
  now <- kcall_ KeyNow ;;
  g <- kcall_ KeyGet ;;
  let rotate :=
    x <- rotateKey now ;;
    Ret match x with
        | Ok _ => Ok requeueInterval
        | Err e => Err (EWrap ("failed to rotate secret " +:+ key_name)%string e)
        end in
  match g with
  | Err e => if IsNotFound e then rotate else Ret (Err (EWrap ("failed to get secret " +:+ key_name)%string e))
  | Ok secret => if isStale secret now then rotate else Ret (Ok requeueInterval)
  end.

(** ** Rotation *)

(** The Secret was read as missing, or with a key as old as the period. *)
Definition due (h : list (event ks)) (now : Z) : Prop :=
  (∃ e, Ev (S:=ks) KeyGet (Err e) ∈ h ∧ IsNotFound e = true) ∨
  (∃ s, Ev (S:=ks) KeyGet (Ok s) ∈ h ∧ ttl ≤ now - lastRotatedAt s).

Definition key_write (h : list (event ks)) (c : op ks) : Prop :=
  match c with
  | KeyCreate s => ∃ now keys, Ev (S:=ks) KeyNow now ∈ h ∧ due h now ∧ Ev (S:=ks) KeyGenerate (Ok keys) ∈ h ∧
      s = new_secret keys now
  | KeyPatch base new => ∃ now keys, Ev (S:=ks) KeyNow now ∈ h ∧ due h now ∧ Ev (S:=ks) KeyGenerate (Ok keys) ∈ h ∧
      Ev (S:=ks) KeyGet (Ok base) ∈ h ∧ new = rotated base keys now
  | _ => True
  end.

Lemma key_due_mono h h' now : h ⊆ h' → due h now → due h' now.
Proof. intros Hs [(e & H & E)|(s & H & E)]; [left; exists e|right; exists s]; (split; [set_solver|done]). Qed.

Lemma rotate_walk h now :
  Ev (S:=ks) KeyNow now ∈ h → due h now → safe any key_write h (rotateKey now) (λ _ _, True).
Proof.
  intros Hn Hd. apply (safe_call (S:=ks)); [done|]. intros k h1 _ Hs1 Hk. destruct k as [keys|e]; [|done].
  apply (safe_call (S:=ks)); [done|]. intros g h2 _ Hs2 Hg. assert (h ⊆ h2) as Hs by set_solver.
  destruct g as [existing|e].
  - apply (safe_call (S:=ks)); [|done]. exists now, keys. split; [set_solver|]. split; [by eapply key_due_mono|]. split; [set_solver|done].
  - destruct (IsNotFound e); [|done]. apply (safe_call (S:=ks)); [|done]. exists now, keys.
    split; [set_solver|]. split; [by eapply key_due_mono|]. split; [set_solver|done].
Qed.

Lemma key_walk : safe any key_write [] JwtKey_Reconcile (λ _ _, True).
Proof.
  apply (safe_call (S:=ks)); [done|]. intros now h1 _ _ Hn. apply (safe_call (S:=ks)); [done|]. intros g h2 _ Hs2 Hg.
  assert (due h2 now → safe any key_write h2 (bind (rotateKey now) (λ x, Ret match x with
        | Ok _ => Ok requeueInterval
        | Err e => Err (EWrap ("failed to rotate secret " +:+ key_name)%string e)
        end)) (λ _ _, True)) as Hrot.
  { intros Hd. apply safe_bind. eapply safe_post; [|apply rotate_walk; [set_solver|done]]. done. }
  destruct g as [s|e].
  - destruct (isStale s now) eqn:E; [|done]. apply Hrot. right. exists s. split; [done|]. by apply Z.leb_le.
  - destruct (IsNotFound e) eqn:E; [|done]. apply Hrot. left. by exists e.
Qed.

(** The Secret that a call writes. *)
Definition written (c : kcall) : option Secret :=
  match c with KeyCreate s | KeyPatch _ s => Some s | _ => None end.

(** C24: The key is replaced only when the Secret was read as missing or as old as
    the rotation period, by a pair generated in this reconcile; the Secret
    keeps its identity.  The Secret as written is due again exactly when a
    period has passed since the second in which it was found due. *)
Theorem jwt_key_rotation t1 c x t2 :
  emits JwtKey_Reconcile (t1 ++ Ev (S:=ks) c x :: t2) →
  key_write t1 c ∧
  ∀ s, written c = Some s → ∃ now, Ev (S:=ks) KeyNow now ∈ t1 ∧ due t1 now ∧
    (four_digit_year now → ∀ t, isStale s t = true ↔ ttl ≤ t - now / Second * Second).
Proof.
  intros He. pose proof (safe_emits _ _ _ _ _ _ _ _ _ key_walk (any_all _) He) as Hw. cbn in Hw. split; [exact Hw|].
  intros s Hs.
  assert (∃ now, Ev (S:=ks) KeyNow now ∈ t1 ∧ due t1 now ∧
    om_Annotations (sec_Meta s) !! annotationLastRotated = Some (Format now)) as (now & Hn & Hd & Ha).
  { destruct c; try discriminate Hs; injection Hs as ->.
    - destruct Hw as (now & keys & Hn & Hd & _ & ->). exists now. split; [done|]. split; [done|]. apply lookup_insert_eq.
    - destruct Hw as (now & keys & Hn & Hd & _ & _ & ->). exists now. split; [done|]. split; [done|]. apply lookup_insert_eq. }
  exists now. split; [done|]. split; [done|]. intros Hy t. unfold isStale, lastRotatedAt.
  by rewrite Ha, parse_format, Z.leb_le.
Qed.
End reconciler.

(** ** A rotation *)

Module JwtKeyExamples.

(** Seconds in decimal. *)
Definition decimal_seconds : Rfc3339.
Proof.
  refine {| Format t := FormatInt10 (t / Second); Parse s := Some (match s with "90" => 90 * Second | _ => 0 end)%string;
            four_digit_year t := t = 90 * Second |}.
  intros t ->. vm_compute. reflexivity.
Defined.
#[local] Existing Instance decimal_seconds.

Definition daily : JWTKeyReconciler := mkKeyReconciler "aip" (24 * Hour).

(** The Secret does not exist. *)
Definition missing (c : op ks) : ans ks c :=
  match c return kresp c with
  | KeyNow => 90 * Second
  | KeyGet => Err (EApi NotFound)
  | KeyGenerate => Ok ("private"%string, "public"%string)
  | KeyCreate _ | KeyPatch _ _ => Ok tt
  end.

(** The [n]-th call of a reconcile. *)
Definition calls (n : nat) (c : op ks) : Prop :=
  ev_call <$> (play missing (JwtKey_Reconcile daily)).1 !! n = Some c.

Definition clock_of (e : event ks) : Z :=
  let 'Ev c r := e in match c as c' return kresp c' → Z with KeyNow => λ n, n | _ => λ _, -1 end r.

Lemma jwt_key_rotation_witness :
  ∃ now, ∀ t, isStale daily (new_secret daily ("private", "public")%string (90 * Second)) t = true ↔
    24 * Hour ≤ t - now / Second * Second.
Proof.
  pose (s := new_secret daily ("private", "public")%string (90 * Second)).
  assert (calls 4 (KeyCreate s)) as Hc by (vm_compute; reflexivity).
  destruct (jwt_key_rotation daily _ _ _ _ (play_reaches _ _ _ _ Hc)) as [_ H].
  destruct (H s eq_refl) as (now & Hn & _ & Ht). exists now. apply Ht.
  apply list_elem_of_In in Hn. destruct Hn as [E|[E|[E|[E|[]]]]];
    [symmetry; exact (f_equal clock_of E)|apply (f_equal ev_call) in E; discriminate E..].
Defined.
End JwtKeyExamples.
