(* ===== verification/Stream.v ===== *)
(** * The event stream of a request ([cmd/gateway/sse.go])

    A client that accepts server-sent events receives each change of the
    request's status until there is something to act on.  [GStream] of the
    submission handler is [streamAgentRequestPhase]. *)

From S2P Require Import Prelude GoStd GoStrings Types Prog Kube Conditions GatewayAuth Gateway GatewayCreate GatewayExamples.

(** ** Calls *)

(** What the [select] of the loop received. *)
Inductive stream_event :=
| STimeout (clientGone : bool)     (** the context ended; the client's own context too *)
| SClosed
| SError
| SDeleted
| SOther                           (** another kind of event or object *)
| SObject (ar : AgentRequest).     (** added or modified *)

(** A server-sent event: [update], [result] or [error]. *)
Inductive sse_event :=
| SseUpdate (p : payload)
| SseResult (p : payload)
| SseError (msg : string).

Inductive scall :=
| SFlushHeaders
| SGetLive (nn : NamespacedName)
| SWatch (nn : NamespacedName) (resourceVersion : Z)
| SNext
| SWrite (e : sse_event)
| SGetCached (nn : NamespacedName).

Definition sresp (c : scall) : Type :=
  match c with
  | SFlushHeaders | SWrite _ => bool            (** whether it succeeded *)
  | SGetLive _ | SGetCached _ => res AgentRequest
  | SWatch _ _ => res unit
  | SNext => stream_event
  end.

Definition ss : sig := mkSig scall sresp.
Abbreviation scall_ c := (trigger ss c).

(** [json.Marshal] of a status. *)
Class StatusJson := { Marshal_status : AgentRequestStatus → option string }.

Section stream.
Context `{MC : MetaConditions, SJ : StatusJson, ET : ErrorText}.

Definition acceptsSSE (accept : string) : bool :=
  existsb (λ part,
    let t := TrimSpace part in
    TrimSpace (match cut (chr 59) t with Some (mediaType, _) => mediaType | None => t end) ==? "text/event-stream")
    (split (chr 44) accept).

Definition agentRequestPayload (ar : AgentRequest) (labels : gmap string string) : payload :=
  let st := ar_Status ar in
  PResolved (om_Name (ar_Meta ar)) labels (phase ar) (st_Denial st) (conditions ar) (st_ControlPlaneVerification st)
    (st_Result st).

Definition isTerminalOrActionable (ar : AgentRequest) : bool :=
  let ph := phase ar in
  if (ph ==? PhaseApproved) || (ph ==? PhaseDenied) || (ph ==? PhaseCompleted) || (ph ==? PhaseFailed) ||
     (ph ==? PhaseExpired) || (ph ==? PhaseAwaitingVerdict) then true
  else (ph ==? PhasePending) && IsStatusConditionTrue (conditions ar) ConditionRequiresApproval.

(** [writeSSEError], whose failure is only logged. *)
Definition writeSSEError (msg : string) : prog ss (option unit) := scall_ (SWrite (SseError msg)) ;;; Ret (Some tt).

Definition write_result (ar : AgentRequest) (labels : gmap string string) : prog ss (option unit) :=
  scall_ (SWrite (SseResult (agentRequestPayload ar labels))) ;;; Ret (Some tt).

(** The loop over the watch; [fuel] bounds the events, and [None] is a stream
    that has not ended within them. *)
Fixpoint stream_events (fuel : nat) (name : string) (labels : gmap string string) (lastStatusJSON : string)
  : prog ss (option unit) :=
  match fuel with
  | O => Ret None
  | S fuel' =>
      e <- scall_ SNext ;;
      match e with
      | STimeout clientGone =>
          if clientGone then Ret (Some tt) else writeSSEError "timed out waiting for AgentRequest resolution"
      | SClosed => writeSSEError "watch channel closed unexpectedly"
      | SError => writeSSEError "watch error from API server"
      | SDeleted => writeSSEError "AgentRequest was deleted"
      | SOther => stream_events fuel' name labels lastStatusJSON
      | SObject ar =>
          if om_Name (ar_Meta ar) <>? name then stream_events fuel' name labels lastStatusJSON
          else if isTerminalOrActionable ar then write_result ar labels
          else
            let update (last : string) :=
              ok <- scall_ (SWrite (SseUpdate (agentRequestPayload ar labels))) ;;
              if ok : bool then stream_events fuel' name labels last else Ret (Some tt) in
            match Marshal_status (ar_Status ar) with
            | None => update lastStatusJSON
            | Some statusJSON =>
                if statusJSON ==? lastStatusJSON then stream_events fuel' name labels lastStatusJSON
                else update statusJSON
            end
      end
  end.

Definition streamAgentRequestPhase (fuel : nat) (name ns : string) (reqLabels : gmap string string)
  : prog ss (option unit) :=
  ok <- scall_ SFlushHeaders ;;
  if negb ok then Ret (Some tt)
  else
    g <- scall_ (SGetLive (NN ns name)) ;;
    match g with
    | Err e => writeSSEError ("failed to get AgentRequest: " +:+ err_v e)
    | Ok current =>
        let watch :=
          w <- scall_ (SWatch (NN ns name) (om_ResourceVersion (ar_Meta current))) ;;
          match w with
          | Err e => writeSSEError ("failed to watch AgentRequest: " +:+ err_v e)
          | Ok _ => stream_events fuel name reqLabels ""
          end in
        if isTerminalOrActionable current then write_result current reqLabels
        else if phase current <>? "" then
          ok <- scall_ (SWrite (SseUpdate (agentRequestPayload current reqLabels))) ;;
          if ok : bool then watch else Ret (Some tt)
        else watch
    end.

Definition handleWatchAgentRequest (s : Server) (fuel : nat) (c : caller) (name namespace accept : string)
  : prog ss (option Response) :=
  if authRequired s && (cl_Sub c ==? "") then Ret (Some (writeError StatusUnauthorized "caller identity required"))
  else if name ==? "" then Ret (Some (writeError StatusBadRequest "name is required"))
  else
    let ns := if namespace ==? "" then defaultNamespace else namespace in
    if negb (acceptsSSE accept) then
      Ret (Some (writeError StatusBadRequest "Accept header must include text/event-stream"))
    else
      g <- scall_ (SGetCached (NN ns name)) ;;
      match g with
      | Err e =>
          Ret (Some (if IsNotFound e then writeError StatusNotFound ("AgentRequest " +:+ name +:+ " not found")
                     else writeErrorCause StatusInternalServerError ("failed to get AgentRequest " +:+ name) e))
      | Ok ar =>
          let reqLabels := om_Labels (ar_Meta ar) in
          if isTerminalOrActionable ar then
            ok <- scall_ SFlushHeaders ;;
            o <- (if ok : bool then write_result ar reqLabels else Ret (Some tt)) ;;
            Ret ((λ _, Streamed) <$> o)
          else o <- streamAgentRequestPhase fuel name ns reqLabels ;; Ret ((λ _, Streamed) <$> o)
      end.

(** ** What a client is told *)

(** A request that was read or watched. *)
Definition seen (name ns : string) (h : list (event ss)) (ar : AgentRequest) : Prop :=
  Ev (S:=ss) (SGetLive (NN ns name)) (Ok ar) ∈ h ∨
  (Ev (S:=ss) SNext (SObject ar) ∈ h ∧ om_Name (ar_Meta ar) = name).

Definition last_event (e : sse_event) : bool := match e with SseUpdate _ => false | _ => true end.

(** An event may be written: none ended the stream, and it tells the status of
    a request that was seen, as a result exactly when there is something to act on. *)
Definition stream_ok (name ns : string) (labels : gmap string string) (h : list (event ss)) (c : op ss) : Prop :=
  (∀ e x, Ev (S:=ss) (SWrite e) x ∈ h → last_event e = false) ∧
  match c with
  | SWrite (SseUpdate p) => ∃ ar, seen name ns h ar ∧ isTerminalOrActionable ar = false ∧ p = agentRequestPayload ar labels
  | SWrite (SseResult p) => ∃ ar, seen name ns h ar ∧ isTerminalOrActionable ar = true ∧ p = agentRequestPayload ar labels
  | _ => True
  end.

(** So far only updates, of everything there was to act on. *)
Definition going_on (name ns : string) (h : list (event ss)) : Prop :=
  (∀ e x, Ev (S:=ss) (SWrite e) x ∈ h → last_event e = false) ∧
  ∀ ar, seen name ns h ar → isTerminalOrActionable ar = false.

(** Everything there was to act on was told, last of all. *)
Definition told (name ns : string) (labels : gmap string string) (h : list (event ss)) : Prop :=
  ∀ ar, seen name ns h ar → isTerminalOrActionable ar = true →
  ∃ h' x, h = h' ++ [Ev (S:=ss) (SWrite (SseResult (agentRequestPayload ar labels))) x].

(** The last call of a stream that ended: a result or an error, a write that
    failed, or the client was gone. *)
Definition closes (c : scall) : sresp c → bool :=
  match c with
  | SWrite e => λ ok, last_event e || negb ok
  | SFlushHeaders => λ ok, negb ok
  | SNext => λ e, match e with STimeout gone => gone | _ => false end
  | _ => λ _, false
  end.

Definition ended (h : list (event ss)) : Prop :=
  ∃ h' (c : op ss) x, h = h' ++ [Ev (S:=ss) c x] ∧ closes c x = true.

Definition next_of (e : event ss) : option stream_event :=
  match e with
  | Ev c x => match c as c return sresp c → option stream_event with SNext => Some | _ => λ _, None end x
  end.
Definition live_of (e : event ss) : option (res AgentRequest) :=
  match e with
  | Ev c x => match c as c return sresp c → option (res AgentRequest) with SGetLive _ => Some | _ => λ _, None end x
  end.

Section walk.
Context (name ns : string) (labels : gmap string string).
Abbreviation going := (going_on name ns).
Abbreviation walk h p := (safe (S:=ss) any (stream_ok name ns labels) h p (λ h' o, told name ns labels h' ∧ (o = Some tt → ended h'))).

Lemma seen_snoc h e ar :
  seen name ns (h ++ [e]) ar → seen name ns h ar ∨
    e = Ev (S:=ss) (SGetLive (NN ns name)) (Ok ar) ∨ (e = Ev (S:=ss) SNext (SObject ar) ∧ om_Name (ar_Meta ar) = name).
Proof. unfold seen. rewrite !elem_of_app, !list_elem_of_singleton. naive_solver. Qed.

(** A call that is not the last event keeps the stream going if it shows
    nothing to act on. *)
Lemma going_snoc h c x :
  going h → (∀ e, c = SWrite e → last_event e = false) →
  (∀ ar, seen name ns (h ++ [Ev (S:=ss) c x]) ar → seen name ns h ar ∨ isTerminalOrActionable ar = false) →
  going (h ++ [Ev (S:=ss) c x]).
Proof.
  intros [Hw Ha] Hc Hs. split.
  - intros e y [H|H%list_elem_of_singleton]%elem_of_app; [by eapply Hw|]. apply (f_equal ev_call) in H. by apply Hc.
  - intros ar H. destruct (Hs ar H) as [H'|]; [by apply Ha|done].
Qed.

(** Writing shows nothing. *)
Lemma seen_write h e x ar : seen name ns (h ++ [Ev (S:=ss) (SWrite e) x]) ar → seen name ns h ar.
Proof.
  intros [H|[H|[H _]]]%seen_snoc; [done|apply (f_equal ev_call) in H; discriminate H..].
Qed.

Lemma going_update h p x : going h → going (h ++ [Ev (S:=ss) (SWrite (SseUpdate p)) x]).
Proof. intros Hg. apply going_snoc; [done|by intros e [= <-]|]. intros ar H%seen_write. by left. Qed.

Lemma going_told h : going h → told name ns labels h.
Proof. intros [_ Ha] ar Hs Ht. apply Ha in Hs. congruence. Qed.

Lemma error_walk h msg : going h → walk h (writeSSEError msg).
Proof.
  intros Hg. split; [by split; [apply Hg|]|]. intros x _. split; [|intros _; by eexists _, (SWrite _), x].
  intros ar Hs%seen_write Ht. apply Hg in Hs. congruence.
Qed.

Lemma closed_walk h (c : op ss) x :
  going (h ++ [Ev (S:=ss) c x]) → closes c x = true → walk (h ++ [Ev (S:=ss) c x]) (Ret (Some tt)).
Proof. intros Hg Hc. split; [by apply going_told|]. intros _. by eexists _, c, x. Qed.

Lemma update_walk h ar (p : prog ss (option unit)) :
  going h → seen name ns h ar → isTerminalOrActionable ar = false → (∀ h, going h → walk h p) →
  walk h (ok <- trigger ss (SWrite (SseUpdate (agentRequestPayload ar labels))) ;; if ok : bool then p else Ret (Some tt)).
Proof.
  intros Hg Hs Ht Hp. split; [split; [apply Hg|by exists ar]|]. intros ok _.
  apply (going_update _ (agentRequestPayload ar labels) ok) in Hg. destruct ok; [by apply Hp|by apply closed_walk].
Qed.

(** The first request to act on is the one told. *)
Lemma result_walk h c x ar :
  going h → (∀ e, c ≠ SWrite e) → seen name ns (h ++ [Ev (S:=ss) c x]) ar → isTerminalOrActionable ar = true →
  (∀ ar', seen name ns (h ++ [Ev (S:=ss) c x]) ar' → seen name ns h ar' ∨ ar' = ar) →
  walk (h ++ [Ev (S:=ss) c x]) (write_result ar labels).
Proof.
  intros Hg Hc Hs Ht Honly. split; [split; [|by exists ar]|].
  - intros e y [H|H%list_elem_of_singleton]%elem_of_app; [by eapply (proj1 Hg)|].
    apply (f_equal ev_call) in H. by destruct (Hc e).
  - intros y _. split; [|intros _; by eexists _, (SWrite _), y].
    intros ar' H%seen_write Ht'. destruct (Honly ar' H) as [H'| ->]; [apply Hg in H'; congruence|]. by eexists _, _.
Qed.

Lemma events_walk fuel h last : going h → walk h (stream_events fuel name labels last).
Proof.
  revert h last. induction fuel as [|fuel IH]; intros h last Hg; [by split; [apply going_told|]|]. cbn [stream_events].
  split; [by split; [apply Hg|]|]. intros e _.
  assert (∀ ar, seen name ns (h ++ [Ev (S:=ss) SNext e]) ar → seen name ns h ar ∨ (e = SObject ar ∧ om_Name (ar_Meta ar) = name))
    as Hnew.
  { intros ar [H|[H|[H E]]]%seen_snoc; [by left|apply (f_equal ev_call) in H; discriminate H|right]. split; [|done].
    by apply (f_equal next_of) in H as [= ->]. }
  assert ((∀ ar, e = SObject ar → om_Name (ar_Meta ar) = name → isTerminalOrActionable ar = false) →
    going (h ++ [Ev (S:=ss) SNext e])) as Hgo.
  { intros Hn. apply going_snoc; [done|done|]. intros ar H. destruct (Hnew ar H) as [|[-> E]]; [by left|right]. by apply Hn. }
  destruct e as [gone| | | | |ar]; cbn -[stream_events]; [..|]; try (by apply error_walk, Hgo); try (by apply IH, Hgo).
  - destruct gone; [by apply closed_walk; [apply Hgo|]|by apply error_walk, Hgo].
  - destruct (String.eqb_spec (om_Name (ar_Meta ar)) name) as [En|Hne]; cbn [negb].
    2: { apply IH, Hgo. by intros ar' [= <-]. }
    assert (seen name ns (h ++ [Ev (S:=ss) SNext (SObject ar)]) ar) as Hs by (right; split; [set_solver|done]).
    destruct (isTerminalOrActionable ar) eqn:Ht.
    + apply result_walk; [done|done|done|done|]. intros ar' H. destruct (Hnew ar' H) as [|[[= ->] _]]; [by left|by right].
    + assert (going (h ++ [Ev (S:=ss) SNext (SObject ar)])) as Hg' by (apply Hgo; by intros ar' [= <-]).
      assert (∀ l h, going h → walk h (stream_events fuel name labels l)) as Hnext by (intros; by apply IH).
      destruct (Marshal_status (ar_Status ar)) as [j|]; [destruct (j ==? last); [by apply IH|]|];
        (apply (update_walk _ ar); [done|done|done|apply Hnext]).
Qed.

Lemma stream_walk fuel : walk [] (streamAgentRequestPhase fuel name ns labels).
Proof.
  assert (going []) as H0 by (split; [set_solver|intros ar [H|[H _]]; set_solver]).
  split; [by split; [apply H0|]|]. intros ok _.
  assert (going ([] ++ [Ev (S:=ss) SFlushHeaders ok])) as H1.
  { apply going_snoc; [done|done|]. intros ar [H|[H|[H _]]]%seen_snoc; [by left|apply (f_equal ev_call) in H; discriminate H..]. }
  destruct ok; [|by apply closed_walk]. set (h1 := [] ++ _) in *. clearbody h1.
  split; [by split; [apply H1|]|]. intros g _. cbn -[stream_events].
  assert (∀ ar, seen name ns (h1 ++ [Ev (S:=ss) (SGetLive (NN ns name)) g]) ar → seen name ns h1 ar ∨ g = Ok ar) as Hnew.
  { intros ar [H|[H|[H _]]]%seen_snoc; [by left| |apply (f_equal ev_call) in H; discriminate H].
    right. by apply (f_equal live_of) in H as [= ->]. }
  destruct g as [current|e].
  2: { apply error_walk, going_snoc; [done|done|]. intros ar H. destruct (Hnew ar H) as [|[=]]; by left. }
  assert (seen name ns (h1 ++ [Ev (S:=ss) (SGetLive (NN ns name)) (Ok current)]) current) as Hs by (left; set_solver).
  destruct (isTerminalOrActionable current) eqn:Ht.
  { apply result_walk; [done|done|done|done|]. intros ar' H. destruct (Hnew ar' H) as [|[= ->]]; [by left|by right]. }
  assert (going (h1 ++ [Ev (S:=ss) (SGetLive (NN ns name)) (Ok current)])) as H2.
  { apply going_snoc; [done|done|]. intros ar H. destruct (Hnew ar H) as [|[= ->]]; [by left|by right]. }
  set (h2 := h1 ++ _) in *. clearbody h2.
  assert (∀ h, going h → walk h (bind (trigger ss (SWatch (NN ns name) (om_ResourceVersion (ar_Meta current)))) (λ w,
    match w with Err e => writeSSEError ("failed to watch AgentRequest: " +:+ err_v e) | Ok _ => stream_events fuel name labels "" end)))
    as Hwatch.
  { intros h Hh. split; [by split; [apply Hh|]|]. intros w _.
    assert (going (h ++ [Ev (S:=ss) (SWatch (NN ns name) (om_ResourceVersion (ar_Meta current))) w])) as Hw.
    { apply going_snoc; [done|done|]. intros ar [H|[H|[H _]]]%seen_snoc; [by left|apply (f_equal ev_call) in H; discriminate H..]. }
    destruct w; [by apply events_walk|by apply error_walk]. }
  destruct (_ ==? ""); cbn [negb]; [by apply Hwatch|].
  by apply (update_walk _ current).
Qed.

(** C29: In a complete stream, every event tells the client the status of a request
    of that name as it was read or watched, as a result exactly when there is
    something to act on; nothing follows a result or an error; and a request
    that was seen with something to act on is the result the stream ends
    with.  A stream that stops has told so, or has no client left: its last
    call wrote a result or an error, failed to reach the client, or found the
    client's context ended. *)
Theorem stream_tells fuel t u :
  runs (streamAgentRequestPhase fuel name ns labels) t u →
  (∀ t1 e x t2, t = t1 ++ Ev (S:=ss) (SWrite e) x :: t2 →
     stream_ok name ns labels t1 (SWrite e) ∧ (last_event e = true → ∀ e' x', ~ Ev (S:=ss) (SWrite e') x' ∈ t2)) ∧
  told name ns labels t ∧ (u = Some tt → ended t).
Proof.
  intros Hr. assert (∀ t1 c x t2, t = t1 ++ Ev (S:=ss) c x :: t2 → stream_ok name ns labels t1 c) as Hok.
  { intros t1 c x t2 ->. assert (emits (streamAgentRequestPhase fuel name ns labels) (t1 ++ Ev (S:=ss) c x :: t2)) as He
      by (eapply (runs_emits _ _ []); by rewrite app_nil_r).
    exact (safe_emits _ _ _ _ _ _ _ _ _ (stream_walk fuel) (any_all _) He). }
  split; [|exact (safe_runs _ _ _ _ _ _ _ (stream_walk fuel) (any_all _) Hr)].
  intros t1 e x t2 E. split; [by eapply Hok|]. intros Hl e' x' Hin.
  apply list_elem_of_split in Hin as (t3 & t4 & ->).
  destruct (Hok (t1 ++ Ev (S:=ss) (SWrite e) x :: t3) (SWrite e') x' t4) as [Hno _]; [by rewrite E, <- app_assoc|].
  specialize (Hno e x). rewrite Hno in Hl; [done|]. set_solver.
Qed.
End walk.
End stream.

(** ** Executions *)

Module StreamRuns.
#[local] Existing Instance list_conditions.
#[local] Instance no_json : StatusJson := {| Marshal_status _ := None |}.
#[local] Instance no_text : ErrorText :=
  {| err_v e := match e with EMsg m => m | _ => ""%string end; err_v_msg _ := eq_refl |}.

(** The request is in one phase when it is read, and in another, or out of
    time, in the watch. *)
Definition stream_env (now : string) (e : stream_event) (c : op ss) : ans ss c :=
  match c return sresp c with
  | SFlushHeaders | SWrite _ => true
  | SGetLive _ | SGetCached _ => Ok (request_in now)
  | SWatch _ _ => Ok tt
  | SNext => e
  end.

Definition stream_of (now : string) (e : stream_event) : list (event ss) * option unit :=
  play (stream_env now e) (streamAgentRequestPhase 3 "r1" "default" ∅).

(** A request that is approved while it is watched: the stream ends with it. *)
Lemma stream_tells_witness :
  ∃ h' x, (stream_of PhasePending (SObject (request_in PhaseApproved))).1 =
    h' ++ [Ev (S:=ss) (SWrite (SseResult (agentRequestPayload (request_in PhaseApproved) ∅))) x].
Proof.
  destruct (stream_tells "r1" "default" ∅ 3 (stream_of PhasePending (SObject (request_in PhaseApproved))).1 (Some tt)
    (play_runs (stream_env PhasePending (SObject (request_in PhaseApproved))) _)) as (_ & Htold & _).
  apply Htold; [|reflexivity]. right. split; [|reflexivity]. vm_compute. do 4 right. left.
Defined.

(** An Observed request is final, yet its stream waits for more until it times
    out, and ends with an error. *)
Example observed_stream_times_out :
  ev_call <$> (stream_of PhaseObserved (STimeout false)).1 =
    [SFlushHeaders; SGetLive (NN "default" "r1");
     SWrite (SseUpdate (agentRequestPayload (request_in PhaseObserved) ∅)); SWatch (NN "default" "r1") 0; SNext;
     SWrite (SseError "timed out waiting for AgentRequest resolution")].
Proof. vm_compute. reflexivity. Qed.
End StreamRuns.
