(* ===== verification/Schema.v ===== *)
(** * Context schemas ([cmd/gateway/schema_validation.go] and
      [checkContextSchemaAppendOnly] of [cmd/gateway/governed_resource_handlers.go])

    A GovernedResource may declare the schema of the context that its fetcher
    provides.  The gateway admits a restricted form of JSON schema, and lets a
    schema evolve only by adding fields. *)

From Stdlib Require Import SpecFloat.
From S2P Require Import Prelude GoStd GoStrings Types Registration.

(** ** JSON values *)

(** A value of type [any] after [json.Unmarshal].  An object is the list of
    its entries in the order in which [range] visits them. *)
#[warnings="-register-all"]
Inductive json :=
| JNull
| JBool (b : bool)
| JNum (x : spec_float)
| JStr (s : string)
| JArr (l : list json)
| JObj (m : list (string * json)).

Section json_ind.
Context (P : json → Prop).
Hypothesis (Hnull : P JNull) (Hbool : ∀ b, P (JBool b)) (Hnum : ∀ x, P (JNum x)) (Hstr : ∀ s, P (JStr s)).
Hypothesis (Harr : ∀ l, Forall P l → P (JArr l)).
Hypothesis (Hobj : ∀ m, Forall (λ e, P e.2) m → P (JObj m)).

Fixpoint json_induction (j : json) : P j :=
  match j with
  | JNull => Hnull
  | JBool b => Hbool b
  | JNum x => Hnum x
  | JStr s => Hstr s
  | JArr l => Harr l ((fix go l : Forall P l :=
      match l with [] => Forall_nil_2 _ | x :: l' => Forall_cons_2 _ _ _ (json_induction x) (go l') end) l)
  | JObj m => Hobj m ((fix go m : Forall (λ e, P e.2) m :=
      match m with
      | [] => Forall_nil_2 _
      | e :: m' => Forall_cons_2 (λ e : string * json, P e.2) _ _ (json_induction (e.2)) (go m')
      end) m)
  end.
End json_ind.

Abbreviation object := (list (string * json)).

(** [m[k]], with [nil] for a missing key. *)
Definition get (m : object) (k : string) : option json := (list_to_map m : gmap string json) !! k.
Definition index (m : object) (k : string) : json := default JNull (get m k).
Arguments get : simpl never.
Arguments index : simpl never.

(** The keys of a map are distinct. *)
Inductive distinct_keys : json → Prop :=
| dk_leaf j : (∀ l, j ≠ JArr l) → (∀ m, j ≠ JObj m) → distinct_keys j
| dk_arr l : (∀ x, x ∈ l → distinct_keys x) → distinct_keys (JArr l)
| dk_obj m : NoDup m.*1 → (∀ k v, (k, v) ∈ m → distinct_keys v) → distinct_keys (JObj m).

(** [encoding/json] into a variable of type [any]; objects become maps. *)
Class JsonLib := {
  json_Unmarshal : string → option json;
  unmarshal_distinct : ∀ raw j, json_Unmarshal raw = Some j → distinct_keys j }.

(** ** [validateContextSchema] *)

Definition allowedSchemaKeywords : list string :=
  ["type"; "properties"; "items"; "required"; "nullable"; "description"].
Definition allowedTypes : list string := ["object"; "string"; "integer"; "number"; "boolean"; "array"].

(** The errors, one constructor for each text. *)
Inductive schema_error :=
| InvalidJSON
| NullSchema
| DisallowedKeyword (k : string)
| DisallowedType (v : json)
| PropertiesNotObject
| PropertyNotSchema (propName : string)
| InProperty (propName : string) (e : schema_error)
| ItemsNotSchema
| InItems (e : schema_error)
| RequiredNotArray
| RequiredNotString (i : nat)
| NullableNotBool
| DescriptionNotString.

(** The first error of a loop, and of one check after another. *)
Definition first_error {A E} (f : nat → A → option E) : nat → list A → option E :=
  fix go i l := match l with [] => None | x :: l' => match f i x with Some e => Some e | None => go (S i) l' end end.

Notation "a 'orelse' b" := (match a with Some e => Some e | None => b end) (at level 60, right associativity).

Definition check_type (k : string) (v : json) : option schema_error :=
  if k ==? "type" then
    match v with JStr t => if contains allowedTypes t then None else Some (DisallowedType v) | _ => Some (DisallowedType v) end
  else None.

Definition check_required (k : string) (v : json) : option schema_error :=
  if k ==? "required" then
    match v with
    | JArr items => first_error (λ i item, match item with JStr _ => None | _ => Some (RequiredNotString i) end) 0 items
    | _ => Some RequiredNotArray
    end
  else None.

Definition check_nullable (k : string) (v : json) : option schema_error :=
  if k ==? "nullable" then match v with JBool _ => None | _ => Some NullableNotBool end else None.

Definition check_description (k : string) (v : json) : option schema_error :=
  if k ==? "description" then match v with JStr _ => None | _ => Some DescriptionNotString end else None.

(** [validateSubSchema], on the object as a value. *)
Fixpoint validate_object (j : json) : option schema_error :=
  match j with
  | JObj m =>
      first_error (λ _ '(k, v),
        (if contains allowedSchemaKeywords k then None else Some (DisallowedKeyword k)) orelse
        check_type k v orelse
        (if k ==? "properties" then
           match v with
           | JObj props =>
               first_error (λ _ '(propName, propVal),
                 match propVal with
                 | JObj _ => InProperty propName <$> validate_object propVal
                 | _ => Some (PropertyNotSchema propName)
                 end) 0 props
           | _ => Some PropertiesNotObject
           end
         else None) orelse
        (if k ==? "items" then
           match v with JObj _ => InItems <$> validate_object v | _ => Some ItemsNotSchema end
         else None) orelse
        check_required k v orelse check_nullable k v orelse check_description k v) 0 m
  | _ => None
  end.

Definition validateSubSchema (m : object) : option schema_error := validate_object (JObj m).

Section lib.
Context `{JL : JsonLib}.

(** [json.Unmarshal] into a [map[string]any]: an error, [nil] or an object. *)
Definition Unmarshal_map (raw : string) : option (option object) :=
  match json_Unmarshal raw with
  | Some (JObj m) => Some (Some m)
  | Some JNull => Some None
  | _ => None
  end.

Definition validateContextSchema (raw : string) : option schema_error :=
  match Unmarshal_map raw with
  | None => Some InvalidJSON
  | Some None => Some NullSchema
  | Some (Some m) => validateSubSchema m
  end.

(** ** [checkContextSchemaAppendOnly] *)

(** [v.(map[string]any)], [nil] if it is something else. *)
Definition as_object (v : json) : object := match v with JObj m => m | _ => [] end.

Definition properties (schema : JSON) : object :=
  as_object (index (default [] (mjoin (Unmarshal_map (Raw schema)))) "properties").

(** [==] on two values of type [any]: [None] is the panic of a comparison of
    two maps or two slices. *)
Definition any_eq (v w : json) : option bool :=
  match v, w with
  | JNull, JNull => Some true
  | JBool a, JBool b => Some (Bool.eqb a b)
  | JNum x, JNum y => Some (SFeqb x y)
  | JStr s, JStr t => Some (s ==? t)
  | JArr _, JArr _ | JObj _, JObj _ => None
  | _, _ => Some false
  end.

Inductive evolution :=
| Compatible
| Removed (field : string)
| ChangedType (field : string)
| ComparisonPanics.

Definition checkContextSchemaAppendOnly (oldSchema newSchema : option JSON) : evolution :=
  match oldSchema, newSchema with
  | None, _ => Compatible
  | Some old, None => match properties old with [] => Compatible | _ => Removed "any" end
  | Some old, Some new =>
      let newProps := properties new in
      (fix go (oldProps : object) : evolution :=
         match oldProps with
         | [] => Compatible
         | (k, v) :: oldProps' =>
             match get newProps k with
             | None => Removed k
             | Some newFieldRaw =>
                 match any_eq (index (as_object v) "type") (index (as_object newFieldRaw) "type") with
                 | None => ComparisonPanics
                 | Some false => ChangedType k
                 | Some true => go oldProps'
                 end
             end
         end) (properties old)
  end.

End lib.

(** ** The schemas that pass *)

#[warnings="-register-all"]
Inductive schema_ok : json → Prop :=
| schema_obj m :
    (∀ k v, (k, v) ∈ m → k ∈ allowedSchemaKeywords) →
    (∀ v, ("type"%string, v) ∈ m → ∃ t, v = JStr t ∧ t ∈ allowedTypes) →
    (∀ v, ("properties"%string, v) ∈ m → ∃ props, v = JObj props ∧ ∀ p w, (p, w) ∈ props → schema_ok w) →
    (∀ v, ("items"%string, v) ∈ m → schema_ok v) →
    (∀ v, ("required"%string, v) ∈ m → ∃ l, v = JArr l ∧ ∀ x, x ∈ l → ∃ s, x = JStr s) →
    (∀ v, ("nullable"%string, v) ∈ m → ∃ b, v = JBool b) →
    (∀ v, ("description"%string, v) ∈ m → ∃ s, v = JStr s) →
    schema_ok (JObj m).

(** The same value, its objects visited in another order. *)
#[warnings="-register-all"]
Inductive reordered : json → json → Prop :=
| ro_null : reordered JNull JNull
| ro_bool b : reordered (JBool b) (JBool b)
| ro_num x : reordered (JNum x) (JNum x)
| ro_str s : reordered (JStr s) (JStr s)
| ro_arr l l' : Forall2 reordered l l' → reordered (JArr l) (JArr l')
| ro_obj m m' m'' : Forall2 (λ e e', e.1 = e'.1 ∧ reordered e.2 e'.2) m m' → m' ≡ₚ m'' → reordered (JObj m) (JObj m'').

Lemma first_error_none {A E} (f : nat → A → option E) (P : A → Prop) i l :
  (∀ i x, x ∈ l → f i x = None ↔ P x) → first_error f i l = None ↔ ∀ x, x ∈ l → P x.
Proof.
  revert i. induction l as [|x l IH]; intros i Hf; cbn; [set_solver|]. setoid_rewrite elem_of_cons.
  specialize (IH (S i) ltac:(set_solver)). pose proof (Hf i x ltac:(set_solver)).
  destruct (f i x); naive_solver.
Qed.

Lemma orelse_none {E} (a b : option E) : a orelse b = None ↔ a = None ∧ b = None.
Proof. destruct a; naive_solver. Qed.

(** A check that concerns one keyword. *)
Lemma keyword_check k k0 (o : option schema_error) (P : Prop) :
  (o = None ↔ P) → (if k ==? k0 then o else None) = None ↔ (k = k0 → P).
Proof. intros H. destruct (String.eqb_spec k k0); naive_solver. Qed.

Lemma contains_check l k (e : schema_error) : (if contains l k then None else Some e) = None ↔ k ∈ l.
Proof. unfold contains. case_bool_decide; naive_solver. Qed.

(** What is asked of one entry. *)
Definition entry_ok (e : string * json) : Prop :=
  e.1 ∈ allowedSchemaKeywords ∧
  (e.1 = "type"%string → ∃ t, e.2 = JStr t ∧ t ∈ allowedTypes) ∧
  (e.1 = "properties"%string → ∃ props, e.2 = JObj props ∧ ∀ p w, (p, w) ∈ props → schema_ok w) ∧
  (e.1 = "items"%string → schema_ok e.2) ∧
  (e.1 = "required"%string → ∃ l, e.2 = JArr l ∧ ∀ x, x ∈ l → ∃ s, x = JStr s) ∧
  (e.1 = "nullable"%string → ∃ b, e.2 = JBool b) ∧
  (e.1 = "description"%string → ∃ s, e.2 = JStr s).

Lemma schema_ok_entries m : schema_ok (JObj m) ↔ ∀ e, e ∈ m → entry_ok e.
Proof.
  split.
  - inversion 1; subst. intros [k v] Hin. unfold entry_ok. cbn. naive_solver.
  - intros H. constructor; intros; by eapply (H (_, _)).
Qed.

Lemma schema_ok_object j : schema_ok j → ∃ m, j = JObj m.
Proof. destruct 1. eauto. Qed.

(** [j] is validated as specified, if it is an object. *)
Definition validated (j : json) : Prop := ∀ m, j = JObj m → validate_object j = None ↔ schema_ok j.

Lemma subschema_check j (f : schema_error → schema_error) e :
  validated j → (match j with JObj _ => f <$> validate_object j | _ => Some e end = None ↔ schema_ok j).
Proof.
  intros Hv. destruct j as [| | | | |m]; try (split; [done|by intros [m [=]]%schema_ok_object]).
  rewrite <- (Hv m eq_refl). destruct (validate_object _); naive_solver.
Qed.

Lemma entries_validated m :
  (∀ e, e ∈ m → validated e.2 ∧ ∀ props, e.2 = JObj props → ∀ e', e' ∈ props → validated e'.2) → validated (JObj m).
Proof.
  intros IH m' _. rewrite schema_ok_entries. cbn [validate_object]. apply first_error_none.
  intros _ [k v] Hin. destruct (IH (k, v) Hin) as [Hv Hprops]. cbn [snd] in Hv, Hprops.
  unfold entry_ok, check_type, check_required, check_nullable, check_description. cbn [fst snd]. rewrite !orelse_none.


  rewrite contains_check. rewrite (keyword_check k "type" _ (∃ t, v = JStr t ∧ t ∈ allowedTypes));
    [rewrite (keyword_check k "properties" _ (∃ props, v = JObj props ∧ ∀ p w, (p, w) ∈ props → schema_ok w));
    [rewrite (keyword_check k "items" _ (schema_ok v)); [rewrite (keyword_check k "required" _ (∃ l, v = JArr l ∧ ∀ x, x ∈ l → ∃ s, x = JStr s));
    [rewrite (keyword_check k "nullable" _ (∃ b, v = JBool b)); [rewrite (keyword_check k "description" _ (∃ s, v = JStr s)); [done|]|]|]|]|]|].
  - destruct v; naive_solver.
  - destruct v; naive_solver.
  - destruct v as [| | | |l|]; try naive_solver. rewrite (first_error_none _ (λ x, ∃ s, x = JStr s)); [naive_solver|].
    intros i [] _; cbn; naive_solver.
  - by apply subschema_check.
  - destruct v as [| | | | |props]; try naive_solver. rewrite (first_error_none _ (λ e, schema_ok e.2)).
    + split; [intros H; exists props; split; [done|]; intros p w Hin'; by apply (H (p, w))|].
      intros (props' & [= <-] & H) [p w] Hin'. by apply (H p w).
    + intros _ [p w] Hin'. apply subschema_check, (Hprops props eq_refl (p, w) Hin').
  - destruct v as [| | |t| |]; try naive_solver. rewrite contains_check. naive_solver.
Qed.

Lemma all_validated j : validated j ∧ ∀ m, j = JObj m → ∀ e, e ∈ m → validated e.2.
Proof.
  induction j as [| | | |l|m IH] using json_induction; [by split..|]. rewrite Forall_forall in IH.
  split; [exact (entries_validated m IH)|]. intros m' [= <-] e He. by apply IH.
Qed.

(** Entries of a reordered object. *)
Lemma reordered_entries m m1 m2 :
  Forall2 (λ e e' : string * json, e.1 = e'.1 ∧ reordered e.2 e'.2) m m1 → m1 ≡ₚ m2 →
  (∀ e, e ∈ m → ∃ e', e' ∈ m2 ∧ e.1 = e'.1 ∧ reordered e.2 e'.2) ∧
  (∀ e', e' ∈ m2 → ∃ e, e ∈ m ∧ e.1 = e'.1 ∧ reordered e.2 e'.2).
Proof.
  intros HF HP. split.
  - intros e [i Hi]%list_elem_of_lookup_1. destruct (Forall2_lookup_l _ _ _ _ _ HF Hi) as (e' & Hi' & H).
    exists e'. split; [|done]. rewrite <- HP. by eapply list_elem_of_lookup_2.
  - intros e' He'. rewrite <- HP in He'. apply list_elem_of_lookup_1 in He' as [i Hi].
    destruct (Forall2_lookup_r _ _ _ _ _ HF Hi) as (e & Hi' & H). exists e. split; [|done]. by eapply list_elem_of_lookup_2.
Qed.

Lemma reordered_strings l l' :
  Forall2 reordered l l' → (∀ x, x ∈ l → ∃ s, x = JStr s) ↔ (∀ x, x ∈ l' → ∃ s, x = JStr s).
Proof.
  induction 1 as [|x y l l' Hxy _ IH]; [done|]. setoid_rewrite elem_of_cons.
  assert ((∃ s, x = JStr s) ↔ (∃ s, y = JStr s)) by (split; intros [s ->]; inversion Hxy; eauto). naive_solver.
Qed.

Definition same_verdict (j : json) : Prop := ∀ j', reordered j j' → schema_ok j ↔ schema_ok j'.

Lemma entry_reordered k v v' :
  same_verdict v → (∀ props, v = JObj props → ∀ e, e ∈ props → same_verdict e.2) → reordered v v' →
  entry_ok (k, v) ↔ entry_ok (k, v').
Proof.
  intros Hs Hp Hr. unfold entry_ok. cbn [fst snd]. rewrite (Hs v' Hr).
  destruct Hr as [| | | |l l' Hl|m m1 m2 HF HP]; try done.
  - pose proof (reordered_strings l l' Hl). naive_solver.
  - destruct (reordered_entries m m1 m2 HF HP) as [H1 H2].
    assert ((∀ p w, (p, w) ∈ m → schema_ok w) ↔ (∀ p w, (p, w) ∈ m2 → schema_ok w)); [|naive_solver].
    split; intros H p w Hin.
    + destruct (H2 _ Hin) as ([p' w'] & Hin' & _ & Hr). cbn in Hr. apply (Hp m eq_refl _ Hin' _ Hr), (H p' w' Hin').
    + destruct (H1 _ Hin) as ([p' w'] & Hin' & _ & Hr). cbn in Hr. apply (Hp m eq_refl _ Hin _ Hr), (H p' w' Hin').
Qed.

Lemma all_same_verdict j : same_verdict j ∧ ∀ m, j = JObj m → ∀ e, e ∈ m → same_verdict e.2.
Proof.
  induction j as [| | | |l|m IH] using json_induction.
  1-5: split; [|done]; intros j' Hr; inversion Hr; subst; split; by intros [? [=]]%schema_ok_object.
  rewrite Forall_forall in IH. split; [|intros m' [= <-] e He; by apply IH].
  intros j' Hr. inversion Hr as [| | | | |? m1 m2 HF HP]; subst. rewrite !schema_ok_entries.
  destruct (reordered_entries m m1 m2 HF HP) as [H1 H2].
  split; intros H [k v] Hin.
  - destruct (H2 _ Hin) as ([k' w] & Hin' & Ek & Hr'). cbn in Ek, Hr'. subst k'.
    apply (entry_reordered k w v); [by apply (IH _ Hin')|by apply (IH _ Hin')|done|by apply H].
  - destruct (H1 _ Hin) as ([k' w] & Hin' & Ek & Hr'). cbn in Ek, Hr'. subst k'.
    apply (entry_reordered k v w); [by apply (IH _ Hin)|by apply (IH _ Hin)|done|by apply H].
Qed.

Lemma validated_ok m : validateSubSchema m = None ↔ schema_ok (JObj m).
Proof. by eapply all_validated. Qed.

(** C31: Validation accepts exactly the schemas of the restricted form, and so
    whatever the order in which [range] visits the maps. *)
Theorem schema_validation m :
  (validateSubSchema m = None ↔ schema_ok (JObj m)) ∧
  ∀ m', reordered (JObj m) (JObj m') → validateSubSchema m' = None ↔ validateSubSchema m = None.
Proof.
  split; [apply validated_ok|]. intros m' Hr. rewrite !validated_ok. symmetry. by apply all_same_verdict.
Qed.

(** ** Append-only evolution *)

Section evolution.
Context `{JL : JsonLib}.

Definition type_of_field (v : json) : json := index (as_object v) "type".

(** The fields at the top of a schema with their types. *)
Definition field_types (schema : option JSON) : gmap string json :=
  match schema with None => ∅ | Some s => type_of_field <$> (list_to_map (properties s) : gmap string json) end.

Lemma get_elem (m : object) k v : get m k = Some v → (k, v) ∈ m.
Proof. apply elem_of_list_to_map_2. Qed.

Lemma properties_nodup s : NoDup (properties s).*1.
Proof.
  unfold properties, Unmarshal_map. destruct (json_Unmarshal (Raw s)) as [j|] eqn:Ej; [|apply NoDup_nil_2].
  apply unmarshal_distinct in Ej. destruct j as [| | | | |m]; try apply NoDup_nil_2. cbn.
  unfold index. destruct (get m "properties") as [v|] eqn:Ev; [|apply NoDup_nil_2]. apply get_elem in Ev. cbn.
  inversion Ej as [? _ Ho| |? _ Hm]; subst; [by destruct (Ho m)|]. apply Hm in Ev.
  destruct v as [| | | | |p]; try apply NoDup_nil_2. by inversion Ev as [? _ Ho| |? Hp _]; subst; [destruct (Ho p)|].
Qed.

(** The type of a field of a validated schema can be compared. *)
Lemma validated_field_type s k v :
  validateContextSchema (Raw s) = None → get (properties s) k = Some v →
  ∀ w, ∃ b, any_eq w (type_of_field v) = Some b ∧ (b = true ↔ w = type_of_field v).
Proof.
  unfold validateContextSchema, properties. destruct (Unmarshal_map (Raw s)) as [[m|]|]; try discriminate. cbn.
  intros Hok. apply validated_ok in Hok. unfold index at 1. destruct (get m "properties") as [p|] eqn:Ep; [|done].
  rewrite schema_ok_entries in Hok. apply get_elem, Hok in Ep as (_ & _ & Hp & _).
  destruct (Hp eq_refl) as (props & Eq & Hin). cbn in Eq. subst p. cbn. intros Hv%get_elem%Hin w.
  destruct Hv as [m' _ Ht _ _ _ _ _]. unfold type_of_field, index. cbn.
  destruct (get m' "type") as [t|] eqn:Et; [apply get_elem, Ht in Et as (t' & -> & _)|]; destruct w; cbn;
    eexists; (split; [done|]); rewrite ?String.eqb_eq; naive_solver.
Qed.

(** The comparison on an admitted schema, for the checks that make it. *)
Lemma append_only_extends old new :
  (∀ s, new = Some s → validateContextSchema (Raw s) = None) →
  checkContextSchemaAppendOnly old new ≠ ComparisonPanics ∧
  (checkContextSchemaAppendOnly old new = Compatible ↔ field_types old ⊆ field_types new).
Proof.
  intros Hnew. destruct old as [old|]; [|split; [done|]; cbn; split; [intros _; apply map_empty_subseteq|done]].
  destruct new as [new|]; cbn.
  - specialize (Hnew new eq_refl).
    assert (∀ v k w, get (properties new) k = Some w →
      ∃ b, any_eq (index (as_object v) "type") (index (as_object w) "type") = Some b ∧
        (b = true ↔ type_of_field v = type_of_field w)) as Heq by (intros v k w Hk; by apply (validated_field_type new k)).
    assert (field_types (Some old) ⊆ field_types (Some new) ↔
      ∀ e, e ∈ properties old → ∃ w, get (properties new) e.1 = Some w ∧ type_of_field e.2 = type_of_field w) as ->.
    { rewrite map_subseteq_spec. cbn. setoid_rewrite lookup_fmap_Some. split.
      - intros H [k v] Hin. destruct (H k (type_of_field v)) as (w & Ew & Hw); [|exists w; by cbn; split].
        exists v. split; [done|]. by apply elem_of_list_to_map_1; [apply properties_nodup|].
      - intros H k t (v & Et & Hv). destruct (H (k, v)) as (w & Hw & Ew); [by apply get_elem|]. cbn in *. exists w. split; [congruence|done]. }
    induction (properties old) as [|[k v] props IH]; [split; [done|]; split; [intros _ e; set_solver|done]|].
    setoid_rewrite elem_of_cons. destruct (get (properties new) k) as [w|] eqn:Ew.
    + destruct (Heq v k w Ew) as ([] & -> & Hb).
      * destruct IH as [IH1 IH2]. split; [done|]. rewrite IH2. naive_solver.
      * split; [done|]. split; [done|]. intros H. destruct (H (k, v)) as (w' & Hw' & E); [by left|]. cbn in *.
        rewrite Ew in Hw'. injection Hw' as <-. by apply Hb in E.
    + split; [done|]. split; [done|]. intros H. destruct (H (k, v)) as (w' & Hw' & E); [by left|]. cbn in *. congruence.
  - destruct (properties old) as [|[k v] props]; [split; [done|]; by rewrite list_to_map_nil, fmap_empty|].
    split; [done|]. split; [done|]. intros H. exfalso.
    apply map_subseteq_spec with (i := k) (x := type_of_field v) in H; [done|]. cbn. by rewrite fmap_insert, lookup_insert_eq.
Qed.

(** The fields of an object's schema. *)
Definition fields_of (v : json) : object := as_object (index (as_object v) "properties").

(** [w] keeps what [v] describes, at every depth: its type, its fields with
    what they describe, and its elements. *)
#[warnings="-register-all"]
Inductive kept : json → json → Prop :=
| kept_field v w :
    type_of_field v = type_of_field w →
    (∀ k v', get (fields_of v) k = Some v' → ∃ w', get (fields_of w) k = Some w' ∧ kept v' w') →
    (∀ v', get (as_object v) "items" = Some v' → ∃ w', get (as_object w) "items" = Some w' ∧ kept v' w') →
    kept v w.

Definition schema_fields (schema : option JSON) : object := match schema with None => [] | Some s => properties s end.

Definition schema_kept (old new : option JSON) : Prop :=
  ∀ k v, get (schema_fields old) k = Some v → ∃ w, get (schema_fields new) k = Some w ∧ kept v w.

(** No field has fields or elements of its own. *)
Definition flat (schema : option JSON) : Prop :=
  ∀ k v, get (schema_fields schema) k = Some v → fields_of v = [] ∧ get (as_object v) "items" = None.

Lemma field_types_lookup schema k t :
  field_types schema !! k = Some t ↔ ∃ v, type_of_field v = t ∧ get (schema_fields schema) k = Some v.
Proof.
  destruct schema as [s|]; cbn; [apply lookup_fmap_Some|]. rewrite lookup_empty. split; [done|]. by intros (v & _ & ?).
Qed.

Lemma kept_types old new : schema_kept old new → field_types old ⊆ field_types new.
Proof.
  intros H. apply map_subseteq_spec. intros k t. rewrite !field_types_lookup. intros (v & <- & Hv).
  destruct (H k v Hv) as (w & Hw & Hk). exists w. split; [by destruct Hk|done].
Qed.

Lemma flat_kept old new : flat old → field_types old ⊆ field_types new → schema_kept old new.
Proof.
  intros Hf Ht k v Hv. destruct (Hf k v Hv) as [Hnone Hitems].
  assert (field_types new !! k = Some (type_of_field v)) as (w & E & Hw)%field_types_lookup.
  { eapply lookup_weaken; [|exact Ht]. apply field_types_lookup. eauto. }
  exists w. split; [done|]. constructor; [done| |].
  - rewrite Hnone. intros k' v' H. by apply get_elem, elem_of_nil in H.
  - rewrite Hitems. done.
Qed.

(** C30: Against an admitted new schema the append-only check never panics, lets
    pass every schema that keeps what the old one describes at every depth,
    and lets pass only schemas that keep the old one's top-level fields with
    their types; so, for an old schema without nested fields, exactly the
    schemas that keep all of it. *)
Theorem append_only_sound old new :
  (∀ s, new = Some s → validateContextSchema (Raw s) = None) →
  checkContextSchemaAppendOnly old new ≠ ComparisonPanics ∧
  (schema_kept old new → checkContextSchemaAppendOnly old new = Compatible) ∧
  (checkContextSchemaAppendOnly old new = Compatible → field_types old ⊆ field_types new) ∧
  (flat old → checkContextSchemaAppendOnly old new = Compatible → schema_kept old new).
Proof.
  intros Hnew. destruct (append_only_extends old new Hnew) as [Hp Hc]. split; [done|]. split; [|split].
  - intros H. by apply Hc, kept_types.
  - apply Hc.
  - intros Hf H. apply flat_kept; [done|]. by apply Hc.
Qed.
End evolution.

(** ** Examples *)

Module SchemaRuns.

Definition field_of (t : string) (rest : object) : json := JObj (("type"%string, JStr t) :: rest).
Definition fields (l : object) : object := [("properties"%string, JObj l)].

(** A schema; one that adds a field; one with that field only; one whose
    nested field has another name. *)
Definition base : json := field_of "object" (fields [("spec"%string, field_of "object" (fields [("a"%string, field_of "string" [])]))]).
Definition wider : json :=
  field_of "object" (fields [("size"%string, field_of "integer" []);
    ("spec"%string, field_of "object" (fields [("a"%string, field_of "string" [])]))]).
Definition sized : json := field_of "object" (fields [("size"%string, field_of "integer" [])]).
Definition nested : json := field_of "object" (fields [("spec"%string, field_of "object" (fields [("b"%string, field_of "string" [])]))]).

Ltac distinct :=
  repeat first
    [ apply dk_leaf; [intros ?; discriminate|intros ?; discriminate]
    | apply dk_obj; [apply (bool_decide_unpack _); vm_compute; exact I|]
    | let k := fresh in let v := fresh in let H := fresh in
      intros k v H; cbn in H; rewrite ?elem_of_cons in H; destruct_or? H;
      first [injection H as -> ->|by apply elem_of_nil in H] ].

Definition toy_json : JsonLib.
Proof.
  refine {| json_Unmarshal raw :=
    if raw ==? "base" then Some base else if raw ==? "wider" then Some wider
    else if raw ==? "nested" then Some nested else if raw ==? "sized" then Some sized else None |}.
  intros raw j. destruct (raw ==? "base"); [|destruct (raw ==? "wider"); [|destruct (raw ==? "nested"); [|destruct (raw ==? "sized"); [|done]]]];
    intros [= <-]; unfold base, wider, nested, sized, field_of, fields; distinct.
Defined.
#[local] Existing Instance toy_json.

Lemma append_only_sound_witness :
  schema_kept (Some (mkJSON "sized")) (Some (mkJSON "wider")) ∧
  checkContextSchemaAppendOnly (Some (mkJSON "wider")) (Some (mkJSON "sized")) = Removed "spec".
Proof.
  split; [|reflexivity].
  apply (append_only_sound (Some (mkJSON "sized")) (Some (mkJSON "wider"))); [intros s [= <-]; reflexivity| |reflexivity].
  intros k v H. apply get_elem in H. cbn in H. apply list_elem_of_singleton in H. injection H as -> ->. split; reflexivity.
Defined.

(** Only the fields at the top are compared: a nested field may be removed,
    though expressions refer to it. *)
Example nested_field_removed :
  validateContextSchema "base" = None ∧ validateContextSchema "nested" = None ∧
  checkContextSchemaAppendOnly (Some (mkJSON "base")) (Some (mkJSON "nested")) = Compatible.
Proof. repeat split; reflexivity. Qed.

End SchemaRuns.
