(* ===== verification/CelAdmission.v ===== *)
(** * Admission of policy expressions ([cmd/gateway/cel_validation.go])

    A SafetyPolicy is stored only if its rules compile: against the schema of
    the context it names, if a GovernedResource declares one, and against the
    request and target alone otherwise. *)

From S2P Require Import Prelude GoStd GoStrings Types Kube Evaluation EvaluationFacts.
Import Cel Evaluator_.

(** The schema and CEL libraries.  The left side of a sum is the text of an
    error; [env_Compile] gives the text of the issues, if there are any.  The
    environment of [request] and [target] alone accepts what that of the
    evaluator, which declares the same variables, accepts. *)
Class CelAdmission `{CEL} := {
  JSONSchemaProps : Type;
  InternalProps : Type;
  Structural : Type;
  DeclType : Type;
  EnvOption : Type;
  CelEnv : Type;
  Unmarshal_props : JSON → string + JSONSchemaProps;
  Convert_props : JSONSchemaProps → string + InternalProps;
  NewStructural : InternalProps → string + Structural;
  SchemaDeclType : Structural → option DeclType;
  MaybeAssignTypeName : DeclType → string → DeclType;
  EnvOptions : DeclType → string + list EnvOption;
  NewEnv_base : string + CelEnv;
  NewEnv_ctxData : list EnvOption → DeclType → string + CelEnv;
  env_Compile : CelEnv → string → option string;
  base_compiles : ∀ env x, NewEnv_base = inr env → env_Compile env x = None ↔ ∃ ast, cel_Compile x = inr ast }.

Notation "x <-? p 'else' m ; q" :=
  (match p with inl err => inl (m err) | inr x => q end) (at level 100, p at next level, m at next level, right associativity).

Section admission.
Context `{CA : CelAdmission}.

(** The resources that can give a policy its context's type. *)
Definition gives_context (contextType : string) (gr : GovernedResource) : bool :=
  (gr_ContextFetcher (gr_Spec gr) ==? contextType) && bool_decide (is_Some (gr_ContextSchema (gr_Spec gr))).

(** The environment with [ctxData] typed from a resource's schema. *)
Definition schema_env (name : string) (sch : JSON) : string + CelEnv :=
  jsonSchemaV1 <-? Unmarshal_props sch else (λ err, "invalid contextSchema on GovernedResource " +:+ quote name +:+ ": " +:+ err)%string;
  jsonSchema <-? Convert_props jsonSchemaV1 else (λ err, "failed to convert contextSchema: " +:+ err)%string;
  structural <-? NewStructural jsonSchema else (λ err, "failed to create structural schema from contextSchema: " +:+ err)%string;
  match SchemaDeclType structural with
  | None => inl "failed to create CEL declaration from contextSchema"%string
  | Some declType0 =>
      let declType := MaybeAssignTypeName declType0 "ContextType" in
      envOptions <-? EnvOptions declType else (λ err, "failed to get CEL env options: " +:+ err)%string;
      extEnv <-? NewEnv_ctxData envOptions declType else (λ err, "failed to create CEL environment: " +:+ err)%string;
      inr extEnv
  end.

(** The loop that picks the environment. *)
Fixpoint select_env (contextType : string) (env : CelEnv) (grList : list GovernedResource) : string + CelEnv :=
  match grList with
  | [] => inr env
  | gr :: grList' =>
      if gr_ContextFetcher (gr_Spec gr) ==? contextType then
        match gr_ContextSchema (gr_Spec gr) with
        | Some sch => schema_env (om_Name (gr_Meta gr)) sch
        | None => select_env contextType env grList'
        end
      else select_env contextType env grList'
  end.

Definition rule_issues (env : CelEnv) (rules : list Rule) : list string :=
  omap (λ rule, (λ iss, "rule " +:+ quote (rule_Name rule) +:+ ": " +:+ iss)%string <$> env_Compile env (rule_Expression rule)) rules.

(** The error, if the policy is refused. *)
Definition validateSafetypolicyCEL (policy : SafetyPolicy) (grList : list GovernedResource) : option string :=
  match NewEnv_base with
  | inl err => Some ("failed to create base CEL environment: " +:+ err)%string
  | inr baseEnv =>
      match (if sp_ContextType (sp_Spec policy) <>? "" then select_env (sp_ContextType (sp_Spec policy)) baseEnv grList
             else inr baseEnv) with
      | inl err => Some err
      | inr env =>
          match rule_issues env (sp_Rules (sp_Spec policy)) with
          | [] => None
          | errs => Some ("CEL type-check failed: " +:+ Join errs "; ")%string
          end
      end
  end.

(** ** What admission means *)

(** The resource whose schema types the context of a policy: the first that
    declares one for the fetcher the policy names. *)
Definition context_source (policy : SafetyPolicy) (grList : list GovernedResource) : option GovernedResource :=
  let ct := sp_ContextType (sp_Spec policy) in
  if ct ==? "" then None else List.find (gives_context ct) grList.

(** The environment a policy is checked in. *)
Definition checked_in (policy : SafetyPolicy) (grList : list GovernedResource) (env : CelEnv) : Prop :=
  match context_source policy grList with
  | Some gr => ∃ sch, gr_ContextSchema (gr_Spec gr) = Some sch ∧ schema_env (om_Name (gr_Meta gr)) sch = inr env
  | None => NewEnv_base = inr env
  end.

Lemma select_env_find ct env grs :
  select_env ct env grs = match List.find (gives_context ct) grs with
  | Some gr => match gr_ContextSchema (gr_Spec gr) with Some sch => schema_env (om_Name (gr_Meta gr)) sch | None => inr env end
  | None => inr env
  end.
Proof.
  induction grs as [|gr grs IH]; [done|]. cbn. unfold gives_context.
  destruct (_ ==? ct); [|exact IH]. destruct (gr_ContextSchema (gr_Spec gr)) as [s|] eqn:E; cbn; [by rewrite E|exact IH].
Qed.

Lemma find_gives ct grs gr : List.find (gives_context ct) grs = Some gr → ∃ sch, gr_ContextSchema (gr_Spec gr) = Some sch.
Proof. intros [_ Hg]%List.find_some. apply andb_true_iff in Hg as [_ Hg]. by apply bool_decide_eq_true in Hg as [s ->]; eauto. Qed.

Lemma rule_issues_nil env rules :
  rule_issues env rules = [] ↔ ∀ r, r ∈ rules → env_Compile env (rule_Expression r) = None.
Proof.
  induction rules as [|r rules IH]; cbn; [set_solver|]. setoid_rewrite elem_of_cons.
  destruct (env_Compile env (rule_Expression r)) eqn:E; cbn; naive_solver.
Qed.

(** The environment that is chosen, once the base environment is made. *)
Lemma chosen_env policy grList base :
  NewEnv_base = inr base →
  ∀ env, (if sp_ContextType (sp_Spec policy) <>? "" then select_env (sp_ContextType (sp_Spec policy)) base grList
          else inr base) = inr env ↔ checked_in policy grList env.
Proof.
  intros Hb env. unfold checked_in, context_source. rewrite select_env_find, Hb.
  destruct (_ ==? ""); cbn [negb]; [done|]. destruct (List.find _ grList) as [gr|] eqn:Ef; [|done].
  destruct (find_gives _ _ _ Ef) as [sch ->]. naive_solver.
Qed.

(** A policy is admitted exactly when the environment it belongs to can be
    made and every rule compiles there.  If no schema types its context, its
    rules then compile in the evaluator too. *)
Theorem policy_admission policy grList :
  (validateSafetypolicyCEL policy grList = None ↔
    (∃ base, NewEnv_base = inr base) ∧
    ∃ env, checked_in policy grList env ∧
      ∀ r, r ∈ sp_Rules (sp_Spec policy) → env_Compile env (rule_Expression r) = None) ∧
  (validateSafetypolicyCEL policy grList = None ∧ context_source policy grList = None →
    ∀ r, r ∈ sp_Rules (sp_Spec policy) → ∃ ast, cel_Compile (rule_Expression r) = inr ast).
Proof.
  assert (validateSafetypolicyCEL policy grList = None ↔
    (∃ base, NewEnv_base = inr base) ∧
    ∃ env, checked_in policy grList env ∧
      ∀ r, r ∈ sp_Rules (sp_Spec policy) → env_Compile env (rule_Expression r) = None) as Hiff.
  { unfold validateSafetypolicyCEL. destruct NewEnv_base as [err|base] eqn:Hb; [naive_solver|].
    setoid_rewrite <- (chosen_env policy grList base Hb).
    destruct (if _ : bool then _ else _) as [err|env]; [naive_solver|].
    pose proof (rule_issues_nil env (sp_Rules (sp_Spec policy))) as Hn.
    destruct (rule_issues env _); naive_solver. }
  split; [exact Hiff|]. intros [Ha Hc] r Hr. apply Hiff in Ha as (_ & env & He & Hall).
  unfold checked_in in He. rewrite Hc in He. by apply (base_compiles env _ He), Hall.
Qed.
End admission.

(** ** Examples *)

Module CelAdmissionRuns.

(** An engine in which [ctxData] must be declared. *)
Definition declared_cel : CEL := {|
  Ast := string; Program := string;
  cel_Compile := λ s, if HasPrefix s "ctxData" then inl "undeclared reference to 'ctxData'"%string else inr s;
  cel_Program := inr;
  cel_Eval := λ p _, inr (CelBool (p ==? "true"));
  ToUnstructured := λ req, Some (VStr (spec_Action (ar_Spec req)));
  json_Unmarshal_map := λ _, None |}.
#[local] Existing Instance declared_cel.

(** An environment is whether [ctxData] is declared. *)
Definition declared_admission : CelAdmission.
Proof.
  refine {| JSONSchemaProps := unit; InternalProps := unit; Structural := unit; DeclType := unit; EnvOption := unit;
    CelEnv := bool;
    Unmarshal_props _ := inr tt; Convert_props _ := inr tt; NewStructural _ := inr tt; SchemaDeclType _ := Some tt;
    MaybeAssignTypeName d _ := d; EnvOptions _ := inr []; NewEnv_base := inr false; NewEnv_ctxData _ _ := inr true;
    env_Compile env x := if negb env && HasPrefix x "ctxData" then Some "undeclared reference to 'ctxData'"%string else None |}.
  intros env x [= <-]. cbn. destruct (HasPrefix x "ctxData"); naive_solver.
Defined.
#[local] Existing Instance declared_admission.

Definition ctx_policy : SafetyPolicy :=
  mkSP (EvalExamples.meta0 "size-limit")
    (mkSPSpec (mkSel ∅ []) "karpenter" [EvalExamples.rule_ "limit" "Deny" "ctxData.size > 10"] None).
Definition ctx_resource : GovernedResource :=
  mkGR (EvalExamples.meta0 "pools") (mkGRSpec "k8s://**" [] [] "karpenter" (Some (mkJSON "{}")) "" false None).

(** A rule over the context passes admission, typed by the resource's schema,
    but the evaluator does not declare [ctxData]: the rule fails to compile
    there, and the policy denies every request it is evaluated for. *)
Example ctxData_admitted_but_unknown :
  validateSafetypolicyCEL ctx_policy [ctx_resource] = None ∧
  validateSafetypolicyCEL ctx_policy [] ≠ None ∧
  res_Action (Evaluate_env NewCELEnvironment (EvalExamples.req_ "r" "a" "scale" "k8s://x") [ctx_policy] None ∅).1 = ResultDeny ∧
  res_Code (Evaluate_env NewCELEnvironment (EvalExamples.req_ "r" "a" "scale" "k8s://x") [ctx_policy] None ∅).1 =
    DenialCodeEvaluationFailure.
Proof. repeat split; vm_compute; congruence. Qed.

Lemma policy_admission_witness :
  ∃ ast, cel_Compile "target.exists" = inr ast.
Proof.
  apply (policy_admission (EvalExamples.policy_ "p" None [EvalExamples.rule_ "r" "Deny" "target.exists"]) [ctx_resource])
    with (r := EvalExamples.rule_ "r" "Deny" "target.exists").
  - split; vm_compute; reflexivity.
  - left.
Defined.

End CelAdmissionRuns.
