(* ===== verification/Admin.v ===== *)
(** * Administration of the gateway's objects

    [cmd/gateway/safety_policy_handlers.go], [governed_resource_handlers.go],
    [agent_graduation_policy_handlers.go], [agent_registration_handlers.go],
    [trust_profile_handlers.go] and [audit_handlers.go]: create, list, get,
    replace and delete for four kinds of objects, self-registration of agents,
    and reads of profiles and audit records.

    A request's body is given as decoded ([None]: it does not decode); the
    handlers' calls form the signature [ad]. *)

From S2P Require Import Prelude GoStd GoStrings Types Prog Retry Kube Naming Registration GatewayAuth Gateway GatewayCreate.
From S2P Require Import GatewayHandlers Evaluation Schema CelAdmission.

(** ** The objects *)

Inductive kind := KSafetyPolicy | KGovernedResource | KGraduationPolicy | KRegistration.

Definition obj (k : kind) : Type :=
  match k with
  | KSafetyPolicy => SafetyPolicy
  | KGovernedResource => GovernedResource
  | KGraduationPolicy => AgentGraduationPolicy
  | KRegistration => AgentRegistration
  end.

Definition obj_meta {k} : obj k → ObjectMeta :=
  match k with
  | KSafetyPolicy => sp_Meta
  | KGovernedResource => gr_Meta
  | KGraduationPolicy => gp_Meta
  | KRegistration => reg_Meta
  end.

Definition set_obj_meta {k} (m : ObjectMeta) : obj k → obj k :=
  match k with
  | KSafetyPolicy => λ o, mkSP m (sp_Spec o)
  | KGovernedResource => λ o, mkGR m (gr_Spec o)
  | KGraduationPolicy => λ o, mkGP m (gp_Spec o)
  | KRegistration => λ o, mkReg m (reg_Spec o) (reg_Status o)
  end.

Definition set_om_Name (v : string) (m : ObjectMeta) : ObjectMeta :=
  mkMeta v (om_GenerateName m) (om_Namespace m) (om_UID m) (om_Labels m) (om_Annotations m) (om_Generation m)
    (om_ResourceVersion m) (om_CreationTimestamp m) (om_DeletionTimestamp m) (om_Finalizers m) (om_OwnerReferences m).
Definition set_om_Namespace (v : string) (m : ObjectMeta) : ObjectMeta :=
  mkMeta (om_Name m) (om_GenerateName m) v (om_UID m) (om_Labels m) (om_Annotations m) (om_Generation m)
    (om_ResourceVersion m) (om_CreationTimestamp m) (om_DeletionTimestamp m) (om_Finalizers m) (om_OwnerReferences m).
Definition set_om_Marks (labels anns : gmap string string) (m : ObjectMeta) : ObjectMeta :=
  mkMeta (om_Name m) (om_GenerateName m) (om_Namespace m) (om_UID m) labels anns (om_Generation m)
    (om_ResourceVersion m) (om_CreationTimestamp m) (om_DeletionTimestamp m) (om_Finalizers m) (om_OwnerReferences m).

Definition obj_Name {k} (o : obj k) : string := om_Name (obj_meta o).
Definition set_obj_Name {k} (v : string) (o : obj k) : obj k := set_obj_meta (set_om_Name v (obj_meta o)) o.
Definition set_obj_Namespace {k} (v : string) (o : obj k) : obj k := set_obj_meta (set_om_Namespace v (obj_meta o)) o.

(** [updated.Spec = new.Spec], and the labels and annotations. *)
Definition set_obj_Spec {k} : obj k → obj k → obj k :=
  match k with
  | KSafetyPolicy => λ new old, mkSP (sp_Meta old) (sp_Spec new)
  | KGovernedResource => λ new old, mkGR (gr_Meta old) (gr_Spec new)
  | KGraduationPolicy => λ new old, mkGP (gp_Meta old) (gp_Spec new)
  | KRegistration => λ new old, mkReg (reg_Meta old) (reg_Spec new) (reg_Status old)
  end.
Definition replace_in {k} (new old : obj k) : obj k :=
  set_obj_meta (set_om_Marks (om_Labels (obj_meta new)) (om_Annotations (obj_meta new)) (obj_meta old)) (set_obj_Spec new old).

(** ** Calls *)

Inductive acall :=
| ACreate (k : kind) (o : obj k)
| AGet (rd : reader) (k : kind) (nn : NamespacedName)
| AList (k : kind) (ns : option string)           (** [None]: every namespace *)
| AUpdate (k : kind) (o : obj k)
| ADelete (k : kind) (nn : NamespacedName)
| AListProfiles (ns : string)
| AGetProfile (nn : NamespacedName)
| AListAudits (ns : string) (labels : gmap string string) (limit : option Z) (continue : string).

Definition aresp (c : acall) : Type :=
  match c with
  | ACreate k _ | AGet _ k _ | AUpdate k _ => res (obj k)
  | AList k _ => res (list (obj k))
  | ADelete _ _ => res unit
  | AListProfiles _ => res (list AgentTrustProfile)
  | AGetProfile _ => res AgentTrustProfile
  | AListAudits _ _ _ _ => res (list AuditRecord * string)
  end.

Definition ad : sig := mkSig acall aresp.
Abbreviation acall_ c := (trigger ad c).

(** ** Responses *)

Inductive abody :=
| BError (msg : string)
| BInvalidSchema (e : schema_error)               (** ["invalid contextSchema: %v"] *)
| BObj (k : kind) (o : obj k)
| BList (k : kind) (l : list (obj k))
| BProfiles (l : list AgentTrustProfile)
| BProfile (p : AgentTrustProfile)
| BAudits (l : list AuditRecord) (continue : option string)
| BEmpty.

Inductive AResponse :=
| AHttp (status : Z) (body : abody)
| APanic.                                         (** the handler panics *)

Definition StatusAccepted : Z := 202.
Definition StatusNoContent : Z := 204.
Definition StatusUnprocessable : Z := 422.

Definition awriteError (status : Z) (msg : string) : AResponse := AHttp status (BError msg).

Section admin.
Context `{RL : RetryLib ad, ET : ErrorText, JL : JsonLib, CA : CelAdmission}.
Context (s : Server).

(** ** What the handlers share *)

Definition require (role : string) (rq : HttpRequest) (k : prog ad AResponse) : prog ad AResponse :=
  match requireRole (roles s) role (sub_of rq) (groups_of rq) with
  | Some msg => Ret (awriteError StatusForbidden msg)
  | None => k
  end.

Definition decoded {A} (body : option A) (k : A → prog ad AResponse) : prog ad AResponse :=
  match body with
  | None => Ret (awriteError StatusBadRequest "invalid request body")
  | Some o => k o
  end.

(** [s.client.Create] and the responses to its errors. *)
Definition create_error (e : error) : AResponse :=
  if IsAlreadyExists e then awriteError StatusConflict (err_v e)
  else if IsInvalid e || IsBadRequest e then awriteError StatusBadRequest (err_v e)
  else awriteError StatusInternalServerError (err_v e).

Definition create (k : kind) (o : obj k) (on_error : error → AResponse) : prog ad AResponse :=
  r <- acall_ (ACreate k o) ;;
  Ret (match r with Ok o' => AHttp StatusCreated (BObj k o') | Err e => on_error e end).

Definition list_objects (k : kind) (ns : option string) : prog ad AResponse :=
  r <- acall_ (AList k ns) ;;
  Ret (match r with
       | Ok l => AHttp StatusOK (BList k l)
       | Err e => awriteError StatusInternalServerError (err_v e)
       end).

Definition read_error (notFound : string) (e : error) : AResponse :=
  if IsNotFound e then awriteError StatusNotFound notFound else awriteError StatusInternalServerError (err_v e).

Definition get_object (k : kind) (nn : NamespacedName) (notFound : string) : prog ad AResponse :=
  r <- acall_ (AGet Cached k nn) ;;
  Ret (match r with Ok o => AHttp StatusOK (BObj k o) | Err e => read_error notFound e end).

(** The retried closure: read, change, update.  [None] is a panic. *)
Definition replace_attempt (k : kind) (nn : NamespacedName) (check : obj k → evolution) (new : obj k)
  : prog ad (option (obj k) * option error) :=
  g <- acall_ (AGet Cached k nn) ;;
  match g with
  | Err e => Ret (Some new, Some e)
  | Ok current =>
      let refused text := Ret (Some current, Some (EMsg ("INVALID_EVOLUTION: " +:+ text)%string)) in
      match check current with
      | ComparisonPanics => Ret (None, None)
      | Removed field => refused ("contextSchema is append-only: field " +:+ quote field +:+ " was removed")%string
      | ChangedType field =>
          refused ("contextSchema is append-only: field " +:+ quote field +:+ " was removed or changed type")%string
      | Compatible =>
          u <- acall_ (AUpdate k (replace_in new current)) ;;
          Ret (match u with Ok o => (Some o, None) | Err e => (Some (replace_in new current), Some e) end)
      end
  end.

Definition replace (k : kind) (nn : NamespacedName) (check : obj k → evolution) (new : obj k)
  (on_error : error → AResponse) : prog ad AResponse :=
  r <- RetryOnConflict (replace_attempt k nn check new) ;;
  Ret (match r with
       | (None, _) => APanic
       | (_, Some e) => on_error e
       | (Some updated, None) => AHttp StatusOK (BObj k updated)
       end).

Definition no_check {k} (_ : obj k) : evolution := Compatible.

(** [s.client.Delete], then a live read that tells whether finalizers hold
    the object back. *)
Definition delete_object (k : kind) (nn : NamespacedName) (on_error : error → AResponse) : prog ad AResponse :=
  d <- acall_ (ADelete k nn) ;;
  match d with
  | Err e => Ret (on_error e)
  | Ok _ =>
      g <- acall_ (AGet Live k nn) ;;
      Ret (match g with
           | Err e => if IsNotFound e then AHttp StatusNoContent BEmpty
                      else awriteError StatusInternalServerError (err_v e)
           | Ok _ => AHttp StatusAccepted BEmpty
           end)
  end.

(** ** SafetyPolicy *)

Definition with_valid_rules (sp : SafetyPolicy) (k : prog ad AResponse) : prog ad AResponse :=
  l <- acall_ (AList KGovernedResource None) ;;
  match l with
  | Err e => Ret (awriteError StatusInternalServerError (err_v e))
  | Ok grList =>
      match validateSafetypolicyCEL sp grList with
      | Some err => Ret (awriteError StatusUnprocessable err)
      | None => k
      end
  end.

Definition handleCreateSafetyPolicy (rq : HttpRequest) (body : option SafetyPolicy) : prog ad AResponse :=
  require roleAdmin rq (decoded body (λ sp0,
    let sp := set_obj_Namespace (k:=KSafetyPolicy) (ns_of rq) sp0 in
    with_valid_rules sp (create KSafetyPolicy sp create_error))).

Definition handleListSafetyPolicies (rq : HttpRequest) : prog ad AResponse :=
  require roleAdmin rq (list_objects KSafetyPolicy (Some (ns_of rq))).

Definition handleGetSafetyPolicy (rq : HttpRequest) : prog ad AResponse :=
  require roleAdmin rq (get_object KSafetyPolicy (nn_of rq) "not found").

Definition handleReplaceSafetyPolicy (rq : HttpRequest) (body : option SafetyPolicy) : prog ad AResponse :=
  require roleAdmin rq (decoded body (λ newSP,
    with_valid_rules newSP (replace KSafetyPolicy (nn_of rq) no_check newSP (read_error "not found")))).

Definition handleDeleteSafetyPolicy (rq : HttpRequest) : prog ad AResponse :=
  require roleAdmin rq (delete_object KSafetyPolicy (nn_of rq) (read_error "not found")).

(** ** GovernedResource *)

Inductive consistency :=
| Consistent
| Inconsistent (e : error)
| ConsistencyPanics.

Fixpoint peers_consistent (newGR : GovernedResource) (items : list GovernedResource) : consistency :=
  match items with
  | [] => Consistent
  | gr :: items' =>
      let refused text :=
        Inconsistent (EMsg ("contextSchema evolution incompatible with GovernedResource " +:+ quote (name_of gr)
                              +:+ ": " +:+ text)%string) in
      if name_of gr ==? name_of newGR then peers_consistent newGR items'
      else if (gr_ContextFetcher (gr_Spec gr) ==? gr_ContextFetcher (gr_Spec newGR)) &&
              bool_decide (is_Some (gr_ContextSchema (gr_Spec gr))) then
        match checkContextSchemaAppendOnly (gr_ContextSchema (gr_Spec gr)) (gr_ContextSchema (gr_Spec newGR)) with
        | Compatible => peers_consistent newGR items'
        | Removed field => refused ("contextSchema is append-only: field " +:+ quote field +:+ " was removed")%string
        | ChangedType field =>
            refused ("contextSchema is append-only: field " +:+ quote field +:+ " was removed or changed type")%string
        | ComparisonPanics => ConsistencyPanics
        end
      else peers_consistent newGR items'
  end.

Definition checkContextSchemaConsistency (newGR : GovernedResource) : prog ad consistency :=
  if (gr_ContextFetcher (gr_Spec newGR) ==? "none") || bool_decide (gr_ContextSchema (gr_Spec newGR) = None) then
    Ret Consistent
  else
    l <- acall_ (AList KGovernedResource None) ;;
    Ret (match l with Err e => Inconsistent e | Ok items => peers_consistent newGR items end).

Definition with_valid_schema (gr : GovernedResource) (k : prog ad AResponse) : prog ad AResponse :=
  match (match gr_ContextSchema (gr_Spec gr) with Some sch => validateContextSchema (Raw sch) | None => None end) with
  | Some err => Ret (AHttp StatusUnprocessable (BInvalidSchema err))
  | None =>
      c <- checkContextSchemaConsistency gr ;;
      match c with
      | Inconsistent e => Ret (awriteError StatusConflict (err_v e))
      | ConsistencyPanics => Ret APanic
      | Consistent => k
      end
  end.

Definition handleCreateGovernedResource (rq : HttpRequest) (body : option GovernedResource) : prog ad AResponse :=
  require roleAdmin rq (decoded body (λ gr,
    with_valid_schema gr (create KGovernedResource gr create_error))).

Definition handleListGovernedResources (rq : HttpRequest) : prog ad AResponse :=
  require roleAdmin rq (list_objects KGovernedResource None).

(** The objects have no namespace. *)
Definition cluster_key (rq : HttpRequest) : NamespacedName := NN "" (rq_Name rq).

Definition handleGetGovernedResource (rq : HttpRequest) : prog ad AResponse :=
  require roleAdmin rq (get_object KGovernedResource (cluster_key rq) "not found").

(** [strings.Contains]. *)
Definition Contains (s substr : string) : bool := bool_decide (is_Some (String.index 0 substr s)).

Definition evolution_error (e : error) : AResponse :=
  if IsNotFound e then awriteError StatusNotFound "not found"
  else if Contains (err_v e) "INVALID_EVOLUTION" then
    awriteError StatusConflict (TrimPrefix (err_v e) "INVALID_EVOLUTION: ")
  else awriteError StatusInternalServerError (err_v e).

Definition handleReplaceGovernedResource (rq : HttpRequest) (body : option GovernedResource) : prog ad AResponse :=
  require roleAdmin rq (decoded body (λ newGR0,
    let newGR : GovernedResource := set_obj_Name (k:=KGovernedResource) (rq_Name rq) newGR0 in
    with_valid_schema newGR
      (replace KGovernedResource (cluster_key rq)
         (λ updated : GovernedResource, checkContextSchemaAppendOnly (gr_ContextSchema (gr_Spec updated)) (gr_ContextSchema (gr_Spec newGR)))
         newGR evolution_error))).

Definition resource_delete_error (e : error) : AResponse :=
  if IsNotFound e then awriteError StatusNotFound "not found"
  else if IsConflict e then awriteError StatusConflict "active requests are blocking deletion (finalizer present)"
  else awriteError StatusInternalServerError (err_v e).

Definition handleDeleteGovernedResource (rq : HttpRequest) : prog ad AResponse :=
  require roleAdmin rq (delete_object KGovernedResource (cluster_key rq) resource_delete_error).

(** ** AgentGraduationPolicy *)

Definition defaultAgentGraduationPolicyName : string := "default".

Definition named (rq : HttpRequest) (k : prog ad AResponse) : prog ad AResponse :=
  if rq_Name rq ==? "" then Ret (awriteError StatusBadRequest "name is required") else k.

Definition wrong_policy_name (name : string) : AResponse :=
  awriteError StatusBadRequest ("AgentGraduationPolicy name must be " +:+ quote defaultAgentGraduationPolicyName
                                  +:+ ", got " +:+ quote name)%string.

Definition other_name (o : AgentGraduationPolicy) : bool :=
  (om_Name (gp_Meta o) <>? "") && (om_Name (gp_Meta o) <>? defaultAgentGraduationPolicyName).

Definition policy_missing : string := "AgentGraduationPolicy not found".

Definition handleCreateAgentGraduationPolicy (rq : HttpRequest) (body : option AgentGraduationPolicy) : prog ad AResponse :=
  require roleAdmin rq (decoded body (λ policy,
    if other_name policy then Ret (wrong_policy_name (om_Name (gp_Meta policy)))
    else create KGraduationPolicy
           (set_obj_Namespace (k:=KGraduationPolicy) (ns_of rq)
              (set_obj_Name (k:=KGraduationPolicy) defaultAgentGraduationPolicyName policy)) create_error)).

Definition handleListAgentGraduationPolicies (rq : HttpRequest) : prog ad AResponse :=
  require roleAdmin rq (list_objects KGraduationPolicy (Some (ns_of rq))).

Definition handleGetAgentGraduationPolicy (rq : HttpRequest) : prog ad AResponse :=
  require roleAdmin rq (named rq (get_object KGraduationPolicy (nn_of rq) policy_missing)).

Definition handleReplaceAgentGraduationPolicy (rq : HttpRequest) (body : option AgentGraduationPolicy) : prog ad AResponse :=
  require roleAdmin rq (named rq (
    if rq_Name rq <>? defaultAgentGraduationPolicyName then Ret (wrong_policy_name (rq_Name rq))
    else decoded body (λ newPolicy,
      if other_name newPolicy then Ret (wrong_policy_name (om_Name (gp_Meta newPolicy)))
      else replace KGraduationPolicy (nn_of rq) no_check newPolicy (read_error policy_missing)))).

Definition handleDeleteAgentGraduationPolicy (rq : HttpRequest) : prog ad AResponse :=
  require roleAdmin rq (named rq (delete_object KGraduationPolicy (nn_of rq) (read_error policy_missing))).

(** ** AgentRegistration *)

Definition identified (reg : AgentRegistration) (k : prog ad AResponse) : prog ad AResponse :=
  if reg_AgentIdentity (reg_Spec reg) ==? "" then Ret (awriteError StatusBadRequest "agentIdentity is required") else k.

Definition authenticated (rq : HttpRequest) (k : prog ad AResponse) : prog ad AResponse :=
  if authRequired s && (sub_of rq ==? "") then Ret (awriteError StatusUnauthorized "caller identity required") else k.

Definition require_any (rs : list string) (rq : HttpRequest) (k : prog ad AResponse) : prog ad AResponse :=
  match requireAnyRole (roles s) rs (sub_of rq) (groups_of rq) with
  | Some msg => Ret (awriteError StatusForbidden msg)
  | None => k
  end.

Definition handleCreateAgentRegistration (rq : HttpRequest) (body : option AgentRegistration) : prog ad AResponse :=
  require roleAdmin rq (decoded body (λ reg,
    identified reg (create KRegistration (set_obj_Namespace (k:=KRegistration) (ns_of rq) reg) create_error))).

Definition handleListAgentRegistrations (rq : HttpRequest) : prog ad AResponse :=
  authenticated rq (require_any [roleAdmin; roleReviewer] rq (list_objects KRegistration (Some (ns_of rq)))).

Definition handleGetAgentRegistration (rq : HttpRequest) : prog ad AResponse :=
  authenticated rq (require_any [roleAdmin; roleReviewer] rq (get_object KRegistration (nn_of rq) "not found")).

Definition handleReplaceAgentRegistration (rq : HttpRequest) (body : option AgentRegistration) : prog ad AResponse :=
  require roleAdmin rq (decoded body (λ newReg,
    if (om_Name (reg_Meta newReg) <>? "") && (om_Name (reg_Meta newReg) <>? rq_Name rq) then
      Ret (awriteError StatusBadRequest "name in body must match name in path")
    else identified newReg (replace KRegistration (nn_of rq) no_check newReg (read_error "not found")))).

Definition handleDeleteAgentRegistration (rq : HttpRequest) : prog ad AResponse :=
  require roleAdmin rq (delete_object KRegistration (nn_of rq) (read_error "not found")).

Record selfRegisterRequest := mkSelfRegister { sr_RequestedServices : list string; sr_Mode : string }.

Definition AgentRegistrationModeStanding : string := "Standing".

Definition self_registration (sub issuer : string) (body : selfRegisterRequest) : AgentRegistration :=
  mkReg (mkMeta (RegistrationObjectName sub) "" defaultNamespace "" ∅ ∅ 0 0 0 None [] [])
    (mkRegSpec sub (if sr_Mode body ==? "" then AgentRegistrationModeStanding else sr_Mode body)
       (sr_RequestedServices body) (Some (mkRegOIDC issuer "" [])) [])
    (mkRegStatus "" "" [] None []).

Definition handleSelfRegisterAgentRegistration (rq : HttpRequest) (body : option selfRegisterRequest) : prog ad AResponse :=
  let sub := sub_of rq in
  let issuer := cl_Issuer (rq_Caller rq) in
  authenticated rq (
    if issuer ==? "" then Ret (awriteError StatusBadRequest "OIDC issuer required for self-registration")
    else require roleAgent rq (decoded body (λ b,
      if sub ==? "" then Ret (awriteError StatusBadRequest "agent identity not available")
      else create KRegistration (self_registration sub issuer b) (λ e,
        if IsAlreadyExists e then
          awriteError StatusConflict ("agent " +:+ quote sub +:+ " is already registered")%string
        else create_error e)))).

(** ** AgentTrustProfile *)

(** [(isAdmin || isReviewer, isAgent)]. *)
Definition reader_roles (rq : HttpRequest) : bool * bool :=
  (isAdmin (roles s) (sub_of rq) (groups_of rq) || isReviewer (roles s) (sub_of rq) (groups_of rq),
   isAgent (roles s) (sub_of rq) (groups_of rq)).

Definition own_only (rq : HttpRequest) : bool := negb (reader_roles rq).1 && (reader_roles rq).2.

Definition any_reader (rq : HttpRequest) (k : prog ad AResponse) : prog ad AResponse :=
  if negb (reader_roles rq).1 && negb (reader_roles rq).2 then
    Ret (awriteError StatusForbidden "agent, reviewer, or admin role required")
  else k.

Definition handleListAgentTrustProfiles (rq : HttpRequest) : prog ad AResponse :=
  authenticated rq (any_reader rq (
    r <- acall_ (AListProfiles (ns_of rq)) ;;
    Ret (match r with
         | Err e => awriteError StatusInternalServerError (err_v e)
         | Ok items =>
             AHttp StatusOK (BProfiles
               (if own_only rq then List.filter (λ p, atp_AgentIdentity p ==? sub_of rq) items else items))
         end))).

Definition handleGetAgentTrustProfile (rq : HttpRequest) : prog ad AResponse :=
  authenticated rq (named rq (any_reader rq (
    r <- acall_ (AGetProfile (nn_of rq)) ;;
    Ret (match r with
         | Err e => read_error "AgentTrustProfile not found" e
         | Ok profile =>
             if own_only rq && (atp_AgentIdentity profile <>? sub_of rq) then
               awriteError StatusForbidden "cannot read another agent's trust profile"
             else AHttp StatusOK (BProfile profile)
         end)))).

(** ** AuditRecord *)

Definition handleListAuditRecords (rq : HttpRequest) (agentReq limitStr continueToken : string) : prog ad AResponse :=
  authenticated rq (
    let limit := ParseInt64 limitStr in
    if (limitStr <>? "") && match limit with Some n => n <=? 0 | None => true end then
      Ret (awriteError StatusBadRequest "invalid limit: must be a positive integer")
    else
      r <- acall_ (AListAudits (ns_of rq) (if agentReq <>? "" then {["aip.io/agentRequestRef" := agentReq]} else ∅)
                     (if limitStr <>? "" then limit else None) continueToken) ;;
      Ret (match r with
           | Err e => if IsBadRequest e || IsInvalid e then awriteError StatusBadRequest (err_v e)
                      else awriteError StatusInternalServerError (err_v e)
           | Ok (items, continue) =>
               AHttp StatusOK (BAudits items (if (limitStr <>? "") || (continueToken <>? "") then Some continue else None))
           end)).

End admin.
