(* ===== verification/AdminFacts.v ===== *)
(** * What administration may write

    Every write of every administration handler is by a caller with the role
    for it, of an object that passed its checks; a replacement keeps the
    identity, status and finalizers of the object it read. *)

From S2P Require Import Prelude GoStd GoStrings Types Prog Retry Kube Naming Registration GatewayAuth Gateway GatewayCreate.
From S2P Require Import GatewayHandlers Evaluation Schema CelAdmission Admin.

(** ** Requests *)

Inductive admin_request :=
| RCreate (k : kind) (rq : HttpRequest) (body : option (obj k))
| RList (k : kind) (rq : HttpRequest)
| RGet (k : kind) (rq : HttpRequest)
| RReplace (k : kind) (rq : HttpRequest) (body : option (obj k))
| RDelete (k : kind) (rq : HttpRequest)
| RSelfRegister (rq : HttpRequest) (body : option selfRegisterRequest)
| RListProfiles (rq : HttpRequest)
| RGetProfile (rq : HttpRequest)
| RListAudits (rq : HttpRequest) (agentReq limit continue : string).

Definition rq_of (q : admin_request) : HttpRequest :=
  match q with
  | RCreate _ rq _ | RList _ rq | RGet _ rq | RReplace _ rq _ | RDelete _ rq
  | RSelfRegister rq _ | RListProfiles rq | RGetProfile rq | RListAudits rq _ _ _ => rq
  end.

Section facts.
Context `{RL : RetryLib ad, ET : ErrorText, JL : JsonLib, CL : CEL, CA : !CelAdmission}.
Context (s : Server).

(** The routes. *)
Definition serve (q : admin_request) : prog ad AResponse :=
  match q with
  | RCreate k rq body =>
      match k return option (obj k) → prog ad AResponse with
      | KSafetyPolicy => handleCreateSafetyPolicy s rq
      | KGovernedResource => handleCreateGovernedResource s rq
      | KGraduationPolicy => handleCreateAgentGraduationPolicy s rq
      | KRegistration => handleCreateAgentRegistration s rq
      end body
  | RList k rq =>
      match k with
      | KSafetyPolicy => handleListSafetyPolicies s rq
      | KGovernedResource => handleListGovernedResources s rq
      | KGraduationPolicy => handleListAgentGraduationPolicies s rq
      | KRegistration => handleListAgentRegistrations s rq
      end
  | RGet k rq =>
      match k with
      | KSafetyPolicy => handleGetSafetyPolicy s rq
      | KGovernedResource => handleGetGovernedResource s rq
      | KGraduationPolicy => handleGetAgentGraduationPolicy s rq
      | KRegistration => handleGetAgentRegistration s rq
      end
  | RReplace k rq body =>
      match k return option (obj k) → prog ad AResponse with
      | KSafetyPolicy => handleReplaceSafetyPolicy s rq
      | KGovernedResource => handleReplaceGovernedResource s rq
      | KGraduationPolicy => handleReplaceAgentGraduationPolicy s rq
      | KRegistration => handleReplaceAgentRegistration s rq
      end body
  | RDelete k rq =>
      match k with
      | KSafetyPolicy => handleDeleteSafetyPolicy s rq
      | KGovernedResource => handleDeleteGovernedResource s rq
      | KGraduationPolicy => handleDeleteAgentGraduationPolicy s rq
      | KRegistration => handleDeleteAgentRegistration s rq
      end
  | RSelfRegister rq body => handleSelfRegisterAgentRegistration s rq body
  | RListProfiles rq => handleListAgentTrustProfiles s rq
  | RGetProfile rq => handleGetAgentTrustProfile s rq
  | RListAudits rq a l c => handleListAuditRecords s rq a l c
  end.

(** ** What a write must satisfy *)

Definition admin (q : admin_request) : Prop := isAdmin (roles s) (sub_of (rq_of q)) (groups_of (rq_of q)) = true.

Definition key (k : kind) (q : admin_request) : NamespacedName :=
  match k with KGovernedResource => cluster_key (rq_of q) | _ => nn_of (rq_of q) end.

Definition schema_of (gr : GovernedResource) : option JSON := gr_ContextSchema (gr_Spec gr).

(** The schema extends that of every other resource with the same fetcher. *)
Definition extends_peers (gr : GovernedResource) (items : list GovernedResource) : Prop :=
  ∀ peer, peer ∈ items → name_of peer ≠ name_of gr →
    gr_ContextFetcher (gr_Spec peer) = gr_ContextFetcher (gr_Spec gr) → field_types (schema_of peer) ⊆ field_types (schema_of gr).

(** An object that passed the checks of its kind. *)
Definition checked (h : list (event ad)) {k} : obj k → Prop :=
  match k with
  | KSafetyPolicy => λ sp, ∃ grs, Ev (S:=ad) (AList KGovernedResource None) (Ok grs) ∈ h ∧ validateSafetypolicyCEL sp grs = None
  | KGovernedResource => λ gr,
      (∀ sch, schema_of gr = Some sch → validateContextSchema (Raw sch) = None) ∧
      (gr_ContextFetcher (gr_Spec gr) = "none"%string ∨ schema_of gr = None ∨
       ∃ items, Ev (S:=ad) (AList KGovernedResource None) (Ok items) ∈ h ∧ extends_peers gr items)
  | KGraduationPolicy => λ p, True
  | KRegistration => λ reg, reg_AgentIdentity (reg_Spec reg) ≠ ""%string
  end.

Definition evolves {k} : obj k → obj k → Prop :=
  match k with KGovernedResource => λ old new, field_types (schema_of old) ⊆ field_types (schema_of new) | _ => λ _ _, True end.

(** The identity, version, lifetime and status of an object. *)
Definition same_object {k} (old new : obj k) : Prop :=
  let m := obj_meta old in let m' := obj_meta new in
  om_Name m' = om_Name m ∧ om_Namespace m' = om_Namespace m ∧ om_UID m' = om_UID m ∧
  om_ResourceVersion m' = om_ResourceVersion m ∧ om_DeletionTimestamp m' = om_DeletionTimestamp m ∧
  om_Finalizers m' = om_Finalizers m ∧ om_OwnerReferences m' = om_OwnerReferences m ∧
  match k return obj k → obj k → Prop with KRegistration => λ o o', reg_Status o' = reg_Status o | _ => λ _ _, True end old new.

Definition write_ok (q : admin_request) (h : list (event ad)) (c : op ad) : Prop :=
  match c with
  | ACreate k o =>
      (admin q ∧ checked h o ∧
       (k ≠ KGovernedResource → om_Namespace (obj_meta o) = ns_of (rq_of q)) ∧
       (k = KGraduationPolicy → obj_Name o = defaultAgentGraduationPolicyName)) ∨
      (isAgent (roles s) (sub_of (rq_of q)) (groups_of (rq_of q)) = true ∧ sub_of (rq_of q) ≠ ""%string ∧
       cl_Issuer (rq_Caller (rq_of q)) ≠ ""%string ∧
       ∃ b, c = ACreate KRegistration (self_registration (sub_of (rq_of q)) (cl_Issuer (rq_Caller (rq_of q))) b))
  | AUpdate k o =>
      admin q ∧ ∃ current new : obj k, Ev (S:=ad) (AGet Cached k (key k q)) (Ok current) ∈ h ∧ checked h new ∧
        o = replace_in new current ∧ same_object current o ∧ evolves current new
  | ADelete k nn => admin q ∧ nn = key k q
  | _ => True
  end.

(** ** Walking the handlers *)

(** The writes are allowed, and the handler does not panic. *)
Abbreviation W q h p := (safe (S:=ad) any (write_ok q) h p (λ _ r, r ≠ APanic)).

Lemma checked_mono h h' {k} (o : obj k) : h ⊆ h' → checked h o → checked h' o.
Proof.
  intros Hh. destruct k; cbn; [|intros [Hv H]; split; [done|]|done|done].
  - intros (grs & Hg & Hc). exists grs. split; [by apply Hh|done].
  - destruct H as [H|[H|(items & Hi & He)]]; [by left|by right; left|]. right; right. exists items. split; [by apply Hh|done].
Qed.

Lemma replace_same {k} (new old : obj k) : same_object old (replace_in new old).
Proof. destruct k; repeat split. Qed.

Lemma peers_extended gr items :
  (∀ sch, schema_of gr = Some sch → validateContextSchema (Raw sch) = None) →
  peers_consistent gr items ≠ ConsistencyPanics ∧ (peers_consistent gr items = Consistent → extends_peers gr items).
Proof.
  intros Hv. induction items as [|peer items [IH1 IH2]]; cbn; [by split; [|intros _ ? ?%elem_of_nil]|].
  assert (∀ Φ : Prop, (peers_consistent gr items = Consistent → extends_peers gr items) →
    ((name_of peer ≠ name_of gr → gr_ContextFetcher (gr_Spec peer) = gr_ContextFetcher (gr_Spec gr) →
      field_types (schema_of peer) ⊆ field_types (schema_of gr))) →
    peers_consistent gr items = Consistent → extends_peers gr (peer :: items)) as Hcons.
  { intros _ H Hp Hi p [->|Hin]%elem_of_cons; [done|by apply H]. }
  destruct (String.eqb_spec (name_of peer) (name_of gr)) as [En|Hn]; [split; [done|by apply (Hcons True)]|].
  destruct (String.eqb_spec (gr_ContextFetcher (gr_Spec peer)) (gr_ContextFetcher (gr_Spec gr))) as [Ef|Hf]; cbn [andb];
    [|split; [done|by apply (Hcons True)]].
  destruct (append_only_extends (schema_of peer) (schema_of gr) Hv) as [Hp He].
  case_bool_decide as Hs.
  - fold (schema_of peer) (schema_of gr).
    destruct (checkContextSchemaAppendOnly (schema_of peer) (schema_of gr)); try (by split).
    split; [done|]. apply (Hcons True); [done|]. intros _ _. by apply He.
  - split; [done|]. apply (Hcons True); [done|]. intros _ _. unfold schema_of at 1.
    destruct (gr_ContextSchema (gr_Spec peer)); [by destruct Hs|]. apply map_empty_subseteq.
Qed.

Section walks.
Context (q : admin_request).

Lemma W_admin h k : (admin q → W q h k) → W q h (require s roleAdmin (rq_of q) k).
Proof. intros H. unfold require, requireRole. cbn. unfold admin in H. destruct (isAdmin _ _ _); [by apply H|done]. Qed.

Lemma W_decoded {A} h (body : option A) k : (∀ o, body = Some o → W q h (k o)) → W q h (decoded body k).
Proof. destruct body; cbn; auto. Qed.

(** The responses to errors are not panics. *)
Lemma no_panic e m :
  create_error e ≠ APanic ∧ read_error m e ≠ APanic ∧ evolution_error e ≠ APanic ∧ resource_delete_error e ≠ APanic.
Proof. unfold create_error, read_error, evolution_error, resource_delete_error. by repeat case_match. Qed.

Lemma W_create h k o f : write_ok q h (ACreate k o) → (∀ e, f e ≠ APanic) → W q h (create k o f).
Proof. intros H Hf. split; [exact H|]. intros [|] _; [done|apply Hf]. Qed.

Lemma W_list h k ns : W q h (list_objects k ns).
Proof. split; [exact I|]. by intros [|] _. Qed.

Lemma W_get h k nn m : W q h (get_object k nn m).
Proof. split; [exact I|]. intros [|e] _; [done|apply (no_panic e m)]. Qed.

Lemma W_delete h k f : admin q → (∀ e, f e ≠ APanic) → W q h (delete_object k (key k q) f).
Proof.
  intros Ha Hf. split; [by split|]. intros [[]|e] _; [|apply Hf]. split; [exact I|]. intros [|e] _; [done|].
  cbn. by destruct (IsNotFound e).
Qed.

Lemma W_replace h k (check : obj k → evolution) new f :
  admin q → checked h new →
  (∀ current, check current ≠ ComparisonPanics ∧ (check current = Compatible → evolves current new)) → (∀ e, f e ≠ APanic) →
  W q h (replace k (key k q) check new f).
Proof.
  intros Ha Hc He Hf. apply safe_bind. eapply (safe_post _ _ _ _ (λ _ r, r.1 ≠ None)); [intros h' [[o|] [e|]] Hr; [apply Hf|done|done|done]|].
  apply (retry_rule (S:=ad) any (write_ok q) (λ h', h ⊆ h') (λ _ r, r.1 ≠ None)); [|done].
  intros h' Hh. apply safe_call; [exact I|]. intros [current|e] h1 _ H1 Hg; [|cbn; split; [done|]; intros; set_solver].
  destruct (He current) as [Hp _]. destruct (check current) eqn:Ec; try (cbn; split; [done|]; intros; set_solver).
  apply safe_call.
  - split; [done|]. exists current, new. split; [done|]. split; [eapply checked_mono; [|exact Hc]; set_solver|].
    split; [done|]. split; [apply replace_same|by apply (He current)].
  - intros u h2 _ H2 _. cbn. split; [by destruct u|]. intros; set_solver.
Qed.

Lemma W_valid_rules h sp k :
  (∀ h', h ⊆ h' → checked (k:=KSafetyPolicy) h' sp → W q h' k) → W q h (with_valid_rules sp k).
Proof.
  intros H. apply safe_call; [exact I|]. intros [grs|e] h' _ Hh Hl; [|done].
  destruct (validateSafetypolicyCEL sp grs) eqn:Ev; [done|]. apply H; [done|]. by exists grs.
Qed.

Lemma W_valid_schema h gr k :
  (∀ h', h ⊆ h' → checked (k:=KGovernedResource) h' gr → W q h' k) → W q h (with_valid_schema gr k).
Proof.
  intros H. unfold with_valid_schema. destruct (match gr_ContextSchema (gr_Spec gr) with Some sch => validateContextSchema (Raw sch) | None => None end)
    eqn:Ev; [done|].
  assert (∀ sch, schema_of gr = Some sch → validateContextSchema (Raw sch) = None) as Hv.
  { intros sch E. unfold schema_of in E. by rewrite E in Ev. }
  unfold checkContextSchemaConsistency. destruct (_ || _) eqn:En.
  - apply H; [done|]. split; [done|]. apply orb_true_iff in En as [En|En]; [left; by apply String.eqb_eq in En|].
    right; left. by apply bool_decide_eq_true in En.
  - apply safe_bind, safe_call; [exact I|]. intros [items|e] h' _ Hh Hl; [|done]. cbn.
    destruct (peers_extended gr items Hv) as [Hp He]. destruct (peers_consistent gr items) eqn:Ec; [|done..]. apply H; [done|]. split; [done|]. right; right.
    exists items. split; [done|]. by apply He.
Qed.
End walks.

Lemma create_ok q h k (o : obj k) :
  admin q → checked h o → (k ≠ KGovernedResource → om_Namespace (obj_meta o) = ns_of (rq_of q)) →
  (k = KGraduationPolicy → obj_Name o = defaultAgentGraduationPolicyName) → W q h (create k o create_error).
Proof. intros Ha Hc Hn Hg. apply W_create; [by left|]. intros e. apply (no_panic e ""). Qed.

Lemma serve_create k rq body : W (RCreate k rq body) [] (serve (RCreate k rq body)).
Proof.
  cbn [serve]. destruct k; apply (W_admin (RCreate _ rq body)); intros Ha; apply W_decoded; intros o ->.
  - apply W_valid_rules. intros h' _ Hc. by apply create_ok.
  - apply W_valid_schema. intros h' _ Hc. by apply create_ok.
  - destruct (other_name o); [done|]. by apply create_ok.
  - unfold identified. destruct (String.eqb_spec (reg_AgentIdentity (reg_Spec o)) ""); [done|]. by apply create_ok.
Qed.

(** Kinds whose replacement is not checked against the object. *)
Lemma replace_ok q h k (new : obj k) m :
  admin q → checked h new → k ≠ KGovernedResource → W q h (replace k (key k q) no_check new (read_error m)).
Proof.
  intros Ha Hc Hk. apply W_replace; [done|done| |intros e; apply (no_panic e m)]. intros current. split; [done|]. by destruct k.
Qed.

Lemma serve_replace k rq body : W (RReplace k rq body) [] (serve (RReplace k rq body)).
Proof.
  pose proof (λ h new m, replace_ok (RReplace k rq body) h k new m) as H. cbn [serve].
  destruct k; apply (W_admin (RReplace _ rq body)); intros Ha.
  - apply W_decoded; intros o ->. apply W_valid_rules. intros h' _ Hc. by apply H.
  - apply W_decoded; intros o ->. apply W_valid_schema. intros h' _ Hc.
    apply (W_replace (RReplace KGovernedResource rq (Some o)) _ KGovernedResource); [done|done| |intros e; apply (no_panic e "")].
    intros current. destruct Hc as [Hv _].
    destruct (append_only_extends (schema_of current) _ Hv) as [Hp [He _]]. by split.
  - unfold named. destruct (_ ==? ""); [done|]. destruct (_ <>? _); [done|]. apply W_decoded; intros o ->.
    destruct (other_name o); [done|]. by apply H.
  - apply W_decoded; intros o ->. destruct (_ && _); [done|]. unfold identified.
    destruct (String.eqb_spec (reg_AgentIdentity (reg_Spec o)) ""); [done|]. by apply H.
Qed.

Lemma serve_read k rq : W (RList k rq) [] (serve (RList k rq)) ∧ W (RGet k rq) [] (serve (RGet k rq)).
Proof.
  cbn [serve]. destruct k; split;
    try (apply (W_admin (RList _ rq)); intros _; apply W_list);
    try (apply (W_admin (RGet _ rq)); intros _; unfold named; try destruct (_ ==? ""); first [done|apply W_get]).
  all: unfold handleListAgentRegistrations, handleGetAgentRegistration, authenticated, require_any.
  all: destruct (_ && _); [done|]; destruct (requireAnyRole _ _ _ _); [done|]; first [apply W_list|apply W_get].
Qed.

Lemma serve_delete k rq : W (RDelete k rq) [] (serve (RDelete k rq)).
Proof.
  pose proof (λ f, W_delete (RDelete k rq) [] k f) as H. cbn [serve].
  destruct k; apply (W_admin (RDelete _ rq)); intros Ha; unfold named; try (destruct (_ ==? ""); [done|]);
    (apply H; [done|]; intros e; apply (no_panic e)); exact "".
Qed.

Lemma serve_self rq body : W (RSelfRegister rq body) [] (serve (RSelfRegister rq body)).
Proof.
  cbn [serve]. unfold handleSelfRegisterAgentRegistration, authenticated, require, requireRole. cbn.
  destruct (_ && _); [done|]. destruct (String.eqb_spec (cl_Issuer (rq_Caller rq)) ""); [done|].
  destruct (isAgent _ _ _) eqn:Ha; [|done]. apply W_decoded. intros b ->.
  destruct (String.eqb_spec (sub_of rq) ""); [done|]. apply W_create. right. { repeat split; [done|done|done|]. by exists b. }
  intros e. destruct (IsAlreadyExists e); [done|apply (no_panic e "")].
Qed.

Lemma serve_safe q : W q [] (serve q).
Proof.
  destruct q as [k rq body|k rq|k rq|k rq body|k rq|rq body|rq|rq|rq a l c].
  - apply serve_create.
  - apply serve_read.
  - apply serve_read.
  - apply serve_replace.
  - apply serve_delete.
  - apply serve_self.
  - cbn [serve]. unfold handleListAgentTrustProfiles, authenticated, any_reader.
    destruct (_ && _); [done|]. destruct (_ && _); [done|]. split; [exact I|]. by intros [] _.
  - cbn [serve]. unfold handleGetAgentTrustProfile, authenticated, any_reader, named.
    destruct (_ && _); [done|]. destruct (_ ==? ""); [done|]. destruct (_ && _); [done|]. split; [exact I|].
    intros [p|e] _; cbn; [by destruct (_ && _)|]. apply (no_panic e).
  - cbn [serve]. unfold handleListAuditRecords, authenticated.
    destruct (_ && _); [done|]. destruct (_ && _); [done|]. split; [exact I|].
    intros [[]|e] _; cbn; [done|]. by destruct (_ || _).
Qed.

(** C14: Whatever the API server answers, and wherever the handler stops: every
    create, update and delete is by an admin, or registers the caller, who has
    the agent role, under its own subject and issuer.  What is stored passed
    the checks of its kind; an update replaces the spec, labels and
    annotations of the object as it was read, at the version that was read,
    and extends its schema; a delete is of the object named. *)
Theorem admin_writes_authorised q t1 c x t2 :
  emits (serve q) (t1 ++ Ev (S:=ad) c x :: t2) → write_ok q t1 c.
Proof. intros He. exact (safe_emits _ _ _ _ _ _ _ _ _ (serve_safe q) (any_all _) He). Qed.

(** No request makes a handler panic: the comparison of two schemas compares
    only strings and missing types once the new schema is validated. *)
Theorem admin_never_panics q t r : runs (serve q) t r → r ≠ APanic.
Proof. exact (safe_runs _ _ _ _ _ _ _ (serve_safe q) (any_all _)). Qed.

(** ** Profiles *)

Definition profiles_in (r : AResponse) : list AgentTrustProfile :=
  match r with AHttp _ (BProfiles l) => l | AHttp _ (BProfile p) => [p] | _ => [] end.

(** A caller who is neither admin nor reviewer is shown only profiles of its
    own identity. *)
Theorem profiles_private q t r p :
  isAdmin (roles s) (sub_of (rq_of q)) (groups_of (rq_of q)) = false →
  isReviewer (roles s) (sub_of (rq_of q)) (groups_of (rq_of q)) = false →
  (q = RListProfiles (rq_of q) ∨ q = RGetProfile (rq_of q)) →
  runs (serve q) t r → p ∈ profiles_in r → atp_AgentIdentity p = sub_of (rq_of q).
Proof.
  intros Ha Hv Hq Hr. assert (own_only s (rq_of q) = isAgent (roles s) (sub_of (rq_of q)) (groups_of (rq_of q))) as Hown
    by (unfold own_only, reader_roles; by rewrite Ha, Hv).
  assert (∀ h, safe any (λ _ _, True) h (serve q) (λ _ r, p ∈ profiles_in r → atp_AgentIdentity p = sub_of (rq_of q))) as Hs;
    [|exact (safe_runs _ _ _ _ _ _ _ (Hs []) (any_all _) Hr)].
  intros h. destruct Hq as [-> | ->]; cbn [serve rq_of] in *;
    unfold handleListAgentTrustProfiles, handleGetAgentTrustProfile, authenticated, named, any_reader;
    destruct (_ && _); try (cbn; set_solver); try (destruct (rq_Name _ ==? ""); [cbn; set_solver|]);
    unfold reader_roles; rewrite Ha, Hv; cbn [fst snd orb negb andb];
    rewrite Hown; (destruct (isAgent _ _ _); cbn [negb]; [|cbn; set_solver]); (split; [exact I|]);
    intros [x|e] _; cbn.
  - intros Hin%list_elem_of_In%filter_In. by apply String.eqb_eq, Hin.
  - set_solver.
  - destruct (String.eqb_spec (atp_AgentIdentity x) (sub_of (rq_of q))); cbn; set_solver.
  - unfold read_error. destruct (IsNotFound e); cbn; set_solver.
Qed.

(** ** Schemas under concurrent replacements *)

(** The governed resources of the API server: the current ones, and every
    version there has been. *)
Record store := mkStore { current : gmap string GovernedResource; versions : gmap Z GovernedResource }.

Definition rv (gr : GovernedResource) : Z := om_ResourceVersion (gr_Meta gr).

Definition put (gr : GovernedResource) (σ : store) : store :=
  mkStore (<[name_of gr := gr]> (current σ)) (<[rv gr := gr]> (versions σ)).

(** A read of a resource through the cache, however stale, gives a version of
    it. *)
Definition read_gr (e : event ad) : option (string * GovernedResource) :=
  match e with
  | Ev c x =>
      match c as c return aresp c → option (string * GovernedResource) with
      | AGet _ k nn =>
          match k as k return res (obj k) → option (string * GovernedResource) with
          | KGovernedResource => λ r, match r with Ok gr => Some (nn_Name nn, gr) | Err _ => None end
          | _ => λ _, None
          end
      | _ => λ _, None
      end x
  end.

Definition reads_version (σ : store) (e : event ad) : Prop :=
  ∀ n gr, read_gr e = Some (n, gr) → versions σ !! rv gr = Some gr ∧ name_of gr = n.

(** What happens to the store.  An update made by any administration request
    is stored if it carries the version that is current; a controller may
    change the rest of an object; the label is the name of a deleted one. *)
Inductive srv_step (σ : store) : option string → store → Prop :=
| srv_update q t1 o x t2 cur gr :
    emits (serve q) (t1 ++ Ev (S:=ad) (AUpdate KGovernedResource o) x :: t2) → Forall (reads_version σ) t1 →
    current σ !! name_of o = Some cur → rv cur = rv o →
    gr_Spec gr = gr_Spec o → name_of gr = name_of o → versions σ !! rv gr = None →
    srv_step σ None (put gr σ)
| srv_touch cur gr :
    current σ !! name_of gr = Some cur → gr_Spec gr = gr_Spec cur → versions σ !! rv gr = None →
    srv_step σ None (put gr σ)
| srv_create gr :
    current σ !! name_of gr = None → versions σ !! rv gr = None → srv_step σ None (put gr σ)
| srv_delete n : srv_step σ (Some n) (mkStore (delete n (current σ)) (versions σ)).

(** Any number of steps that do not delete [n]. *)
Definition keeps (n : string) : store → store → Prop := rtc (λ σ σ', ∃ d, srv_step σ d σ' ∧ d ≠ Some n).

Definition coherent_store (σ : store) : Prop :=
  ∀ n gr, current σ !! n = Some gr → versions σ !! rv gr = Some gr ∧ name_of gr = n.

Lemma coherent_put σ gr : coherent_store σ → versions σ !! rv gr = None → coherent_store (put gr σ).
Proof.
  intros Hσ Hf n g. cbn. destruct (decide (n = name_of gr)) as [->|Hn].
  - rewrite lookup_insert_eq. intros [= <-]. by rewrite lookup_insert_eq.
  - rewrite lookup_insert_ne by done. intros [Hv Hg]%Hσ. split; [|done]. rewrite lookup_insert_ne; [done|congruence].
Qed.

(** An update that is stored extends the schema it replaces. *)
Lemma update_extends σ q t1 o x t2 cur :
  coherent_store σ → emits (serve q) (t1 ++ Ev (S:=ad) (AUpdate KGovernedResource o) x :: t2) →
  Forall (reads_version σ) t1 → current σ !! name_of o = Some cur → rv cur = rv o →
  field_types (schema_of cur) ⊆ field_types (schema_of o).
Proof.
  intros Hσ He Ht Hc Hrv. apply (safe_emits _ _ _ _ _ _ _ _ _ (serve_safe q) (any_all _)) in He as (_ & old & new & Hr & _ & -> & Hs & Hev).
  rewrite Forall_forall in Ht. destruct (Ht _ Hr (nn_Name (key KGovernedResource q)) old eq_refl) as [Hv _].
  apply Hσ in Hc as [Hvc _]. destruct Hs as (_ & _ & _ & Erv & _). unfold rv in *. cbn in Erv, Hrv.
  rewrite Hrv, Hv in Hvc. injection Hvc as <-. exact Hev.
Qed.

Lemma step_grows σ d σ' n gr :
  coherent_store σ → srv_step σ d σ' → d ≠ Some n → current σ !! n = Some gr →
  coherent_store σ' ∧ ∃ gr', current σ' !! n = Some gr' ∧ field_types (schema_of gr) ⊆ field_types (schema_of gr').
Proof.
  intros Hσ Hstep Hd Hn.
  assert (∀ g, (∀ cur, current σ !! name_of g = Some cur → field_types (schema_of cur) ⊆ field_types (schema_of g)) →
    ∃ gr', current (put g σ) !! n = Some gr' ∧ field_types (schema_of gr) ⊆ field_types (schema_of gr')) as Hput.
  { intros g Hg. cbn. destruct (decide (n = name_of g)) as [->|Hne].
    - rewrite lookup_insert_eq. exists g. split; [done|]. by apply Hg.
    - rewrite lookup_insert_ne by done. by exists gr. }
  destruct Hstep as [q t1 o x t2 cur g He Ht Hc Hrv Es En Hf|cur g Hc Es Hf|g Hc Hf|m].
  - split; [by apply coherent_put|]. apply Hput. intros cur' Hc'. rewrite En, Hc in Hc'. injection Hc' as <-.
    unfold schema_of at 2. rewrite Es. by eapply update_extends.
  - split; [by apply coherent_put|]. apply Hput. intros cur' Hc'. rewrite Hc in Hc'. injection Hc' as <-.
    unfold schema_of. by rewrite Es.
  - split; [by apply coherent_put|]. apply Hput. intros cur' Hc'. congruence.
  - split.
    + intros k g. cbn. rewrite lookup_delete_Some. intros [_ H]. by apply Hσ.
    + exists gr. cbn. split; [|done]. rewrite lookup_delete_ne; [done|congruence].
Qed.

(** C15: Whatever replacements run side by side, reading through caches that may
    be stale, and whatever controllers do to the rest of the object: while a
    resource is not deleted, its schema keeps every top-level field it ever
    had, with its type, and all of a schema that had no nested fields. *)
Theorem schemas_only_grow σ σ' n gr :
  coherent_store σ → keeps n σ σ' → current σ !! n = Some gr →
  ∃ gr', current σ' !! n = Some gr' ∧ field_types (schema_of gr) ⊆ field_types (schema_of gr') ∧
    (flat (schema_of gr) → schema_kept (schema_of gr) (schema_of gr')).
Proof.
  intros Hσ Hk Hn.
  assert (∃ gr', current σ' !! n = Some gr' ∧ field_types (schema_of gr) ⊆ field_types (schema_of gr')) as (gr' & Hn' & H).
  { revert gr Hσ Hn. induction Hk as [σ|σ σ1 σ' (d & Hs & Hd) _ IH]; intros gr Hσ Hn; [by exists gr|].
    destruct (step_grows σ d σ1 n gr Hσ Hs Hd Hn) as (Hσ1 & gr1 & Hn1 & H1).
    destruct (IH gr1 Hσ1 Hn1) as (gr' & Hn' & H'). exists gr'. split; [done|]. by etrans. }
  exists gr'. split; [done|]. split; [done|]. intros Hf. by apply flat_kept.
Qed.
End facts.

(** ** Executions *)

Module AdminRuns.
#[local] Existing Instance SchemaRuns.toy_json.
#[local] Existing Instance CelAdmissionRuns.declared_cel.
#[local] Existing Instance CelAdmissionRuns.declared_admission.
#[local] Instance two_tries : RetryLib ad := CountedRetry.counted ad 1.
#[local] Instance texts : ErrorText :=
  {| err_v e := match e with EMsg m => m | _ => "api error"%string end; err_v_msg _ := eq_refl |}.

Definition admins : Server := mkServer Minute (newRoleConfig "bot" "alice" "root" "" "" "") true true true true "strict".
Definition by_ (sub : string) : HttpRequest := mkHttp (mkCaller sub [] "raw" "https://issuer") "pools" "" false.

(** The resource with a schema, at a version. *)
Definition pools (schema : string) (v : Z) : GovernedResource :=
  mkGR (mkMeta "pools" "" "" "uid" ∅ ∅ 1 v 0 None [GovernedResourceFinalizer] [])
    (mkGRSpec "k8s://**" [] [] "karpenter" (Some (mkJSON schema)) "" false None).

Definition bot_profile (id : string) : AgentTrustProfile :=
  mkATP (mkMeta id "" "default" "" ∅ ∅ 1 0 0 None [] []) id (mkATPStatus "" None None 0 0 None None None None).

Definition aenv (c : op ad) : ans ad c :=
  match c return aresp c with
  | ACreate k o => Ok o
  | AGet _ k nn =>
      match k return res (obj k) with
      | KGovernedResource => if nn_Name nn ==? "pools" then Ok (pools "base" 1) else Err (EApi NotFound)
      | _ => Err (EApi NotFound)
      end
  | AList _ _ => Ok []
  | AUpdate k o => Ok o
  | ADelete _ _ => Ok tt
  | AListProfiles _ => Ok [bot_profile "bot"; bot_profile "eve"]
  | AGetProfile _ => Ok (bot_profile "eve")
  | AListAudits _ _ _ _ => Ok ([], ""%string)
  end.

Definition replacement (sub schema : string) : admin_request :=
  RReplace KGovernedResource (by_ sub) (Some (pools schema 0)).
Definition calls (q : admin_request) (n : nat) (c : op ad) : Prop :=
  ev_call <$> (play aenv (serve admins q)).1 !! n = Some c.

Definition wider_pools : GovernedResource := pools "wider" 1.

Lemma replaces : calls (replacement "root" "wider") 2 (AUpdate KGovernedResource wider_pools).
Proof. vm_compute. reflexivity. Qed.

Lemma admin_writes_authorised_witness :
  admin admins (replacement "root" "wider") ∧
  ∃ current new : obj KGovernedResource, wider_pools = replace_in new current ∧ evolves current new.
Proof.
  destruct (admin_writes_authorised admins (replacement "root" "wider") _ (AUpdate KGovernedResource wider_pools) _ _
    (play_reaches _ _ _ _ replaces)) as (Ha & current & new & _ & _ & E & _ & He).
  split; [exact Ha|]. exists current, new. split; [exact E|exact He].
Defined.

Lemma admin_never_panics_witness :
  (play aenv (serve admins (replacement "root" "nested"))).2 ≠ APanic.
Proof. apply (admin_never_panics admins (replacement "root" "nested") _ _ (play_runs aenv _)). Defined.

Lemma profiles_private_witness :
  profiles_in (play aenv (serve admins (RListProfiles (by_ "bot")))).2 = [bot_profile "bot"] ∧
  atp_AgentIdentity (bot_profile "bot") = "bot"%string.
Proof.
  assert (profiles_in (play aenv (serve admins (RListProfiles (by_ "bot")))).2 = [bot_profile "bot"]) as Hp
    by (vm_compute; reflexivity).
  assert (isAdmin (roles admins) "bot" [] = false ∧ isReviewer (roles admins) "bot" [] = false) as [Ha Hr]
    by (split; vm_compute; reflexivity).
  split; [exact Hp|].
  refine (profiles_private admins (RListProfiles (by_ "bot")) _ _ (bot_profile "bot") Ha Hr (or_introl eq_refl)
    (play_runs aenv (serve admins (RListProfiles (by_ "bot")))) _).
  rewrite Hp. left.
Defined.

(** The store before the replacement, and after it. *)
Definition store1 : store := mkStore {["pools" := pools "base" 1]} {[1 := pools "base" 1]}%Z.
Definition store2 : store := put (pools "wider" 2) store1.

Lemma store1_coherent : coherent_store store1.
Proof. intros n gr H. unfold store1 in H. cbn in H. apply lookup_singleton_Some in H as [<- <-]. split; reflexivity. Qed.

Lemma schemas_only_grow_witness :
  ∃ gr', current store2 !! "pools"%string = Some gr' ∧
    field_types (schema_of (pools "base" 1)) ⊆ field_types (schema_of gr') ∧
    (flat (schema_of (pools "base" 1)) → schema_kept (schema_of (pools "base" 1)) (schema_of gr')).
Proof.
  apply (schemas_only_grow admins store1 store2 "pools" (pools "base" 1)); [exact store1_coherent| |reflexivity].
  eapply rtc_once. exists None. split; [|done].
  eapply (srv_update admins store1 (replacement "root" "wider") _ wider_pools _ _ (pools "base" 1));
    [exact (play_reaches _ _ _ _ replaces)| |reflexivity..].
  apply Forall_take, play_answers. intros c n gr. destruct c as [|rd [] nn| | | | | |]; try discriminate. cbn.
  destruct (String.eqb_spec (nn_Name nn) "pools"); [|discriminate]. intros [= <- <-]. by split.
Defined.
End AdminRuns.
