(* ===== verification/Recompute.v ===== *)
(** * Rebuilding accuracy summaries ([cmd/gateway/accuracy_handlers.go])

    A reviewer may have the summaries of the accuracy controller rebuilt from
    the requests themselves. *)

From Stdlib Require Import SpecFloat.
From S2P Require Import Prelude GoStd GoStrings Types Prog Retry Kube Naming GoFloat TrustKube AccuracyController.
From S2P Require Import Registration GatewayAuth Gateway AccuracyFacts.

(** ** Calls *)

(** The answer to a create or an update is the object as the client leaves
    it. *)
Inductive rcall :=
| RListAR (ns : string)
| RListSummaries (ns : string)
| RGetSummary (nn : NamespacedName)
| RCreateSummary (d : DiagnosticAccuracySummary)
| RUpdateSummaryStatus (d : DiagnosticAccuracySummary).

Definition rresp (c : rcall) : Type :=
  match c with
  | RListAR _ => res (list AgentRequest)
  | RListSummaries _ => res (list DiagnosticAccuracySummary)
  | RGetSummary _ | RCreateSummary _ | RUpdateSummaryStatus _ => res DiagnosticAccuracySummary
  end.

Definition rs : sig := mkSig rcall rresp.
Abbreviation rcall_ c := (trigger rs c).

(** The order in which [range] visits a map. *)
Class RangeOrder := {
  range_of : gmap string DiagnosticAccuracySummary → list (string * DiagnosticAccuracySummary);
  range_perm : ∀ m, range_of m ≡ₚ map_to_list m }.

(** ** The counts *)

(** One reviewed request counted. *)
Definition recount (item : AgentRequest) (st : DiagnosticAccuracySummaryStatus) : DiagnosticAccuracySummaryStatus :=
  let v := st_Verdict (ar_Status item) in
  let verdictAt := st_VerdictAt (ar_Status item) in
  mkDASStatus (int64 (das_TotalReviewed st + 1))
    (if v ==? verdictCorrect then int64 (das_CorrectCount st + 1) else das_CorrectCount st)
    (if v ==? verdictCorrect then das_PartialCount st
     else if v ==? verdictIncorrect then das_PartialCount st
     else if v ==? verdictPartial then int64 (das_PartialCount st + 1) else das_PartialCount st)
    (if v ==? verdictCorrect then das_IncorrectCount st
     else if v ==? verdictIncorrect then int64 (das_IncorrectCount st + 1) else das_IncorrectCount st)
    (das_DiagnosticAccuracy st)
    (match das_LastUpdatedAt st with
     | None => verdictAt
     | Some l => match verdictAt with Some v => if l <? v then verdictAt else Some l | None => Some l end
     end)
    (das_RecentVerdicts st).

(** The body of the loop over the requests. *)
Definition recount_item (ns agentId : string) (stats : gmap string DiagnosticAccuracySummary) (item : AgentRequest)
  : gmap string DiagnosticAccuracySummary :=
  let id := spec_AgentIdentity (ar_Spec item) in
  if (agentId <>? "") && (id <>? agentId) then stats
  else if st_Verdict (ar_Status item) ==? "" then stats
  else
    let summaryName := ProfileNameForAgent id in
    let summary := default (new_summary summaryName ns id) (stats !! summaryName) in
    <[summaryName := set_das_Status (recount item (das_Status summary)) summary]> stats.

Definition stats_of (ns agentId : string) (items : list AgentRequest) : gmap string DiagnosticAccuracySummary :=
  fold_left (recount_item ns agentId) items ∅.

(** The accuracy, computed once all are counted. *)
Definition with_accuracy (summary : DiagnosticAccuracySummary) : DiagnosticAccuracySummary :=
  let st := das_Status summary in
  set_das_Status
    (mkDASStatus (das_TotalReviewed st) (das_CorrectCount st) (das_PartialCount st) (das_IncorrectCount st)
       (if 0 <? das_TotalReviewed st
        then Some (accuracy_of (das_CorrectCount st) (das_PartialCount st) (das_TotalReviewed st))
        else das_DiagnosticAccuracy st)
       (das_LastUpdatedAt st) (das_RecentVerdicts st)) summary.

(** ** Writing the summaries *)

Section recompute.
Context `{RL : RetryLib rs, RS : RetryStateLib rs, RO : RangeOrder}.

(** The closure that stores one summary; it assigns [summary]. *)
Definition upsert_attempt (ns id : string) (summary : DiagnosticAccuracySummary)
  : prog rs (DiagnosticAccuracySummary * option error) :=
  g <- rcall_ (RGetSummary (NN ns id)) ;;
  match g with
  | Err e =>
      if IsNotFound e then
        c <- rcall_ (RCreateSummary summary) ;;
        match c with
        | Err e' => Ret (summary, Some e')
        | Ok created =>
            u <- rcall_ (RUpdateSummaryStatus created) ;;
            Ret (match u with Ok stored => (stored, None) | Err e' => (created, Some e') end)
        end
      else Ret (summary, Some e)
  | Ok existing =>
      if das_AgentIdentity existing <>? das_AgentIdentity summary then
        Ret (summary, Some (EMsg ("summary " +:+ quote id +:+ " identity mismatch: got " +:+ quote (das_AgentIdentity existing)
                                    +:+ ", want " +:+ quote (das_AgentIdentity summary))%string))
      else
        u <- rcall_ (RUpdateSummaryStatus (set_das_Status (das_Status summary) existing)) ;;
        Ret (summary, match u with Ok _ => None | Err e => Some e end)
  end.

(** The loop over the summaries; errors are only logged. *)
Fixpoint upsert_all (ns : string) (l : list (string * DiagnosticAccuracySummary)) : prog rs unit :=
  match l with
  | [] => Ret tt
  | (id, summary) :: l' =>
      RetryOnConflict_state (upsert_attempt ns id) (with_accuracy summary) ;;;
      upsert_all ns l'
  end.

Definition zero_attempt (ns name : string) : prog rs (unit * option error) :=
  g <- rcall_ (RGetSummary (NN ns name)) ;;
  match g with
  | Err e => Ret (tt, Some e)
  | Ok fresh =>
      u <- rcall_ (RUpdateSummaryStatus (set_das_Status das_status_zero fresh)) ;;
      Ret (tt, match u with Ok _ => None | Err e => Some e end)
  end.

(** Summaries of agents with no reviewed request left. *)
Definition stale (agentId : string) (stats : gmap string DiagnosticAccuracySummary) (existing : DiagnosticAccuracySummary)
  : bool :=
  negb ((agentId <>? "") && (das_AgentIdentity existing <>? agentId)) &&
  bool_decide (stats !! om_Name (das_Meta existing) = None).

Fixpoint zero_all (ns agentId : string) (stats : gmap string DiagnosticAccuracySummary)
  (l : list DiagnosticAccuracySummary) : prog rs unit :=
  match l with
  | [] => Ret tt
  | existing :: l' =>
      if stale agentId stats existing then
        RetryOnConflict (zero_attempt ns (om_Name (das_Meta existing))) ;;;
        zero_all ns agentId stats l'
      else zero_all ns agentId stats l'
  end.

Definition recomputeAccuracyForAgent (ns agentId : string) : prog rs (option error) :=
  l <- rcall_ (RListAR ns) ;;
  match l with
  | Err e => Ret (Some (EWrap "list agent requests" e))
  | Ok items =>
      let stats := stats_of ns agentId items in
      upsert_all ns (range_of stats) ;;;
      ex <- rcall_ (RListSummaries ns) ;;
      match ex with
      | Err _ => Ret None
      | Ok existingSummaries => zero_all ns agentId stats existingSummaries ;;; Ret None
      end
  end.

(** ** The handlers *)

Definition handleRecomputeAccuracy (s : Server) (rq : HttpRequest) (agentId : string) : prog rs Response :=
  if authRequired s && (sub_of rq ==? "") then Ret (writeError StatusUnauthorized "caller identity required")
  else match requireRole (roles s) roleReviewer (sub_of rq) (groups_of rq) with
  | Some msg => Ret (writeError StatusForbidden msg)
  | None =>
      r <- recomputeAccuracyForAgent (ns_of rq) agentId ;;
      Ret (match r with
           | Some e => writeErrorCause StatusInternalServerError "" e
           | None => Http StatusOK (PMessage "recomputed accuracy summaries")
           end)
  end.

(** The response of the listing: a status and the items, if any. *)
Definition handleListAccuracySummaries (s : Server) (rq : HttpRequest)
  : prog rs (Response + list DiagnosticAccuracySummary) :=
  if authRequired s && (sub_of rq ==? "") then Ret (inl (writeError StatusUnauthorized "caller identity required"))
  else
    l <- rcall_ (RListSummaries (ns_of rq)) ;;
    Ret (match l with Err e => inl (writeErrorCause StatusInternalServerError "" e) | Ok items => inr items end).

End recompute.

(** ** What is counted *)

(** The reviewed requests behind the summary [n]. *)
Definition counts_for (agentId n : string) (a : AgentRequest) : bool :=
  let id := spec_AgentIdentity (ar_Spec a) in
  negb ((agentId <>? "") && (id <>? agentId)) && (st_Verdict (ar_Status a) <>? "") && (ProfileNameForAgent id ==? n).
Definition reviewed (agentId n : string) (items : list AgentRequest) : list AgentRequest :=
  List.filter (counts_for agentId n) items.

(** All of them counted as the controller counts one, one after the other. *)
Definition count_all (l : list AgentRequest) : DiagnosticAccuracySummaryStatus :=
  fold_left (λ st a, count_verdict a st) l das_status_zero.

(** What the controller counts: it leaves out the verdicts whose reason code
    says that they do not affect the accuracy. *)
Definition controller_count (l : list AgentRequest) : DiagnosticAccuracySummaryStatus :=
  fold_left (λ st a, if countable a then count_verdict a st else st) l das_status_zero.

(** The tally of a list of requests: how many of each verdict, the accuracy
    they give, and the time of the latest. *)
Definition latest (l : list AgentRequest) : option Z :=
  fold_left (λ o a, last_updated o (st_VerdictAt (ar_Status a))) l None.

Definition tally_status (l : list AgentRequest) : DiagnosticAccuracySummaryStatus :=
  mkDASStatus (Z.of_nat (length l)) (tally verdictCorrect l) (tally verdictPartial l) (tally verdictIncorrect l)
    (match l with
     | [] => None
     | _ => Some (accuracy_of (tally verdictCorrect l) (tally verdictPartial l) (Z.of_nat (length l)))
     end) (latest l) [].

(** A status without the names of the requests counted. *)
Definition forget (st : DiagnosticAccuracySummaryStatus) : DiagnosticAccuracySummaryStatus :=
  mkDASStatus (das_TotalReviewed st) (das_CorrectCount st) (das_PartialCount st) (das_IncorrectCount st)
    (das_DiagnosticAccuracy st) (das_LastUpdatedAt st) [].

Definition recounted (l : list AgentRequest) : DiagnosticAccuracySummaryStatus :=
  fold_left (λ st a, recount a st) l das_status_zero.

Lemma stats_lookup ns agentId items n :
  stats_of ns agentId items !! n =
    match reviewed agentId n items with
    | [] => None
    | a :: l => Some (set_das_Status (recounted (a :: l)) (new_summary n ns (spec_AgentIdentity (ar_Spec a))))
    end.
Proof.
  unfold stats_of. induction items as [|item items IH] using rev_ind; [done|].
  rewrite fold_left_app. cbn [fold_left]. unfold reviewed in *. rewrite List.filter_app. cbn [List.filter].
  assert (counts_for agentId n item = negb ((agentId <>? "") && (spec_AgentIdentity (ar_Spec item) <>? agentId)) &&
    (st_Verdict (ar_Status item) <>? "") && (ProfileNameForAgent (spec_AgentIdentity (ar_Spec item)) ==? n)) as -> by done.
  unfold recount_item at 1. set (id := spec_AgentIdentity (ar_Spec item)).
  destruct ((agentId <>? "") && (id <>? agentId)) eqn:E1; cbn [negb andb]; [by rewrite app_nil_r|].
  destruct (st_Verdict (ar_Status item) ==? "") eqn:E2; cbn [negb andb]; [by rewrite app_nil_r|].
  destruct (String.eqb_spec (ProfileNameForAgent id) n) as [<-|Hn].
  - rewrite lookup_insert_eq, IH. destruct (List.filter _ items) as [|a l]; [done|]. cbn [default app].
    unfold recounted. by rewrite (app_comm_cons l [item] a), fold_left_app.
  - rewrite lookup_insert_ne by done. by rewrite app_nil_r.
Qed.

(** The counters agree at each step. *)
Lemma recount_fields l :
  forget (recounted l) = forget (mkDASStatus (das_TotalReviewed (count_all l)) (das_CorrectCount (count_all l))
    (das_PartialCount (count_all l)) (das_IncorrectCount (count_all l)) None
    (das_LastUpdatedAt (count_all l)) []) ∧ das_RecentVerdicts (recounted l) = [].
Proof.
  induction l as [|a l [IH Hr]] using rev_ind; [done|].
  unfold recounted, count_all in *. rewrite !fold_left_app. cbn [fold_left].
  destruct (fold_left (λ st a, recount a st) l das_status_zero) as [t c p i acc lu rv].
  destruct (fold_left (λ st a, count_verdict a st) l das_status_zero) as [t' c' p' i' acc' lu' rv'].
  unfold forget in IH. cbn in IH. injection IH as -> -> -> -> -> ->. cbn in Hr. subst rv. unfold forget, recount, count_verdict, bump, last_updated. cbn.
  assert (∀ v : option Z, match lu' with None => v | Some l => match v with Some w => if l <? w then v else Some l | None => Some l end end =
    match v with None => lu' | Some w => match lu' with None => Some w | Some l => if l <? w then Some w else lu' end end) as ->
    by (intros []; by destruct lu').
  split; [|done]. destruct (String.eqb_spec (st_Verdict (ar_Status a)) verdictCorrect) as [->|]; [done|].
  by destruct (String.eqb_spec (st_Verdict (ar_Status a)) verdictIncorrect) as [->|].
Qed.

Lemma count_all_total l : Z.of_nat (length l) < 2 ^ 63 → das_TotalReviewed (count_all l) = Z.of_nat (length l).
Proof.
  induction l as [|a l IH] using rev_ind; [done|]. rewrite length_app. cbn [length]. intros Hl.
  unfold count_all in *. rewrite fold_left_app. cbn [fold_left count_verdict das_TotalReviewed].
  rewrite IH by lia. unfold int64. rewrite wrap_id; lia.
Qed.

Lemma count_all_accuracy l :
  l ≠ [] → Z.of_nat (length l) < 2 ^ 63 →
  das_DiagnosticAccuracy (count_all l) =
    Some (accuracy_of (das_CorrectCount (count_all l)) (das_PartialCount (count_all l))
      (das_TotalReviewed (count_all l))).
Proof.
  destruct l as [|a l _] using rev_ind; [done|]. intros _ Hl. pose proof (count_all_total _ Hl) as Ht. revert Ht.
  unfold count_all. rewrite fold_left_app. cbn [fold_left]. intros Ht.
  assert (das_TotalReviewed (count_verdict a (fold_left (λ st a, count_verdict a st) l das_status_zero)) =
    int64 (das_TotalReviewed (fold_left (λ st a, count_verdict a st) l das_status_zero) + 1)) as E by done.
  cbn. rewrite <- E, Ht. rewrite length_app. cbn [length]. by rewrite (proj2 (Z.ltb_lt 0 _)) by lia.
Qed.

Lemma count_all_tally l : Z.of_nat (length l) < 2 ^ 63 → forget (count_all l) = tally_status l.
Proof.
  induction l as [|a l IH] using rev_ind; [done|]. rewrite length_app. cbn [length]. intros Hl.
  specialize (IH ltac:(lia)). unfold count_all, tally_status, latest in *. rewrite !fold_left_app. cbn [fold_left].
  destruct (fold_left (λ st a, count_verdict a st) l das_status_zero) as [t c p i acc lu rv].
  unfold forget in *. cbn in *. injection IH as -> -> -> -> _ ->. rewrite !bump_tally by lia.
  unfold int64. rewrite wrap_id by lia. rewrite (proj2 (Z.ltb_lt 0 _)) by lia. rewrite length_app. cbn [length].
  replace (Z.of_nat (length l + 1)) with (Z.of_nat (length l) + 1) by lia. by destruct l.
Qed.

Lemma controller_counts_all l : Forall (λ a, countable a = true) l → controller_count l = count_all l.
Proof.
  unfold controller_count, count_all. generalize das_status_zero. induction l as [|a l IH]; intros st Hl; [done|].
  apply Forall_cons in Hl as [Ha Hl]. cbn. rewrite Ha. by apply IH.
Qed.

(** A rebuilt summary counts all reviewed requests, without their names. *)
Lemma rebuilt l ns n id :
  l ≠ [] → Z.of_nat (length l) < 2 ^ 63 →
  das_Status (with_accuracy (set_das_Status (recounted l) (new_summary n ns id))) = forget (count_all l).
Proof.
  intros Hne Hl. destruct (recount_fields l) as [Hf Hr]. pose proof (count_all_accuracy l Hne Hl) as Ha.
  pose proof (count_all_total l Hl) as Ht. unfold with_accuracy, forget in *. cbn in *.
  injection Hf as E1 E2 E3 E4 E5 E6. rewrite E1, E2, E3, E4, E5, E6, Hr, Ht, (proj2 (Z.ltb_lt 0 _)).
  - by rewrite Ha, Ht.
  - destruct l; [done|cbn; lia].
Qed.

(** ** What is written *)

(** What the client promises: a read is of the object asked for, and a create
    does not touch the status in memory, which the server does not store
    either. *)
Definition client_ok (e : event rs) : Prop :=
  match e with
  | Ev c x =>
      match c as c return rresp c → Prop with
      | RGetSummary nn => λ r, ∀ d, r = Ok d → om_Name (das_Meta d) = nn_Name nn
      | RCreateSummary d => λ r, ∀ d', r = Ok d' → das_Status d' = das_Status d ∧ das_AgentIdentity d' = das_AgentIdentity d
      | _ => λ _, True
      end x
  end.

(** The tally of the reviewed requests of an agent, which is what the controller
    counts if it counts all of them; or zero if there are none left. *)
Definition justified (agentId : string) (items : list AgentRequest) (d : DiagnosticAccuracySummary) : Prop :=
  (∃ n a l, reviewed agentId n items = a :: l ∧ das_AgentIdentity d = spec_AgentIdentity (ar_Spec a) ∧
     das_Status d = tally_status (a :: l) ∧
     (Forall (λ a, countable a = true) (a :: l) → das_Status d = forget (controller_count (a :: l)))) ∨
  (das_Status d = das_status_zero ∧ reviewed agentId (om_Name (das_Meta d)) items = []).

Section writes.
Context `{RL : RetryLib rs, RS : RetryStateLib rs, RO : RangeOrder} (ns agentId : string).

Definition write_justified (h : list (event rs)) (c : op rs) : Prop :=
  match c with
  | RUpdateSummaryStatus d =>
      ∃ items, Ev (S:=rs) (RListAR ns) (Ok items) ∈ h ∧ (Z.of_nat (length items) < 2 ^ 63 → justified agentId items d)
  | _ => True
  end.

Abbreviation Sf h p Q := (safe (S:=rs) client_ok write_justified h p Q).

Section listed.
Context (items : list AgentRequest).
Definition stats := stats_of ns agentId items.
Abbreviation listed_in h := (Ev (S:=rs) (RListAR ns) (Ok items) ∈ h).

(** The entry [n] of the map, as it is written. *)
Lemma entry_justified n d0 d :
  stats !! n = Some d0 → das_Status d = das_Status (with_accuracy d0) → das_AgentIdentity d = das_AgentIdentity d0 →
  Z.of_nat (length items) < 2 ^ 63 → justified agentId items d.
Proof.
  unfold stats. rewrite stats_lookup. destruct (reviewed agentId n items) as [|a l] eqn:E; [done|]. intros [= <-] Hs Hi Hl.
  assert (Z.of_nat (length (a :: l)) < 2 ^ 63) as Hl'.
  { rewrite <- E. unfold reviewed. pose proof (List.filter_length_le (counts_for agentId n) items). lia. }
  left. exists n, a, l. split; [done|]. split; [exact Hi|]. rewrite Hs, rebuilt by done.
  split; [by apply count_all_tally|]. intros Hc. by rewrite controller_counts_all.
Qed.

Definition as_entry (d0 summary : DiagnosticAccuracySummary) : Prop :=
  das_Status summary = das_Status (with_accuracy d0) ∧ das_AgentIdentity summary = das_AgentIdentity d0.

Lemma upsert_safe n d0 h :
  listed_in h → stats !! n = Some d0 →
  Sf h (RetryOnConflict_state (upsert_attempt ns n) (with_accuracy d0))
    (λ h' _, h ⊆ h' ∧ ∃ x, Ev (S:=rs) (RGetSummary (NN ns n)) x ∈ h').
Proof.
  intros Hl Hn. apply (retry_state_rule (S:=rs) _ _ (λ h' x, h ⊆ h' ∧ as_entry d0 x)); [|by split].
  intros h0 summary [Hh [Hs Hi]]. apply safe_call; [exact I|]. intros g h1 _ H1 Hg.
  assert (h ⊆ h1) as Hh1 by set_solver.
  destruct g as [existing|e].
  - destruct (das_AgentIdentity existing <>? das_AgentIdentity summary) eqn:E; [by split; [split; eauto|]|].
    apply negb_false_iff, String.eqb_eq in E. apply safe_call.
    + exists items. split; [by apply Hh1|]. intros Hb. apply (entry_justified n d0); [done|exact Hs|cbn; congruence|done].
    + intros u h2 _ H2 _. assert (h ⊆ h2) by set_solver. split; [split; [done|]; eexists; by apply H2|]. by split.
  - destruct (IsNotFound e); [|by split; [split; eauto|]].
    apply safe_call; [exact I|]. intros c h2 Hc H2 _. assert (h ⊆ h2) by set_solver.
    destruct c as [created|e']; [|split; [split; [done|]; eexists; by apply H2|by split]].
    destruct (Hc created eq_refl) as [Es Ei].
    apply safe_call.
    + exists items. split; [set_solver|]. intros Hb. apply (entry_justified n d0); [done|congruence|congruence|done].
    + intros u h3 _ H3 _. assert (h ⊆ h3) by set_solver.
      split; [split; [done|]; eexists; by apply H3, H2|]. intros e' He' _. destruct u; [done|].
      split; [done|]. split; [by rewrite <- Hs, <- Es|by rewrite <- Hi, <- Ei].
Qed.

Lemma upsert_all_safe l h :
  listed_in h → (∀ n d, (n, d) ∈ l → stats !! n = Some d) →
  Sf h (upsert_all ns l) (λ h' _, h ⊆ h' ∧ ∀ n d, (n, d) ∈ l → ∃ x, Ev (S:=rs) (RGetSummary (NN ns n)) x ∈ h').
Proof.
  revert h. induction l as [|[n d] l IH]; intros h Hl Hs; [split; [done|]; set_solver|]. cbn [upsert_all].
  apply safe_bind. eapply safe_post; [|apply upsert_safe; [done|apply Hs; left]]. intros h1 _ [Hh [x Hx]].
  eapply safe_post; [|apply IH; [by apply Hh|intros n' d' H'; apply Hs; by right]].
  intros h2 _ [H12 Hall]. split; [set_solver|]. intros n' d' [[= -> ->]|Hin]%elem_of_cons; [exists x; by apply H12|by eapply Hall].
Qed.

Lemma zero_all_safe l h : listed_in h → Sf h (zero_all ns agentId stats l) (λ h' _, h ⊆ h').
Proof.
  revert h. induction l as [|existing l IH]; intros h Hl; [cbn; set_solver|]. cbn [zero_all].
  destruct (stale agentId stats existing) eqn:Es; [|by apply IH]. apply safe_bind.
  eapply (safe_post _ _ _ _ (λ h' _, h ⊆ h')); [intros h1 _ H1; eapply safe_post; [|by apply IH, H1]; set_solver|].
  apply andb_true_iff in Es as [_ Es]. apply bool_decide_eq_true in Es.
  apply (retry_rule (S:=rs) _ _ (λ h', h ⊆ h')); [|done]. intros h0 H0.
  apply safe_call; [exact I|]. intros [fresh|e] h1 Hf H1 _; [|cbn; split; [|intros]; set_solver].
  apply safe_call.
  - exists items. split; [set_solver|]. intros _. right. split; [done|]. cbn. rewrite (Hf fresh eq_refl). cbn.
    unfold stats in Es. rewrite stats_lookup in Es. by destruct (reviewed agentId _ items).
  - intros u h2 _ H2 _. cbn. split; [|intros]; set_solver.
Qed.
End listed.

Lemma recompute_safe h :
  Sf h (recomputeAccuracyForAgent ns agentId)
    (λ h' r, r = None → ∃ items, Ev (S:=rs) (RListAR ns) (Ok items) ∈ h' ∧
       ∀ n, reviewed agentId n items ≠ [] → ∃ x, Ev (S:=rs) (RGetSummary (NN ns n)) x ∈ h').
Proof.
  apply safe_call; [exact I|]. intros [items|e] h1 _ _ Hl; [|done].
  apply safe_bind. eapply safe_post; [|apply (upsert_all_safe items); [exact Hl|]].
  2: { intros n d Hin. apply elem_of_map_to_list. by rewrite <- range_perm. }
  intros h2 _ [H12 Hall].
  assert (∀ n, reviewed agentId n items ≠ [] → ∃ x, Ev (S:=rs) (RGetSummary (NN ns n)) x ∈ h2) as Hcov.
  { intros n Hn. destruct (stats_of ns agentId items !! n) as [d|] eqn:E.
    - apply (Hall n d). rewrite range_perm. by apply elem_of_map_to_list.
    - rewrite stats_lookup in E. by destruct (reviewed agentId n items). }
  apply safe_call; [exact I|]. intros [ex|e] h3 _ H23 _.
  - apply safe_bind. eapply safe_post; [|apply (zero_all_safe items); set_solver]. intros h4 u H34. cbn. intros _.
    exists items. split; [set_solver|]. intros n Hn. destruct (Hcov n Hn) as [x Hx]. exists x. set_solver.
  - cbn. intros _. exists items. split; [set_solver|]. intros n Hn. destruct (Hcov n Hn) as [x Hx]. exists x. set_solver.
Qed.

(** C28: A recompute writes a summary only as the tally of the reviewed requests
    it listed of one agent, with that agent's identity, or as zero where none
    is left; if no verdict among them has a reason code that the controller
    leaves out, that is what the controller's counting gives, but for the names
    it remembers.  One that returns without an error has gone to the summary of
    every agent with a reviewed request. *)
Theorem recompute_rebuilds :
  (∀ t1 d x t2, emits (recomputeAccuracyForAgent ns agentId) (t1 ++ Ev (S:=rs) (RUpdateSummaryStatus d) x :: t2) →
     Forall client_ok t1 → write_justified t1 (RUpdateSummaryStatus d)) ∧
  (∀ t, runs (recomputeAccuracyForAgent ns agentId) t None → Forall client_ok t →
     ∃ items, Ev (S:=rs) (RListAR ns) (Ok items) ∈ t ∧
       ∀ n, reviewed agentId n items ≠ [] → ∃ x, Ev (S:=rs) (RGetSummary (NN ns n)) x ∈ t).
Proof.
  split.
  - intros t1 d x t2 He HR. exact (safe_emits _ _ _ _ _ _ _ _ _ (recompute_safe []) HR He).
  - intros t Hr HR. exact (safe_runs _ _ _ _ _ _ _ (recompute_safe []) HR Hr eq_refl).
Qed.
End writes.

(** ** Examples *)

Module RecomputeRuns.
Import AccuracyExamples.
#[local] Existing Instance retry5.
#[local] Instance retry_rs : RetryLib rs := CountedRetry.counted rs 5.
#[local] Instance retry_st : RetryStateLib rs := CountedRetryState.counted rs 5.
#[local] Instance in_order : RangeOrder := {| range_of := map_to_list; range_perm _ := reflexivity _ |}.

Definition renv (c : op rs) : ans rs c :=
  match c return rresp c with
  | RListAR _ => Ok [graded "r1" verdictCorrect]
  | RListSummaries _ => Ok [sum1]
  | RGetSummary nn => if nn_Name nn ==? nn_Name bot_key then Ok sum1 else Err (EApi NotFound)
  | RCreateSummary d | RUpdateSummaryStatus d => Ok d
  end.

(** The summary after a recompute. *)
Definition rebuilt1 : DiagnosticAccuracySummary := set_das_Status (forget (das_Status sum1)) sum0.

Definition rcalls (n : nat) (c : op rs) : Prop :=
  ev_call <$> (play renv (recomputeAccuracyForAgent "default" "bot")).1 !! n = Some c.

Lemma recompute_rebuilds_witness :
  ∃ items, (Z.of_nat (length items) < 2 ^ 63 → justified "bot" items rebuilt1) ∧ das_TotalReviewed (das_Status rebuilt1) = 1.
Proof.
  assert (rcalls 2 (RUpdateSummaryStatus rebuilt1)) as Hc by (vm_compute; reflexivity).
  destruct (recompute_rebuilds "default" "bot") as [Hw _].
  destruct (Hw _ _ _ _ (play_reaches renv _ 2 _ Hc)) as (items & _ & Hj).
  - apply Forall_take, play_answers. intros c. destruct c as [| |nn|d|d]; [exact I|exact I| | |exact I].
    + unfold client_ok, renv. destruct (String.eqb_spec (nn_Name nn) (nn_Name bot_key)) as [E|]; [|discriminate].
      intros d Hd. injection Hd as <-. rewrite E. reflexivity.
    + intros d' Hd. injection Hd as <-. split; reflexivity.
  - exists items. split; [exact Hj|vm_compute; reflexivity].
Defined.

(** A verdict whose reason the controller leaves out of the accuracy is
    counted by a recompute. *)
Definition badly_timed : AgentRequest :=
  upd_status (set_st_VerdictFields verdictIncorrect "bad_timing" "" "human" (Some 5)) (graded "r1" verdictIncorrect).

Example skipped_reasons_recounted :
  countable badly_timed = false ∧
  das_IncorrectCount <$> (das_Status <$> stats_of "default" "" [badly_timed] !! nn_Name bot_key) = Some 1.
Proof. split; vm_compute; reflexivity. Qed.

(** A recompute forgets which requests it counted: the next reconcile of one
    of them counts it again. *)
Definition twice : DiagnosticAccuracySummary :=
  set_das_Status (count_verdict (graded "r1" verdictCorrect) (das_Status rebuilt1)) rebuilt1.

Example recomputed_verdict_counted_again :
  runs (Accuracy_Reconcile (NN "default" "r1"))
    [ev (TGetAR (NN "default" "r1")) (Ok (graded "r1" verdictCorrect)); ev (TGetSummary Cached bot_key) (Ok rebuilt1);
     ev (TPatchSummary rebuilt1 twice) (Ok twice)] None ∧
  das_TotalReviewed (das_Status rebuilt1) = 1 ∧ das_TotalReviewed (das_Status twice) = 2.
Proof. split; [run_trace|]. split; vm_compute; reflexivity. Qed.
End RecomputeRuns.
