(* ===== verification/Fetchers.v ===== *)
(** * Context fetchers ([internal/evaluation/k8s_fetcher.go] and
      [internal/evaluation/fetchers])

    The control plane looks at the target itself: the state of a Deployment
    and its endpoints, a Karpenter node pool, or a GitHub repository through an
    MCP server. *)

From S2P Require Import Prelude GoStd GoStrings Types Prog Kube TargetURI Naming GatewayAuth Evaluation.
From S2P Require Import Conditions ControllerSpec AgentRequestController.
From S2P Require Mcp.

(** ** What is read *)

Record Deployment := mkDeployment {
  dep_Replicas : option Z;                       (** [int32] *)
  dep_Selector : option (gmap string string);    (** [MatchLabels] *)
  dep_ReadyReplicas : Z;                         (** [int32] *)
  dep_ResourceVersion : string }.

Record Endpoint := mkEndpoint { ep_Ready : option bool; ep_Addresses : list string }.
Record EndpointSlice := mkSlice { eps_Endpoints : list Endpoint }.

Inductive http_answer :=
| HBadRequest (e : error)                        (** no request was made *)
| HUnreachable (e : error)
| HAnswer (status : Z) (body : res string).      (** [Err]: the body cannot be read *)

Inductive fcall :=
| FGetDeployment (nn : NamespacedName)
| FListSlices (ns service : string)
| FListServices (ns : string) (labels : gmap string string)
| FGetNodePool (name : string)
| FListNodes (nodepool : string)
| FListPods
| FPost (url : string) (token : option string) (tool : string) (arguments : gmap string value).

Definition fresp (c : fcall) : Type :=
  match c with
  | FGetDeployment _ => res Deployment
  | FListSlices _ _ => res (list EndpointSlice)
  | FListServices _ _ => res (list string)       (** the names *)
  | FGetNodePool _ => res (option (gmap string value))    (** [spec.limits] *)
  | FListNodes _ => res nat                      (** how many *)
  | FListPods => res (list string)               (** the phases *)
  | FPost _ _ _ _ => http_answer
  end.

Definition fs : sig := mkSig fcall fresp.
Abbreviation fcall_ c := (trigger fs c).

(** ** Endpoints *)

(** Ready unless it says otherwise. *)
Definition ready (ep : Endpoint) : bool := default true (ep_Ready ep).

(** [count += len(ep.Addresses)] for the ready ones, on an [int]. *)
Definition add_endpoint (count : Z) (ep : Endpoint) : Z :=
  if ready ep then int64 (count + Z.of_nat (length (ep_Addresses ep))) else count.
Definition add_slice (count : Z) (eps : EndpointSlice) : Z := fold_left add_endpoint (eps_Endpoints eps) count.

(** ** [KubernetesTargetContextFetcher] *)

Definition fetchDeploymentState (name namespace : string) (result : TargetContext) : prog fs TargetContext :=
  d <- fcall_ (FGetDeployment (NN namespace name)) ;;
  Ret (match d with
       | Err _ => result
       | Ok dep =>
           mkTC true (tc_HasActiveEndpoints result) (tc_ActiveEndpointCount result) (dep_ReadyReplicas dep)
             (default (tc_SpecReplicas result) (dep_Replicas dep)) (tc_DownstreamServices result)
             (dep_ResourceVersion dep)
       end).

Definition fetchEndpointState (name namespace : string) (result : TargetContext) : prog fs TargetContext :=
  l <- fcall_ (FListSlices namespace name) ;;
  Ret (match l with
       | Err _ => result
       | Ok items =>
           let count := fold_left add_slice items (tc_ActiveEndpointCount result) in
           mkTC (tc_Exists result || bool_decide (items ≠ [])) (0 <? count) count (tc_ReadyReplicas result)
             (tc_SpecReplicas result) (tc_DownstreamServices result) (tc_StateFingerprint result)
       end).

Definition Fetch (targetURI namespace : string) : prog fs (res TargetContext) :=
  let parsed := ParseTargetURI targetURI in
  if pu_Name parsed ==? "" then Ret (Ok TargetContext_zero)
  else
    let ns := if pu_Namespace parsed ==? "" then namespace else pu_Namespace parsed in
    result <- (if pu_ResourceType parsed ==? "deployment"
               then fetchDeploymentState (pu_Name parsed) ns TargetContext_zero else Ret TargetContext_zero) ;;
    result <- fetchEndpointState (pu_Name parsed) ns result ;;
    Ret (Ok result).

(** ** [FetchK8sDeployment] *)

(** The result, whose JSON encoding is the provider context. *)
Record DeploymentContext := mkDC {
  dc_TargetExists : bool;
  dc_HasActiveEndpoints : bool;
  dc_ActiveEndpointCount : Z;
  dc_ReadyReplicas : Z;
  dc_SpecReplicas : Z;
  dc_StateFingerprint : string }.

(** The endpoints of the services listed, one after the other. *)
Fixpoint count_services (ns : string) (services : list string) (count : Z) : prog fs Z :=
  match services with
  | [] => Ret count
  | svc :: services' =>
      l <- fcall_ (FListSlices ns svc) ;;
      count_services ns services' (match l with Ok items => fold_left add_slice items count | Err _ => count end)
  end.

Definition count_endpoints (ns : string) (dep : Deployment) : prog fs Z :=
  match dep_Selector dep with
  | Some labels =>
      if bool_decide (labels = ∅) then Ret 0
      else
        l <- fcall_ (FListServices ns labels) ;;
        match l with Ok services => count_services ns services 0 | Err _ => Ret 0 end
  | None => Ret 0
  end.

Definition FetchK8sDeployment (targetURI : string) : prog fs (res DeploymentContext) :=
  let fail text := Ret (Err (EMsg text)) in
  match url_Parse targetURI with
  | None => fail ("invalid k8s URI: " +:+ targetURI)%string
  | Some u =>
      if u_Scheme u <>? "k8s" then fail ("invalid k8s URI: " +:+ targetURI)%string
      else if negb (length (split slash (TrimPrefix (u_Path u) "/")) =? 3)%nat then
        fail ("invalid deployment URI " +:+ quote targetURI
                +:+ ": expected k8s://<cluster>/<namespace>/deployment/<name>")%string
      else
        let parsed := ParseTargetURI targetURI in
        if pu_ResourceType parsed <>? "deployment" then
          fail ("invalid resource type for k8s-deployment fetcher: " +:+ pu_ResourceType parsed)%string
        else if pu_Name parsed ==? "" then fail ("invalid deployment URI: " +:+ targetURI +:+ " (missing name)")%string
        else if pu_Namespace parsed ==? "" then
          fail ("invalid deployment URI: " +:+ targetURI +:+ " (missing namespace)")%string
        else
          d <- fcall_ (FGetDeployment (NN (pu_Namespace parsed) (pu_Name parsed))) ;;
          match d with
          | Err e =>
              if IsNotFound e then Ret (Ok (mkDC false false 0 0 0 ""))
              else Ret (Err (EWrap ("failed to fetch deployment " +:+ pu_Namespace parsed +:+ "/" +:+ pu_Name parsed)%string e))
          | Ok dep =>
              count <- count_endpoints (pu_Namespace parsed) dep ;;
              Ret (Ok (mkDC true (0 <? count) count (dep_ReadyReplicas dep) (default 0 (dep_Replicas dep))
                         (dep_ResourceVersion dep)))
          end
  end.

(** ** [FetchKarpenter] *)

Record ScalingEvent := mkScaling { se_Time : string; se_Direction : string; se_Delta : Z }.

Record KarpenterContext := mkKC {
  kc_CurrentLimitCPU : string;
  kc_CurrentLimitMemory : string;
  kc_CurrentNodeCount : Z;
  kc_PendingPods : Z;
  kc_EstimatedCostDeltaPerHour : string;
  kc_RecentScalingEvents : list ScalingEvent }.

Definition str_limit (limits : gmap string value) (k : string) : string :=
  match limits !! k with Some (VStr v) => v | _ => ""%string end.

Definition FetchKarpenter (targetURI : string) : prog fs (res KarpenterContext) :=
  let fail text := Ret (Err (EMsg text)) in
  match url_Parse targetURI with
  | None => fail ("invalid Karpenter URI: " +:+ targetURI)%string
  | Some u =>
      if u_Scheme u <>? "k8s" then fail ("invalid Karpenter URI: " +:+ targetURI)%string
      else match split slash (TrimPrefix (u_Path u) "/") with
      | group :: kind :: name :: _ =>
          if (group <>? "karpenter.sh") || (kind <>? "nodepool") then
            fail ("invalid Karpenter NodePool URI: " +:+ targetURI)%string
          else
            p <- fcall_ (FGetNodePool name) ;;
            let counted cpu mem :=
              n <- fcall_ (FListNodes name) ;;
              match n with
              | Err e => Ret (Err (EWrap ("failed to list nodes for NodePool " +:+ name)%string e))
              | Ok nodes =>
                  q <- fcall_ FListPods ;;
                  match q with
                  | Err e => Ret (Err (EWrap "failed to list pods" e))
                  | Ok phases =>
                      Ret (Ok (mkKC cpu mem (Z.of_nat nodes)
                                 (Z.of_nat (length (List.filter (λ ph, ph ==? "Pending") phases))) "$0.00" []))
                  end
              end in
            match p with
            | Err e =>
                if IsNotFound e then counted ""%string ""%string
                else Ret (Err (EWrap ("failed to fetch NodePool " +:+ name)%string e))
            | Ok None => counted ""%string ""%string
            | Ok (Some limits) => counted (str_limit limits "cpu") (str_limit limits "memory")
            end
      | _ => fail ("invalid Karpenter NodePool URI: " +:+ targetURI)%string
      end
  end.

(** ** [GitHubMCPFetcher] *)

Record mcpContentBlock := mkBlock { cb_Type : string; cb_Text : string; cb_Resource : option string }.
Record mcpToolResult := mkToolResult { tr_Content : list mcpContentBlock; tr_IsError : bool }.
Record mcpJSONRPCResponse := mkRpcResponse { rr_Result : option mcpToolResult; rr_Error : option string }.

(** The JSON decoders and the encoder of the result. *)
Class FetchJson := {
  Unmarshal_response : string → string + mcpJSONRPCResponse;
  Unmarshal_value : string → option value;
  Unmarshal_list : string → option (list value) }.

Record GitHubMCPFetcher := mkFetcher { baseURL : string; httpTimeout : Z }.

(** [strings.TrimRight(baseURL, "/")]. *)
Definition trim_slashes (s : string) : string :=
  String.string_of_list_ascii (reverse (drop_while (Ascii.eqb slash) (reverse (String.list_ascii_of_string s)))).

Definition defaultMCPHTTPTimeout : Z := 15 * Second.

Definition NewGitHubMCPFetcher (url : string) (timeout : Z) : GitHubMCPFetcher :=
  mkFetcher (trim_slashes url) (if timeout <=? 0 then defaultMCPHTTPTimeout else timeout).

Definition DefaultGitHubMCPFetcher : GitHubMCPFetcher :=
  NewGitHubMCPFetcher "http://github-mcp.aip-k8s-system.svc" defaultMCPHTTPTimeout.

Section github.
Context `{FJ : FetchJson}.
(** [AIP_MCP_TOKEN] of the process, [""] if it is not set. *)
Context (mcpToken : string) (f : GitHubMCPFetcher).

Definition callMCPTool (toolName : string) (args : gmap string value) : prog fs (res mcpToolResult) :=
  let fail text := Ret (Err (EMsg text)) in
  a <- fcall_ (FPost (baseURL f +:+ "/tools/call")%string (if mcpToken <>? "" then Some mcpToken else None) toolName args) ;;
  match a with
  | HBadRequest e => Ret (Err (EWrap "failed to build MCP request" e))
  | HUnreachable e => Ret (Err (EWrap "MCP server unreachable" e))
  | HAnswer status body =>
      if negb (status =? 200) then
        fail ("MCP server returned status " +:+ pretty status +:+ ": "
                +:+ TrimSpace (match body with Ok b => b | Err _ => "" end))%string
      else match body with
      | Err e => Ret (Err (EWrap "failed to read MCP response body" e))
      | Ok b =>
          match Mcp.ExtractSSEDataLine b with
          | None =>
              fail (if b ==? "" then "SSE response body is empty"
                    else "SSE response missing data line (body length: " +:+ pretty (String.length b) +:+ ")")%string
          | Some dataLine =>
              match Unmarshal_response dataLine with
              | inl err => fail ("failed to decode MCP response: " +:+ err)%string
              | inr rpcResp =>
                  match rr_Error rpcResp, rr_Result rpcResp with
                  | Some msg, _ => fail ("MCP tool error: " +:+ msg)%string
                  | None, None => fail "MCP response missing result"%string
                  | None, Some result =>
                      if tr_IsError result then
                        fail ("MCP tool error: " +:+ match tr_Content result with
                              | b0 :: _ => cb_Text b0 | [] => "MCP tool returned an error" end)%string
                      else Ret (Ok result)
                  end
              end
          end
      end
  end.

Definition extractTextContent (resp : mcpToolResult) : string :=
  match List.find (λ b, (cb_Type b ==? "resource") && bool_decide (is_Some (cb_Resource b))) (tr_Content resp) with
  | Some b => default ""%string (cb_Resource b)
  | None =>
      match List.find (λ b, cb_Type b ==? "text") (tr_Content resp) with
      | Some b => cb_Text b
      | None => ""%string
      end
  end.

Definition optional (k v : string) (m : gmap string value) : gmap string value := if v <>? "" then <[k := VStr v]> m else m.

(** The second half of [Fetch]: the open pull requests, if they can be had. *)
Definition with_pull_requests (org repoName : string) (result : gmap string value) : prog fs (res (gmap string value)) :=
  r <- callMCPTool "list_pull_requests"
         (list_to_map [("owner"%string, VStr org); ("repo"%string, VStr repoName); ("state"%string, VStr "open");
                       ("per_page"%string, VInt 100)]) ;;
  Ret (Ok (match r with
           | Ok prResp =>
               match Unmarshal_list (extractTextContent prResp) with
               | Some prs => <["openPRCount" := VInt (Z.of_nat (length prs))]> result
               | None => result
               end
           | Err _ => result
           end))%string.

(** The map whose JSON encoding is the provider context. *)
Definition GitHub_Fetch (targetURI : string) : prog fs (res (gmap string value)) :=
  match parseGitHubURI targetURI with
  | inl err => Ret (Err (EMsg err))
  | inr (mkGitHub org repoName branch filePath) =>
      if filePath <>? "" then
        r <- callMCPTool "get_file_contents"
               (optional "branch" branch
                  (list_to_map [("owner"%string, VStr org); ("repo"%string, VStr repoName); ("path"%string, VStr filePath)])) ;;
        match r with
        | Err e => Ret (Err (EWrap "MCP get_file_contents failed" e))
        | Ok resp =>
            let text := extractTextContent resp in
            with_pull_requests org repoName
              (<["filePath" := VStr filePath]> (optional "branch" branch
                 (list_to_map [("fileContent"%string, default (VStr text) (Unmarshal_value text));
                               ("owner"%string, VStr org); ("repo"%string, VStr repoName)])))%string
        end
      else
        with_pull_requests org repoName
          (list_to_map [("owner"%string, VStr org); ("repo"%string, VStr repoName); ("ciStatus"%string, VStr "unknown")])
  end.
End github.

(** ** What a fetch tells *)

(** The ready addresses of some slices. *)
Definition slice_addresses (eps : EndpointSlice) : nat :=
  sum_list_with (λ ep, length (ep_Addresses ep)) (List.filter ready (eps_Endpoints eps)).
Definition ready_addresses (l : list EndpointSlice) : nat := sum_list_with slice_addresses l.

Arguments ready_addresses : simpl never.

(** The slices that were listed, and the deployment that was read. *)
Definition slices_in (e : event fs) : list EndpointSlice :=
  match e with
  | Ev c x =>
      match c as c return fresp c → list EndpointSlice with
      | FListSlices _ _ => λ r, match r with Ok l => l | Err _ => [] end
      | _ => λ _, []
      end x
  end.
Definition slices_of (t : list (event fs)) : list EndpointSlice := t ≫= slices_in.

Definition deployment_in (e : event fs) : option Deployment :=
  match e with
  | Ev c x =>
      match c as c return fresp c → option Deployment with
      | FGetDeployment _ => λ r, match r with Ok d => Some d | Err _ => None end
      | _ => λ _, None
      end x
  end.
Definition deployment_of (t : list (event fs)) : option Deployment := head (omap deployment_in t).

Lemma add_endpoints_sum l count :
  0 ≤ count → count + Z.of_nat (sum_list_with (λ ep, length (ep_Addresses ep)) (List.filter ready l)) < 2 ^ 63 →
  fold_left add_endpoint l count = count + Z.of_nat (sum_list_with (λ ep, length (ep_Addresses ep)) (List.filter ready l)).
Proof.
  revert count. induction l as [|ep l IH]; intros count H0 Hb; cbn in *; [lia|]. unfold add_endpoint at 2.
  destruct (ready ep); cbn in *; [|by apply IH]. unfold int64. rewrite wrap_id by lia. rewrite IH; lia.
Qed.

Lemma add_slices_sum l count :
  0 ≤ count → count + Z.of_nat (ready_addresses l) < 2 ^ 63 →
  fold_left add_slice l count = count + Z.of_nat (ready_addresses l).
Proof.
  revert count. induction l as [|eps l IH]; intros count H0; [unfold ready_addresses; cbn; lia|].
  assert (ready_addresses (eps :: l) = slice_addresses eps + ready_addresses l)%nat as -> by done. intros Hb. cbn [fold_left].
  assert (add_slice count eps = count + Z.of_nat (slice_addresses eps)) as -> by (apply add_endpoints_sum; [done|]; fold (slice_addresses eps); lia).
  rewrite IH; lia.
Qed.

Lemma none_is_none {A} : is_Some (None : option A) ↔ False.
Proof. split; [by intros [x [=]]|done]. Qed.

(** A fetch of the target never fails.  It shows an endpoint count that is the
    number of ready addresses of the slices listed; the target exists if its
    deployment or a slice was found, and the replicas and the fingerprint are
    those of the deployment as it was read, or zero. *)
Theorem target_context_fetched uri namespace t r :
  runs (Fetch uri namespace) t r → Z.of_nat (ready_addresses (slices_of t)) < 2 ^ 63 →
  ∃ tc, r = Ok tc ∧
    tc_ActiveEndpointCount tc = Z.of_nat (ready_addresses (slices_of t)) ∧
    (tc_HasActiveEndpoints tc = true ↔ (0 < ready_addresses (slices_of t))%nat) ∧
    (tc_Exists tc = true ↔ is_Some (deployment_of t) ∨ slices_of t ≠ []) ∧
    tc_StateFingerprint tc = default ""%string (dep_ResourceVersion <$> deployment_of t) ∧
    tc_ReadyReplicas tc = default 0 (dep_ReadyReplicas <$> deployment_of t) ∧
    tc_SpecReplicas tc = default 0 (mjoin (dep_Replicas <$> deployment_of t)).
Proof.
  unfold Fetch. destruct (pu_Name (ParseTargetURI uri) ==? "").
  { intros [-> <-] _. exists TargetContext_zero. cbn. change (ready_addresses []) with 0%nat. rewrite none_is_none. split; [done|]. split; [done|]. split; [split; [done|lia]|]. naive_solver. }
  destruct (pu_ResourceType (ParseTargetURI uri) ==? "deployment").
  - intros (x & t1 & -> & y & t2 & -> & -> & <-). unfold slices_of, deployment_of. destruct x as [d|e], y as [items|e']; cbn;
      rewrite ?app_nil_r; intros Hb; eexists; (split; [done|]); cbn; rewrite ?add_slices_sum by done.
    + rewrite Z.ltb_lt. split; [done|]. split; [lia|]. naive_solver.
    + change (ready_addresses []) with 0%nat. split; [done|]. split; [split; [done|lia]|]. naive_solver.
    + rewrite Z.ltb_lt, bool_decide_eq_true, none_is_none. split; [done|]. split; [lia|]. naive_solver.
    + change (ready_addresses []) with 0%nat. rewrite none_is_none. split; [done|]. split; [split; [done|lia]|]. naive_solver.
  - intros (y & t2 & -> & -> & <-). unfold slices_of, deployment_of. destruct y as [items|e']; cbn;
      rewrite ?app_nil_r; intros Hb; eexists; (split; [done|]); cbn; rewrite ?add_slices_sum by done.
    + rewrite Z.ltb_lt, bool_decide_eq_true, none_is_none. split; [done|]. split; [lia|]. naive_solver.
    + change (ready_addresses []) with 0%nat. rewrite none_is_none. split; [done|]. split; [split; [done|lia]|]. naive_solver.
Qed.

Lemma slices_app t1 t2 : slices_of (t1 ++ t2) = slices_of t1 ++ slices_of t2.
Proof. apply bind_app. Qed.

Lemma ready_app l1 l2 : ready_addresses (l1 ++ l2) = (ready_addresses l1 + ready_addresses l2)%nat.
Proof. apply sum_list_with_app. Qed.

Lemma count_services_sum ns services count t n :
  runs (count_services ns services count) t n → 0 ≤ count → count + Z.of_nat (ready_addresses (slices_of t)) < 2 ^ 63 →
  n = count + Z.of_nat (ready_addresses (slices_of t)).
Proof.
  revert count t. induction services as [|svc services IH]; intros count t; cbn [count_services].
  - intros [-> <-] _ _. change (ready_addresses (slices_of [])) with 0%nat. lia.
  - intros (x & t' & -> & Hr) H0. change (slices_of (?e :: t')) with (slices_in e ++ slices_of t').
    rewrite ready_app. intros Hb. destruct x as [items|e]; cbn -[count_services] in Hr; cbn [slices_in] in *.
    + rewrite add_slices_sum in Hr by lia. apply IH in Hr; lia.
    + change (ready_addresses []) with 0%nat in *. apply IH in Hr; lia.
Qed.

Lemma count_endpoints_sum ns dep t n :
  runs (count_endpoints ns dep) t n → Z.of_nat (ready_addresses (slices_of t)) < 2 ^ 63 →
  n = Z.of_nat (ready_addresses (slices_of t)).
Proof.
  unfold count_endpoints. destruct (dep_Selector dep) as [labels|]; [|by intros [-> <-]].
  destruct (bool_decide _); [by intros [-> <-]|]. intros (x & t' & -> & Hr).
  change (slices_of (?e :: t')) with (slices_of t'). intros Hb. destruct x as [services|e]; [|by destruct Hr as [-> <-]].
  apply count_services_sum in Hr; lia.
Qed.

(** The context of a deployment exists exactly when the deployment was read,
    with its replicas and version; its count is that of the ready addresses of
    the slices listed for it. *)
Theorem deployment_context_fetched uri t c :
  runs (FetchK8sDeployment uri) t (Ok c) → Z.of_nat (ready_addresses (slices_of t)) < 2 ^ 63 →
  dc_ActiveEndpointCount c = Z.of_nat (ready_addresses (slices_of t)) ∧
  dc_HasActiveEndpoints c = bool_decide (0 < ready_addresses (slices_of t))%nat ∧
  match deployment_of t with
  | Some dep => dc_TargetExists c = true ∧ dc_ReadyReplicas c = dep_ReadyReplicas dep ∧
      dc_SpecReplicas c = default 0 (dep_Replicas dep) ∧ dc_StateFingerprint c = dep_ResourceVersion dep
  | None => c = mkDC false false 0 0 0 ""
  end.
Proof.
  unfold FetchK8sDeployment. destruct (url_Parse uri) as [u|]; [|by intros [_ [=]]].
  repeat (destruct (_ : bool); [by intros [_ [=]]|]). intros (x & t' & -> & Hr).
  change (slices_of (?e :: t')) with (slices_of t').
  destruct x as [dep|e]; cbn in Hr.
  - apply runs_bind in Hr as (n & t1 & t2 & -> & Hc & -> & [= <-]). rewrite app_nil_r. intros Hb.
    apply count_endpoints_sum in Hc; [|done]. subst n. cbn. split; [done|]. split; [|done].
    apply eq_true_iff_eq. rewrite Z.ltb_lt, bool_decide_eq_true. lia.
  - destruct (IsNotFound e); [|by destruct Hr as [_ [=]]]. by destruct Hr as [-> [= <-]].
Qed.

(** Every call to the MCP server is one of the two that read, for the owner
    and repository that the URI names. *)
Theorem github_fetch_scoped `{FJ : FetchJson} mcpToken f uri t1 url token tool args x t2 :
  emits (GitHub_Fetch mcpToken f uri) (t1 ++ Ev (S:=fs) (FPost url token tool args) x :: t2) →
  ∃ g, parseGitHubURI uri = inr g ∧ url = (baseURL f +:+ "/tools/call")%string ∧
    tool ∈ ["get_file_contents"; "list_pull_requests"]%string ∧
    args !! "owner"%string = Some (VStr (gh_Org g)) ∧ args !! "repo"%string = Some (VStr (gh_Repo g)).
Proof.
  set (P := λ (_ : list (event fs)) (c : op fs), match c with
    | FPost url token tool args =>
      ∃ g, parseGitHubURI uri = inr g ∧ url = (baseURL f +:+ "/tools/call")%string ∧
        tool ∈ ["get_file_contents"; "list_pull_requests"]%string ∧
        args !! "owner"%string = Some (VStr (gh_Org g)) ∧ args !! "repo"%string = Some (VStr (gh_Repo g))
    | _ => True end).
  intros He. refine (safe_emits any P [] _ (λ _ _, True) t1 (FPost url token tool args) x t2 _ (any_all _) He).
  assert (∀ h tool args, P h (FPost (baseURL f +:+ "/tools/call") (if mcpToken <>? "" then Some mcpToken else None) tool args) →
    safe any P h (callMCPTool mcpToken f tool args) (λ _ _, True)) as Hcall.
  { intros h tl ar HP. split; [exact HP|]. intros [e|e|st body] _; [exact I..|]. cbn.
    destruct (negb (st =? 200)); [exact I|]. destruct body as [b|]; [|exact I]. destruct (Mcp.ExtractSSEDataLine b); [|exact I].
    destruct (Unmarshal_response _) as [|[[result|] [msg|]]]; cbn [rr_Error rr_Result]; try exact I. destruct (tr_IsError result); exact I. }
  unfold GitHub_Fetch. destruct (parseGitHubURI uri) as [|[org repo branch path]] eqn:Eg; [exact I|].
  assert (∀ h m, safe any P h (with_pull_requests mcpToken f org repo m) (λ _ _, True)) as Hprs.
  { intros h m. apply safe_bind. eapply (safe_post _ _ _ _ (λ _ _, True)); [by intros|]. apply Hcall. exists (mkGitHub org repo branch path).
    split; [done|]. split; [done|]. split; [set_solver|]. by split. }
  destruct (path <>? ""); [|apply Hprs]. apply safe_bind. eapply (safe_post _ _ _ _ (λ _ _, True)).
  - intros h [resp|e] _; [apply Hprs|exact I].
  - apply Hcall. exists (mkGitHub org repo branch path). split; [done|]. split; [done|]. split; [set_solver|].
    unfold optional. destruct (branch <>? ""); [rewrite !lookup_insert_ne by done|]; by split.
Qed.

(** ** Examples *)

Module FetcherRuns.

(** A service that selects the deployment's pods, with no labels of its own,
    as the API server lists it. *)
Definition fenv (c : op fs) : ans fs c :=
  match c return fresp c with
  | FGetDeployment _ => Ok (mkDeployment (Some 3) (Some {["app" := "api"]}%string) 3 "42")
  | FListSlices _ service => if service ==? "front" then Ok [mkSlice [mkEndpoint None ["10.0.0.1"; "10.0.0.2"]%string]] else Ok []
  | FListServices _ labels => Ok (if bool_decide (labels = ∅) then ["front"%string] else [])
  | FGetNodePool _ => Ok None
  | FListNodes _ => Ok 0%nat
  | FListPods => Ok []
  | FPost _ _ _ _ => HAnswer 500 (Ok "")
  end.

Definition front_uri : string := "k8s://prod/default/service/front".
Definition api_uri : string := "k8s://prod/default/deployment/api".

Lemma target_context_fetched_witness :
  ∃ tc, (play fenv (Fetch front_uri "default")).2 = Ok tc ∧ tc_ActiveEndpointCount tc = 2.
Proof.
  destruct (target_context_fetched front_uri "default" _ _ (play_runs fenv _)) as (tc & Hr & Hc & _); [vm_compute; reflexivity|].
  exists tc. split; [exact Hr|]. rewrite Hc. vm_compute. reflexivity.
Defined.

(** The services are listed by the labels that select the pods, not by what
    the services select: traffic that reaches the deployment is not seen. *)
Example live_deployment_without_endpoints :
  (play fenv (FetchK8sDeployment api_uri)).2 = Ok (mkDC true false 0 3 3 "42").
Proof. vm_compute. reflexivity. Qed.

(** An API server that cannot be reached looks like a target that does not
    exist. *)
Definition down (c : op fs) : ans fs c :=
  match c return fresp c with
  | FPost _ _ _ _ => HUnreachable (EMsg "down")
  | FGetDeployment _ | FListSlices _ _ | FListServices _ _ | FGetNodePool _ | FListNodes _ | FListPods =>
      Err (EApi (OtherStatus 503))
  end.

Example unreachable_looks_absent : (play down (Fetch api_uri "default")).2 = Ok TargetContext_zero.
Proof. vm_compute. reflexivity. Qed.
End FetcherRuns.

(** ** The configured fetcher of tests and demos ([mock_fetcher.go]) *)

Module MockFetcher.

Record MockTargetContextFetcher := mkMock {
  Responses : gmap string (option TargetContext);   (** a nil map is an empty one; values may be nil *)
  Default : option TargetContext;
  FetchErr : option error }.

Definition mock_Fetch (m : MockTargetContextFetcher) (targetURI : string) : option TargetContext * option error :=
  match FetchErr m with
  | Some e => (None, Some e)
  | None =>
      match Responses m !! targetURI with
      | Some ctx => (ctx, None)
      | None =>
          match Default m with
          | Some ctx => (Some ctx, None)
          | None => (Some TargetContext_zero, None)
          end
      end
  end.

Definition LiveTrafficContext (deploymentName : string) : MockTargetContextFetcher :=
  mkMock ∅ (Some (mkTC true true 3 3 3 ["cost-explorer"; "payment-worker"]%string "mock-v1")) None.

Definition NoTrafficContext : MockTargetContextFetcher := mkMock ∅ (Some (mkTC true false 0 0 3 [] "mock-v1")) None.

(** The fetcher answers every fetch. *)
Definition mocked (m : MockTargetContextFetcher) (e : event ctl) : Prop :=
  let 'Ev c x := e in
  match c return resp c → Prop with CFetchTarget uri _ => λ x, x = mock_Fetch m uri | _ => λ _, True end x.

Section mock.
Context `{MC : MetaConditions, EV : Evaluator, KL : KubeLib}.
Context (r : AgentRequestReconciler) (m : MockTargetContextFetcher).

Lemma mock_total uri : (∀ u, Responses m !! u ≠ Some None) → ∀ tc, mock_Fetch m uri = (tc, None) → is_Some tc.
Proof.
  intros Hn tc. unfold mock_Fetch. destruct (FetchErr m); [done|].
  destruct (Responses m !! uri) as [[ctx|]|] eqn:E; [by intros [= <-]|by destruct (Hn uri)|].
  destruct (Default m); by intros [= <-].
Qed.

Lemma affected_total a ts st t x :
  is_Some st.1 → Forall (mocked m) t → runs (fetch_all_affected a ts st) t x → ∃ c cs, x = Ok (Some c, cs).
Proof.
  revert st t. induction ts as [|u ts IH]; intros [tc cs] t [c Htc] Hf; cbn [fetch_all_affected fst] in *; subst tc.
  { intros [_ <-]. by exists c, cs. }
  intros (y & t1 & t2 & -> & H1 & H2)%runs_bind. apply Forall_app in Hf as [_ Hf2].
  assert (∃ st', y = Ok st' ∧ is_Some st'.1) as (st' & -> & Hs).
  { unfold fetch_affected in H1. destruct H1 as (z & t' & _ & H1). cbn in H1.
    destruct z as [[cc|] [e|]]; try (destruct (tc_Exists cc)); destruct H1 as [_ <-]; by eexists. }
  by apply (IH st' t2).
Qed.

(** With a mock that holds no nil context the controller never dereferences
    one: fetching ends with a context, or without one when the mock is set to
    fail, and side effects are then not looked at. *)
Theorem mock_never_panics a t x :
  TargetContextFetcher r = true → (∀ u, Responses m !! u ≠ Some None) →
  runs (fetchTargetContext r a) t x → Forall (mocked m) t →
  ∃ tc cs, x = Ok (tc, cs) ∧ (FetchErr m = None ↔ is_Some tc).
Proof.
  intros Hr Hn Hx Hf. unfold fetchTargetContext in Hx. rewrite Hr in Hx.
  destruct Hx as (y & t' & -> & Hx). apply Forall_cons in Hf as [-> Hf].
  destruct (mock_Fetch m (target_uri a)) as [tc [e|]] eqn:E.
  - destruct Hx as [_ <-]. exists tc, ∅. split; [done|]. revert E. unfold mock_Fetch.
    destruct (FetchErr m); [intros [= <- <-]; split; [done|by intros []]|].
    destruct (Responses m !! _); [done|]. by destruct (Default m).
  - assert (FetchErr m = None) as Herr by (revert E; unfold mock_Fetch; by destruct (FetchErr m)).
    pose proof (mock_total _ Hn _ E) as Htc. destruct (spec_CascadeModel (ar_Spec a)) as [cm|].
    + destruct (affected_total a _ (tc, ∅) _ _ Htc Hf Hx) as (c & cs & ->). by exists (Some c), cs.
    + destruct Hx as [_ <-]. by exists tc, ∅.
Qed.
End mock.

(** A deployment with live traffic, as the evaluator is shown it. *)
Example live_traffic_shown :
  (mock_Fetch (LiveTrafficContext "api") "k8s://prod/default/deployment/api").1 =
  Some (mkTC true true 3 3 3 ["cost-explorer"; "payment-worker"]%string "mock-v1") ∧
  (tc_HasActiveEndpoints <$> (mock_Fetch NoTrafficContext "x").1) = Some false.
Proof. done. Qed.

End MockFetcher.
