(* ===== verification/KeyPair.v ===== *)
(** * Key files ([internal/jwt/manager.go])

    How key pairs are generated and written, and that what is written is what
    the manager loads.  [Jwt] models loading, minting and validation. *)

From S2P Require Import Prelude GoStd GoStrings Types Prog Jwt.

(** The encoders of keys; what they write can be read back. *)
Class KeyCodec `{JwtLib} := {
  MarshalPKCS8PrivateKey : PrivateKey → res string;
  MarshalPKIXPublicKey : PublicKey → res string;
  pem_Encode : string → string → res string;      (** type, bytes *)
  pem_roundtrip : ∀ ty b s, pem_Encode ty b = Ok s → pem_Decode s = Some b;
  pkcs8_roundtrip : ∀ sk b, MarshalPKCS8PrivateKey sk = Ok b → ParsePKCS8PrivateKey b = inr (Some sk) }.

Section keys.
Context `{KC : KeyCodec}.

(** [errors] wrapped on the way. *)
Definition wrap_err {A} (msg : string) (r : res A) : res A := match r with Ok a => Ok a | Err e => Err (EWrap msg e) end.

Definition res_bind {A B} (r : res A) (k : A → res B) : res B := match r with Ok a => k a | Err e => Err e end.

(** [gen] is the answer of [ed25519.GenerateKey]. *)
Definition GenerateKeyPair (gen : res PrivateKey) : res (string * string) :=
  res_bind (wrap_err "generate key" gen) (λ priv,
  res_bind (wrap_err "marshal private key" (MarshalPKCS8PrivateKey priv)) (λ pkcs8,
  res_bind (wrap_err "encode private key" (pem_Encode "PRIVATE KEY" pkcs8)) (λ privatePEM,
  res_bind (wrap_err "marshal public key" (MarshalPKIXPublicKey (Public priv))) (λ pkix,
  res_bind (wrap_err "encode public key" (pem_Encode "PUBLIC KEY" pkix)) (λ publicPEM,
  Ok (privatePEM, publicPEM)))))).

Definition PublicKeyPEM (m : Manager) : res string :=
  res_bind (wrap_err "marshal public key" (MarshalPKIXPublicKey (publicKey m))) (λ keyData,
  wrap_err "encode PEM" (pem_Encode "PUBLIC KEY" keyData)).

(** ** Writing a key file *)

Inductive kcall :=
| KRandomKey                                      (** [ed25519.GenerateKey] *)
| KOpenTruncate (path : string)
| KWrite (path data : string)
| KClose (path : string).

Definition kresp (c : kcall) : Type :=
  match c with
  | KRandomKey => res PrivateKey
  | KOpenTruncate _ | KWrite _ _ | KClose _ => option error
  end.

Definition kf : sig := mkSig kcall kresp.
Abbreviation kcall_ c := (trigger kf c).

Definition GenerateEd25519Key (path : string) : prog kf (option error) :=
  g <- kcall_ KRandomKey ;;
  match g with
  | Err e => Ret (Some (EWrap ("generate key for " +:+ path)%string e))
  | Ok priv =>
      match MarshalPKCS8PrivateKey priv with
      | Err e => Ret (Some (EWrap ("marshal key for " +:+ path)%string e))
      | Ok keyData =>
          o <- kcall_ (KOpenTruncate path) ;;
          match o with
          | Some e => Ret (Some (EWrap ("create key file " +:+ path)%string e))
          | None =>
              let failed e := kcall_ (KClose path) ;;; Ret (Some (EWrap ("encode PEM for " +:+ path)%string e)) in
              match pem_Encode "PRIVATE KEY" keyData with
              | Err e => failed e
              | Ok data =>
                  w <- kcall_ (KWrite path data) ;;
                  match w with
                  | Some e => failed e
                  | None =>
                      c <- kcall_ (KClose path) ;;
                      Ret (match c with Some e => Some (EWrap ("close key file " +:+ path)%string e) | None => None end)
                  end
              end
          end
      end
  end.

(** [NewManager], on the answer of [os.ReadFile]. *)
Definition NewManager (file : res string) (now : Z) : res Manager :=
  match file with
  | Err e => Err (EWrap "read key file" e)
  | Ok data => NewManagerFromPEM data now
  end.

(** The loop of [StartKeyWatcher], one entry per tick: what the file held and
    when it was read; the errors are logged. *)
Definition StartKeyWatcher (m : Manager) (ticks : list (res string * Z)) : Manager * list error :=
  fold_left (λ st tick, let '(m', err) := ReloadKey tick.1 tick.2 st.1 in
    (m', match err with Some e => st.2 ++ [e] | None => st.2 end)) ticks (m, []).

(** ** What is written loads *)

Lemma private_pem_loads sk b data now :
  MarshalPKCS8PrivateKey sk = Ok b → pem_Encode "PRIVATE KEY" b = Ok data →
  NewManagerFromPEM data now = Ok (mkManager sk (Public sk) None now).
Proof.
  intros Hm He. unfold NewManagerFromPEM, parse_key.
  by rewrite (pem_roundtrip _ _ _ He), (pkcs8_roundtrip _ _ Hm).
Qed.

(** A generated pair belongs together: the private part loads as the key that
    was generated, and the public part is what the manager then publishes.
    The private file that is written loads as the same key. *)
Theorem generated_key_loads :
  (∀ gen priv pub, GenerateKeyPair gen = Ok (priv, pub) →
     ∃ sk, gen = Ok sk ∧ ∀ now, ∃ m, NewManagerFromPEM priv now = Ok m ∧ privateKey m = sk ∧ PublicKeyPEM m = Ok pub) ∧
  (∀ path t, runs (GenerateEd25519Key path) t None →
     ∃ sk data, t = [Ev (S:=kf) KRandomKey (Ok sk); Ev (S:=kf) (KOpenTruncate path) None;
                     Ev (S:=kf) (KWrite path data) None; Ev (S:=kf) (KClose path) None] ∧
       ∀ now, NewManager (Ok data) now = Ok (mkManager sk (Public sk) None now)).
Proof.
  split.
  - intros gen priv pub. unfold GenerateKeyPair. destruct gen as [sk|]; [|done]. cbn.
    destruct (MarshalPKCS8PrivateKey sk) as [b|] eqn:Em; [|done]. cbn.
    destruct (pem_Encode "PRIVATE KEY" b) as [data|] eqn:Ee; [|done]. cbn.
    destruct (MarshalPKIXPublicKey (Public sk)) as [p|] eqn:Ep; [|done]. cbn.
    destruct (pem_Encode "PUBLIC KEY" p) as [pd|] eqn:Epd; [|done]. intros [= <- <-].
    exists sk. split; [done|]. intros now. eexists. split; [by eapply private_pem_loads|]. split; [done|].
    unfold PublicKeyPEM. cbn [publicKey]. rewrite Ep. cbn [wrap_err res_bind]. by rewrite Epd.
  - intros path t (g & t1 & -> & Hr). destruct g as [sk|e]; [|by destruct Hr]. cbn in Hr.
    destruct (MarshalPKCS8PrivateKey sk) as [b|] eqn:Em; [|by destruct Hr].
    destruct Hr as ([e|] & t2 & -> & Hr); [by destruct Hr|]. cbn in Hr.
    destruct (pem_Encode "PRIVATE KEY" b) as [data|] eqn:Ee; [|by destruct Hr as (? & ? & _ & _ & [=])].
    destruct Hr as ([e|] & t3 & -> & Hr); [by destruct Hr as (? & ? & _ & _ & [=])|]. cbn in Hr.
    destruct Hr as ([e|] & t4 & -> & -> & [=]). exists sk, data. split; [done|]. intros now. by eapply private_pem_loads.
Qed.

(** The watcher's key is the one of the last file that loaded. *)
Lemma watcher_key m ticks : (StartKeyWatcher m ticks).1 = key_after m ticks.
Proof.
  unfold StartKeyWatcher. change m with (fst (m, @nil error)) at 2. generalize (m, @nil error). clear m.
  induction ticks as [|tick ticks IH]; intros st; [done|]. cbn. rewrite IH. by destruct (ReloadKey tick.1 tick.2 st.1).
Qed.
End keys.

(** ** An instance *)

Module KeyPairRuns.
Import ToyJwt.
#[local] Instance toy_keys : JwtLib := toy_jwt sample.

Definition marshal_toy (sk : Z) : res string :=
  if sk =? 1 then Ok "k1"%string else if sk =? 2 then Ok "k2"%string else Err (EMsg "unsupported").

Definition toy_codec : KeyCodec.
Proof.
  refine {| MarshalPKCS8PrivateKey := marshal_toy; MarshalPKIXPublicKey pk := Ok (pretty (pk : Z)); pem_Encode _ b := Ok b |}.
  - by intros ty b s [= <-].
  - intros sk b. unfold marshal_toy. destruct (Z.eqb_spec sk 1) as [->|]; [by intros [= <-]|].
    destruct (Z.eqb_spec sk 2) as [->|]; [by intros [= <-]|done].
Defined.
#[local] Existing Instance toy_codec.

Definition key2 : PrivateKey (JwtLib:=toy_keys) := 2.

Lemma generated_key_loads_witness :
  ∃ m, NewManagerFromPEM "k2" 0 = Ok m ∧ privateKey m = key2 ∧ PublicKeyPEM m = Ok "2"%string.
Proof.
  destruct (generated_key_loads (KC := toy_codec)) as [H _].
  destruct (H (Ok key2) "k2"%string "2"%string eq_refl) as (sk & Hsk & Hm). injection Hsk as <-. exact (Hm 0).
Defined.
End KeyPairRuns.
