(* ===== verification/Watches.v ===== *)
(** * What the controllers watch ([SetupWithManager] of [internal/controller])

    Which changes of the cluster bring which object back to its reconciler. *)

From S2P Require Import Prelude GoStd GoStrings Types Prog Kube Naming TrustKube AccuracyController Conditions.
From S2P Require Import Registration GatewayAuth Gateway GovernedResourceController TrustProfileController Recompute AccuracyFacts.

(** ** controller-runtime *)

Inductive change (A : Type) :=
| Created (new : A)
| Updated (old new : A)
| Deleted (old : A)
| Generic (obj : A).
Arguments Created {A} _.
Arguments Updated {A} _ _.
Arguments Deleted {A} _.
Arguments Generic {A} _.

(** The objects an event carries, and the one a predicate looks at. *)
Definition carried {A} (c : change A) : list A :=
  match c with Created a | Deleted a | Generic a => [a] | Updated old new => [old; new] end.
Definition subject {A} (c : change A) : A :=
  match c with Created a | Deleted a | Generic a => a | Updated _ new => new end.

(** [handler.EnqueueRequestsFromMapFunc] runs on every object of an event;
    [predicate.NewPredicateFuncs] looks at the newest; the documented
    [predicate.GenerationChangedPredicate] filters updates only. *)
Class WatchLib := {
  EnqueueMapped : ∀ {A}, (A → list NamespacedName) → change A → list NamespacedName;
  enqueue_spec : ∀ {A} (f : A → list NamespacedName) c nn,
    nn ∈ EnqueueMapped f c ↔ ∃ a, a ∈ carried c ∧ nn ∈ f a;
  NewPredicateFuncs : ∀ {A}, (A → bool) → change A → bool;
  predicate_spec : ∀ {A} (f : A → bool) c, NewPredicateFuncs f c = f (subject c);
  GenerationChangedPredicate : ∀ {A}, (A → ObjectMeta) → change A → bool;
  generation_spec : ∀ {A} (m : A → ObjectMeta) c,
    GenerationChangedPredicate m c =
      match c with Updated old new => negb (om_Generation (m new) =? om_Generation (m old)) | _ => true end }.

Section watches.
Context `{WL : WatchLib}.

Definition own_key {A} (m : A → ObjectMeta) (a : A) : list NamespacedName := [key_of (m a)].
Definition filtered (p : bool) (l : list NamespacedName) : list NamespacedName := if p then l else [].

(** ** GovernedResource *)

Inductive gr_event := GrObject (c : change GovernedResource) | GrRequest (c : change AgentRequest).

Definition resource_of_request (ar : AgentRequest) : list NamespacedName :=
  match spec_GovernedResourceRef (ar_Spec ar) with None => [] | Some ref => [NN "" (ref_Name ref)] end.

Definition GR_watch (e : gr_event) : list NamespacedName :=
  match e with
  | GrObject c => EnqueueMapped (own_key gr_Meta) c
  | GrRequest c => EnqueueMapped resource_of_request c
  end.

(** ** AgentRequest, SafetyPolicy and accuracy *)

Definition AgentRequest_watch (c : change AgentRequest) : list NamespacedName := EnqueueMapped (own_key ar_Meta) c.
Definition SafetyPolicy_watch (c : change SafetyPolicy) : list NamespacedName := EnqueueMapped (own_key sp_Meta) c.

(** [SafetyPolicyReconciler.Reconcile] does nothing; there is no error. *)
Definition SafetyPolicy_Reconcile (nn : NamespacedName) : option error := None.

Definition Accuracy_watch (c : change AgentRequest) : list NamespacedName :=
  filtered (NewPredicateFuncs (λ req, st_Verdict (ar_Status req) <>? "") c) (EnqueueMapped (own_key ar_Meta) c).

(** ** AgentTrustProfile *)

(** The field index on registrations. *)
Definition index_agentProfileName (reg : AgentRegistration) : list string :=
  if reg_AgentIdentity (reg_Spec reg) ==? "" then [] else [ProfileNameForAgent (reg_AgentIdentity (reg_Spec reg))].

Definition dasPredicate (c : change DiagnosticAccuracySummary) : bool :=
  NewPredicateFuncs (λ das, bool_decide (is_Some (das_DiagnosticAccuracy (das_Status das)))) c.

Definition arPredicate (c : change AgentRequest) : bool :=
  match c with
  | Created _ => true
  | Updated _ ar => (phase ar ==? PhaseCompleted) || (phase ar ==? PhaseFailed) || (phase ar ==? PhaseDenied)
  | Deleted _ | Generic _ => false
  end.

Definition profile_of_summary (das : DiagnosticAccuracySummary) : list NamespacedName :=
  [NN (om_Namespace (das_Meta das)) (summaryNameForAgent (das_AgentIdentity das))].
Definition profile_of_request (ar : AgentRequest) : list NamespacedName :=
  [NN (om_Namespace (ar_Meta ar)) (summaryNameForAgent (spec_AgentIdentity (ar_Spec ar)))].
Definition profile_of_registration (reg : AgentRegistration) : list NamespacedName :=
  if reg_AgentIdentity (reg_Spec reg) ==? "" then []
  else [NN (om_Namespace (reg_Meta reg)) (ProfileNameForAgent (reg_AgentIdentity (reg_Spec reg)))].

(** Every profile of the namespace, as [List] answers. *)
Definition profiles_of_policy (list_profiles : string → res (list AgentTrustProfile)) (p : AgentGraduationPolicy)
  : list NamespacedName :=
  if om_Name (gp_Meta p) <>? "default" then []
  else match list_profiles (om_Namespace (gp_Meta p)) with
  | Err _ => []
  | Ok profiles => (λ p, key_of (atp_Meta p)) <$> profiles
  end.

Inductive trust_event :=
| TeProfile (c : change AgentTrustProfile)
| TeSummary (c : change DiagnosticAccuracySummary)
| TeRequest (c : change AgentRequest)
| TePolicy (c : change AgentGraduationPolicy) (list_profiles : string → res (list AgentTrustProfile))
| TeRegistration (c : change AgentRegistration).

Definition Trust_watch (e : trust_event) : list NamespacedName :=
  match e with
  | TeProfile c => EnqueueMapped (own_key atp_Meta) c
  | TeSummary c => filtered (dasPredicate c) (EnqueueMapped profile_of_summary c)
  | TeRequest c => filtered (arPredicate c) (EnqueueMapped profile_of_request c)
  | TePolicy c list_profiles => EnqueueMapped (profiles_of_policy list_profiles) c
  | TeRegistration c => filtered (GenerationChangedPredicate reg_Meta c) (EnqueueMapped profile_of_registration c)
  end.

(** ** What reaches the reconcilers *)

(** One request of a list changes. *)
Inductive changes : list AgentRequest → change AgentRequest → list AgentRequest → Prop :=
| ch_updated l1 old new l2 : changes (l1 ++ old :: l2) (Updated old new) (l1 ++ new :: l2)
| ch_deleted l1 old l2 : changes (l1 ++ old :: l2) (Deleted old) (l1 ++ l2).

Lemma any_active_spec n items :
  any_active n items = existsb (λ ar, refers_to n ar && negb (done_phase (phase ar))) items.
Proof. induction items as [|ar items IH]; [done|]. cbn. rewrite <- IH. by destruct (_ && _). Qed.

Lemma enqueued {A} (f : A → list NamespacedName) c nn : nn ∈ f (subject c) → nn ∈ EnqueueMapped f c.
Proof. intros H. apply enqueue_spec. exists (subject c). split; [|done]. destruct c; set_solver. Qed.

(** C32: When the last request that kept a resource from its deletion becomes
    Completed, Failed or Denied, or goes, the resource is brought back to its
    reconciler; a verdict that is recorded brings its request to the counting;
    a request that becomes Completed, Failed or Denied, an accuracy that is
    stored and a registration that is made bring the agent's profile to its
    evaluation. *)
Theorem changes_reach_reconcilers :
  (∀ n items c items', changes items c items' → any_active n items = true → any_active n items' = false →
     NN "" n ∈ GR_watch (GrRequest c)) ∧
  (∀ c, st_Verdict (ar_Status (subject c)) ≠ ""%string → key_of (ar_Meta (subject c)) ∈ Accuracy_watch c) ∧
  (∀ old ar, phase ar ∈ [PhaseCompleted; PhaseFailed; PhaseDenied] →
     NN (om_Namespace (ar_Meta ar)) (ProfileNameForAgent (spec_AgentIdentity (ar_Spec ar))) ∈ Trust_watch (TeRequest (Updated old ar))) ∧
  (∀ c, is_Some (das_DiagnosticAccuracy (das_Status (subject c))) →
     NN (om_Namespace (das_Meta (subject c))) (ProfileNameForAgent (das_AgentIdentity (subject c))) ∈ Trust_watch (TeSummary c)) ∧
  (∀ reg, reg_AgentIdentity (reg_Spec reg) ≠ ""%string →
     NN (om_Namespace (reg_Meta reg)) (ProfileNameForAgent (reg_AgentIdentity (reg_Spec reg))) ∈ Trust_watch (TeRegistration (Created reg))).
Proof.
  split; [|split; [|split; [|split]]].
  - intros n items c items' Hc. rewrite !any_active_spec.
    assert (∀ old, old ∈ carried c → refers_to n old = true → NN "" n ∈ GR_watch (GrRequest c)) as Hold.
    { intros old Hin Hr. apply enqueue_spec. exists old. split; [done|]. unfold resource_of_request, refers_to in *.
      destruct (spec_GovernedResourceRef (ar_Spec old)) as [ref|]; [|done]. apply String.eqb_eq in Hr as ->. left. }
    destruct Hc as [l1 old new l2|l1 old l2]; rewrite !existsb_app; cbn [existsb]; intros H H';
      apply (Hold old); [left| |left|];
      destruct (refers_to n old) eqn:E; try done; cbn [andb orb] in H;
      destruct (existsb _ l1), (existsb _ l2); try done; by destruct (_ && _).
  - intros c Hv. unfold Accuracy_watch. rewrite predicate_spec. destruct (String.eqb_spec (st_Verdict (ar_Status (subject c))) ""); [done|].
    apply enqueued. left.
  - intros old ar Hd%done_phase_spec. cbn. unfold done_phase in Hd. rewrite Hd. apply (enqueued _ (Updated old ar)). left.
  - intros c Ha. cbn. unfold dasPredicate. rewrite predicate_spec, bool_decide_eq_true_2 by done. apply enqueued. left.
  - intros reg Hi. cbn. rewrite generation_spec. apply (enqueued _ (Created reg)). cbn. unfold profile_of_registration.
    destruct (String.eqb_spec (reg_AgentIdentity (reg_Spec reg)) ""); [done|left].
Qed.

(** A request that expires, or ends as observed, is terminal too, but does not
    bring the profile of its agent back. *)
Theorem expired_request_unnoticed old ar :
  phase ar = PhaseExpired ∨ phase ar = PhaseObserved → Trust_watch (TeRequest (Updated old ar)) = [].
Proof. cbn. by intros [->| ->]. Qed.

(** A summary that a recompute sets back to zero has no accuracy, and so does
    not bring the agent's profile back: the profile keeps the accuracy, and
    the trust, that it had. *)
Theorem zeroed_summary_unnoticed old d :
  Trust_watch (TeSummary (Updated old (set_das_Status das_status_zero d))) = [].
Proof. cbn. unfold dasPredicate. by rewrite predicate_spec. Qed.

(** The deletion of a registration is a change too. *)
Theorem registration_deletion_enqueues reg :
  reg_AgentIdentity (reg_Spec reg) ≠ ""%string →
  NN (om_Namespace (reg_Meta reg)) (ProfileNameForAgent (reg_AgentIdentity (reg_Spec reg))) ∈ Trust_watch (TeRegistration (Deleted reg)).
Proof.
  intros Hi. cbn. rewrite generation_spec. apply (enqueued _ (Deleted reg)). cbn. unfold profile_of_registration.
  destruct (String.eqb_spec (reg_AgentIdentity (reg_Spec reg)) ""); [done|left].
Qed.
End watches.

(** An implementation of what is assumed. *)
Definition plain_watches : WatchLib.
Proof.
  refine {| EnqueueMapped A f c := carried c ≫= f;
            NewPredicateFuncs A f c := f (subject c);
            GenerationChangedPredicate A m c :=
              match c with Updated old new => negb (om_Generation (m new) =? om_Generation (m old)) | _ => true end |}.
  - intros A f c nn. rewrite list_elem_of_bind. naive_solver.
  - done.
  - done.
Defined.
