(* ===== verification/Routes.v ===== *)
(** * Routing ([cmd/gateway/main.go])

    The patterns [main] registers, and [http.ServeMux] as far as they use it:
    a method, literal segments and wildcards of one segment, no hosts, no
    trailing slashes and no wildcards for several segments. *)

From S2P Require Import Prelude GoStd GoStrings Types GatewayAuth Admin.

(** ** Patterns *)

Inductive segment := Lit (s : string) | Wild (name : string).

#[export] Instance segment_eq : EqDecision segment.
Proof. solve_decision. Defined.

Record pattern := mkPattern { pat_str : string; pat_Method : string; pat_Segments : list segment }.

Definition lbrace : Ascii.ascii := chr 123.
Definition rbrace : Ascii.ascii := chr 125.
Definition space : Ascii.ascii := chr 32.

Definition parse_segment (s : string) : segment :=
  match cut_prefix (String lbrace "") s with
  | Some r => match cut rbrace r with Some (n, EmptyString) => Wild n | _ => Lit s end
  | None => Lit s
  end.

Definition parsePattern (s : string) : pattern :=
  let '(method, path) := match cut space s with Some (m, p) => (m, p) | None => (""%string, s) end in
  mkPattern s method (parse_segment <$> split slash (TrimPrefix path "/")).

(** ** The routes of the gateway *)

Inductive endpoint :=
| EWhoAmI | EHealthz | EReadyz | EMetrics
| EListAgentRequests | ECreateAgentRequest | EGetAgentRequest | EWatchAgentRequest
| EExecuting | ECompleted | EPutResult | EApprove | EDeny | EVerdict | EToken
| EListAudits | ERecompute | EListSummaries | EListProfiles | EGetProfile
| EMCPRegistry | EMCPProxy | EMCP
| ECreate (k : kind) | EList (k : kind) | EGet (k : kind) | EReplace (k : kind) | EDelete (k : kind)
| ESelfRegister.

#[export] Instance kind_eq : EqDecision kind.
Proof. solve_decision. Defined.
#[export] Instance endpoint_eq : EqDecision endpoint.
Proof. solve_decision. Defined.

(** The calls of [mux.HandleFunc] and [mux.Handle], in order. *)
Definition registered_routes : list (string * endpoint) := [
  ("GET /whoami", EWhoAmI);
  ("GET /healthz", EHealthz);
  ("GET /readyz", EReadyz);
  ("GET /agent-requests", EListAgentRequests);
  ("POST /agent-requests", ECreateAgentRequest);
  ("GET /agent-requests/{name}", EGetAgentRequest);
  ("GET /agent-requests/{name}/watch", EWatchAgentRequest);
  ("POST /agent-requests/{name}/executing", EExecuting);
  ("POST /agent-requests/{name}/completed", ECompleted);
  ("PUT /agent-requests/{name}/result", EPutResult);
  ("POST /agent-requests/{name}/approve", EApprove);
  ("POST /agent-requests/{name}/deny", EDeny);
  ("PATCH /agent-requests/{name}/verdict", EVerdict);
  ("POST /agent-requests/{name}/token", EToken);
  ("GET /audit-records", EListAudits);
  ("POST /agent-requests/recompute-accuracy", ERecompute);
  ("GET /diagnostic-accuracy-summaries", EListSummaries);
  ("GET /agent-trust-profiles", EListProfiles);
  ("GET /agent-trust-profiles/{name}", EGetProfile);
  ("GET /mcp-registry", EMCPRegistry);
  ("POST /mcp-proxy/{server}/{tool}", EMCPProxy);
  ("POST /mcp", EMCP);
  ("POST /governed-resources", ECreate KGovernedResource);
  ("GET /governed-resources", EList KGovernedResource);
  ("GET /governed-resources/{name}", EGet KGovernedResource);
  ("PUT /governed-resources/{name}", EReplace KGovernedResource);
  ("DELETE /governed-resources/{name}", EDelete KGovernedResource);
  ("POST /safety-policies", ECreate KSafetyPolicy);
  ("GET /safety-policies", EList KSafetyPolicy);
  ("GET /safety-policies/{name}", EGet KSafetyPolicy);
  ("PUT /safety-policies/{name}", EReplace KSafetyPolicy);
  ("DELETE /safety-policies/{name}", EDelete KSafetyPolicy);
  ("POST /agent-registrations", ECreate KRegistration);
  ("GET /agent-registrations", EList KRegistration);
  ("GET /agent-registrations/{name}", EGet KRegistration);
  ("PUT /agent-registrations/{name}", EReplace KRegistration);
  ("DELETE /agent-registrations/{name}", EDelete KRegistration);
  ("POST /agent-registrations/self", ESelfRegister);
  ("POST /agent-graduation-policies", ECreate KGraduationPolicy);
  ("GET /agent-graduation-policies", EList KGraduationPolicy);
  ("GET /agent-graduation-policies/{name}", EGet KGraduationPolicy);
  ("PUT /agent-graduation-policies/{name}", EReplace KGraduationPolicy);
  ("DELETE /agent-graduation-policies/{name}", EDelete KGraduationPolicy);
  ("GET /metrics", EMetrics)]%string.

Definition route : Type := pattern * endpoint.

Definition routes : list route := (λ r, (parsePattern r.1, r.2)) <$> registered_routes.

(** ** Registration: conflicting patterns panic *)

Inductive relationship := Equivalent | MoreSpecific | MoreGeneral | Overlaps | Disjoint.

Definition compareSegments (a b : segment) : relationship :=
  match a, b with
  | Lit x, Lit y => if x ==? y then Equivalent else Disjoint
  | Lit _, Wild _ => MoreSpecific
  | Wild _, Lit _ => MoreGeneral
  | Wild _, Wild _ => Equivalent
  end.

Definition combineRelationships (a b : relationship) : relationship :=
  match a, b with
  | Disjoint, _ | _, Disjoint => Disjoint
  | Equivalent, r => r
  | r, Equivalent => r
  | MoreSpecific, MoreSpecific => MoreSpecific
  | MoreGeneral, MoreGeneral => MoreGeneral
  | _, _ => Overlaps
  end.

Fixpoint comparePaths (a b : list segment) : relationship :=
  match a, b with
  | [], [] => Equivalent
  | x :: a', y :: b' => combineRelationships (compareSegments x y) (comparePaths a' b')
  | _, _ => Disjoint
  end.

(** All patterns have a method, and none is [HEAD], which [GET] includes. *)
Definition conflictsWith (p q : pattern) : bool :=
  if pat_Method p ==? pat_Method q then
    match comparePaths (pat_Segments p) (pat_Segments q) with Equivalent | Overlaps => true | _ => false end
  else false.

Fixpoint registration_panics (rs : list route) : bool :=
  match rs with
  | [] => false
  | r :: rs' => existsb (λ r', conflictsWith r.1 r'.1) rs' || registration_panics rs'
  end.

(** ** Matching *)

(** [url.PathUnescape], or the segment itself. *)
Definition pathUnescape (s : string) : string := default s (unescape encodePath s).

(** [firstSegment], again and again; a trailing slash is a segment. *)
Fixpoint path_segments (parts : list string) : list string :=
  match parts with
  | [] => []
  | [last] => [if last ==? "" then "/"%string else pathUnescape last]
  | p :: ps => pathUnescape p :: path_segments ps
  end.

Definition segments_of (path : string) : list string := path_segments (split slash (TrimPrefix path "/")).

(** A node of the routing tree: the routes below it, with what is left of
    their patterns. *)
Definition node : Type := list (list segment * route).

Definition findChild (seg : string) (n : node) : node :=
  omap (λ e, match e.1 with Lit l :: rest => if l ==? seg then Some (rest, e.2) else None | _ => None end) n.

Definition emptyChild (n : node) : node :=
  omap (λ e, match e.1 with Wild _ :: rest => Some (rest, e.2) | _ => None end) n.

Fixpoint matchPath (n : node) (path matches : list string) : option (route * list string) :=
  match path with
  | [] => (λ e, (e.2, matches)) <$> List.find (λ e, bool_decide (e.1 = [])) n
  | seg :: rest =>
      match matchPath (findChild seg n) rest matches with
      | Some m => Some m
      | None => if seg ==? "/" then None else matchPath (emptyChild n) rest (matches ++ [seg])
      end
  end.

Definition method_node (method : string) (rs : list route) : node :=
  (λ r, (pat_Segments r.1, r)) <$> List.filter (λ r, pat_Method r.1 ==? method) rs.

Definition matchMethodAndPath (rs : list route) (method : string) (path : list string) : option (route * list string) :=
  match matchPath (method_node method rs) path [] with
  | Some m => Some m
  | None =>
      match (if method ==? "HEAD" then matchPath (method_node "GET" rs) path [] else None) with
      | Some m => Some m
      | None => matchPath (method_node "" rs) path []
      end
  end.

(** [path.Clean] of a rooted path, on its segments, the last first. *)
Fixpoint clean_parts (parts acc : list string) : list string :=
  match parts with
  | [] => acc
  | p :: ps =>
      clean_parts ps (if (p ==? "") || (p ==? ".") then acc else if p ==? ".." then tail acc else p :: acc)
  end.

Definition cleanPath (p : string) : string :=
  if p ==? "" then "/"%string
  else
    let p := if HasPrefix p "/" then p else ("/" +:+ p)%string in
    let np := ("/" +:+ Join (rev (clean_parts (split slash p) [])) "/")%string in
    if bool_decide (last (split slash p) = Some ""%string) && (np <>? "/") then (np +:+ "/")%string else np.

Inductive mux_result :=
| MuxRedirect (path pattern : string)
| MuxNotFound
| MuxMethodNotAllowed
| MuxHandle (r : route) (matches : list string).

(** [matchingMethods]: another method would match. *)
Definition other_method (rs : list route) (path : list string) : bool :=
  existsb (λ r, bool_decide (is_Some (matchMethodAndPath rs (pat_Method r.1) path))) rs.

(** [findHandler]; no pattern ends in a slash, so none is redirected to. *)
Definition findHandler (rs : list route) (method escapedPath : string) : mux_result :=
  let path := if method ==? "CONNECT" then escapedPath else cleanPath escapedPath in
  let found := matchMethodAndPath rs method (segments_of path) in
  if path <>? escapedPath then MuxRedirect path (match found with Some (r, _) => pat_str r.1 | None => "" end)
  else match found with
       | Some (r, matches) => MuxHandle r matches
       | None => if other_method rs (segments_of path) then MuxMethodNotAllowed else MuxNotFound
       end.

Fixpoint wild_names (p : list segment) : list string :=
  match p with
  | [] => []
  | Lit _ :: p' => wild_names p'
  | Wild n :: p' => n :: wild_names p'
  end.

(** [r.PathValue]. *)
Definition PathValue (r : route) (matches : list string) (name : string) : string :=
  map_str (list_to_map (zip (wild_names (pat_Segments r.1)) matches)) name.

(** ** Facts *)

Lemma routes_register : registration_panics routes = false.
Proof. vm_compute. reflexivity. Qed.

(** What a pattern asks of a path, and the values of its wildcards. *)
Fixpoint match_values (p : list segment) (path : list string) : option (list string) :=
  match p, path with
  | [], [] => Some []
  | Lit l :: p', seg :: path' => if l ==? seg then match_values p' path' else None
  | Wild _ :: p', seg :: path' => if seg ==? "/" then None else cons seg <$> match_values p' path'
  | _, _ => None
  end.

Lemma elem_of_findChild seg n p r : (p, r) ∈ findChild seg n ↔ (Lit seg :: p, r) ∈ n.
Proof.
  unfold findChild. rewrite list_elem_of_omap. split.
  - intros ([[|[l|w] p'] r'] & Hin & E); cbn in E; try done. destruct (String.eqb_spec l seg); [by simplify_eq|done].
  - intros Hin. exists (Lit seg :: p, r). split; [done|]. cbn. by rewrite String.eqb_refl.
Qed.

Lemma elem_of_emptyChild n p r : (p, r) ∈ emptyChild n ↔ ∃ w, (Wild w :: p, r) ∈ n.
Proof.
  unfold emptyChild. rewrite list_elem_of_omap. split.
  - intros ([[|[l|w] p'] r'] & Hin & E); cbn in E; try done. simplify_eq. by exists w.
  - intros (w & Hin). by exists (Wild w :: p, r).
Qed.

(** The search of the tree finds a pattern that matches, and misses none. *)
Lemma matchPath_spec n path acc :
  match matchPath n path acc with
  | Some (r, vs) => ∃ p ws, (p, r) ∈ n ∧ match_values p path = Some ws ∧ vs = acc ++ ws
  | None => ∀ p r, (p, r) ∈ n → match_values p path = None
  end.
Proof.
  revert n acc. induction path as [|seg path IH]; intros n acc; cbn.
  - destruct (List.find _ n) as [[p r]|] eqn:E; cbn.
    + apply find_some in E as [Hin E]. apply bool_decide_eq_true in E. cbn in E. subst p.
      exists [], []. by rewrite list_elem_of_In, app_nil_r.
    + intros [|[]] r Hin; [|done..]. apply list_elem_of_In in Hin. by apply (find_none _ _ E) in Hin.
  - pose proof (IH (findChild seg n) acc) as H1. destruct (matchPath (findChild seg n) path acc) as [[r vs]|].
    { destruct H1 as (p & ws & Hin & Hm & ->). apply elem_of_findChild in Hin.
      exists (Lit seg :: p), ws. cbn. by rewrite String.eqb_refl. }
    assert (∀ l p r, (Lit l :: p, r) ∈ n → match_values (Lit l :: p) (seg :: path) = None) as Hlit.
    { intros l p r Hin. cbn. destruct (String.eqb_spec l seg) as [->|]; [|done]. by eapply H1, elem_of_findChild. }
    destruct (String.eqb_spec seg "/") as [->|Hs].
    { intros [|[l|w] p] r Hin; [done|by eapply Hlit|done]. }
    pose proof (IH (emptyChild n) (acc ++ [seg])) as H2. destruct (matchPath (emptyChild n) path (acc ++ [seg])) as [[r vs]|].
    + destruct H2 as (p & ws & [w Hin]%elem_of_emptyChild & Hm & ->). exists (Wild w :: p), (seg :: ws). cbn.
      rewrite Hm, <- app_assoc. by destruct (String.eqb_spec seg "/").
    + intros [|[l|w] p] r Hin; [done|by eapply Hlit|]. cbn. destruct (_ ==? _); [done|].
      rewrite (H2 p r); [done|]. apply elem_of_emptyChild. by exists w.
Qed.

(** Patterns that match the same path are not disjoint. *)
Lemma overlap p q path vs ws :
  match_values p path = Some vs → match_values q path = Some ws → comparePaths p q ≠ Disjoint.
Proof.
  assert (∀ a b, a ≠ Disjoint → b ≠ Disjoint → combineRelationships a b ≠ Disjoint) as Hc by (by intros [] []).
  revert q path vs ws. induction p as [|x p IH]; intros [|y q] [|seg path] vs ws; cbn; try (by destruct x) || (by destruct y) || done.
  intros Hx Hy. apply Hc.
  - destruct x as [l|], y as [l'|]; cbn; try done.
    destruct (String.eqb_spec l seg), (String.eqb_spec l' seg); try done. subst. by rewrite String.eqb_refl.
  - destruct x as [l|], y as [l'|]; repeat case_match; simplify_option_eq; try done; by eapply IH.
Qed.

#[export] Instance relationship_eq : EqDecision relationship.
Proof. solve_decision. Defined.
#[export] Instance pattern_eq : EqDecision pattern.
Proof. solve_decision. Defined.

(** No two routes of a method overlap at all. *)
Lemma routes_disjoint r r' vs ws path :
  r ∈ routes → r' ∈ routes → pat_Method r.1 = pat_Method r'.1 →
  match_values (pat_Segments r.1) path = Some vs → match_values (pat_Segments r'.1) path = Some ws → r = r'.
Proof.
  intros Hr Hr' Hm Hv Hw. pose proof (overlap _ _ _ _ _ Hv Hw) as Ho.
  assert (Forall (λ r, Forall (λ r', r = r' ∨ pat_Method r.1 ≠ pat_Method r'.1 ∨
    comparePaths (pat_Segments r.1) (pat_Segments r'.1) = Disjoint) routes) routes) as H.
  { apply (bool_decide_unpack _). vm_compute. exact I. }
  rewrite Forall_forall in H. specialize (H r Hr). rewrite Forall_forall in H. specialize (H r' Hr'). cbn in H. naive_solver.
Qed.

Lemma routes_methods r : r ∈ routes → pat_Method r.1 ≠ "HEAD"%string ∧ pat_Method r.1 ≠ ""%string.
Proof.
  assert (Forall (λ r : route, pat_Method r.1 ≠ "HEAD"%string ∧ pat_Method r.1 ≠ ""%string) routes) as H
    by (apply (bool_decide_unpack _); vm_compute; exact I).
  rewrite Forall_forall in H. apply H.
Qed.

Lemma elem_of_method_node m rs p r : (p, r) ∈ method_node m rs ↔ r ∈ rs ∧ pat_Method r.1 = m ∧ p = pat_Segments r.1.
Proof.
  unfold method_node. rewrite list_elem_of_fmap. split.
  - intros (r' & [= -> ->] & H). apply list_elem_of_In, filter_In in H as [H E]. apply String.eqb_eq in E.
    by rewrite list_elem_of_In.
  - intros (Hr & <- & ->). exists r. split; [done|]. apply list_elem_of_In, filter_In.
    by rewrite <- list_elem_of_In, String.eqb_refl.
Qed.

(** Within one method: the only route that matches. *)
Lemma method_routed m path r vs :
  matchPath (method_node m routes) path [] = Some (r, vs) ↔
  r ∈ routes ∧ pat_Method r.1 = m ∧ match_values (pat_Segments r.1) path = Some vs.
Proof.
  pose proof (matchPath_spec (method_node m routes) path []) as H.
  destruct (matchPath _ _ _) as [[r' vs']|]; split.
  - intros [= -> ->]. destruct H as (p & ws & (Hr & Hm & ->)%elem_of_method_node & Hv & ->). done.
  - intros (Hr & Hm & Hv). destruct H as (p & ws & (Hr' & Hm' & ->)%elem_of_method_node & Hw & ->). cbn.
    assert (r' = r) as -> by (eapply routes_disjoint; eauto; congruence). by rewrite Hv in Hw; simplify_eq.
  - done.
  - intros (Hr & Hm & Hv). rewrite (H (pat_Segments r.1) r) in Hv; [done|by apply elem_of_method_node].
Qed.

Definition accepts_method (r : route) (m : string) : Prop :=
  pat_Method r.1 = m ∨ (m = "HEAD" ∧ pat_Method r.1 = "GET")%string.

Lemma routed_iff m path r vs :
  matchMethodAndPath routes m path = Some (r, vs) ↔
  r ∈ routes ∧ accepts_method r m ∧ match_values (pat_Segments r.1) path = Some vs.
Proof.
  unfold matchMethodAndPath, accepts_method.
  assert (∀ r vs, matchPath (method_node "" routes) path [] ≠ Some (r, vs)) as He
    by (intros ?? (Hr & Hm & _)%method_routed; by apply routes_methods in Hr as [_ ?]).
  destruct (matchPath (method_node "" routes) path []) as [[]|]; [by destruct (He r0 l)|]. clear He.
  pose proof (method_routed m path) as Hm. pose proof (method_routed "GET" path) as Hg.
  destruct (String.eqb_spec m "HEAD") as [->|].
  - assert (∀ r vs, matchPath (method_node "HEAD" routes) path [] ≠ Some (r, vs)) as He
      by (intros ?? (Hr & E & _)%method_routed; by apply routes_methods in Hr as [? _]).
    destruct (matchPath (method_node "HEAD" routes) path []) as [[]|]; [by destruct (He r0 l)|].
    specialize (Hg r vs). destruct (matchPath (method_node "GET" routes) path []) as [[]|]; rewrite Hg;
      (split; [naive_solver|]); intros (Hr & [E|[_ E]] & Hv); [by apply routes_methods in Hr as [? _]|done| |done];
      by apply routes_methods in Hr as [? _].
  - specialize (Hm r vs). destruct (matchPath (method_node m routes) path []) as [[]|]; rewrite Hm; naive_solver.
Qed.

(** Registration does not panic, and a path is routed to the one route of its
    method that matches it: the search never has to prefer one to another. *)
Theorem routing_unambiguous :
  registration_panics routes = false ∧
  ∀ m path r vs, matchMethodAndPath routes m path = Some (r, vs) ↔
    r ∈ routes ∧ accepts_method r m ∧ match_values (pat_Segments r.1) path = Some vs.
Proof. split; [apply routes_register|apply routed_iff]. Qed.

(** ** The paths that need no caller *)

Definition probe (e : endpoint) : bool := bool_decide (e ∈ [EHealthz; EReadyz; EMetrics]).

Abbreviation no_slash := (all_chars (λ a, negb (Ascii.eqb a slash))).

(** A slash stands for itself. *)
Lemma unescape_slash s t : unescape encodePath s = Some t → no_slash t = true → no_slash s = true.
Proof.
  revert t. induction (String.length s) as [n IH] eqn:En using (well_founded_induction lt_wf) in s |- *.
  destruct s as [|a s]; [done|]. intros t. cbn [unescape]. match goal with |- context [Ascii.eqb a ?c] => destruct (Ascii.eqb_spec a c) as [->|Ha] end.
  - destruct s as [|h [|l s]]; [done..|]. destruct (unhex h) as [x|] eqn:Eh; [|done]. destruct (unhex l) as [y|] eqn:El; [|done].
    intros (t' & Ht & ->)%fmap_Some. cbn. intros [_ Hn]%andb_true_iff.
    assert (∀ c z, unhex c = Some z → Ascii.eqb c slash = false) as Hx
      by (intros c z Hz; destruct (Ascii.eqb_spec c slash); [by subst|done]).
    rewrite (Hx h x), (Hx l y) by done. cbn. eapply (IH (String.length s)); eauto. subst n. cbn. lia.
  - intros (t' & Ht & ->)%fmap_Some. cbn. intros [-> Hn]%andb_true_iff. cbn. eapply (IH (String.length s)); eauto. subst n. cbn. lia.
Qed.

Lemma split_whole c s : all_chars (λ a, negb (Ascii.eqb a c)) s = true → split c s = [s].
Proof.
  induction s as [|a s IH]; [done|]. cbn. intros [Ha Hs]%andb_true_iff. rewrite (IH Hs). by destruct (Ascii.eqb a c).
Qed.

Lemma clean_rooted p : ∃ q, cleanPath p = String slash q.
Proof. unfold cleanPath. repeat case_match; cbn; eauto. Qed.

Lemma findHandler_route m e r vs : findHandler routes m e = MuxHandle r vs → r ∈ routes.
Proof. unfold findHandler. repeat case_match; intros; simplify_eq; by eapply routed_iff. Qed.

(** A path that decodes to one segment is routed by that segment. *)
Lemma routed_by_segment m e seg r vs :
  unescape encodePath e = Some (String slash seg) → no_slash seg = true → seg ≠ ""%string →
  findHandler routes m e = MuxHandle r vs → match_values (pat_Segments r.1) [seg] = Some vs.
Proof.
  intros Hu Hs Hne. unfold findHandler.
  destruct (matchMethodAndPath routes m (segments_of (if m ==? "CONNECT" then e else cleanPath e))) as [[r' vs']|] eqn:E;
    [|by repeat case_match].
  apply routed_iff in E as (Hr & Ha & Hv).
  destruct (String.eqb_spec m "CONNECT") as [->|].
  { exfalso. destruct Ha as [Ha|[Ha _]]; [|done].
    assert (Forall (λ r : route, pat_Method r.1 ≠ "CONNECT"%string) routes) as H by (apply (bool_decide_unpack _); vm_compute; exact I).
    rewrite Forall_forall in H. by apply (H r'). }
  destruct (String.eqb_spec (cleanPath e) e) as [Ec|]; cbn; [|done]. intros [= -> ->].
  destruct (clean_rooted e) as [q Hq]. rewrite Hq in Ec. rewrite Hq, Ec in Hv. rewrite <- Ec in Hu, Hv. cbn in Hu.
  apply fmap_Some in Hu as (t & Hu & [= <-]). pose proof (unescape_slash _ _ Hu Hs) as Hn.
  revert Hv. unfold segments_of. cbn [TrimPrefix cut_prefix]. cbn. rewrite (split_whole _ _ Hn). cbn.
  assert (q <> ""%string) as Hq' by (intros ->; cbn in Hu; congruence).
  destruct (String.eqb_spec q ""); [done|]. unfold pathUnescape. by rewrite Hu.
Qed.

Definition url_ok (path escaped : string) : Prop := unescape encodePath escaped = Some path.

(** Where authentication is skipped by the decoded path, the route taken for
    the escaped one is that of a probe. *)
Lemma probe_routed m path escaped r vs :
  probe_path path = true → url_ok path escaped → findHandler routes m escaped = MuxHandle r vs → probe r.2 = true.
Proof.
  intros Hp Hu Hf.
  pose proof (findHandler_route _ _ _ _ Hf) as Hr.
  assert (∃ seg, path = String slash seg ∧ seg ∈ ["healthz"; "readyz"; "metrics"]%string) as (seg & -> & Hin).
  { unfold probe_path in Hp. apply orb_true_iff in Hp as [[Hp|Hp]%orb_true_iff|Hp]; apply String.eqb_eq in Hp; subst path;
      eexists; (split; [reflexivity|set_solver]). }
  assert (Forall (λ seg, no_slash seg = true ∧ seg ≠ ""%string ∧
    Forall (λ r : route, match_values (pat_Segments r.1) [seg] = None ∨ probe r.2 = true) routes) ["healthz"; "readyz"; "metrics"]%string) as H
    by (apply (bool_decide_unpack _); vm_compute; exact I).
  rewrite Forall_forall in H. destruct (H seg Hin) as (Hs & Hne & H'). rewrite Forall_forall in H'.
  destruct (H' r Hr) as [Hn|]; [|done]. by rewrite (routed_by_segment m escaped seg r vs) in Hn.
Qed.
