(* ===== verification/GatewayServe.v ===== *)
(** * Serving a request ([cmd/gateway/main.go], [metrics.go], [server.go])

    The handlers of all files behind their routes, the small handlers of
    [main.go], and the middlewares around them.  [documented] is the table of
    roles of [docs/api-reference.md]; the theorem is that the handlers enforce
    it before they do anything, but for the three MCP endpoints. *)

From S2P Require Import Prelude GoStd GoStrings Types Prog Retry Kube Conditions Naming Registration GatewayAuth Gateway.
From S2P Require Import GatewayCreate GatewayHandlers Evaluation Schema CelAdmission Admin AdminFacts Recompute Stream.
From S2P Require Import McpServers Mcp Routes.

(** ** Requests *)

(** An [http.Request], with the first value of each header and query
    parameter; the body is absent when it cannot be read. *)
Record http_request := mkReq {
  hr_Method : string;
  hr_Path : string;               (** [URL.Path] *)
  hr_EscapedPath : string;        (** [URL.EscapedPath()] *)
  hr_Query : gmap string string;
  hr_Header : gmap string string;
  hr_RemoteAddr : string;
  hr_Body : option string }.

(** [json.Decoder.Decode] at the types of the bodies. *)
Class BodyJson := {
  Decode_create : string → option createAgentRequestBody;
  Decode_result : string → option (string * string);
  Decode_verdict : string → option verdict_body;
  Decode_reason : string → string;                  (** what was decoded before an error *)
  Decode_service : string → option string;
  Decode_obj : ∀ k, string → option (obj k);
  Decode_self : string → option selfRegisterRequest }.

(** ** [handleWhoAmI] *)

Definition handleWhoAmI (s : Server) (c : caller) : string * string :=
  let sub := if cl_Sub c ==? "" then "unknown"%string else cl_Sub c in
  (sub,
   if isAdmin (roles s) sub (cl_Groups c) then roleAdmin
   else if isReviewer (roles s) sub (cl_Groups c) then roleReviewer
   else if isAgent (roles s) sub (cl_Groups c) then roleAgent
   else "unknown"%string).

(** ** Networks *)

(** [net] as far as the proxy-header middleware uses it. *)
Class NetLib := {
  Net : Type;
  IP : Type;
  ParseCIDR : string → res Net;
  net_Contains : Net → IP → bool;
  ParseIP : string → option IP;
  SplitHostPort : string → option string }.

Inductive auth `{NL : NetLib} :=
| AuthOIDC (issuer audience identityClaim groupsClaim : string)
| AuthProxy (nets : list Net).

(** ** Dispatch *)

(** What a handler is: a program over the calls of its component. *)
Inductive handler `{GL : GlobLib} :=
| HText (p : prog gw (Z * string))
| HMetrics                                          (** the handler of the Prometheus library *)
| HWhoAmI (who role : string)
| HRegistry
| HGateway (p : prog gw Response)
| HAdmin (p : prog ad AResponse)
| HRecompute (p : prog rs Response)
| HSummaries (p : prog rs (Response + list DiagnosticAccuracySummary))
| HStream (p : prog ss (option Response))
| HMcp (p : prog ms finished).

Section serve.
Context `{GL : GlobLib, MC : MetaConditions, RLg : RetryLib gw, RLa : RetryLib ad, RLr : RetryLib rs, RSr : RetryStateLib rs}.
Context `{RO : RangeOrder, ET : ErrorText, JL : JsonLib, CL : CEL, CA : !CelAdmission, SJ : StatusJson, ML : McpLib, BJ : BodyJson}.
Context (oidcTokenRequired : error → bool) (fuel : nat) (cfg : mcp_config).

Abbreviation s := (mc_server cfg).

Definition query (r : http_request) (k : string) : string := map_str (hr_Query r) k.
Definition header (r : http_request) (k : string) : string := map_str (hr_Header r) k.

(** The closure behind [GET /readyz]. *)
Definition readyz : prog gw (Z * string) :=
  l <- gcall_ (GListAR (mkListOptions "" ∅ None (Some 1) "")) ;;
  Ret (match l with
       | Err e => (StatusServiceUnavailable, "k8s api unavailable: " +:+ err_v e)
       | Ok _ => (StatusOK, "ok")
       end)%string.

Definition http_of (c : caller) (r : http_request) (name : string) : HttpRequest :=
  mkHttp c name (query r "namespace") (acceptsSSE (header r "Accept")).

Definition list_query_of (r : http_request) : list_query :=
  mkListQuery (query r "agentIdentity") (query r "correlationID") (query r "classification") (query r "phase")
    (query r "limit") (query r "continue").

Definition reason_of (r : http_request) : string :=
  if header r "Content-Type" ==? "application/json" then
    match hr_Body r with Some b => Decode_reason b | None => "" end
  else "".

Definition dispatch (e : endpoint) (value : string → string) (c : caller) (r : http_request) : handler :=
  let rq := http_of c r (value "name"%string) in
  let body := hr_Body r in
  match e with
  | EWhoAmI => let '(who, role) := handleWhoAmI s c in HWhoAmI who role
  | EHealthz => HText (Ret (StatusOK, "ok"%string))
  | EReadyz => HText readyz
  | EMetrics => HMetrics
  | EListAgentRequests => HGateway (handleListAgentRequests s rq (list_query_of r))
  | ECreateAgentRequest => HGateway (handleCreateAgentRequest s fuel rq (body ≫= Decode_create))
  | EGetAgentRequest => HGateway (handleGetAgentRequest s rq)
  | EWatchAgentRequest =>
      HStream (handleWatchAgentRequest s fuel c (value "name"%string) (query r "namespace") (header r "Accept"))
  | EExecuting => HGateway (handleExecutingAgentRequest s rq)
  | ECompleted => HGateway (handleCompletedAgentRequest s rq)
  | EPutResult => HGateway (handlePutAgentRequestResult s rq (body ≫= Decode_result))
  | EApprove => HGateway (handleApproveAgentRequest s rq (reason_of r))
  | EDeny => HGateway (handleDenyAgentRequest s rq (reason_of r))
  | EVerdict => HGateway (handleVerdictAgentRequest s rq (body ≫= Decode_verdict))
  | EToken => HGateway (handleGetAgentRequestToken s rq (body ≫= Decode_service))
  | EListAudits => HAdmin (handleListAuditRecords s rq (query r "agentRequest") (query r "limit") (query r "continue"))
  | ERecompute => HRecompute (handleRecomputeAccuracy s rq (query r "agentIdentity"))
  | EListSummaries => HSummaries (handleListAccuracySummaries s rq)
  | EListProfiles => HAdmin (handleListAgentTrustProfiles s rq)
  | EGetProfile => HAdmin (handleGetAgentTrustProfile s rq)
  | EMCPRegistry => HRegistry
  | EMCPProxy =>
      HMcp (handleMCPProxy cfg oidcTokenRequired c (header r "X-Aip-Authorization")
              (value "server"%string) (value "tool"%string) body)
  | EMCP => HMcp (handleMCP cfg oidcTokenRequired fuel c (header r "X-Aip-Authorization") body)
  | ECreate k => HAdmin (serve s (RCreate k rq (body ≫= Decode_obj k)))
  | EList k => HAdmin (serve s (RList k rq))
  | EGet k => HAdmin (serve s (RGet k rq))
  | EReplace k => HAdmin (serve s (RReplace k rq (body ≫= Decode_obj k)))
  | EDelete k => HAdmin (serve s (RDelete k rq))
  | ESelfRegister => HAdmin (handleSelfRegisterAgentRegistration s rq (body ≫= Decode_self))
  end.

(** ** The documented roles *)

Inductive access := Anyone | AnyAuthenticated | OneOf (rs : list string).

Definition documented (e : endpoint) : access :=
  match e with
  | EWhoAmI | EHealthz | EReadyz | EMetrics => Anyone
  | EListAgentRequests | EGetAgentRequest | EWatchAgentRequest | EListAudits | EListSummaries | EMCPRegistry => AnyAuthenticated
  | ECreateAgentRequest | EExecuting | ECompleted | EPutResult | EToken | ESelfRegister | EMCPProxy | EMCP => OneOf [roleAgent]
  | EApprove | EDeny | EVerdict | ERecompute => OneOf [roleReviewer]
  | EListProfiles | EGetProfile => OneOf [roleAgent; roleReviewer; roleAdmin]
  | EList KRegistration | EGet KRegistration => OneOf [roleReviewer; roleAdmin]
  | ECreate _ | EList _ | EGet _ | EReplace _ | EDelete _ => OneOf [roleAdmin]
  end.

Definition lacks (c : caller) (a : access) : Prop :=
  match a with
  | Anyone => False
  | AnyAuthenticated => authRequired s = true ∧ cl_Sub c = ""%string
  | OneOf rs => ∀ role, role ∈ rs → requireRole (roles s) role (cl_Sub c) (cl_Groups c) ≠ None
  end.

(** Nothing but lookups in the registration cache happens, and the client is
    told of its error. *)
Definition client_error (status : Z) : Prop := 400 ≤ status < 500.

Definition lookup_only (c : op gw) : Prop :=
  match c with GRegGet _ | GRegForSubject _ _ => True | _ => False end.

Definition gw_error (r : Response) : Prop := match r with Http status _ => client_error status | _ => False end.
Definition ad_error (r : AResponse) : Prop := match r with AHttp status _ => client_error status | APanic => False end.

Definition refusing {S A} (allowed : op S → Prop) (error : A → Prop) (p : prog S A) : Prop :=
  (∀ t, emits p t → Forall (λ ev, allowed (ev_call ev)) t) ∧ (∀ t a, runs p t a → error a).

Definition refused (h : handler) : Prop :=
  match h with
  | HGateway p => refusing lookup_only gw_error p
  | HAdmin p => refusing (λ _, False) ad_error p
  | HRecompute p => refusing (λ _, False) gw_error p
  | HSummaries p => refusing (λ _, False) (λ r, match r with inl r => gw_error r | inr _ => False end) p
  | HStream p => refusing (λ _, False) (λ r, match r with Some r => gw_error r | None => False end) p
  | _ => False
  end.

(** ** The handlers enforce them *)

Lemma refusing_ret {S A} (allowed : op S → Prop) (error : A → Prop) a : error a → refusing allowed error (Ret (S:=S) a).
Proof. intros H. split; [intros t [->|[]]; constructor|]. by intros t a' [-> <-]. Qed.

Lemma refusing_safe {S A} (allowed : op S → Prop) (error : A → Prop) (p : prog S A) :
  safe any (λ _, allowed) [] p (λ _, error) → refusing allowed error p.
Proof.
  intros H. split.
  - intros t Ht. apply Forall_forall. intros [c r] (t1 & t2 & ->)%list_elem_of_split.
    by apply (safe_emits _ _ _ _ _ _ _ _ _ H) in Ht; [|apply Forall_true].
  - intros t a Hr. by apply (safe_runs _ _ _ _ _ _ _ H) in Hr; [|apply Forall_true].
Qed.

Lemma has_role_check rc role sub groups : has_role rc role sub groups = true → requireRole rc role sub groups = None.
Proof.
  unfold has_role, requireRole.
  destruct (String.eqb_spec role roleAgent) as [->|]; [|destruct (String.eqb_spec role roleReviewer) as [->|];
    [|destruct (String.eqb_spec role roleAdmin) as [->|]]]; cbn; rewrite ?orb_false_r, ?orb_false_l; intros E; [by rewrite E..|done].
Qed.

Lemma lacks_role c role :
  lacks c (OneOf [role]) → ∃ msg, requireRole (roles s) role (cl_Sub c) (cl_Groups c) = Some msg.
Proof. intros H. destruct (requireRole _ _ _ _) as [msg|] eqn:E; [by exists msg|]. by destruct (H role ltac:(set_solver)). Qed.

Lemma lacks_any c rs : lacks c (OneOf rs) → ∃ msg, requireAnyRole (roles s) rs (cl_Sub c) (cl_Groups c) = Some msg.
Proof.
  intros H. unfold requireAnyRole. replace (any_role _ _ _ _) with false; [by eexists|].
  induction rs as [|role rs IH]; [done|]. cbn in *.
  destruct (has_role _ _ _ _) eqn:E; [by destruct (H role ltac:(set_solver)); apply has_role_check|].
  apply IH. intros r' Hr'. apply H. set_solver.
Qed.

(** The status codes of refusals. *)
Lemma refusals : client_error StatusUnauthorized ∧ client_error StatusForbidden ∧ client_error StatusBadRequest.
Proof. unfold client_error, StatusUnauthorized, StatusForbidden, StatusBadRequest. lia. Qed.

Lemma gw_guarded c allowed role rq k :
  rq_Caller rq = c → lacks c (OneOf [role]) → refusing allowed gw_error (guard_role s role rq k).
Proof.
  intros <- [msg Hm]%lacks_role. unfold guard_role, sub_of, groups_of. rewrite Hm.
  destruct (unauthenticated _ _); apply refusing_ret, refusals.
Qed.

Lemma ad_guarded c role rq k :
  rq_Caller rq = c → lacks c (OneOf [role]) → refusing (λ _, False) ad_error (require s role rq k).
Proof. intros <- [msg Hm]%lacks_role. unfold require, sub_of, groups_of. rewrite Hm. apply refusing_ret, refusals. Qed.

Lemma ad_unauthenticated c rq k :
  rq_Caller rq = c → lacks c AnyAuthenticated → refusing (λ _, False) ad_error (authenticated s rq k).
Proof. intros <- [Ha Hs]. unfold authenticated, sub_of. rewrite Ha, Hs. apply refusing_ret, refusals. Qed.

Lemma ad_authenticated rq k : refusing (λ _, False) ad_error k → refusing (λ _, False) ad_error (authenticated s rq k).
Proof. unfold authenticated. destruct (_ && _); [intros _; apply refusing_ret, refusals|done]. Qed.

Lemma ad_any c rs rq k :
  rq_Caller rq = c → lacks c (OneOf rs) → refusing (λ _, False) ad_error (require_any s rs rq k).
Proof. intros <- [msg Hm]%lacks_any. unfold require_any, sub_of, groups_of. rewrite Hm. apply refusing_ret, refusals. Qed.

Lemma ad_reader c rq k :
  rq_Caller rq = c → lacks c (OneOf [roleAgent; roleReviewer; roleAdmin]) → refusing (λ _, False) ad_error (any_reader s rq k).
Proof.
  intros <- H. unfold any_reader, reader_roles, sub_of, groups_of.
  pose proof (H roleAgent ltac:(set_solver)) as H1. pose proof (H roleReviewer ltac:(set_solver)) as H2.
  pose proof (H roleAdmin ltac:(set_solver)) as H3. cbn in H1, H2, H3.
  destruct (isAgent _ _ _), (isReviewer _ _ _), (isAdmin _ _ _); try done. apply refusing_ret, refusals.
Qed.

(** Submission looks the registration up before it checks the role. *)
Lemma create_guarded c rq body :
  rq_Caller rq = c → (authRequired s = false → openMode (roles s) = true) → lacks c (OneOf [roleAgent]) →
  refusing lookup_only gw_error (handleCreateAgentRequest s fuel rq body).
Proof.
  intros <- Hopen [msg Hm]%lacks_role. unfold handleCreateAgentRequest, sub_of, groups_of.
  destruct (authRequired s) eqn:Ea; [|exfalso; cbn in Hm; unfold isAgent in Hm; by rewrite Hopen in Hm].
  destruct (_ && _); [apply refusing_ret, refusals|]. destruct body as [body|]; [|apply refusing_ret, refusals].
  destruct (_ || _); [apply refusing_ret, refusals|]. apply refusing_safe.
  apply safe_bind. unfold find_registration. rewrite Ea. destruct (_ && _).
  - split; [exact I|]. intros [reg|] _; [cbn -[requireRole]; rewrite Hm; apply refusals|].
    split; [exact I|]. intros reg _. cbn -[requireRole]. rewrite Hm. apply refusals.
  - cbn -[requireRole]. rewrite Hm. apply refusals.
Qed.

(** The three MCP endpoints check no role. *)
Definition enforced (e : endpoint) : bool := negb (bool_decide (e ∈ [EMCPRegistry; EMCPProxy; EMCP])).

Lemma enforced_roles e value c r :
  (authRequired s = false → openMode (roles s) = true) → enforced e = true → lacks c (documented e) →
  refused (dispatch e value c r).
Proof.
  intros Hopen He Hl. destruct e as [| | | | | | | | | | | | | | | | | | | | | | | k|k|k|k|k|]; try done; cbn [dispatch refused].
  all: try (by eapply gw_guarded).
  all: try (by eapply ad_unauthenticated).
  all: try (destruct Hl as [Ha Hs]; unfold handleListAgentRequests, handleGetAgentRequest, handleWatchAgentRequest,
    handleListAccuracySummaries, unauthenticated, sub_of; cbn; rewrite Ha, Hs; apply refusing_ret, refusals).
  - by eapply create_guarded.
  - apply lacks_role in Hl as [msg Hm]. unfold handleGetAgentRequestToken, sub_of, groups_of. cbn -[requireRole]. rewrite Hm. apply refusing_ret, refusals.
  - apply lacks_role in Hl as [msg Hm]. unfold handleRecomputeAccuracy, sub_of, groups_of. cbn -[requireRole]. rewrite Hm.
    destruct (_ && _); apply refusing_ret, refusals.
  - apply ad_authenticated. by eapply ad_reader.
  - apply ad_authenticated. unfold named. destruct (_ ==? _); [apply refusing_ret, refusals|by eapply ad_reader].
  - destruct k; by eapply ad_guarded.
  - destruct k; [by eapply ad_guarded..|]. apply ad_authenticated. eapply ad_any; [done|].
    intros role Hr. apply Hl. set_solver.
  - destruct k; [by eapply ad_guarded..|]. apply ad_authenticated. eapply ad_any; [done|].
    intros role Hr. apply Hl. set_solver.
  - destruct k; by eapply ad_guarded.
  - destruct k; by eapply ad_guarded.
  - apply ad_authenticated. destruct (_ ==? _); [apply refusing_ret, refusals|by eapply ad_guarded].
Qed.

(** ** Middlewares

    A request is an object: the mux writes the pattern it matched into the one
    it is given, and [WithContext] makes a copy. *)

Record request_obj := mkRequestObj { ro_Caller : caller; ro_Pattern : string }.

Record heap := mkHeap { hp_objs : gmap nat request_obj; hp_next : nat }.

Definition caller_at (h : heap) (p : nat) : caller := match hp_objs h !! p with Some o => ro_Caller o | None => anonymous end.
Definition pattern_at (h : heap) (p : nat) : string := match hp_objs h !! p with Some o => ro_Pattern o | None => "" end.

Definition WithContext (p : nat) (c : caller) (h : heap) : nat * heap :=
  (hp_next h, mkHeap (<[hp_next h := mkRequestObj c (pattern_at h p)]> (hp_objs h)) (S (hp_next h))).

Definition set_pattern (p : nat) (pat : string) (h : heap) : heap :=
  mkHeap (alter (λ o, mkRequestObj (ro_Caller o) pat) p (hp_objs h)) (hp_next h).

(** What became of a request. *)
Inductive outcome :=
| Answered (status : Z)                            (** by a middleware or the mux *)
| Reached (e : endpoint) (c : caller) (h : handler).

Definition StatusMovedPermanently : Z := 301.
Definition StatusMethodNotAllowed : Z := 405.

Definition mux_ServeHTTP (r : http_request) (p : nat) (h : heap) : heap * outcome :=
  if hr_EscapedPath r ==? "*" then (h, Answered StatusBadRequest)
  else match findHandler routes (hr_Method r) (hr_EscapedPath r) with
  | MuxRedirect _ pat => (set_pattern p pat h, Answered StatusMovedPermanently)
  | MuxNotFound => (h, Answered StatusNotFound)
  | MuxMethodNotAllowed => (h, Answered StatusMethodNotAllowed)
  | MuxHandle rt matches =>
      let h := set_pattern p (pat_str rt.1) h in
      let c := caller_at h p in
      (h, Reached rt.2 c (dispatch rt.2 (PathValue rt matches) c r))
  end.

Context `{NL : NetLib}.
(** [verify issuer audience raw]: the verifier of a provider. *)
Context (verify : string → string → string → option (option claims)).

Definition source_ip (r : http_request) : option IP :=
  ParseIP (default (hr_RemoteAddr r) (SplitHostPort (hr_RemoteAddr r))).

Definition authMiddleware (a : auth) (r : http_request) (p : nat) (h : heap) : heap * outcome :=
  match a with
  | AuthOIDC issuer audience identityClaim groupsClaim =>
      match oidcMiddleware (verify issuer audience) identityClaim groupsClaim (hr_Path r) (header r "Authorization") with
      | Unauthorized _ => (h, Answered StatusUnauthorized)
      | Serve c =>
          if probe_path (hr_Path r) then mux_ServeHTTP r p h
          else let '(p', h') := WithContext p c h in mux_ServeHTTP r p' h'
      end
  | AuthProxy nets =>
      match proxyHeaderMiddleware net_Contains nets (hr_Path r) (source_ip r)
              (header r "X-Remote-User") (header r "X-Forwarded-User") with
      | Unauthorized _ => (h, Answered StatusUnauthorized)
      | Serve c =>
          if cl_Sub c <>? "" then let '(p', h') := WithContext p c h in mux_ServeHTTP r p' h'
          else mux_ServeHTTP r p h
      end
  end.

(** [wrote out]: the last status given to [WriteHeader], if any; the writer
    starts with 200. *)
Context (wrote : outcome → option Z).
Definition recorded_status (o : outcome) : Z := default StatusOK (wrote o).

Record log_line := mkLog { ll_Method : string; ll_Path : string; ll_Status : Z }.

Definition loggingMiddleware (next : nat → heap → heap * outcome) (r : http_request) (p : nat) (h : heap)
  : heap * outcome * log_line :=
  let '(h, out) := next p h in
  (h, out, mkLog (hr_Method r) (hr_Path r) (recorded_status out)).

Definition normalizePath (h : heap) (p : nat) : string :=
  if pattern_at h p <>? "" then pattern_at h p else "/__unmatched__".

(** The labels of the counter and of the histogram. *)
Record metric_labels := mkLabels { la_method : string; la_path : string; la_status : string }.

Definition metricsMiddleware (next : nat → heap → heap * outcome * log_line) (r : http_request) (p : nat) (h : heap)
  : outcome * log_line * metric_labels :=
  let '(h, out, line) := next p h in
  (out, line, mkLabels (hr_Method r) (normalizePath h p) (FormatInt10 (recorded_status out))).

(** [srv.Handler]; the server makes the request object. *)
Definition gateway_handler (a : auth) (r : http_request) : outcome * log_line * metric_labels :=
  metricsMiddleware (loggingMiddleware (authMiddleware a r) r) r 0
    (mkHeap {[0%nat := mkRequestObj anonymous ""]} 1).

(** ** Who reaches a handler *)

(** The caller that the configured authentication stands for. *)
Definition authenticated_by (a : auth) (r : http_request) (e : endpoint) (c : caller) : Prop :=
  match a with
  | AuthOIDC issuer audience identityClaim groupsClaim =>
      (probe e = true ∧ c = anonymous) ∨
      ∃ cs, verify issuer audience (cl_RawToken c) = Some (Some cs) ∧
        cl_RawToken c = TrimPrefix (header r "Authorization") "Bearer " ∧ cl_Sub c ≠ ""%string ∧
        cl_Groups c = claimStringSlice cs groupsClaim ∧ cl_Issuer c = claimString cs "iss" ∧
        (cl_Sub c = claimString cs identityClaim ∨
         (claimString cs identityClaim = ""%string ∧ cl_Sub c = claimString cs "sub"))
  | AuthProxy nets =>
      c = anonymous ∨
      ((nets = [] ∨ ∃ net ip, net ∈ nets ∧ source_ip r = Some ip ∧ net_Contains net ip = true) ∧
       c = mkCaller (cl_Sub c) [] "" "" ∧ cl_Sub c ≠ ""%string ∧
       (cl_Sub c = header r "X-Remote-User" ∨
        (header r "X-Remote-User" = ""%string ∧ cl_Sub c = header r "X-Forwarded-User")))
  end.

Lemma mux_reaches r p h h' e c hd :
  mux_ServeHTTP r p h = (h', Reached e c hd) →
  ∃ rt vs, findHandler routes (hr_Method r) (hr_EscapedPath r) = MuxHandle rt vs ∧ e = rt.2 ∧
    c = caller_at (set_pattern p (pat_str rt.1) h) p ∧ h' = set_pattern p (pat_str rt.1) h ∧
    hd = dispatch e (PathValue rt vs) c r.
Proof.
  unfold mux_ServeHTTP. destruct (_ ==? "*"); [done|]. destruct (findHandler _ _ _) as [| | |rt vs]; try done.
  intros [= <- <- <- <-]. by exists rt, vs.
Qed.

Lemma set_pattern_caller p pat h : caller_at (set_pattern p pat h) p = caller_at h p.
Proof. unfold caller_at, set_pattern. cbn. rewrite lookup_alter_eq. by destruct (hp_objs h !! p). Qed.

Lemma WithContext_caller p c h : caller_at (WithContext p c h).2 (WithContext p c h).1 = c.
Proof. unfold caller_at, WithContext. cbn. by rewrite lookup_insert_eq. Qed.

Lemma proxy_caller nets r c :
  proxyHeaderMiddleware net_Contains nets (hr_Path r) (source_ip r) (header r "X-Remote-User") (header r "X-Forwarded-User") = Serve c →
  authenticated_by (AuthProxy nets) r EWhoAmI c.
Proof.
  unfold proxyHeaderMiddleware, authenticated_by. destruct (probe_path _); [intros [= <-]; by left|].
  set (hdr := if header r "X-Remote-User" ==? "" then _ else _).
  set (who := match nets with [] => hdr | _ => _ end). destruct (String.eqb_spec who "") as [E|Hne]; cbn; intros [= <-]; [by left|].
  right. cbn. assert (who = hdr ∧ (nets = [] ∨ ∃ net ip, net ∈ nets ∧ source_ip r = Some ip ∧ net_Contains net ip = true)) as [Eh Hn].
  { unfold who in *. destruct nets as [|n nets]; [by split; [|left]|]. destruct (source_ip r) as [ip|]; [|done].
    destruct (existsb _ _) eqn:Ex; [|done]. split; [done|]. right. apply existsb_exists in Ex as (net & Hin & Hc).
    exists net, ip. by rewrite list_elem_of_In. }
  split; [done|]. split; [done|]. split; [done|]. rewrite Eh. unfold hdr.
  destruct (String.eqb_spec (header r "X-Remote-User") ""); [by right|by left].
Qed.

(** Through the middlewares: the object the mux was given, and what is left in
    the one the server made. *)
Lemma gateway_reaches a r e c hd line labels :
  gateway_handler a r = (Reached e c hd, line, labels) →
  ∃ rt vs, findHandler routes (hr_Method r) (hr_EscapedPath r) = MuxHandle rt vs ∧ e = rt.2 ∧
    hd = dispatch e (PathValue rt vs) c r ∧
    ((c = anonymous ∧ la_path labels = (if pat_str rt.1 <>? "" then pat_str rt.1 else "/__unmatched__"%string) ∧
      (∀ issuer audience ic gc, a = AuthOIDC issuer audience ic gc → probe_path (hr_Path r) = true)) ∨
     (la_path labels = "/__unmatched__"%string ∧ authenticated_by a r EWhoAmI c ∧ cl_Sub c ≠ ""%string)).
Proof.
  unfold gateway_handler, metricsMiddleware, loggingMiddleware. set (h0 := mkHeap _ _).
  destruct (authMiddleware a r 0 h0) as [h' out] eqn:E. intros [= -> <- <-]. cbn [la_path].
  assert (∀ h', mux_ServeHTTP r 0 h0 = (h', Reached e c hd) →
    ∃ rt vs, findHandler routes (hr_Method r) (hr_EscapedPath r) = MuxHandle rt vs ∧ e = rt.2 ∧
      hd = dispatch e (PathValue rt vs) c r ∧ c = anonymous ∧
      normalizePath h' 0 = (if pat_str rt.1 <>? "" then pat_str rt.1 else "/__unmatched__"%string)) as Hsame.
  { intros h2 (rt & vs & Hf & He & Hc & -> & Hd)%mux_reaches. rewrite set_pattern_caller in Hc. by exists rt, vs. }
  assert (∀ c' h', mux_ServeHTTP r (WithContext 0 c' h0).1 (WithContext 0 c' h0).2 = (h', Reached e c hd) →
    ∃ rt vs, findHandler routes (hr_Method r) (hr_EscapedPath r) = MuxHandle rt vs ∧ e = rt.2 ∧
      hd = dispatch e (PathValue rt vs) c r ∧ c = c' ∧ normalizePath h' 0 = "/__unmatched__"%string) as Hcopy.
  { intros c' h2 (rt & vs & Hf & He & Hc & -> & Hd)%mux_reaches. rewrite set_pattern_caller, WithContext_caller in Hc.
    by exists rt, vs. }
  destruct a as [issuer audience ic gc|nets]; cbn [authMiddleware] in E.
  - destruct (oidcMiddleware _ _ _ _ _) as [|c'] eqn:Ho; [done|].
    destruct (probe_path (hr_Path r)) eqn:Hp.
    + destruct (Hsame _ E) as (rt & vs & Hf & He & Hd & Hc & Hl). exists rt, vs. split_and!; [done..|]. left. by split_and!.
    + destruct (Hcopy c' _ E) as (rt & vs & Hf & He & Hd & -> & Hl). exists rt, vs. split_and!; [done..|]. right.
      apply oidc_middleware_authenticates in Ho as [[? _]|(cs & Hv & Ht & _ & Hs & Hi & Hg & Hid)]; [congruence|].
      split_and!; [done| |done]. right. exists cs. by split_and!.
  - destruct (proxyHeaderMiddleware _ _ _ _ _ _) as [|c'] eqn:Ho; [done|]. pose proof (proxy_caller _ _ _ Ho) as Ha.
    destruct (String.eqb_spec (cl_Sub c') "") as [Es|Hne]; cbn in E.
    + destruct (Hsame _ E) as (rt & vs & Hf & He & Hd & Hc & Hl). exists rt, vs. split_and!; [done..|]. left. by split_and!.
    + destruct (Hcopy c' _ E) as (rt & vs & Hf & He & Hd & -> & Hl). exists rt, vs. split_and!; [done..|]. right. by split_and!.
Qed.

(** C16: Whoever reaches a handler was authenticated as the configuration says,
    probes apart; and a caller without the documented role of the endpoint is
    refused before anything happens but a lookup in the registration cache.
    The roles of the MCP endpoints are not enforced. *)
Theorem documented_access_enforced a r e c hd line labels :
  (authRequired s = false → openMode (roles s) = true) → url_ok (hr_Path r) (hr_EscapedPath r) →
  gateway_handler a r = (Reached e c hd, line, labels) →
  authenticated_by a r e c ∧ (enforced e = true → lacks c (documented e) → refused hd).
Proof.
  intros Hopen Hu (rt & vs & Hf & -> & -> & Hcase)%gateway_reaches. split; [|by apply enforced_roles].
  destruct Hcase as [(-> & _ & Hp)|(_ & Ha & Hs)].
  - destruct a; [left; split; [|done]|by left]. eapply probe_routed; [by eapply Hp|done..].
  - destruct a; [|exact Ha]. destruct Ha as [[_ ->]|Ha]; [done|by right].
Qed.

(** The pattern reaches the metrics only when the mux was given the server's
    own request object: with a caller it was given a copy. *)
Theorem metrics_lose_pattern a r e c hd line labels :
  gateway_handler a r = (Reached e c hd, line, labels) →
  if cl_Sub c ==? "" then ∃ rt, rt ∈ registered_routes ∧ rt.2 = e ∧ la_path labels = rt.1
  else la_path labels = "/__unmatched__"%string.
Proof.
  intros (rt & vs & Hf & -> & _ & Hcase)%gateway_reaches. destruct Hcase as [(-> & Hl & _)|(Hl & _ & Hs)].
  - cbn. apply findHandler_route in Hf. unfold routes in Hf. apply list_elem_of_fmap in Hf as (x & -> & Hx).
    exists x. split_and!; [done|done|]. rewrite Hl. cbn.
    assert (Forall (λ x : string * endpoint, pat_str (parsePattern x.1) = x.1 ∧ x.1 ≠ ""%string) registered_routes) as Hall
      by (apply (bool_decide_unpack _); vm_compute; exact I).
    rewrite Forall_forall in Hall. destruct (Hall x Hx) as [-> Hne]. by destruct (String.eqb_spec x.1 "").
  - by destruct (String.eqb_spec (cl_Sub c) "").
Qed.

End serve.

(** The programs of the MCP endpoints are the same whatever roles are
    configured. *)
Definition with_roles (rc : roleConfig) (cfg : mcp_config) : mcp_config :=
  let s := mc_server cfg in
  mkMcpConfig (mkServer (dedupWindow s) rc (authRequired s) (requireGovernedResource s) (has_jwtManager s)
                 (has_regCache s) (unregisteredAgentPolicy s)) (has_mcpCache cfg) (has_client cfg) (mcpServers cfg).

Lemma mcp_ignores_roles `{GL : GlobLib, MC : MetaConditions, RLg : RetryLib gw, ML : McpLib}
  oidcTokenRequired fuel rc cfg c hdr server tool body :
  handleMCPProxy (with_roles rc cfg) oidcTokenRequired c hdr server tool body =
    handleMCPProxy cfg oidcTokenRequired c hdr server tool body ∧
  handleMCP (with_roles rc cfg) oidcTokenRequired fuel c hdr body = handleMCP cfg oidcTokenRequired fuel c hdr body.
Proof. destruct cfg as [[] ? ? ?]. split; reflexivity. Qed.
