(* ===== verification/GatewayMain.v ===== *)
(** * Start-up of the gateway ([cmd/gateway/main.go], [mcp_registry.go])

    [main] as a program over what it asks of its environment; the last call
    carries the gateway that serves.  Then the MCP servers that the
    environment configures, from loading to listing. *)

From S2P Require Import Prelude GoStd GoStrings Types Prog Retry Kube Conditions Registration GatewayAuth Gateway.
From S2P Require Import GatewayHandlers Jwt KeyPair McpServers Mcp Routes GatewayServe.

(** ** Flags *)

Record flags := mkFlags {
  f_addr : string;
  f_dedupWindow : Z;
  f_oidcIssuerURL : string;
  f_oidcAudience : string;
  f_oidcIdentityClaim : string;
  f_agentSubjects : string;
  f_reviewerSubjects : string;
  f_oidcGroupsClaim : string;
  f_agentGroups : string;
  f_reviewerGroups : string;
  f_adminSubjects : string;
  f_adminGroups : string;
  f_requireGovernedResource : bool;
  f_trustedProxyCIDRs : string;
  f_waitTimeout : Z;
  f_jwtKeyPath : string;
  f_jwtKey : string;
  f_unregisteredAgentPolicy : string }.

(** ** The registry of the environment *)

(** An element of [MCP_REGISTRY], decoded. *)
Record registry_entry := mkEntry {
  re_Name : string; re_URL : string; re_Status : string; re_Tools : list MCPTool; re_BearerToken : string }.

Class RegistryJson := { Unmarshal_registry : string → error + list registry_entry }.

Definition loadMCPRegistry `{RegistryJson} (registry : string) : res (list registry_entry) :=
  if registry ==? "" then Ok []
  else match Unmarshal_registry registry with
       | inl e => Err (EWrap "parse MCP_REGISTRY" e)
       | inr servers => Ok servers
       end.

(** One server of the registry: its element of [mcpServers], and the seeding
    of the cache, which shares the slice of tools. *)
Definition seed_entry (st : list nat * mcpServerCache) (e : registry_entry) : list nat * mcpServerCache :=
  let '(tools, c) := make_slice (re_Tools e) st.2 in
  let '(p, c) := new_object (mkServer_ (re_Name e) (re_URL e) (re_Status e) tools (re_BearerToken e) "" false false) c in
  (st.1 ++ [p], seed (re_Name e) (re_URL e) (re_BearerToken e) tools c).

Definition seed_registry (es : list registry_entry) : list nat * mcpServerCache :=
  fold_left seed_entry es ([], newMCPServerCache).

(** ** The gateway that serves *)

Record gateway `{NL : NetLib, JW : JwtLib} := mkGateway {
  g_Server : Server;
  g_waitTimeout : Z;
  g_jwtManager : option Manager;
  g_mcpServers : list nat;
  g_mcpCache : mcpServerCache;
  g_regCache : registrationCache;
  g_auth : auth }.

(** ** Calls *)

Inductive maincall `{NL : NetLib, JW : JwtLib} :=
| NGetenv (name : string)
| NReadFile (path : string)
| NSystemCertPool
| NAppendCerts (system : bool) (pem : string)        (** to the system's pool or to a new one *)
| NSetRootCAs (system : bool) (pem : string)         (** where the default transport is an [*http.Transport] *)
| NClientConfig
| NInClusterConfig
| NAddClientGoScheme
| NAddV1alpha1Scheme
| NNewWatchClient
| NNewManager
| NIndexField
| NGoStartManager
| NWaitForCacheSync
| NNow
| NGoKeyWatcher (path : string)
| NGoWatchMCPServers
| NGoWatchAgentRegistrations
| NNewProvider (issuer : string)
| NListenAndServe (addr : string) (g : gateway).

Definition mainresp `{NL : NetLib, JW : JwtLib} (c : maincall) : Type :=
  match c with
  | NGetenv _ => string
  | NReadFile _ => res string
  | NSystemCertPool | NAppendCerts _ _ | NWaitForCacheSync => bool
  | NClientConfig | NInClusterConfig | NAddClientGoScheme | NAddV1alpha1Scheme | NNewWatchClient | NNewManager
  | NIndexField | NNewProvider _ => option error
  | NListenAndServe _ _ => option error              (** [None]: [ErrServerClosed] *)
  | NSetRootCAs _ _ | NGoStartManager | NGoKeyWatcher _ | NGoWatchMCPServers | NGoWatchAgentRegistrations => unit
  | NNow => Z
  end.

Definition mn `{NL : NetLib, JW : JwtLib} : sig := mkSig maincall mainresp.
Abbreviation ncall_ c := (trigger mn c).

(** [log.Fatalf] ends the process. *)
Inductive exit := Fatal (msg : string) | Exited.

Section main.
Context `{NL : NetLib, JW : JwtLib, RJ : RegistryJson, ET : ErrorText}.

Definition must (msg : string) (p : prog mn (option error)) (k : prog mn exit) : prog mn exit :=
  e <- p ;;
  match e with Some e => Ret (Fatal (msg +:+ err_v e)%string) | None => k end.

(** The certificates of [SSL_CERT_FILE]; failures are ignored. *)
Definition trust_certs : prog mn unit :=
  file <- ncall_ (NGetenv "SSL_CERT_FILE") ;;
  if file ==? "" then Ret tt
  else
    pem <- ncall_ (NReadFile file) ;;
    match pem with
    | Err _ => Ret tt
    | Ok pem =>
        system <- ncall_ NSystemCertPool ;;
        ok <- ncall_ (NAppendCerts system pem) ;;
        if ok : bool then ncall_ (NSetRootCAs system pem) else Ret tt
    end.

Definition valid_policy (p : string) : bool := (p ==? "allow") || (p ==? "warn") || (p ==? "strict").

Definition auth_required (f : flags) : bool :=
  (f_oidcIssuerURL f <>? "") || (f_agentSubjects f <>? "") || (f_reviewerSubjects f <>? "") || (f_adminSubjects f <>? "") ||
  (f_agentGroups f <>? "") || (f_reviewerGroups f <>? "") || (f_adminGroups f <>? "").

Definition role_config (f : flags) : roleConfig :=
  newRoleConfig (f_agentSubjects f) (f_reviewerSubjects f) (f_adminSubjects f)
    (f_agentGroups f) (f_reviewerGroups f) (f_adminGroups f).

(** The manager of the signing key; the left side is a fatal error. *)
Definition jwt_manager (f : flags) : prog mn (string + option Manager) :=
  if f_jwtKey f <>? "" then
    now <- ncall_ NNow ;;
    Ret (match NewManagerFromPEM (f_jwtKey f) now with
         | Err e => inl ("Failed to parse JWT key from --jwt-key: " +:+ err_v e)
         | Ok m => inr (Some m)
         end)%string
  else if f_jwtKeyPath f <>? "" then
    file <- ncall_ (NReadFile (f_jwtKeyPath f)) ;;
    now <- ncall_ NNow ;;
    match NewManager file now with
    | Err e => Ret (inl ("Failed to load JWT key: " +:+ err_v e)%string)
    | Ok m => ncall_ (NGoKeyWatcher (f_jwtKeyPath f)) ;;; Ret (inr (Some m))
    end
  else Ret (inr None).

(** [newProxyHeaderMiddleware]: an entry that does not parse is fatal. *)
Fixpoint parse_cidrs (parts : list string) : string + list Net :=
  match parts with
  | [] => inr []
  | part :: rest =>
      let cidr := TrimSpace part in
      if cidr ==? "" then parse_cidrs rest
      else match ParseCIDR cidr with
           | Err e => inl ("invalid --trusted-proxy-cidrs entry " +:+ quote cidr +:+ ": " +:+ err_v e)%string
           | Ok n => match parse_cidrs rest with inl msg => inl msg | inr nets => inr (n :: nets) end
           end
  end.

Definition auth_middleware (f : flags) : prog mn (string + auth) :=
  if f_oidcIssuerURL f <>? "" then
    e <- ncall_ (NNewProvider (f_oidcIssuerURL f)) ;;
    Ret (match e with
         | Some e => inl ("OIDC setup failed: oidc provider: " +:+ err_v e)%string
         | None => inr (AuthOIDC (f_oidcIssuerURL f) (f_oidcAudience f) (f_oidcIdentityClaim f) (f_oidcGroupsClaim f))
         end)
  else Ret (match parse_cidrs (split comma (f_trustedProxyCIDRs f)) with
            | inl msg => inl msg
            | inr nets => inr (AuthProxy nets)
            end).

(** From the registry on. *)
Definition start_serving (f : flags) (wt : Z) (jwtMgr : option Manager) : prog mn exit :=
  env <- ncall_ (NGetenv "MCP_REGISTRY") ;;
  match loadMCPRegistry env with
  | Err e => Ret (Fatal ("Failed to load MCP registry: " +:+ err_v e)%string)
  | Ok entries =>
      let '(mcpServers, mcpCache) := seed_registry entries in
      clientID <- ncall_ (NGetenv "OIDC_CLIENT_ID") ;;
      clientSecret <- ncall_ (NGetenv "OIDC_CLIENT_SECRET") ;;
      let regCache := withOIDCCredentials newRegistrationCache clientID clientSecret in
      let server := mkServer (f_dedupWindow f) (role_config f) (auth_required f) (f_requireGovernedResource f)
                      (bool_decide (is_Some jwtMgr)) true (f_unregisteredAgentPolicy f) in
      ncall_ NGoWatchMCPServers ;;;
      ncall_ NGoWatchAgentRegistrations ;;;
      a <- auth_middleware f ;;
      match a with
      | inl msg => Ret (Fatal msg)
      | inr a =>
          e <- ncall_ (NListenAndServe (f_addr f) (mkGateway _ _ server wt jwtMgr mcpServers mcpCache regCache a)) ;;
          Ret (match e with Some e => Fatal ("Server failed: " +:+ err_v e)%string | None => Exited end)
      end
  end.

Definition insecure_msg : string :=
  "insecure configuration: --agent-subjects or --reviewer-subjects is set but neither --oidc-issuer-url nor --trusted-proxy-cidrs is configured — any client can forge X-Remote-User headers; set --oidc-issuer-url for JWT validation or --trusted-proxy-cidrs to restrict proxy-header trust".

Definition main (f : flags) : prog mn exit :=
  trust_certs ;;;
  if negb (valid_policy (f_unregisteredAgentPolicy f)) then
    Ret (Fatal ("invalid --unregistered-agent-policy " +:+ quote (f_unregisteredAgentPolicy f)
                  +:+ ": must be allow, warn, or strict")%string)
  else
    must "Failed to load kubeconfig: "
      (e <- ncall_ NClientConfig ;; match e with Some _ => ncall_ NInClusterConfig | None => Ret None end) (
    must "Failed to add client-go to scheme: " (ncall_ NAddClientGoScheme) (
    must "Failed to add v1alpha1 to scheme: " (ncall_ NAddV1alpha1Scheme) (
    must "Failed to create watch client: " (ncall_ NNewWatchClient) (
    must "Failed to create manager: " (ncall_ NNewManager) (
    must "Failed to register status.phase field indexer: " (ncall_ NIndexField) (
      ncall_ NGoStartManager ;;;
      synced <- ncall_ NWaitForCacheSync ;;
      if negb synced then Ret (Fatal "Manager cache failed to sync")
      else if auth_required f && (f_oidcIssuerURL f ==? "") && (f_trustedProxyCIDRs f ==? "") then Ret (Fatal insecure_msg)
      else
        let wt := if f_waitTimeout f <=? 0 then 90 * Second else f_waitTimeout f in
        m <- jwt_manager f ;;
        match m with inl msg => Ret (Fatal msg) | inr jwtMgr => start_serving f wt jwtMgr end)))))).

(** ** What is listened with *)

(** The networks are those of the listed entries, all of which parse. *)
Definition nets_of (cidrs : string) (nets : list Net) : Prop :=
  (∀ n, n ∈ nets ↔ ∃ t, listed cidrs t ∧ ParseCIDR t = Ok n) ∧
  ∀ t, listed cidrs t → ∃ n, n ∈ nets ∧ ParseCIDR t = Ok n.

(** Callers are identified by tokens of the configured issuer, which was
    reached, or without an issuer by headers; then, where callers have to be
    authenticated, the flag with the trusted networks is given. *)
Definition guarded_auth (f : flags) (h : list (event mn)) (a : auth) : Prop :=
  match a with
  | AuthOIDC issuer audience identityClaim groupsClaim =>
      issuer = f_oidcIssuerURL f ∧ issuer ≠ ""%string ∧ audience = f_oidcAudience f ∧
      identityClaim = f_oidcIdentityClaim f ∧ groupsClaim = f_oidcGroupsClaim f ∧ Ev (S:=mn) (NNewProvider issuer) None ∈ h
  | AuthProxy nets =>
      f_oidcIssuerURL f = ""%string ∧ (auth_required f = true → f_trustedProxyCIDRs f ≠ ""%string) ∧
      nets_of (f_trustedProxyCIDRs f) nets
  end.

(** The signing key is the one of the flag, or that of the file at start-up,
    which is then watched; without either there is no manager. *)
Definition key_given (f : flags) (h : list (event mn)) (mgr : option Manager) : Prop :=
  match mgr with
  | None => f_jwtKey f = ""%string ∧ f_jwtKeyPath f = ""%string
  | Some m =>
      ∃ data now, NewManagerFromPEM data now = Ok m ∧ Ev (S:=mn) NNow now ∈ h ∧
        ((f_jwtKey f ≠ ""%string ∧ data = f_jwtKey f) ∨
         (f_jwtKey f = ""%string ∧ f_jwtKeyPath f ≠ ""%string ∧ Ev (S:=mn) (NReadFile (f_jwtKeyPath f)) (Ok data) ∈ h ∧
          Ev (S:=mn) (NGoKeyWatcher (f_jwtKeyPath f)) tt ∈ h))
  end.

(** The flags that list who has a role. *)
Definition role_flags (f : flags) : list string :=
  [f_agentSubjects f; f_reviewerSubjects f; f_adminSubjects f; f_agentGroups f; f_reviewerGroups f; f_adminGroups f].

Record configured (f : flags) (h : list (event mn)) (addr : string) (g : gateway) : Prop := {
  co_addr : addr = f_addr f;
  co_policy : unregisteredAgentPolicy (g_Server g) = f_unregisteredAgentPolicy f ∧
              f_unregisteredAgentPolicy f ∈ ["allow"; "warn"; "strict"]%string;
  co_admission : dedupWindow (g_Server g) = f_dedupWindow f ∧ requireGovernedResource (g_Server g) = f_requireGovernedResource f;
  co_timeout : 0 < g_waitTimeout g ∧ (0 < f_waitTimeout f → g_waitTimeout g = f_waitTimeout f);
  (** every role is open exactly when no flag lists anybody *)
  co_roles : roles (g_Server g) = role_config f ∧
             (openMode (roles (g_Server g)) = true ↔ ∀ x, x ∈ role_flags f → ∀ t, ~ listed x t);
  (** callers are authenticated exactly when an issuer or a role flag is given *)
  co_required : authRequired (g_Server g) = true ↔ f_oidcIssuerURL f ≠ ""%string ∨ ∃ x, x ∈ role_flags f ∧ x ≠ ""%string;
  co_auth : guarded_auth f h (g_auth g);
  co_key : (has_jwtManager (g_Server g) = true ↔ is_Some (g_jwtManager g)) ∧ key_given f h (g_jwtManager g);
  co_registry : ∃ env es, Ev (S:=mn) (NGetenv "MCP_REGISTRY") env ∈ h ∧ loadMCPRegistry env = Ok es ∧
                  seed_registry es = (g_mcpServers g, g_mcpCache g);
  (** the cached reads are synced, and the watches of the caches are started *)
  co_synced : Ev (S:=mn) NWaitForCacheSync true ∈ h ∧ has_regCache (g_Server g) = true ∧
              Ev (S:=mn) NGoWatchMCPServers tt ∈ h ∧ Ev (S:=mn) NGoWatchAgentRegistrations tt ∈ h }.

Definition listens_ok (f : flags) (h : list (event mn)) (c : op mn) : Prop :=
  match c with NListenAndServe addr g => configured f h addr g | _ => True end.

Lemma auth_required_spec f :
  auth_required f = true ↔ f_oidcIssuerURL f ≠ ""%string ∨ ∃ x, x ∈ role_flags f ∧ x ≠ ""%string.
Proof.
  assert (∀ x, (x <>? "") = true ↔ x ≠ ""%string) as Hne.
  { intros x. rewrite negb_true_iff. apply String.eqb_neq. }
  unfold auth_required, role_flags. rewrite !orb_true_iff, !Hne. split.
  - intros H. destruct_or! H; [by left|..]; right; eexists; (split; [|exact H]); set_solver.
  - intros [H|(x & Hx & H)]; [tauto|]. rewrite !elem_of_cons, elem_of_nil in Hx. destruct_or! Hx; subst; tauto.
Qed.

Lemma valid_policy_spec p : valid_policy p = true → p ∈ ["allow"; "warn"; "strict"]%string.
Proof. unfold valid_policy. rewrite !orb_true_iff, !String.eqb_eq. set_solver. Qed.

Lemma parse_cidrs_nets parts nets :
  parse_cidrs parts = inr nets →
  ∀ n, n ∈ nets ↔ ∃ t, (t ≠ ""%string ∧ ∃ v, v ∈ parts ∧ t = TrimSpace v) ∧ ParseCIDR t = Ok n.
Proof.
  revert nets. induction parts as [|part parts IH]; cbn; intros nets.
  - intros [= <-] n. set_solver.
  - destruct (String.eqb_spec (TrimSpace part) "") as [E|Hne].
    + intros H n. rewrite (IH _ H). set_solver.
    + destruct (ParseCIDR (TrimSpace part)) as [n0|] eqn:E; [|done]. destruct (parse_cidrs parts) as [|nets'] eqn:Ep; [done|].
      intros [= <-] n. rewrite elem_of_cons, (IH nets') by done. split.
      * intros [->|(t & (Ht & v & Hv & Et) & Hp)]; [exists (TrimSpace part); set_solver|exists t; set_solver].
      * intros (t & (Ht & v & [->|Hv]%elem_of_cons & Et) & Hp); [left; congruence|right; set_solver].
Qed.

Lemma parse_cidrs_all parts nets :
  parse_cidrs parts = inr nets →
  ∀ t, t ≠ ""%string → (∃ v, v ∈ parts ∧ t = TrimSpace v) → ∃ n, n ∈ nets ∧ ParseCIDR t = Ok n.
Proof.
  revert nets. induction parts as [|part parts IH]; cbn; intros nets.
  { intros _ t _ (v & ?%elem_of_nil & _). done. }
  destruct (String.eqb_spec (TrimSpace part) "") as [E|Hne].
  - intros H t Ht (v & [->|Hv]%elem_of_cons & ->); [done|]. apply (IH nets); eauto.
  - destruct (ParseCIDR (TrimSpace part)) as [n0|] eqn:E; [|done]. destruct (parse_cidrs parts) as [|nets'] eqn:Ep; [done|].
    intros [= <-] t Ht (v & [->|Hv]%elem_of_cons & ->); [exists n0; split; [left|done]|].
    destruct (IH nets' eq_refl (TrimSpace v) Ht) as (n & ? & ?); [eauto|]. exists n. split; [by right|done].
Qed.

Abbreviation G f h p := (safe (S:=mn) any (listens_ok f) h p (λ _ (_ : exit), True)).

Lemma G_must f h msg p k :
  safe (S:=mn) any (listens_ok f) h p (λ h' _, h ⊆ h') → (∀ h', h ⊆ h' → G f h' k) → G f h (must msg p k).
Proof.
  intros Hp Hk. apply safe_bind. eapply safe_post; [|exact Hp]. intros h' [e|] Hh; cbn; [done|by apply Hk].
Qed.

(** A call that answers with an error or nothing. *)
Lemma G_call f h c (Q : list (event mn) → ans mn c → Prop) :
  listens_ok f h c → (∀ x h', h ⊆ h' → Q h' x) → safe (S:=mn) any (listens_ok f) h (ncall_ c) Q.
Proof. intros Hc HQ. apply safe_last; [done|]. intros x h' _ Hh _. by apply HQ. Qed.

Lemma G_jwt f h :
  safe (S:=mn) any (listens_ok f) h (jwt_manager f) (λ h' r, h ⊆ h' ∧ ∀ mgr, r = inr mgr → key_given f h' mgr).
Proof.
  unfold jwt_manager. destruct (String.eqb_spec (f_jwtKey f) "") as [Ek|Hk]; cbn.
  - destruct (String.eqb_spec (f_jwtKeyPath f) ""); cbn; [by split; [|intros mgr [= <-]]|].
    split; [exact I|]. intros file _. split; [exact I|]. intros now _.
    destruct (NewManager file now) as [m|e] eqn:E; cbn; [|split; [set_solver|done]].
    split; [exact I|]. intros [] _. split; [set_solver|]. intros mgr [= <-]. destruct file as [data|]; [|done].
    exists data, now. split; [done|]. split; [set_solver|]. right. split_and!; [done|done|set_solver|set_solver].
  - split; [exact I|]. intros now _. split; [set_solver|]. intros mgr Hm.
    destruct (NewManagerFromPEM (f_jwtKey f) now) as [m|] eqn:E; [|done]. injection Hm as <-.
    exists (f_jwtKey f), now. split; [done|]. split; [set_solver|by left].
Qed.

Lemma G_auth f h :
  (auth_required f && (f_oidcIssuerURL f ==? "") && (f_trustedProxyCIDRs f ==? "")) = false →
  safe (S:=mn) any (listens_ok f) h (auth_middleware f) (λ h' r, h ⊆ h' ∧ ∀ a, r = inr a → guarded_auth f h' a).
Proof.
  intros Hg. unfold auth_middleware. destruct (String.eqb_spec (f_oidcIssuerURL f) "") as [Ei|Hi]; cbn.
  - split; [done|]. destruct (parse_cidrs _) as [|nets] eqn:E; [done|]. intros a [= <-]. split_and!; [done| |].
    + intros Ha E'. rewrite Ha, E' in Hg. done.
    + split; [exact (parse_cidrs_nets _ _ E)|]. intros t [Ht Hv]. by apply (parse_cidrs_all _ _ E).
  - split; [exact I|]. intros [e|] _; (split; [set_solver|]); [done|]. intros a [= <-]. split_and!; try done. set_solver.
Qed.

Lemma guarded_auth_mono f h h' a : h ⊆ h' → guarded_auth f h a → guarded_auth f h' a.
Proof. intros Hh. destruct a; cbn; [|done]. intros (? & ? & ? & ? & ? & ?). split_and!; auto. Qed.

Lemma key_given_mono f h h' m : h ⊆ h' → key_given f h m → key_given f h' m.
Proof.
  intros Hh. destruct m as [m|]; [|done]. intros (data & now & Hm & Hn & Hd). exists data, now.
  split; [done|]. split; [by apply Hh|]. destruct Hd as [|(? & ? & ? & ?)]; [by left|right]. split_and!; auto.
Qed.

Lemma G_serving f h wt jwtMgr :
  valid_policy (f_unregisteredAgentPolicy f) = true → 0 < wt → (0 < f_waitTimeout f → wt = f_waitTimeout f) →
  (auth_required f && (f_oidcIssuerURL f ==? "") && (f_trustedProxyCIDRs f ==? "")) = false →
  key_given f h jwtMgr → Ev (S:=mn) NWaitForCacheSync true ∈ h →
  G f h (start_serving f wt jwtMgr).
Proof.
  intros Hp Hwt Hwt' Hg Hk Hs. unfold start_serving. apply safe_call; [exact I|]. intros env h1 _ H1 Henv.
  destruct (loadMCPRegistry env) as [es|] eqn:Hes; [|done]. destruct (seed_registry es) as [servers cache] eqn:Hseed.
  apply safe_call; [exact I|]. intros cid h2 _ H2 _. apply safe_call; [exact I|]. intros sec h3 _ H3 _.
  apply safe_call; [exact I|]. intros [] h4 _ H4 Hw1. apply safe_call; [exact I|]. intros [] h5 _ H5 Hw2.
  eapply safe_sub; [by apply G_auth|]. intros [msg|a] h6 H6 Ha; [done|]. apply safe_call; [|done].
  assert (h1 ⊆ h6) as Hh1 by (do 4 (etrans; [eassumption|]); done).
  assert (h ⊆ h6) as Hh by (by etrans).
  split; cbn; try done.
  - split; [done|by apply valid_policy_spec].
  - split; [done|]. apply openMode_spec.
  - apply auth_required_spec.
  - by apply Ha.
  - split; [by rewrite bool_decide_eq_true|]. by eapply key_given_mono.
  - exists env, es. split; [by apply Hh1|done].
  - split; [by apply Hh|]. split; [done|]. split; [apply H6, H5, Hw1|apply H6, Hw2].
Qed.

Lemma main_guarded f : G f [] (main f).
Proof.
  unfold main. apply safe_bind. eapply (safe_post _ _ _ _ (λ _ _, True)).
  2:{ unfold trust_certs. apply safe_call; [exact I|]. intros file h _ _ _. destruct (file ==? ""); [done|].
      apply safe_call; [exact I|]. intros [pem|] h' _ _ _; [|done]. apply safe_call; [exact I|]. intros sys h2 _ _ _.
      apply safe_call; [exact I|]. intros [] h3 _ _ _; [|done]. by apply G_call. }
  intros h _ _. destruct (valid_policy _) eqn:Hp; cbn [negb]; [|done].
  apply G_must; [|intros h1 _].
  { apply safe_call; [exact I|]. intros [e|] h' _ Hh _; [|done]. apply G_call; [exact I|]. intros x h2 ?. by etrans. }
  do 5 (apply G_must; [by apply G_call|intros ? _]).
  apply safe_call; [exact I|]. intros u h2 _ _ _. apply safe_call; [exact I|]. intros [] h3 _ _ Hs; [|done]. cbn [negb].
  destruct (auth_required f && _ && _) eqn:Hg; [done|].
  eapply safe_sub; [apply G_jwt|]. intros [msg|m] h4 Hh Hk; [done|]. apply G_serving; try done.
  - destruct (Z.leb_spec (f_waitTimeout f) 0); [done|lia].
  - destruct (Z.leb_spec (f_waitTimeout f) 0); [lia|done].
  - by apply Hk.
  - by apply Hh.
Qed.

(** C17: Whatever happens at start-up, the gateway listens only with the
    configuration of its flags: a valid policy, a positive timeout, and the
    signing key it was given, if any; roles that are open exactly when no flag
    lists anybody; authentication exactly when an issuer or a role flag is
    given, by tokens of that issuer or, without one, by headers, for which the
    flag of trusted networks is then set and every entry of it is a trusted
    network; with its cached reads synced and its watches started. *)
Theorem gateway_starts_guarded f t1 addr g x t2 :
  emits (main f) (t1 ++ Ev (S:=mn) (NListenAndServe addr g) x :: t2) → listens_ok f t1 (NListenAndServe addr g).
Proof. intros H. by apply (safe_emits _ _ _ _ _ _ _ _ _ (main_guarded f)) in H; [|apply Forall_true]. Qed.

End main.

(** ** The listing of servers *)

(** The snapshots [getAll] makes; in Go in any order. *)
Definition snapshot (o : MCPServer) : MCPServer :=
  mkServer_ (ms_Name o) (ms_URL o) (ms_Status o) (ms_Tools o) (ms_BearerToken o) "" (ms_Pinned o) false.

Definition getAll (c : mcpServerCache) : list MCPServer :=
  omap (λ e, snapshot <$> mc_objs c !! e.2) (map_to_list (mc_servers c)).

Record mcpServerResponse := mkServerResponse { sp_Name : string; sp_Status : string; sp_Tools : list MCPTool }.

Definition handleMCPRegistry (mcpServers : list nat) (has_cache : bool) (c : mcpServerCache) : list mcpServerResponse :=
  let servers := omap (λ p, mc_objs c !! p) mcpServers in
  let servers := if has_cache then match getAll c with [] => servers | cached => cached end else servers in
  (λ srv, mkServerResponse (ms_Name srv) (ms_Status srv) (default [] (mc_slices c !! ms_Tools srv))) <$> servers.

(** No entry of the cache has a status. *)
Definition blank (c : mcpServerCache) : Prop :=
  ∀ name p o, mc_servers c !! name = Some p → mc_objs c !! p = Some o → ms_Status o = ""%string.

Lemma put_blank i c name srv : mcp_wf i c → blank c → ms_Status srv = ""%string → blank (put name srv c).
Proof.
  intros Hwf Hb Hs n p o. cbn. destruct (decide (name = n)) as [<-|].
  - rewrite lookup_insert_eq. intros [= <-]. rewrite lookup_insert_eq. by intros [= <-].
  - rewrite lookup_insert_ne by done. intros Hp. rewrite lookup_insert_ne; [by apply (Hb n)|].
    intros <-. by eapply named_below in Hp.
Qed.

Lemma cstep_blank i c i' c' : cstep (i, c) (i', c') → mcp_wf i c → blank c → blank c'.
Proof.
  assert (∀ p f c, blank c → (∀ o, ms_Status (f o) = ms_Status o) → blank (write p f c)) as Hw.
  { intros p f c0 Hb Hf n q o Hq. cbn. destruct (decide (p = q)) as [->|]; [|rewrite lookup_alter_ne by done; by eapply Hb].
    rewrite lookup_alter_eq. intros (o0 & Ho & ->)%fmap_Some. rewrite Hf. by eapply Hb. }
  intros Hstep Hwf Hb. inversion Hstep; subst; clear Hstep; try (by auto); try (by eapply put_blank).
  - intros n p o Hp. cbn. rewrite lookup_insert_ne by (symmetry; by eapply named_below). by eapply Hb.
  - unfold upsertMCPServerFromCRD. destruct (crd_token _ _) as [tok|]; [|done]. cbn.
    pose proof (slice_wf _ _ (tools_of_crd crd) Hwf) as Hwf'.
    unfold mcp_upsert. destruct (match cache_get _ _ with Some _ => _ | None => _ end) as [[sid ready] pinned].
    by eapply put_blank.
  - intros n p o. cbn. intros [_ Hp]%lookup_delete_Some. by eapply Hb.
  - unfold commitSession. destruct (cache_get c name) as [[p srv]|]; [|done]. destruct (_ <>? _); [done|]. by eapply put_blank.
Qed.

Lemma csteps_blank st st' : rtc cstep st st' → mcp_wf st.1 st.2 → blank st.2 → blank st'.2.
Proof.
  induction 1 as [|[i c] [i1 c1] st' H1 _ IH]; [done|]. intros Hwf Hb. cbn in *.
  apply IH; [by eapply cstep_wf|by eapply cstep_blank].
Qed.

(** ** Start-up *)

(** Start-up is made of such steps, too. *)
Lemma seed_entry_csteps i st e : rtc cstep (i, st.2) (i, (seed_entry st e).2).
Proof.
  destruct st as [ps c]. cbn -[seed]. set (c1 := (make_slice (re_Tools e) c).2).
  assert (mc_slices c1 !! mc_next c = Some (re_Tools e)) as Hs by (cbn; by rewrite lookup_insert_eq).
  eapply rtc_l; [apply (cs_slice i c (re_Tools e))|]. eapply rtc_l; [|apply rtc_once, cs_seed].
  - apply (cs_object i c1 (mkServer_ (re_Name e) (re_URL e) (re_Status e) (mc_next c) (re_BearerToken e) "" false false)); [done|].
    by exists (re_Tools e).
  - by exists (re_Tools e).
Qed.

Lemma seed_csteps es : rtc cstep (∅, newMCPServerCache) (∅, (seed_registry es).2).
Proof.
  unfold seed_registry. enough (∀ st, rtc cstep (∅, st.2) (∅, (fold_left seed_entry es st).2)) as H by apply (H ([], _)).
  induction es as [|e es IH]; intros st; [done|]. cbn [fold_left]. etrans; [apply seed_entry_csteps|apply IH].
Qed.

(** The entry that counts for a name: the last one. *)
Definition entry_for (es : list registry_entry) (name : string) : option registry_entry :=
  last (List.filter (λ e, re_Name e ==? name) es).

Definition seeded (es : list registry_entry) (c : mcpServerCache) : Prop :=
  mcp_wf ∅ c ∧ blank c ∧
  ∀ name, match entry_for es name with
    | None => mc_servers c !! name = None
    | Some e => ∃ p o, cache_get c name = Some (p, o) ∧ ms_Pinned o = true ∧ ms_Name o = name ∧ ms_URL o = re_URL e ∧
        ms_BearerToken o = re_BearerToken e ∧ mc_slices c !! ms_Tools o = Some (re_Tools e)
    end.

Lemma seed_registry_seeded es : seeded es (seed_registry es).2.
Proof.
  induction es as [|e es IH] using rev_ind.
  - split_and!; [apply empty_wf|by intros n p o Hp; cbn in Hp; rewrite lookup_empty in Hp|done].
  - unfold seed_registry in *. rewrite fold_left_app. cbn. set (st := fold_left seed_entry es _) in *. clearbody st.
    destruct st as [ps c]. destruct IH as (Hwf & Hb & Hall). cbn in *.
    unfold seed_entry. cbn -[make_slice new_object seed].
    set (c1 := (make_slice (re_Tools e) c).2).
    set (srv := mkServer_ (re_Name e) (re_URL e) (re_Status e) (mc_next c) (re_BearerToken e) "" false false).
    set (c2 := (new_object srv c1).2). change (seeded (es ++ [e]) (seed (re_Name e) (re_URL e) (re_BearerToken e) (mc_next c) c2)).
    assert (mcp_wf ∅ c1) as Hwf1 by (by apply slice_wf).
    assert (mc_slices c2 !! mc_next c = Some (re_Tools e)) as Hsl by (cbn; by rewrite lookup_insert_eq).
    assert (mcp_wf ∅ c2) as Hwf2 by (by apply new_object_wf; [done|done|eexists]).
    split_and!.
    + apply put_wf; cbn; eauto.
    + eapply put_blank; [done| |done]. intros n p o. cbn. intros Hp. rewrite lookup_insert_ne; [by eapply Hb|].
      intros <-. eapply (named_below _ c1); [done|exact Hp|done].
    + intros name. unfold entry_for. rewrite List.filter_app. cbn. destruct (String.eqb_spec (re_Name e) name) as [<-|Hne].
      * rewrite last_snoc. unfold seed. rewrite put_get_eq. eexists _, _. split_and!; try done.
      * rewrite app_nil_r. specialize (Hall name). unfold entry_for in Hall.
        destruct (last _) as [e'|]; [|unfold seed, put; cbn; by rewrite lookup_insert_ne].
        destruct Hall as (p & o & Hg & Hpin & Hn & Hu & Hbt & Ht). exists p, o. split_and!; try done.
        -- unfold seed. erewrite put_get_ne; [|exact Hwf2|done]. revert Hg. unfold cache_get. cbn.
           destruct (mc_servers c !! name) as [q|] eqn:Hq; [|done]. cbn. rewrite lookup_insert_ne; [done|].
           intros <-. eapply (named_below _ c1); [done|exact Hq|done].
        -- cbn. rewrite lookup_insert_ne; [done|]. intros E. rewrite <- E in Ht.
           by rewrite (proj2 (wf_fresh _ _ Hwf _ (le_n _))) in Ht.
Qed.

Lemma elem_of_getAll c o' : o' ∈ getAll c ↔ ∃ name p o, cache_get c name = Some (p, o) ∧ o' = snapshot o.
Proof.
  unfold getAll, cache_get. rewrite list_elem_of_omap. split.
  - intros ([name p] & Hin%elem_of_map_to_list & (o & Ho & ->)%fmap_Some). exists name, p, o. cbn in Ho. by rewrite Hin; cbn; rewrite Ho.
  - intros (name & p & o & (q & Hq & (o1 & Ho & [= <- <-])%bind_Some)%bind_Some & ->). exists (name, q).
    split; [by apply elem_of_map_to_list|]. cbn. by rewrite Ho.
Qed.

(** Start-up brings the cache to a state that the interleavings of the cache
    allow for.  The listing is then the registry, the last entry of each name;
    the status an entry was given is dropped there and stays empty whatever
    handlers and the watch goroutine do. *)
Theorem registry_listing es :
  let '(servers, c0) := seed_registry es in
  rtc cstep (∅, newMCPServerCache) (∅, c0) ∧
  (∀ resp, resp ∈ handleMCPRegistry servers true c0 ↔
     ∃ e, entry_for es (re_Name e) = Some e ∧ resp = mkServerResponse (re_Name e) "" (re_Tools e)) ∧
  ∀ i c cycles, rtc cstep (∅, c0) (i, c) → let c' := watchMCPServers cycles c in getAll c' ≠ [] →
    ∀ resp, resp ∈ handleMCPRegistry servers true c' → sp_Status resp = ""%string.
Proof.
  pose proof (seed_csteps es) as Hseed. pose proof (seed_registry_seeded es) as (Hwf & Hb & Hall). destruct (seed_registry es) as [servers c0] eqn:E. cbn in Hwf, Hb, Hall.
  split; [exact Hseed|]. split.
  - intros resp. unfold handleMCPRegistry. rewrite list_elem_of_fmap. split.
    + intros (srv & -> & Hin). destruct (getAll c0) as [|o1 l] eqn:Eg.
      { exfalso. assert (es = []) as ->.
        { destruct es as [|e es _] using rev_ind; [done|]. specialize (Hall (re_Name e)). unfold entry_for in Hall.
          rewrite List.filter_app in Hall. cbn in Hall. rewrite String.eqb_refl, last_snoc in Hall.
          destruct Hall as (p & o & Hg & _). assert (snapshot o ∈ getAll c0) as H by (apply elem_of_getAll; eauto).
          rewrite Eg in H. set_solver. }
        cbn in E. injection E as <- <-. cbn in Hin. set_solver. }
      rewrite <- Eg in Hin. apply elem_of_getAll in Hin as (name & p & o & Hg & ->). cbn.
      specialize (Hall name). destruct (entry_for es name) as [e|] eqn:Ee.
      * destruct Hall as (p' & o' & Hg' & _ & Hn & _ & _ & Ht). rewrite Hg in Hg'. injection Hg' as <- <-.
        assert (re_Name e = name) as Hne.
        { apply last_Some_elem_of, list_elem_of_In, filter_In in Ee as [_ H]. by apply String.eqb_eq. }
        exists e. rewrite Hne. split; [done|]. rewrite Ht. cbn. f_equal; [done|].
        apply cache_get_some in Hg as [Hp Ho]. by eapply Hb.
      * apply cache_get_some in Hg as [Hp _]. congruence.
    + intros (e & Ee & ->). specialize (Hall (re_Name e)). rewrite Ee in Hall.
      destruct Hall as (p & o & Hg & _ & Hn & _ & _ & Ht).
      assert (snapshot o ∈ getAll c0) as Hin by (apply elem_of_getAll; eauto).
      exists (snapshot o). split; [|by destruct (getAll c0); [set_solver|]]. cbn. rewrite Ht. cbn. f_equal; [done|].
      apply cache_get_some in Hg as [Hp Ho]. symmetry. by eapply Hb.
  - intros i c0' cycles Hsteps. set (c := watchMCPServers cycles c0'). intros c' Hne resp. subst c'.
    assert (rtc cstep (∅, c0) (i, c)) as Hsteps' by (etrans; [exact Hsteps|apply watch_csteps]). unfold handleMCPRegistry. rewrite list_elem_of_fmap. intros (srv & -> & Hin). cbn.
    assert (srv ∈ getAll c) as (name & p & o & [Hp Ho]%cache_get_some & ->)%elem_of_getAll by (by destruct (getAll c)).
    cbn. by eapply (csteps_blank _ _ Hsteps').
Qed.
