(* ===== verification/GatewayRuns.v ===== *)
(** * Executions of the gateway, from start-up to a response

    Witnesses for [GatewayServe] and [GatewayMain], and runs that show what
    start-up and the MCP endpoints do not check. *)

From S2P Require Import Prelude GoStd GoStrings Types Prog Retry Kube Conditions Registration GatewayAuth Gateway.
From S2P Require Import GatewayHandlers GatewayExamples Schema CelAdmission Admin AdminFacts Recompute Stream.
From S2P Require Import Jwt McpServers Mcp McpRuns Routes GatewayServe GatewayMain.

#[local] Existing Instance prefix_globs.
#[local] Existing Instance list_conditions.
#[local] Existing Instance five_tries.
#[local] Existing Instance AdminRuns.two_tries.
#[local] Existing Instance AdminRuns.texts.
#[local] Existing Instance SchemaRuns.toy_json.
#[local] Existing Instance CelAdmissionRuns.declared_cel.
#[local] Existing Instance CelAdmissionRuns.declared_admission.
#[local] Existing Instance RecomputeRuns.retry_rs.
#[local] Existing Instance RecomputeRuns.retry_st.
#[local] Existing Instance RecomputeRuns.in_order.
#[local] Existing Instance StreamRuns.no_json.
#[local] Existing Instance toy_mcp.
#[local] Instance toy_keys : JwtLib := ToyJwt.toy.

#[local] Instance no_bodies : BodyJson := {|
  Decode_create _ := None; Decode_result _ := None; Decode_verdict _ := None; Decode_reason _ := ""%string;
  Decode_service _ := None; Decode_obj _ _ := None; Decode_self _ := None |}.

(** Networks are prefixes of addresses in decimal. *)
#[local] Instance toy_net : NetLib := {|
  Net := string; IP := string;
  ParseCIDR s := if s ==? "10.0.0.0/8" then Ok "10."%string else Err (EMsg "invalid CIDR address");
  net_Contains n ip := HasPrefix ip n;
  ParseIP s := Some s;
  SplitHostPort s := fst <$> cut_last (chr 58) s |}.

#[local] Instance one_server : RegistryJson := {|
  Unmarshal_registry _ := inr [mkEntry "github" "https://mcp.example/" "connected" [mkTool "merge" false None] "gw-token"] |}.

(** ** Start-up *)

Definition flags_with (issuer cidrs : string) : flags :=
  mkFlags ":8080" (24 * 60 * Minute) issuer "aip-gateway" "sub" "bot" "alice" "groups" "" "" "root" "" false cidrs 0 "" "" "strict".

Definition nenv (c : op mn) : ans mn c :=
  match c return mainresp c with
  | NGetenv name => if name ==? "MCP_REGISTRY" then "[...]"%string else ""%string
  | NReadFile _ => Err (EMsg "no such file")
  | NSystemCertPool | NAppendCerts _ _ | NWaitForCacheSync => true
  | NClientConfig | NInClusterConfig | NAddClientGoScheme | NAddV1alpha1Scheme | NNewWatchClient | NNewManager
  | NIndexField | NNewProvider _ | NListenAndServe _ _ => None
  | NSetRootCAs _ _ | NGoStartManager | NGoKeyWatcher _ | NGoWatchMCPServers | NGoWatchAgentRegistrations => tt
  | NNow => 0
  end.

(** The gateway these flags start. *)
Definition gateway_of (f : flags) (a : auth) : gateway :=
  let '(servers, cache) := seed_registry [mkEntry "github" "https://mcp.example/" "connected" [mkTool "merge" false None] "gw-token"] in
  mkGateway _ _ (mkServer (24 * 60 * Minute) (role_config f) true false false true "strict") (90 * Second) None servers cache
    newRegistrationCache a.

Definition token_auth : auth := AuthOIDC "https://issuer" "aip-gateway" "sub" "groups".
Definition with_tokens : flags := flags_with "https://issuer" "".

Lemma gateway_starts_guarded_witness :
  ∃ h, listens_ok with_tokens h (NListenAndServe ":8080" (gateway_of with_tokens token_auth)).
Proof.
  assert (ev_call <$> (play nenv (main with_tokens)).1 !! 15%nat =
    Some (NListenAndServe ":8080" (gateway_of with_tokens token_auth) : op mn)) as Hc by reflexivity.
  eexists. exact (gateway_starts_guarded _ _ _ _ _ _ (play_reaches _ _ _ _ Hc)).
Defined.

(** Roles without a trust boundary are refused, but a list of networks without
    an entry passes for one. *)
Example empty_networks_accepted :
  (play nenv (main (flags_with "" ""))).2 = Fatal insecure_msg ∧
  ev_call <$> (play nenv (main (flags_with "" ","))).1 !! 14%nat =
    Some (NListenAndServe ":8080" (gateway_of (flags_with "" ",") (AuthProxy [])) : op mn).
Proof. split; reflexivity. Qed.

(** ** Requests *)

(** Tokens are [t-] and the subject. *)
Definition verified (issuer audience raw : string) : option (option claims) :=
  sub ← cut_prefix "t-" raw; Some (Some {["sub" := ClaimString sub; "iss" := ClaimString issuer]}%string).

Definition cfg_of (g : gateway) : mcp_config := mkMcpConfig (g_Server g) true true [].

Definition request (method path : string) (headers : gmap string string) : http_request :=
  mkReq method path path ∅ headers "203.0.113.9:4711" None.

Definition served (g : gateway) (r : http_request) : outcome * log_line * metric_labels :=
  gateway_handler never 3 (cfg_of g) verified (λ _, None) (g_auth g) r.

Definition reached (x : outcome * log_line * metric_labels) : option (endpoint * caller) :=
  match x.1.1 with Reached e c _ => Some (e, c) | Answered _ => None end.

Definition tokens_gateway : gateway := gateway_of with_tokens token_auth.

Definition delete_pools (token : string) : http_request :=
  request "DELETE" "/governed-resources/pools" {["Authorization" := "Bearer " +:+ token]}%string.

(** An agent may not delete a resource. *)
Lemma documented_access_enforced_witness :
  ∃ h line labels,
    served tokens_gateway (delete_pools "t-bot") =
      (Reached (EDelete KGovernedResource) (mkCaller "bot" [] "t-bot" "https://issuer") h, line, labels) ∧ refused h.
Proof.
  eexists _, _, _. split; [vm_compute; reflexivity|].
  eapply (documented_access_enforced never 3 (cfg_of tokens_gateway) verified (λ _, None) token_auth (delete_pools "t-bot")
    (EDelete KGovernedResource) (mkCaller "bot" [] "t-bot" "https://issuer")).
  - discriminate.
  - reflexivity.
  - vm_compute. reflexivity.
  - reflexivity.
  - intros role Hr. apply list_elem_of_singleton in Hr as ->. vm_compute. discriminate.
Defined.

(** With a list of networks that has no entry, anyone is whom its headers say. *)
Example forged_header_trusted :
  let g := gateway_of (flags_with "" ",") (AuthProxy []) in
  reached (served g (request "DELETE" "/governed-resources/pools" {["X-Remote-User" := "root"]}%string)) =
    Some (EDelete KGovernedResource, mkCaller "root" [] "" "") ∧
  isAdmin (roles (g_Server g)) "root" [] = true.
Proof. split; vm_compute; reflexivity. Qed.

Definition label_of (g : gateway) (r : http_request) : string := la_path (served g r).2.

(** The metrics know the pattern of a probe and of a request without a caller,
    but not that of a request with one. *)
Example patterns_in_metrics :
  label_of tokens_gateway (request "GET" "/healthz" ∅) = "GET /healthz"%string ∧
  label_of tokens_gateway (delete_pools "t-root") = "/__unmatched__"%string.
Proof. split; vm_compute; reflexivity. Qed.

Lemma metrics_lose_pattern_witness :
  reached (served tokens_gateway (delete_pools "t-root")) =
    Some (EDelete KGovernedResource, mkCaller "root" [] "t-root" "https://issuer") ∧
  label_of tokens_gateway (delete_pools "t-root") = "/__unmatched__"%string.
Proof.
  assert (reached (served tokens_gateway (delete_pools "t-root")) =
    Some (EDelete KGovernedResource, mkCaller "root" [] "t-root" "https://issuer")) as Hr by (vm_compute; reflexivity).
  split; [exact Hr|]. unfold label_of, served in *.
  destruct (gateway_handler _ _ _ _ _ _ (delete_pools "t-root")) as [[[st|e c h] line] labels] eqn:E; [discriminate Hr|].
  pose proof (metrics_lose_pattern _ _ _ _ _ _ _ _ _ _ _ _ E) as H. injection Hr as -> ->. exact H.
Defined.

(** A caller without any role calls a read-only tool. *)
Definition role_lists : roleConfig := newRoleConfig "bot" "alice" "root" "" "" "".

Example tool_without_role :
  let cfg := with_roles role_lists (config true) in
  let p := with_background cfg (handleMCPProxy cfg never (who "eve") "" "github" "get_file" (Some "get_file|acme|api"%string)) in
  lacks cfg (who "eve") (documented EMCPProxy) ∧
  existsb (λ ev : event ms, match ev_call ev : op ms with MForward _ => true | _ => false end) (play (menv PhaseApproved) p).1 = true.
Proof.
  split; [intros role Hr; apply list_elem_of_singleton in Hr as ->; vm_compute; discriminate|].
  vm_compute. reflexivity.
Qed.

(** Without a caller the server registry is listed, behind proxy headers. *)
Example registry_without_caller :
  let g := gateway_of (flags_with "" "10.0.0.0/8") (AuthProxy ["10."%string]) in
  reached (served g (request "GET" "/mcp-registry" ∅)) = Some (EMCPRegistry, anonymous) ∧
  lacks (cfg_of g) anonymous (documented EMCPRegistry).
Proof. split; [vm_compute; reflexivity|]. split; reflexivity. Qed.

(** The status of the registry's entry is not shown. *)
Example status_not_listed :
  handleMCPRegistry (g_mcpServers tokens_gateway) true (g_mcpCache tokens_gateway) =
    [mkServerResponse "github" "" [mkTool "merge" false None]].
Proof. vm_compute. reflexivity. Qed.
