(* ===== verification/ManagerMain.v ===== *)
(** * Start-up of the controller manager ([cmd/main.go])

    [main] as a program over the manager's operations: the options it builds
    from its flags, the reconcilers with their configuration, and the order in
    which they are registered. *)

From S2P Require Import Prelude GoStd GoStrings Types Prog AgentRequestController GC JwtKey Fetchers.

(** ** Flags *)

Record manager_flags := mkManagerFlags {
  mf_metricsAddr : string;
  mf_probeAddr : string;
  mf_enableLeaderElection : bool;
  mf_secureMetrics : bool;
  mf_webhookCertPath : string;
  mf_webhookCertName : string;
  mf_webhookCertKey : string;
  mf_metricsCertPath : string;
  mf_metricsCertName : string;
  mf_metricsCertKey : string;
  mf_enableHTTP2 : bool;
  mf_opsLockDuration : Z;
  mf_opsLockWaitTimeout : Z;
  mf_approvedTimeout : Z;
  mf_jwtKeyNamespace : string;
  mf_jwtKeyRotationTTL : Z;
  mf_mcpServerHTTPTimeout : Z;
  mf_gc : GCConfig }.

(** ** Options *)

(** [CertDir], [CertName] and [KeyName]. *)
Record certs := mkCerts { ce_Dir : string; ce_Name : string; ce_Key : string }.
Definition default_certs : certs := mkCerts "" "" "".

(** [TLSOpts] are closures over a [tls.Config]; applied in turn, they may set
    the protocols that are offered. *)
Definition tls_opt : Type := option (list string) → option (list string).
Definition disableHTTP2 : tls_opt := λ _, Some ["http/1.1"%string].
Definition apply_opts (opts : list tls_opt) : option (list string) := fold_left (λ c o, o c) opts None.

Record webhook_options := mkWebhook { wo_TLSOpts : list tls_opt; wo_Certs : certs }.

Record metrics_options := mkMetrics {
  mo_BindAddress : string;
  mo_SecureServing : bool;
  mo_TLSOpts : list tls_opt;
  mo_Filter : bool;              (** [WithAuthenticationAndAuthorization] *)
  mo_Certs : certs }.

Record manager_options := mkManagerOptions {
  mo_Metrics : metrics_options;
  mo_Webhook : webhook_options;
  mo_HealthProbeBindAddress : string;
  mo_LeaderElection : bool;
  mo_LeaderElectionID : string }.

Definition tls_opts (f : manager_flags) : list tls_opt := if negb (mf_enableHTTP2 f) then [disableHTTP2] else [].

Definition certs_of (path name key : string) : certs :=
  if (0 <? String.length path)%nat then mkCerts path name key else default_certs.

Definition options_of (f : manager_flags) : manager_options :=
  mkManagerOptions
    (mkMetrics (mf_metricsAddr f) (mf_secureMetrics f) (tls_opts f) (mf_secureMetrics f)
       (certs_of (mf_metricsCertPath f) (mf_metricsCertName f) (mf_metricsCertKey f)))
    (mkWebhook (tls_opts f) (certs_of (mf_webhookCertPath f) (mf_webhookCertName f) (mf_webhookCertKey f)))
    (mf_probeAddr f) (mf_enableLeaderElection f) "fd40cfe6.aip.io".

(** ** Calls *)

(** A reconciler that is set up, with the configuration it gets. *)
Inductive controller :=
| CAgentRequest (r : AgentRequestReconciler) (fetcher : Fetchers.GitHubMCPFetcher)
| CSafetyPolicy
| CGovernedResource
| CDiagnosticAccuracy
| CAgentTrustProfile
| CMCPServer (httpTimeout : Z)
| CJWTKey (r : JWTKeyReconciler).

Inductive mgrcall :=
| PGetConfigOrDie
| PNewManager (o : manager_options)
| PNewEvaluator
| PSetup (c : controller)
| PAddGC (c : GCConfig)
| PAddHealthz (name : string)
| PAddReadyz (name : string)
| PStart.

(** All answer with an error or nothing; without a configuration the process
    exits. *)
Definition mgrresp (_ : mgrcall) : Type := option error.

Definition pm : sig := mkSig mgrcall mgrresp.
Abbreviation pcall_ c := (trigger pm c).

Inductive manager_exit := ExitFailure (msg : string) | ExitNormally.

(** ** [main] *)

(** [if err := ...; err != nil { setupLog.Error(...); os.Exit(1) }]. *)
Definition or_exit (msg : string) (c : mgrcall) (k : prog pm manager_exit) : prog pm manager_exit :=
  e <- pcall_ c ;;
  match (e : option error) with Some _ => Ret (ExitFailure msg) | None => k end.

Definition agent_request_reconciler (f : manager_flags) : AgentRequestReconciler :=
  mkReconciler true (mf_opsLockDuration f) (mf_opsLockWaitTimeout f) (mf_approvedTimeout f) true true.

Fixpoint setup_all (cs : list (controller * string)) (k : prog pm manager_exit) : prog pm manager_exit :=
  match cs with
  | [] => k
  | (c, name) :: cs' => or_exit ("Failed to create controller " +:+ name)%string (PSetup c) (setup_all cs' k)
  end.

Definition controllers (f : manager_flags) : list (controller * string) := [
  (CAgentRequest (agent_request_reconciler f) DefaultGitHubMCPFetcher, "AgentRequest");
  (CSafetyPolicy, "SafetyPolicy");
  (CGovernedResource, "GovernedResource");
  (CDiagnosticAccuracy, "DiagnosticAccuracy");
  (CAgentTrustProfile, "AgentTrustProfile");
  (CMCPServer (mf_mcpServerHTTPTimeout f), "MCPServer");
  (CJWTKey (mkKeyReconciler (mf_jwtKeyNamespace f) (mf_jwtKeyRotationTTL f)), "JWTKey")]%string.

Definition manager_main (f : manager_flags) : prog pm manager_exit :=
  if mf_opsLockDuration f <=? 0 then Ret (ExitFailure "Invalid --ops-lock-duration: must be greater than 0")
  else
    or_exit "unable to get kubeconfig" PGetConfigOrDie (
    or_exit "Failed to start manager" (PNewManager (options_of f)) (
    or_exit "Failed to initialize policy evaluator" PNewEvaluator (
    setup_all (controllers f) (
    or_exit "Failed to register GC manager" (PAddGC (mf_gc f)) (
    or_exit "Failed to set up GC health check" (PAddHealthz "gc-healthz") (
    or_exit "Failed to set up health check" (PAddHealthz "healthz") (
    or_exit "Failed to set up ready check" (PAddReadyz "readyz") (
    or_exit "Failed to run manager" PStart (Ret ExitNormally))))))))).

(** The closure of [AddReadyzCheck], on the answer of [WaitForCacheSync]
    within [ReadyzTimeout]. *)
Definition readyz_check (synced : bool) : option error :=
  if negb synced then Some (EMsg "caches did not sync") else None.

(** ** What is started *)

(** [c] was called and succeeded. *)
Abbreviation did h c := (Ev (S:=pm) c None ∈ h).

Definition start_ok (f : manager_flags) (h : list (event pm)) (c : op pm) : Prop :=
  match c with
  | PNewManager o =>
      (** no HTTP/2 unless it was asked for; metrics served securely are filtered *)
      (mf_enableHTTP2 f = false → apply_opts (mo_TLSOpts (mo_Metrics o)) = Some ["http/1.1"%string] ∧
                                  apply_opts (wo_TLSOpts (mo_Webhook o)) = Some ["http/1.1"%string]) ∧
      mo_Filter (mo_Metrics o) = mo_SecureServing (mo_Metrics o)
  | PStart =>
      (∀ ctl name, (ctl, name) ∈ controllers f → did h (PSetup ctl)) ∧ did h (PAddGC (mf_gc f)) ∧ did h PNewEvaluator ∧
      (∃ o, did h (PNewManager o)) ∧ did h (PAddHealthz "healthz"%string) ∧ did h (PAddReadyz "readyz"%string) ∧
      0 < mf_opsLockDuration f ∧ opsLockDurationOrDefault (agent_request_reconciler f) = mf_opsLockDuration f
  | _ => True
  end.

Abbreviation P f h p := (safe (S:=pm) any (start_ok f) h p (λ _ (_ : manager_exit), True)).

Lemma P_or_exit f h msg c k : start_ok f h c → P f (h ++ [Ev (S:=pm) c None]) k → P f h (or_exit msg c k).
Proof. intros Hc Hk. split; [done|]. intros [e|] _; cbn; [done|exact Hk]. Qed.

Lemma P_setup_all f cs h k :
  P f (h ++ ((λ c, Ev (S:=pm) (PSetup c.1) None) <$> cs)) k → P f h (setup_all cs k).
Proof.
  revert h. induction cs as [|[c name] cs IH]; intros h Hk; [by rewrite app_nil_r in Hk|].
  cbn [setup_all]. apply P_or_exit; [exact I|]. apply IH. by rewrite <- app_assoc.
Qed.

Lemma manager_main_ok f : P f [] (manager_main f).
Proof.
  unfold manager_main. destruct (Z.leb_spec (mf_opsLockDuration f) 0) as [|Hd]; [done|].
  apply P_or_exit; [exact I|]. apply P_or_exit.
  { split; [|done]. intros H. cbn. unfold tls_opts. by rewrite H. }
  apply P_or_exit; [exact I|]. apply P_setup_all. do 4 (apply P_or_exit; [exact I|]). apply P_or_exit; [|done].
  unfold start_ok. split; [|split; [set_solver|split; [set_solver|split; [exists (options_of f); set_solver|
    split; [set_solver|split; [set_solver|split; [exact Hd|]]]]]]].
  - intros ctl name Hin. do 4 (apply elem_of_app; left). apply elem_of_app. right.
    apply list_elem_of_fmap. by exists (ctl, name).
  - unfold opsLockDurationOrDefault. cbn. destruct (Z.leb_spec (mf_opsLockDuration f) 0); [lia|done].
Qed.

(** The manager starts only with every controller, the collector and the
    checks registered, locks that last as long as the flag says, and servers
    without HTTP/2 unless it was enabled. *)
Theorem manager_starts_complete f t1 c x t2 :
  emits (manager_main f) (t1 ++ Ev (S:=pm) c x :: t2) → start_ok f t1 c.
Proof. intros H. by apply (safe_emits _ _ _ _ _ _ _ _ _ (manager_main_ok f)) in H; [|apply Forall_true]. Qed.

(** The flags' defaults. *)
Definition default_flags : manager_flags :=
  mkManagerFlags "0" ":8081" false true "" "tls.crt" "tls.key" "" "tls.crt" "tls.key" false (5 * Minute) (60 * Second)
    (5 * Minute) "aip-k8s-system" 0 (30 * Second) DefaultGCConfig.

Lemma manager_starts_complete_witness : ∃ h, start_ok default_flags h PStart ∧ length h = 14%nat.
Proof.
  assert (ev_call <$> (play (λ c : op pm, None : ans pm c) (manager_main default_flags)).1 !! 14%nat = Some (PStart : op pm)) as Hc
    by reflexivity.
  eexists. split; [exact (manager_starts_complete _ _ _ _ _ (play_reaches _ _ _ _ Hc))|reflexivity].
Defined.
