(* ===== verification/Dashboard.v ===== *)
(** * The dashboard's proxy ([cmd/dashboard/main.go])

    The dashboard serves its own files and passes what is under [/api] on to
    the gateway with the caller's token and content type, so that nobody is
    anybody else behind it. *)

From S2P Require Import Prelude GoStd GoStrings Types Prog Retry Kube Conditions Registration GatewayAuth Gateway.
From S2P Require Import GatewayHandlers Evaluation Schema CelAdmission Admin Recompute Stream Mcp Routes GatewayServe Fetchers.

Record DashboardServer := mkDashboard { db_gatewayURL : string; db_port : Z; db_staticDir : string }.

(** The server of [main], for an absolute directory. *)
Definition new_dashboard (gatewayURL : string) (port : Z) (absStaticDir : string) : DashboardServer :=
  mkDashboard (trim_slashes gatewayURL) port absStaticDir.

(** ** Requests to the gateway *)

Record forward_request := mkForwarded {
  fw_Method : string;
  fw_URL : string;
  fw_Header : gmap string string;
  fw_Body : option string }.

Definition safe_headers : list string := ["Authorization"; "Content-Type"]%string.

Definition forwarded_headers (h : gmap string string) : gmap string string :=
  fold_left (λ acc k, if map_str h k <>? "" then <[k := map_str h k]> acc else acc) safe_headers ∅.

Definition target_url (s : DashboardServer) (path rawQuery : string) : string :=
  let targetURL := (db_gatewayURL s +:+ TrimPrefix path "/api")%string in
  if rawQuery <>? "" then (targetURL +:+ "?" +:+ rawQuery)%string else targetURL.

(** The only call: [httpClient.Do], answered with a status and a body. *)
Definition dp : sig := mkSig forward_request (λ _, res (Z * string)).

(** The response: status, content type where it is set, body. *)
Definition dashboard_response : Type := Z * option string * string.

Section dashboard.
Context `{ET : ErrorText}.

(** [url.Parse] fails in [NewRequestWithContext] without a text of ours. *)
Definition proxyToGateway (s : DashboardServer) (r : http_request) (rawQuery : string) : prog dp dashboard_response :=
  let url := target_url s (hr_Path r) rawQuery in
  match url_Parse url with
  | None => Ret (StatusInternalServerError, None, ""%string)
  | Some _ =>
      resp <- trigger dp (mkForwarded (hr_Method r) url (forwarded_headers (hr_Header r)) (hr_Body r)) ;;
      Ret (match resp : res (Z * string) with
           | Err e => (StatusBadGateway, None, err_v e)
           | Ok (status, body) =>
               (status, if (status =? StatusOK) && (hr_Method r ==? "GET") then Some "application/json"%string else None, body)
           end)
  end.

(** What serves a request. *)
Inductive dashboard_page :=
| DHealthz
| DProxy (p : prog dp dashboard_response)
| DIndex (file : string)
| DFile (dir path : string).

(** The most specific of [GET /healthz], [/api/] and [/], for a clean path. *)
Definition dashboard_serve (s : DashboardServer) (r : http_request) (rawQuery : string) : dashboard_page :=
  if ((hr_Method r ==? "GET") || (hr_Method r ==? "HEAD")) && (hr_Path r ==? "/healthz") then DHealthz
  else if HasPrefix (hr_Path r) "/api/" then DProxy (proxyToGateway s r rawQuery)
  else if hr_Path r ==? "/" then DIndex (db_staticDir s +:+ "/index.html")%string
  else DFile (db_staticDir s) (hr_Path r).

(** ** Nobody is impersonated *)

Lemma forwarded_header h k :
  map_str (forwarded_headers h) k = if bool_decide (k ∈ safe_headers) then map_str h k else ""%string.
Proof.
  unfold forwarded_headers, safe_headers. cbn [fold_left].
  assert (∀ (acc : gmap string string) k0, map_str acc k0 = ""%string →
    map_str (if map_str h k0 <>? "" then <[k0 := map_str h k0]> acc else acc) k0 = map_str h k0) as Hin.
  { intros acc k0 Hacc. destruct (String.eqb_spec (map_str h k0) ""); cbn; [congruence|].
    unfold map_str at 1. by rewrite lookup_insert_eq. }
  assert (∀ (acc : gmap string string) k0, k ≠ k0 →
    map_str (if map_str h k0 <>? "" then <[k0 := map_str h k0]> acc else acc) k = map_str acc k) as Hout.
  { intros acc k0 Hne. destruct (_ <>? _); [|done]. unfold map_str. by rewrite lookup_insert_ne. }
  case_bool_decide as Hk.
  - apply elem_of_cons in Hk as [->|Hk]; [rewrite Hout by done; by apply Hin|].
    apply list_elem_of_singleton in Hk as ->. apply Hin. by rewrite Hout.
  - rewrite !Hout by set_solver. done.
Qed.

End dashboard.

Section behind.
Context `{GL : GlobLib, MC : MetaConditions, RLg : RetryLib gw, RLa : RetryLib ad, RLr : RetryLib rs, RSr : RetryStateLib rs}.
Context `{RO : RangeOrder, ET : ErrorText, JL : JsonLib, CL : CEL, CA : !CelAdmission, SJ : StatusJson, ML : McpLib, BJ : BodyJson}.
Context `{NL : NetLib}.
Context (oidcTokenRequired : error → bool) (fuel : nat) (cfg : mcp_config).
Context (verify : string → string → string → option (option claims)) (wrote : outcome → option Z).

(** [r'] is how the gateway receives what the dashboard forwards for [r]: the
    client adds no header of an identity. *)
Definition received (r' : http_request) (fw : forward_request) : Prop :=
  hr_Method r' = fw_Method fw ∧ hr_Body r' = fw_Body fw ∧
  ∀ k, k ∈ ["Authorization"; "X-Remote-User"; "X-Forwarded-User"]%string → map_str (hr_Header r') k = map_str (fw_Header fw) k.

(** Everything the dashboard sends reaches the gateway's handlers without a
    caller where callers are told by proxy headers, whatever headers the
    browser sent, and otherwise with the token the browser sent itself. *)
Theorem dashboard_never_impersonates s r rawQuery t1 fw x t2 a r' e c hd line labels :
  emits (proxyToGateway s r rawQuery) (t1 ++ Ev (S:=dp) fw x :: t2) → received r' fw →
  gateway_handler oidcTokenRequired fuel cfg verify wrote a r' = (Reached e c hd, line, labels) →
  match a with
  | AuthProxy _ => c = anonymous
  | AuthOIDC _ _ _ _ => c = anonymous ∨ cl_RawToken c = TrimPrefix (header r "Authorization") "Bearer "
  end.
Proof.
  intros He (_ & _ & Hh) (rt & vs & _ & _ & _ & Hcase)%gateway_reaches.
  assert (fw_Header fw = forwarded_headers (hr_Header r)) as Hf.
  { assert (safe (S:=dp) any (λ _ fw, fw_Header fw = forwarded_headers (hr_Header r)) [] (proxyToGateway s r rawQuery) (λ _ _, True)) as Hs.
    { unfold proxyToGateway. destruct (url_Parse _); [|done]. split; [done|]. by intros [[]|] _. }
    by apply (safe_emits _ _ _ _ _ _ _ _ _ Hs) in He; [|apply Forall_true]. }
  rewrite Hf in Hh. setoid_rewrite forwarded_header in Hh.
  destruct Hcase as [(-> & _ & _)|(_ & Ha & Hs)]; [destruct a; [by left|done]|].
  destruct a as [issuer audience ic gc|nets]; cbn in Ha.
  - destruct Ha as [[_ ->]|(cs & _ & Ht & _)]; [by left|]. right. rewrite Ht. unfold header. by rewrite (Hh "Authorization"%string) by set_solver.
  - destruct Ha as [->|(_ & _ & Hne & Hu)]; [done|]. exfalso. unfold header in Hu.
    rewrite (Hh "X-Remote-User"%string), (Hh "X-Forwarded-User"%string) in Hu by set_solver.
    cbn in Hu. naive_solver.
Qed.

End behind.

(** The decoded path is spliced into the URL, where it may become a query. *)
Example path_becomes_query :
  let s := new_dashboard "http://gateway:8080/" 8082 "/static" in
  (λ u, (u_Path u, u_RawQuery u)) <$> url_Parse (target_url s "/api/agent-requests/x?namespace=prod" "") =
    Some ("/agent-requests/x", "namespace=prod")%string.
Proof. reflexivity. Qed.

From S2P Require Import GatewayMain GatewayRuns.

(** A forged header does not get past the dashboard, though the gateway trusts
    the dashboard's network. *)
Definition pod_request (h : gmap string string) : http_request :=
  mkReq "DELETE" "/governed-resources/pools" "/governed-resources/pools" ∅ h "10.0.0.7:4711" None.

Definition forged : gmap string string := {["X-Remote-User" := "root"]}%string.

Example forged_header_dropped :
  let g := gateway_of (flags_with "" "10.0.0.0/8") (AuthProxy (NL:=toy_net) ["10."%string : Net (NetLib:=toy_net)]) in
  reached (served g (pod_request forged)) = Some (EDelete KGovernedResource, mkCaller "root" [] "" "") ∧
  reached (served g (pod_request (forwarded_headers forged))) = Some (EDelete KGovernedResource, anonymous).
Proof. split; vm_compute; reflexivity. Qed.
