(* ===== verification/GatewayWrites.v ===== *)
(** * What the gateway writes to AgentRequests, endpoint by endpoint

    The operations of the gateway that reach AgentRequests, as [dispatch] of
    [GatewayServe] starts them, and one specification of their writes that
    covers them all: requests are created undecided and with an empty status;
    a decision is written by a reviewer; every other write leaves the phase,
    the mark of the evaluation and the question for approval as they were read. *)

From S2P Require Import Prelude GoStd GoStrings Types Prog Retry Kube Conditions Evaluation Naming Registration.
From S2P Require Import ControllerSpec ControllerRefines GatewayAuth Gateway GatewayCreate GatewayMatch GatewayHandlers.
From S2P Require Import Mcp McpFacts GatewayFacts CreateFacts.
From S2P Require Import Schema CelAdmission Admin Recompute Stream McpServers Routes GatewayServe.

(** ** Operations *)

Inductive gateway_op :=
| OpList (rq : HttpRequest) (q : list_query)
| OpSubmit (rq : HttpRequest) (body : option createAgentRequestBody)
| OpGet (rq : HttpRequest)
| OpExecuting (rq : HttpRequest)
| OpCompleted (rq : HttpRequest)
| OpResult (rq : HttpRequest) (body : option (string * string))
| OpApprove (rq : HttpRequest) (reason : string)
| OpDeny (rq : HttpRequest) (reason : string)
| OpVerdict (rq : HttpRequest) (body : option verdict_body)
| OpToken (rq : HttpRequest) (service : option string).

Inductive mcp_op :=
| OpMcp (c : caller) (header : string) (body : option string)
| OpProxy (c : caller) (header serverName toolName : string) (body : option string).

(** The decision an operation takes. *)
Definition decides (op : gateway_op) : option (HttpRequest * string * string) :=
  match op with
  | OpApprove rq reason => Some (rq, reason, "approved"%string)
  | OpDeny rq reason => Some (rq, reason, "denied"%string)
  | _ => None
  end.

Section writes.
Context `{GL : GlobLib, MC : MetaConditions, RLg : RetryLib gw, ML : McpLib}.
Context (cfg : mcp_config) (oidcTokenRequired : error → bool) (fuel : nat).

Abbreviation s := (mc_server cfg).

Definition gateway_program (op : gateway_op) : prog gw Response :=
  match op with
  | OpList rq q => handleListAgentRequests s rq q
  | OpSubmit rq body => handleCreateAgentRequest s fuel rq body
  | OpGet rq => handleGetAgentRequest s rq
  | OpExecuting rq => handleExecutingAgentRequest s rq
  | OpCompleted rq => handleCompletedAgentRequest s rq
  | OpResult rq body => handlePutAgentRequestResult s rq body
  | OpApprove rq reason => handleApproveAgentRequest s rq reason
  | OpDeny rq reason => handleDenyAgentRequest s rq reason
  | OpVerdict rq body => handleVerdictAgentRequest s rq body
  | OpToken rq service => handleGetAgentRequestToken s rq service
  end.

Definition mcp_program (op : mcp_op) : prog ms mcp_response :=
  with_background cfg
    match op with
    | OpMcp c header body => handleMCP cfg oidcTokenRequired fuel c header body
    | OpProxy c header serverName toolName body =>
        handleMCPProxy cfg oidcTokenRequired c header serverName toolName body
    end.

(** ** The specification *)

(** A request nobody has decided anything about. *)
Definition undecided (a : AgentRequest) : Prop :=
  spec_HumanApproval (ar_Spec a) = None ∧ ar_Status a = empty_status.

(** A status write that reports: it leaves the phase alone and may set one
    condition. *)
Definition reports (base new : AgentRequest) : Prop :=
  ar_Meta new = ar_Meta base ∧ ar_Spec new = ar_Spec base ∧ phase new = phase base ∧
  (conditions new = conditions base ∨ marked (conditions base) (conditions new)).

(** The write of a decision. *)
Definition decision_write (op : gateway_op) (base new : AgentRequest) : Prop :=
  ∃ rq reason decision, decides op = Some (rq, reason, decision) ∧ has_passed s roleReviewer rq ∧
    spec_AgentIdentity (ar_Spec base) ≠ sub_of rq ∧ phase base = PhasePending ∧
    new = decided rq reason decision base.

(** The object came from the server, read or just created. *)
Definition obtained (h : list (event gw)) (a : AgentRequest) : Prop :=
  (∃ rd nn, gseen h (GGetAR rd nn) (Ok a)) ∨ (∃ a', gseen h (GCreateAR a') (Ok a)).

Definition gateway_write (op : gateway_op) (h : list (event gw)) (c : gcall) : Prop :=
  match c with
  | GCreateAR a => undecided a
  | GPatchAR base new => obtained h base ∧ decision_write op base new
  | GPatchARStatus _ base new => obtained h base ∧ reports base new
  | _ => True
  end.

Definition mcp_write (h : list (event ms)) (c : mcall) : Prop :=
  match c with
  | MGw (GCreateAR a) => undecided a
  | MGw (GPatchAR _ _) => False
  | MGw (GPatchARStatus _ base new) =>
      (∃ rd nn, mdid h (MGw (GGetAR rd nn)) (Ok base)) ∧ reports base new
  | _ => True
  end.

(** ** Each operation meets it *)

Lemma reports_condition base ty reason msg now :
  ty ≠ ConditionPolicyEvaluated → ty ≠ ConditionRequiresApproval →
  reports base (with_condition ty reason msg now base).
Proof. intros. split_and!; [done..|]. right. by apply marked_set. Qed.

Lemma reports_status base f :
  (∀ st, st_Phase (f st) = st_Phase st ∧ st_Conditions (f st) = st_Conditions st) → reports base (upd_status f base).
Proof. intros Hf. destruct (Hf (ar_Status base)). split_and!; [done..|]. by left. Qed.

Lemma obtained_read h rd nn a : gseen h (GGetAR rd nn) (Ok a) → obtained h a.
Proof. left. eauto. Qed.

(** A handler that only reads. *)
Lemma read_only_writes op t c x t2 :
  safe (S:=gw) any (λ _ c, effect c = false) [] (gateway_program op) (λ _ _, True) →
  emits (gateway_program op) (t ++ Ev (S:=gw) c x :: t2) → gateway_write op t c.
Proof. intros Hs He. pose proof (reached _ _ _ _ _ _ Hs He) as H. by destruct c. Qed.

Lemma decision_writes op rq reason decision t c x t2 :
  decides op = Some (rq, reason, decision) → gateway_program op = handleHumanDecision s rq reason decision →
  emits (gateway_program op) (t ++ Ev (S:=gw) c x :: t2) → gateway_write op t c.
Proof.
  intros Hd -> He. pose proof (reached _ _ _ _ _ _ (decision_safe s rq reason decision) He) as H.
  unfold decision_ok in H. destruct c; try done; destruct (H eq_refl) as (b & Hr & Hp & Hi & Hph & [(E & _)|(E & _)]);
    try discriminate. injection E as -> ->. split; [by eapply obtained_read|]. by exists rq, reason, decision.
Qed.

Lemma transition_writes op rq from to ty reason msg t c x t2 :
  gateway_program op = agent_transition s rq from to ty reason msg →
  ty ≠ ConditionPolicyEvaluated → ty ≠ ConditionRequiresApproval →
  emits (gateway_program op) (t ++ Ev (S:=gw) c x :: t2) → gateway_write op t c.
Proof.
  intros -> Ht1 Ht2 He. pose proof (reached _ _ _ _ _ _ (transition_safe s rq from to ty reason msg) He) as H.
  unfold transition_ok in H. destruct c; try done;
    destruct (H eq_refl) as (? & b & ? & ? & ? & _ & _ & _ & _ & Hr & E); try discriminate.
  injection E as -> -> ->. split; [by eapply obtained_read|]. by apply reports_condition.
Qed.

Lemma submit_writes op rq body t c x t2 :
  gateway_program op = handleCreateAgentRequest s fuel rq (Some body) → Forall cache_answer t →
  emits (gateway_program op) (t ++ Ev (S:=gw) c x :: t2) → gateway_write op t c.
Proof.
  intros -> Hf He. pose proof (submits_ok s rq body fuel t c (conj Hf (ex_intro _ x (ex_intro _ t2 He)))) as H.
  destruct c; try done.
  - destruct H as (id & ns & (_ & _ & _ & _ & _ & Ha & Hst) & _). done.
  - destruct H as (a & gr & _ & Hc & _ & ->). split; [right; eauto|]. by apply reports_status.
Qed.

Lemma gateway_writes op t c x t2 :
  Forall cache_answer t → emits (gateway_program op) (t ++ Ev (S:=gw) c x :: t2) → gateway_write op t c.
Proof.
  intros Hf He. destruct op as [rq q|rq body|rq|rq|rq|rq body|rq reason|rq reason|rq body|rq service].
  - eapply read_only_writes; [|exact He]. cbn. unfold handleListAgentRequests.
    destruct (unauthenticated _ _); [done|]. destruct (requested_phases _); [done|]. destruct (_ && _); [done|].
    split; [done|]. intros [[items cont]|e] _; done.
  - destruct body as [body|]; [by eapply (submit_writes _ rq body)|].
    eapply read_only_writes; [|exact He]. cbn. unfold handleCreateAgentRequest. by destruct (_ && _).
  - eapply read_only_writes; [|exact He]. cbn. unfold handleGetAgentRequest. destruct (unauthenticated _ _); [done|].
    split; [done|]. intros [a|e] _; [|done]. split; [done|]. done.
  - by eapply transition_writes.
  - by eapply transition_writes.
  - pose proof (reached _ _ _ _ _ _ (result_safe s rq body) He) as H. unfold result_ok in H.
    destruct c; try done; destruct (H eq_refl) as (? & ? & ? & b & _ & _ & _ & _ & _ & Hr & _ & E); try discriminate.
    injection E as -> -> ->. split; [by eapply obtained_read|]. by apply reports_status.
  - by eapply decision_writes.
  - by eapply decision_writes.
  - pose proof (reached _ _ _ _ _ _ (verdict_safe s rq body) He) as H. unfold verdict_ok in H.
    destruct c; try done; destruct (H eq_refl) as (? & b & ? & _ & _ & _ & Hr & _ & _ & E); try discriminate.
    injection E as -> -> ->. split; [by eapply obtained_read|]. by apply reports_status.
  - pose proof (reached _ _ _ _ _ _ (token_safe s rq service) He) as H. unfold token_ok in H.
    destruct c; try done; destruct (H eq_refl) as (? & ? & ? & ? & _ & _ & _ & _ & _ & _ & _ & E); discriminate.
Qed.

(** ** The MCP endpoints *)

Lemma allowed_writes c serverName toolName m id matches target awaited h call :
  mcp_allowed cfg c serverName toolName m id matches target awaited h call → mcp_write h call.
Proof.
  destruct call as [g| | | | | | | | | | | | | | |]; try done. destruct g; try done; cbn.
  - by intros (_ & agentID & _ & (_ & _ & _ & ? & ? & _)).
  - intros (_ & name & ty & Hr & Hg & ty' & reason & msg & now & ->%list_elem_of_singleton & ->).
    split; [eauto|]. apply reports_condition; intros ->;
      destruct Hr as [[_ Hty]|(claims & _ & _ & [Hty|[Hty _]])]; set_solver.
Qed.

Lemma mcp_writes op t c x t2 : emits (mcp_program op) (t ++ Ev (S:=ms) c x :: t2) → mcp_write t c.
Proof.
  destruct op as [cl header body|cl header serverName toolName body]; intros He.
  - destruct body as [body|].
    + pose proof (safe_emits _ _ _ _ _ _ _ _ _ (mcp_walk cfg oidcTokenRequired fuel cl header body) (any_all _) He) as H.
      destruct c as [g| | | | | | | | | | | | | | |]; try done. destruct g; try done;
        destruct H as (req & _ & sn & tn & m0 & _ & H); exact (allowed_writes _ _ _ _ _ _ _ _ _ _ H).
    + cbn in He. by destruct He as [?|[]], t.
  - destruct (body ≫= λ b, parseProxyBody b toolName) as [m|] eqn:Hb.
    + pose proof (safe_emits _ _ _ _ _ _ _ _ _ (background_walk _ _ _ _ _ _ _ _ _ _ _
        (proxy_walk cfg oidcTokenRequired cl header serverName toolName body m Hb)) (any_all _) He) as H.
      exact (allowed_writes _ _ _ _ _ _ _ _ _ _ H).
    + pose proof (safe_emits _ _ _ _ _ _ _ _ _ (proxy_refuses cfg oidcTokenRequired cl header serverName toolName body Hb)
        (any_all _) He) as H. by destruct c.
Qed.

End writes.

(** ** Coverage: whatever handler over these calls a route leads to is one of
    the operations *)

Section coverage.
Context `{GL : GlobLib, MC : MetaConditions, RLg : RetryLib gw, RLa : RetryLib ad, RLr : RetryLib rs, RSr : RetryStateLib rs}.
Context `{RO : RangeOrder, ET : ErrorText, JL : JsonLib, CL : CEL, CA : !CelAdmission, SJ : StatusJson, ML : McpLib, BJ : BodyJson}.
Context (oidcTokenRequired : error → bool) (fuel : nat) (cfg : mcp_config).

Theorem dispatch_covered e value c rq :
  match dispatch oidcTokenRequired fuel cfg e value c rq with
  | HGateway p => ∃ op, p = gateway_program cfg fuel op
  | HMcp p => ∃ op, with_background cfg p = mcp_program cfg oidcTokenRequired fuel op
  | _ => True
  end.
Proof.
  destruct e; cbn [dispatch]; try exact I.
  - by eexists (OpList _ _).
  - by eexists (OpSubmit _ _).
  - by eexists (OpGet _).
  - by eexists (OpExecuting _).
  - by eexists (OpCompleted _).
  - by eexists (OpResult _ _).
  - by eexists (OpApprove _ _).
  - by eexists (OpDeny _ _).
  - by eexists (OpVerdict _ _).
  - by eexists (OpToken _ _).
  - by eexists (OpProxy _ _ _ _ _).
  - by eexists (OpMcp _ _ _).
Qed.

End coverage.
