(* ===== verification/System.v ===== *)
(** * The manager and the gateway together

    A transition system in which reconciles of the controller, operations of
    the gateway and of its MCP endpoints, and deletions run interleaved, one
    call at a time, against one API server.  What is assumed of the server and
    of controller-runtime is in [serves] and [step]:

    - a read without the cache gives the stored object; a read through an
      informer's cache gives any version ever stored under that name, however
      old;
    - a merge patch is applied to the object as it is stored then, field by
      field, and carries no precondition; any call may fail, and a write that
      took effect may be reported as failed;
    - there is one reconcile of a name at a time, and a process may stop after
      any call; any object may be deleted at any time;
    - a name is used once: an object is created only under a name never used
      before, and the caches of the gateway satisfy their invariants.

    [SystemFacts] proves what holds of every reachable state. *)

From S2P Require Import Prelude GoStd GoStrings Types Prog Retry Kube Conditions Evaluation Naming Registration.
From S2P Require Import AgentRequestController ControllerSpec ControllerRefines Cluster LifecycleFacts AuditTrail SinglePhase.
From S2P Require Import GatewayAuth Gateway GatewayCreate GatewayMatch GatewayHandlers Mcp McpFacts GatewayFacts CreateFacts.
From S2P Require Import GatewayWrites.

(** ** What a call does to AgentRequests *)

Inductive request_op :=
| RGet (rd : reader) (nn : NamespacedName) (x : res AgentRequest)
| RCreate (a : AgentRequest) (x : res AgentRequest)
| RDelete (a : AgentRequest)
| RPatch (base new : AgentRequest) (x : res AgentRequest)
| RStatus (base new : AgentRequest) (x : res AgentRequest)
| RNone.

Definition ctl_view (e : event ctl) : request_op :=
  let 'Ev c x := e in
  match c return resp c → request_op with
  | CGetAR rd nn => RGet rd nn
  | CPatchARStatus base new => RStatus base new
  | _ => λ _, RNone
  end x.

Definition gw_view `{GL : GlobLib} (e : event gw) : request_op :=
  let 'Ev c x := e in
  match c return gresp c → request_op with
  | GGetAR rd nn => RGet rd nn
  | GCreateAR a => RCreate a
  | GDeleteAR a => λ _, RDelete a
  | GPatchAR base new => RPatch base new
  | GPatchARStatus _ base new => RStatus base new
  | _ => λ _, RNone
  end x.

Definition ms_view `{GL : GlobLib, ML : McpLib} (e : event ms) : request_op :=
  let 'Ev c x := e in
  match c return mresp c → request_op with
  | MGw g => λ x, gw_view (Ev (S:=gw) g x)
  | _ => λ _, RNone
  end x.

(** ** The API server *)

Record cluster := mkCluster {
  cl_store : gmap NamespacedName AgentRequest;   (** the objects *)
  cl_log : list AgentRequest                     (** every version ever stored *) }.

Definition key (a : AgentRequest) : NamespacedName := key_of (ar_Meta a).
Definition anns (a : AgentRequest) : gmap string string := om_Annotations (ar_Meta a).
Definition agent (a : AgentRequest) : string := spec_AgentIdentity (ar_Spec a).
Definition approval (a : AgentRequest) : option HumanApproval := spec_HumanApproval (ar_Spec a).

Definition put (a : AgentRequest) (σ : cluster) : cluster :=
  mkCluster (<[key a := a]> (cl_store σ)) (a :: cl_log σ).
Definition forget (k : NamespacedName) (σ : cluster) : cluster :=
  mkCluster (delete k (cl_store σ)) (cl_log σ).

(** What becomes of a created object: the server completes the name and fills
    in defaults of fields that are not looked at here. *)
Definition created_from (a a' : AgentRequest) : Prop :=
  om_Namespace (ar_Meta a') = om_Namespace (ar_Meta a) ∧
  (om_Name (ar_Meta a) ≠ ""%string → om_Name (ar_Meta a') = om_Name (ar_Meta a)) ∧
  anns a' = anns a ∧ agent a' = agent a ∧ spec_Target (ar_Spec a') = spec_Target (ar_Spec a) ∧
  approval a' = approval a ∧ ar_Status a' = ar_Status a.

(** A patch of the status: lists are replaced, nothing else is written. *)
Definition status_patched (base new cur cur' : AgentRequest) : Prop :=
  key cur' = key cur ∧ anns cur' = anns cur ∧ ar_Spec cur' = ar_Spec cur ∧
  phase cur' = merge (phase base) (phase new) (phase cur) ∧
  conditions cur' = merge (conditions base) (conditions new) (conditions cur).

(** An approval is an object: its fields are merged one by one. *)
Definition merge_approval (b n c : option HumanApproval) : option HumanApproval :=
  if decide (b = n) then c
  else match n with
  | None => None
  | Some n =>
      let f {A} `{EqDecision A} (g : HumanApproval → A) (d : A) := merge (default d (g <$> b)) (g n) (default d (g <$> c)) in
      Some (mkHA (f ha_Decision ""%string) (f ha_Reason ""%string) (f ha_ForGeneration 0) (f ha_ApprovedBy ""%string))
  end.

(** A patch of the object leaves the status alone. *)
Definition spec_patched (base new cur cur' : AgentRequest) : Prop :=
  key cur' = key cur ∧ anns cur' = merge (anns base) (anns new) (anns cur) ∧
  agent cur' = merge (agent base) (agent new) (agent cur) ∧
  spec_Target (ar_Spec cur') =
    merge (spec_Target (ar_Spec base)) (spec_Target (ar_Spec new)) (spec_Target (ar_Spec cur)) ∧
  approval cur' = merge_approval (approval base) (approval new) (approval cur) ∧
  ar_Status cur' = ar_Status cur.

(** The answer to a write that stored [a]. *)
Definition answers (x : res AgentRequest) (a : AgentRequest) : Prop := x = Ok a ∨ ∃ e, x = Err e.

Definition failed (o : request_op) : Prop :=
  match o with
  | RGet _ _ x | RCreate _ x | RPatch _ _ x | RStatus _ _ x => ∃ e, x = Err e
  | RDelete _ | RNone => True
  end.

Inductive serves : request_op → cluster → cluster → Prop :=
| SV_failed o σ : failed o → serves o σ σ
| SV_live nn a σ : cl_store σ !! nn = Some a → serves (RGet Live nn (Ok a)) σ σ
| SV_cached nn a σ : a ∈ cl_log σ → key a = nn → serves (RGet Cached nn (Ok a)) σ σ
| SV_created a x a' σ :
    answers x a' → created_from a a' → (∀ v, v ∈ cl_log σ → key v ≠ key a') →
    serves (RCreate a x) σ (put a' σ)
| SV_deleted a σ : serves (RDelete a) σ (forget (key a) σ)
| SV_patched base new x cur cur' σ :
    answers x cur' → cl_store σ !! key new = Some cur → spec_patched base new cur cur' →
    serves (RPatch base new x) σ (put cur' σ)
| SV_status base new x cur cur' σ :
    answers x cur' → cl_store σ !! key new = Some cur → status_patched base new cur cur' →
    serves (RStatus base new x) σ (put cur' σ).

(** ** Processes *)

Inductive thread `{GL : GlobLib, ML : McpLib} :=
| TReconcile (req : NamespacedName) (live : bool) (h : list (event ctl))
| TGateway (op : gateway_op) (h : list (event gw))
| TMcp (op : mcp_op) (h : list (event ms)).

Record system `{GL : GlobLib, ML : McpLib} := mkSystem {
  sy_cluster : cluster;
  sy_threads : list thread   (** every process started, with its calls and their answers *) }.
Arguments mkSystem {GL ML} _ _.
Arguments sy_cluster {GL ML} _.
Arguments sy_threads {GL ML} _.

Section system.
Context `{GL : GlobLib, MC : MetaConditions, RLg : RetryLib gw, ML : McpLib, EV : Evaluator, KL : KubeLib}.
Context (r : AgentRequestReconciler) (cfg : mcp_config) (oidcTokenRequired : error → bool) (fuel : nat).

Implicit Types (Σ : system) (σ : cluster).

Definition initial : system := mkSystem (mkCluster ∅ []) [].

Definition spawn (th : thread) Σ : system := mkSystem (sy_cluster Σ) (sy_threads Σ ++ [th]).

Definition reconciling Σ (req : NamespacedName) : Prop := ∃ h, TReconcile req true h ∈ sy_threads Σ.

Inductive step Σ : system → Prop :=
| S_reconcile_starts req : ~ reconciling Σ req → step Σ (spawn (TReconcile req true []) Σ)
| S_reconcile_ends i req h :
    sy_threads Σ !! i = Some (TReconcile req true h) →
    step Σ (mkSystem (sy_cluster Σ) (<[i := TReconcile req false h]> (sy_threads Σ)))
| S_gateway_starts op : step Σ (spawn (TGateway op []) Σ)
| S_mcp_starts op : step Σ (spawn (TMcp op []) Σ)
| S_reconcile i req h c x σ' :
    sy_threads Σ !! i = Some (TReconcile req true h) →
    emits (Reconcile r req) (h ++ [Ev (S:=ctl) c x]) →
    serves (ctl_view (Ev (S:=ctl) c x)) (sy_cluster Σ) σ' →
    step Σ (mkSystem σ' (<[i := TReconcile req true (h ++ [Ev (S:=ctl) c x])]> (sy_threads Σ)))
| S_gateway i op h c x σ' :
    sy_threads Σ !! i = Some (TGateway op h) →
    emits (gateway_program cfg fuel op) (h ++ [Ev (S:=gw) c x]) → cache_answer (Ev (S:=gw) c x) →
    serves (gw_view (Ev (S:=gw) c x)) (sy_cluster Σ) σ' →
    step Σ (mkSystem σ' (<[i := TGateway op (h ++ [Ev (S:=gw) c x])]> (sy_threads Σ)))
| S_mcp i op h c x σ' :
    sy_threads Σ !! i = Some (TMcp op h) →
    emits (mcp_program cfg oidcTokenRequired fuel op) (h ++ [Ev (S:=ms) c x]) →
    serves (ms_view (Ev (S:=ms) c x)) (sy_cluster Σ) σ' →
    step Σ (mkSystem σ' (<[i := TMcp op (h ++ [Ev (S:=ms) c x])]> (sy_threads Σ)))
| S_deleted k : step Σ (mkSystem (forget k (sy_cluster Σ)) (sy_threads Σ)).

Definition reachable Σ : Prop := rtc step initial Σ.

End system.
