(* ===== verification/SystemFacts.v ===== *)
(** * What holds of every reachable state of the system

    The invariant ties every stored version of every AgentRequest to the
    processes that made it what it is: an approval to the reviewer's operation
    that wrote it, the mark of a passed evaluation to the reconcile that judged
    the request, a phase to the reconcile that read the one before. *)

From S2P Require Import Prelude GoStd GoStrings Types Prog Retry Kube Conditions Evaluation Naming Registration.
From S2P Require Import AgentRequestController ControllerSpec ControllerRefines Cluster LifecycleFacts AuditTrail SinglePhase.
From S2P Require Import GatewayAuth Gateway GatewayCreate GatewayMatch GatewayHandlers Mcp McpFacts GatewayFacts CreateFacts.
From S2P Require Import GatewayWrites System.

(** ** What the controller's writes rest on *)

Section writes.
Context `{MC : MetaConditions, EV : Evaluator, KL : KubeLib}.
Context (r : AgentRequestReconciler).

Implicit Types (h : list (event ctl)) (a base new : AgentRequest) (cs : list Condition).

(** The conditions say that the request was evaluated and waits for nobody. *)
Definition claims cs : Prop :=
  IsStatusConditionTrue cs ConditionPolicyEvaluated = true ∧
  IsStatusConditionTrue cs ConditionRequiresApproval = false.

Lemma marked_claims cs cs' : marked cs cs' → claims cs' → claims cs.
Proof. intros (ty & st & reason & msg & now & ? & ? & ->) [H1 H2]. split; [rewrite <- H1|rewrite <- H2]; by rewrite is_true_set_ne. Qed.

(** The evaluation lets the request pass: it neither denied it nor asked for
    approval, or the trust gate had waived the approval it asked for. *)
Definition passes base (result : Result) : Prop :=
  (res_Action result ≠ ResultDeny ∧ res_Action result ≠ ResultRequireApproval) ∨
  (res_Action result = ResultRequireApproval ∧
   map_str (anns base) AnnotationRequiresHumanApproval = "false"%string).

Definition passed_in h (k : NamespacedName) : Prop :=
  ∃ base result, judged r h base result ∧ key base = k ∧ passes base result.

(** The request was read as approved by a human. *)
Definition approved_in h (k : NamespacedName) : Prop :=
  ∃ a ha, read h a ∧ key a = k ∧ approval a = Some ha ∧ ha_Decision ha = "approved"%string.

(** The server answered with this version. *)
Definition given h a : Prop := read h a ∨ ∃ b n, seen h (CPatchARStatus b n) (Ok a).

Definition claimed_in h (k : NamespacedName) : Prop := ∃ a, given h a ∧ key a = k ∧ claims (conditions a).

Lemma cleared_claims h base :
  cleared r h base → claims (conditions base) → claimed_in h (key base) ∨ approved_in h (key base).
Proof.
  intros Hc Hcl. destruct Hc as [a|a ha|].
  - left. exists a. split; [by left|done].
  - right. by exists a, ha.
  - left. exists stored. split; [right; eauto|done].
Qed.

Lemma judged_key h base result new :
  judged r h base result → passes base result → key new = key base → passed_in h (key new).
Proof. intros Hj Hp ->. by exists base, result. Qed.

Lemma status_write_claims h base new :
  status_write r h base new → claims (conditions new) →
  (phase new = PhaseDenied ∧ phase base ≠ PhaseDenied) ∨ claimed_in h (key new) ∨
  approved_in h (key new) ∨ passed_in h (key new).
Proof.
  intros Hw Hcl.
  assert (∀ a cs, read h a → key a = key new → marked (conditions a) cs → claims cs → claimed_in h (key new)) as Hm.
  { intros a cs Hr Hk Hcs Hc. exists a. split; [by left|]. split; [done|]. by eapply marked_claims. }
  assert (∀ cs, cleared r h base → key base = key new → marked (conditions base) cs → claims cs →
    claimed_in h (key new) ∨ approved_in h (key new) ∨ passed_in h (key new)) as Hb.
  { intros cs Hc Hk Hcs Hc'. apply (marked_claims _ _ Hcs) in Hc'.
    destruct (cleared_claims _ _ Hc Hc') as [H|H]; rewrite Hk in H; auto. }
  destruct Hw; try (right; left; by eapply Hm); try (right; left; exists a; split; [by left|]; subst; by split).
  - left. split; [done|]. cbn. by rewrite (eval_view_phase _ _ (proj1 H)).
  - right; right; right. eapply judged_key; [done| |done]. by right.
  - destruct Hcl as [_ Hra]. cbn in Hra. rewrite is_true_set_eq in Hra. done.
  - right; right; right. eapply judged_key; [done| |done]. by left.
  - right. eapply Hb; [done|done| |exact Hcl]. by apply marked_set.
  - right. eapply Hb; [done|done|done|exact Hcl].
Qed.

(** A write is based on a version that was read, in its phase. *)
Definition based h base : Prop := ∃ a, read h a ∧ same_request base a ∧ phase base = phase a.

Lemma based_read h a : read h a → based h a.
Proof. by exists a. Qed.

Lemma based_judged h base result : judged r h base result → based h base.
Proof. intros [(a & cs & cpv & Hr & _ & _ & _ & ->) _]. by exists a. Qed.

Lemma based_cleared h base : cleared r h base → based h base.
Proof.
  intros Hc. destruct Hc as [a|a|a new stored result now Hj _ _ -> _ [Hp Hs]]; [by exists a..|].
  destruct (based_judged _ _ _ Hj) as (a0 & Hr & Hs0 & Hp0). exists a0. split; [done|].
  split; [by eapply same_request_trans|]. by rewrite Hp.
Qed.

Lemma status_write_based h base new : status_write r h base new → based h base ∧ same_request new base ∧ anns new = anns base.
Proof.
  intros Hw. split; [|by destruct Hw].
  destruct Hw; eauto using based_read, based_judged, based_cleared. subst. by exists a.
Qed.

(** A request enters Approved or Executing. *)
Lemma status_write_enters h base new :
  status_write r h base new → phase new = PhaseApproved ∨ phase new = PhaseExecuting → phase base ≠ phase new →
  (∃ a, read h a ∧ key a = key new ∧ phase a = phase base ∧ (phase a = PhaseApproved ∨ claims (conditions a))) ∨
  approved_in h (key new) ∨ passed_in h (key new).
Proof.
  intros Hw Hp Hne. destruct Hw; try (by destruct Hp); try (subst; by destruct Hp).
  - left. exists a. by split_and!; auto.
  - destruct H as [a|a ha|b0 n0 stored result now0 Hj Hd Hq -> _ [_ (Hk & _)]].
    + left. exists a. split_and!; try done. by right.
    + right; left. by exists a, ha.
    + right; right. eapply judged_key; [exact Hj|by left|]. exact Hk.
Qed.

(** The trust gate and the admission let the request execute. *)
Definition trusted a : Prop :=
  map_str (anns a) AnnotationCanExecute ≠ "false"%string ∧ map_str (anns a) AnnotationGatewayDenied = ""%string.

Lemma status_write_executable h base new :
  status_write r h base new → executable (phase new) = true →
  executable (phase base) = true ∨ (read h base ∧ trusted base).
Proof.
  intros Hw He. destruct Hw; subst; try done; try (by left); try (left; unfold phase in *; cbn in *; by simplify_eq/=).
  all: try (by right).
  all: left; unfold phase in *; cbn in *;
    match goal with
    | E : st_Phase (ar_Status ?b) = _ |- executable (st_Phase (ar_Status ?b)) = true => by rewrite E
    | _ => idtac
    end.
Qed.
End writes.

(** ** The stored objects *)

Section cluster.
Implicit Types (σ : cluster) (k : NamespacedName) (a u v cur base new : AgentRequest).

(** A request under this name was denied. *)
Definition doomed σ k : Prop := ∃ u, u ∈ cl_log σ ∧ key u = k ∧ phase u = PhaseDenied.

Record cluster_ok σ : Prop := {
  ok_key k a : cl_store σ !! k = Some a → key a = k ∧ a ∈ cl_log σ;
  ok_same u v : u ∈ cl_log σ → v ∈ cl_log σ → key u = key v → same_request u v ∧ anns u = anns v;
  ok_doomed k a : cl_store σ !! k = Some a → doomed σ k → phase a = PhaseDenied }.

(** Between two states nothing happened to the request under [k] that its
    reconcile would have to know of. *)
Definition quiet_at σ σ' k : Prop :=
  ∀ cur', cl_store σ' !! k = Some cur' → ∃ cur, cl_store σ !! k = Some cur ∧
    same_request cur' cur ∧ anns cur' = anns cur ∧ phase cur' = phase cur.
Definition unused σ k : Prop := ∀ v, v ∈ cl_log σ → key v ≠ k.

Lemma lookup_forget σ k k' a : cl_store (forget k σ) !! k' = Some a → cl_store σ !! k' = Some a.
Proof. cbn. by intros [_ ?]%lookup_delete_Some. Qed.

Lemma lookup_put σ a k b :
  cl_store (put a σ) !! k = Some b → (k = key a ∧ b = a) ∨ (k ≠ key a ∧ cl_store σ !! k = Some b).
Proof. cbn. intros [[<- <-]|[Hne Hl]]%lookup_insert_Some; auto. Qed.

Lemma quiet_refl σ k : quiet_at σ σ k.
Proof. intros cur Hc. by exists cur. Qed.

Lemma forget_ok σ k : cluster_ok σ → cluster_ok (forget k σ).
Proof.
  intros [Hk Hs Hd]. split; [|exact Hs|].
  - intros k' a Ha%lookup_forget. by apply Hk.
  - intros k' a Ha%lookup_forget. by apply Hd.
Qed.

Lemma forget_quiet σ k k' : quiet_at σ (forget k σ) k'.
Proof. intros cur Hc%lookup_forget. by exists cur. Qed.

(** A version replaces the stored one. *)
Lemma put_ok σ cur cur' :
  cluster_ok σ → cl_store σ !! key cur' = Some cur → same_request cur' cur → anns cur' = anns cur →
  (phase cur = PhaseDenied → phase cur' = PhaseDenied) → cluster_ok (put cur' σ).
Proof.
  intros [Hk Hs Hd] Hc Hsr Ha Hp. destruct (Hk _ _ Hc) as [Hkc Hin].
  assert (∀ v, v ∈ cl_log σ → key cur' = key v → same_request cur' v ∧ anns cur' = anns v) as Hv.
  { intros v Hv E. destruct (Hs cur v Hin Hv) as [H1 H2]; [congruence|].
    split; [by eapply same_request_trans|congruence]. }
  split.
  - intros k a [[-> ->]|[Hne Hl]]%lookup_put; [split; [done|apply list_elem_of_here]|].
    destruct (Hk _ _ Hl). split; [done|by apply list_elem_of_further].
  - intros u v [->|Hu]%elem_of_cons [->|Hw]%elem_of_cons E; [done|by apply Hv| |by apply Hs].
    destruct (Hv u Hu (eq_sym E)) as [(? & ? & ?) ?]. by split.
  - intros k a [[-> ->]|[Hne Hl]]%lookup_put (u & [->|Hu]%elem_of_cons & Hku & Hpu); [done| |done|].
    + apply Hp, (Hd _ _ Hc). by exists u.
    + apply (Hd _ _ Hl). by exists u.
Qed.

Lemma put_quiet σ cur cur' k :
  cl_store σ !! key cur' = Some cur → same_request cur' cur → anns cur' = anns cur → phase cur' = phase cur →
  quiet_at σ (put cur' σ) k.
Proof. intros Hc Hs Ha Hp a [[-> ->]|[Hne Hl]]%lookup_put; [by exists cur|by exists a]. Qed.

Lemma put_other σ cur' k : k ≠ key cur' → quiet_at σ (put cur' σ) k.
Proof. intros Hne a [[-> _]|[_ Hl]]%lookup_put; [done|by exists a]. Qed.

(** A version under a new name. *)
Lemma put_new_ok σ a : cluster_ok σ → unused σ (key a) → phase a ≠ PhaseDenied → cluster_ok (put a σ).
Proof.
  intros [Hk Hs Hd] Hu Hp. split.
  - intros k b [[-> ->]|[Hne Hl]]%lookup_put; [split; [done|apply list_elem_of_here]|].
    destruct (Hk _ _ Hl). split; [done|by apply list_elem_of_further].
  - intros u v [->|Hu']%elem_of_cons [->|Hv]%elem_of_cons E; [done|by destruct (Hu v)|by destruct (Hu u)|by apply Hs].
  - intros k b [[-> ->]|[Hne Hl]]%lookup_put (u & [->|Hu']%elem_of_cons & Hku & Hpu); [done| |done|].
    + by destruct (Hu u).
    + apply (Hd _ _ Hl). by exists u.
Qed.

(** What an operation other than a reconcile's may ask for. *)
Definition op_ok `{MetaConditions} σ (o : request_op) : Prop :=
  match o with
  | RCreate a _ => undecided a
  | RPatch base new _ =>
      base ∈ cl_log σ ∧ ar_Meta new = ar_Meta base ∧ agent new = agent base ∧
      spec_Target (ar_Spec new) = spec_Target (ar_Spec base)
  | RStatus base new _ => base ∈ cl_log σ ∧ reports base new
  | _ => True
  end.

(** Where a version comes from that such an operation stored. *)
Inductive origin σ : request_op → AgentRequest → Prop :=
| OR_created a x v : approval v = None → ar_Status v = empty_status → origin σ (RCreate a x) v
| OR_decided base new x cur v :
    cur ∈ cl_log σ → key v = key cur → key v = key base → anns v = anns cur → ar_Status v = ar_Status cur →
    approval v = merge_approval (approval base) (approval new) (approval cur) →
    origin σ (RPatch base new x) v
| OR_reported base new x cur v :
    cur ∈ cl_log σ → key v = key cur → key v = key base → anns v = anns cur → approval v = approval cur →
    phase v = phase cur → conditions v = conditions cur ∨ conditions v = conditions new →
    origin σ (RStatus base new x) v.

Definition answer_of (o : request_op) : option AgentRequest :=
  match o with
  | RGet _ _ (Ok a) | RCreate _ (Ok a) | RPatch _ _ (Ok a) | RStatus _ _ (Ok a) => Some a
  | _ => None
  end.

(** The effect of an operation. *)
Record served σ (o : request_op) σ' : Prop := {
  sv_ok : cluster_ok σ';
  sv_log : cl_log σ ⊆ cl_log σ';
  sv_answer a : answer_of o = Some a → a ∈ cl_log σ';
  sv_quiet k : unused σ k ∨ quiet_at σ σ' k;
  sv_origin v : v ∈ cl_log σ' → v ∈ cl_log σ ∨ origin σ o v }.

Lemma merge_same {A} `{EqDecision A} (b n c : A) : b = n → merge b n c = c.
Proof. intros ->. unfold merge. by rewrite decide_True. Qed.

Lemma merge_either {A} `{EqDecision A} (b n c : A) : merge b n c = c ∨ merge b n c = n.
Proof. unfold merge. case_decide; auto. Qed.

Lemma answers_answer x a a' : answers x a' → match x with Ok b => Some b | Err _ => None end = Some a → a = a'.
Proof. by intros [->|[e ->]] [= ->]. Qed.

Lemma serves_report `{MetaConditions} σ o σ' : cluster_ok σ → op_ok σ o → serves o σ σ' → served σ o σ'.
Proof.
  intros Hok Ho Hs. destruct Hs as [o σ Hf|nn a σ Hl|nn a σ Hl Hn|a x a' σ Hx Hc Hu|a σ|base new x cur cur' σ Hx Hl Hp|base new x cur cur' σ Hx Hl Hp].
  - split; [done|done| |by right; apply quiet_refl|by left].
    intros a. by destruct o as [? ? []|? []| |? ? []|? ? []|]; destruct Hf.
  - split; [done|done| |by right; apply quiet_refl|by left]. intros ? [= <-]. by apply (ok_key _ Hok) in Hl as [_ ?].
  - split; [done|done| |by right; apply quiet_refl|by left]. by intros ? [= <-].
  - destruct Hc as (_ & _ & Hann & Hag & Htg & Hap & Hst), Ho as [Ho1 Ho2].
    assert (phase a' = ""%string) as Hph by (unfold phase; by rewrite Hst, Ho2).
    split.
    + apply put_new_ok; [done|done|by rewrite Hph].
    + set_solver.
    + intros b Hb. rewrite (answers_answer x b a' Hx Hb). set_solver.
    + intros k. destruct (decide (k = key a')) as [->|Hne]; [left; exact Hu|right; by apply put_other].
    + intros v [->|Hv]%elem_of_cons; [right|by left]. apply OR_created; [by rewrite Hap|by rewrite Hst].
  - split; [by apply forget_ok|done|done|right; apply forget_quiet|by left].
  - destruct Ho as (Hb & Hm & Hag & Htg), Hp as (Hk & Hann & Hag' & Htg' & Hap & Hst).
    destruct (ok_key _ Hok _ _ Hl) as [Hkc Hin]. unfold anns in Hann. rewrite Hm in Hann.
    rewrite (merge_same _ _ _ eq_refl) in Hann. rewrite (merge_same _ _ _ (eq_sym Hag)) in Hag'.
    rewrite (merge_same _ _ _ (eq_sym Htg)) in Htg'.
    assert (same_request cur' cur) as Hsr by (by split_and!).
    assert (cl_store σ !! key cur' = Some cur) as Hl' by (by rewrite Hk, Hkc).
    assert (phase cur' = phase cur) as Hph by (unfold phase; by rewrite Hst).
    split.
    + eapply put_ok; [done|done|done|done|congruence].
    + set_solver.
    + intros b Hb'. rewrite (answers_answer x b cur' Hx Hb'). set_solver.
    + intros k. right. by eapply put_quiet.
    + intros v [->|Hv]%elem_of_cons; [right|by left]. eapply OR_decided; try done.
      rewrite Hk, Hkc. unfold key. by rewrite Hm.
  - destruct Ho as (Hb & Hm & Hsp & Hph & Hcs), Hp as (Hk & Hann & Hsp' & Hph' & Hcs').
    destruct (ok_key _ Hok _ _ Hl) as [Hkc Hin]. rewrite (merge_same _ _ _ (eq_sym Hph)) in Hph'.
    assert (same_request cur' cur) as Hsr by (unfold same_request; by rewrite Hsp').
    assert (cl_store σ !! key cur' = Some cur) as Hl' by (by rewrite Hk, Hkc).
    split.
    + eapply put_ok; [done|done|done|done|congruence].
    + set_solver.
    + intros b Hb'. rewrite (answers_answer x b cur' Hx Hb'). set_solver.
    + intros k. right. by eapply put_quiet.
    + intros v [->|Hv]%elem_of_cons; [right|by left]. eapply OR_reported; try done.
      * rewrite Hk, Hkc. unfold key. by rewrite Hm.
      * unfold approval. by rewrite Hsp'.
      * rewrite Hcs'. apply merge_either.
Qed.

End cluster.

(** ** Processes and evidence *)

Section facts.
Context `{GL : GlobLib, MC : MetaConditions, RLg : RetryLib gw, ML : McpLib, EV : Evaluator, KL : KubeLib}.
Context (r : AgentRequestReconciler) (cfg : mcp_config) (oidcTokenRequired : error → bool) (fuel : nat).

Implicit Types (Σ : system) (σ : cluster) (k : NamespacedName) (a u v cur base new : AgentRequest).

Abbreviation step := (step r cfg oidcTokenRequired fuel).
Abbreviation reachable := (reachable r cfg oidcTokenRequired fuel).

(** A reviewer who is not the agent of the request approved it. *)
Definition human_approved Σ k : Prop :=
  ∃ rq reason h base x,
    TGateway (OpApprove rq reason) h ∈ sy_threads Σ ∧
    gseen h (GPatchAR base (decided rq reason "approved" base)) x ∧
    has_passed (mc_server cfg) roleReviewer rq ∧ agent base ≠ sub_of rq ∧ phase base = PhasePending ∧
    base ∈ cl_log (sy_cluster Σ) ∧ key base = k.

(** A reconcile judged the request and let it pass. *)
Definition policy_passed Σ k : Prop :=
  ∃ req live h, TReconcile req live h ∈ sy_threads Σ ∧ passed_in r h k.

Definition justified Σ k : Prop := human_approved Σ k ∨ policy_passed Σ k.

(** What is known of every version. *)
Record version_ok Σ v : Prop := {
  vo_approval ha : approval v = Some ha → ha_Decision ha = "approved"%string → human_approved Σ (key v);
  vo_claims : claims (conditions v) → justified Σ (key v) ∨ doomed (sy_cluster Σ) (key v);
  vo_phase : phase v = PhaseApproved ∨ phase v = PhaseExecuting → justified Σ (key v);
  vo_trust : executable (phase v) = true → trusted v }.

(** Answers are versions that were stored. *)
Definition answered σ (ops : list request_op) : Prop :=
  ∀ o a, o ∈ ops → answer_of o = Some a → a ∈ cl_log σ.

(** What a running reconcile read is what is stored, but for its own change of
    the phase. *)
Definition up_to_date σ (req : NamespacedName) (h : list (event ctl)) : Prop :=
  ∀ a, read h a → key a = req ∧
    ∀ cur, cl_store σ !! req = Some cur →
      same_request cur a ∧ anns cur = anns a ∧ (unmoved h → phase cur = phase a).

Definition thread_ok σ (th : thread) : Prop :=
  match th with
  | TReconcile req live h =>
      emits (Reconcile r req) h ∧ Forall faithful h ∧ answered σ (ctl_view <$> h) ∧
      (live = true → up_to_date σ req h)
  | TGateway op h =>
      emits (gateway_program cfg fuel op) h ∧ Forall cache_answer h ∧ answered σ (gw_view <$> h)
  | TMcp op h => emits (mcp_program cfg oidcTokenRequired fuel op) h ∧ answered σ (ms_view <$> h)
  end.

Record inv Σ : Prop := {
  inv_cluster : cluster_ok (sy_cluster Σ);
  inv_threads th : th ∈ sy_threads Σ → thread_ok (sy_cluster Σ) th;
  inv_alone i j req h h' :
    sy_threads Σ !! i = Some (TReconcile req true h) → sy_threads Σ !! j = Some (TReconcile req true h') → i = j;
  inv_versions v : v ∈ cl_log (sy_cluster Σ) → version_ok Σ v }.

(** *** Evidence is never lost *)

(** A later state of a process. *)
Inductive later : thread → thread → Prop :=
| LT_reconcile req live live' h h' : h ⊆ h' → later (TReconcile req live h) (TReconcile req live' h')
| LT_gateway op h h' : h ⊆ h' → later (TGateway op h) (TGateway op h')
| LT_mcp op h h' : h ⊆ h' → later (TMcp op h) (TMcp op h').

Record grows Σ Σ' : Prop := {
  gr_log : cl_log (sy_cluster Σ) ⊆ cl_log (sy_cluster Σ');
  gr_threads th : th ∈ sy_threads Σ → ∃ th', th' ∈ sy_threads Σ' ∧ later th th' }.

Lemma later_refl th : later th th.
Proof. destruct th; by constructor. Qed.

Lemma spawn_grows Σ th : grows Σ (spawn th Σ).
Proof. split; [done|]. intros th' Hin. exists th'. split; [cbn; set_solver|apply later_refl]. Qed.

Lemma update_grows Σ σ' i th th' :
  sy_threads Σ !! i = Some th → later th th' → cl_log (sy_cluster Σ) ⊆ cl_log σ' →
  grows Σ (mkSystem σ' (<[i := th']> (sy_threads Σ))).
Proof.
  intros Hi Hl Hlog. split; [done|]. intros u [j Hj]%list_elem_of_lookup_1.
  destruct (decide (i = j)) as [<-|Hne].
  - exists th'. simplify_eq. split; [|done]. cbn. apply (list_elem_of_lookup_2 _ i).
    apply list_lookup_insert_eq. by eapply lookup_lt_Some.
  - exists u. split; [|apply later_refl]. cbn. apply (list_elem_of_lookup_2 _ j). by rewrite list_lookup_insert_ne.
Qed.

Lemma passed_in_mono h h' k : h ⊆ h' → passed_in r h k → passed_in r h' k.
Proof. intros Hs (base & result & Hj & Hx). exists base, result. split; [by eapply judged_mono|done]. Qed.

Lemma human_mono Σ Σ' k : grows Σ Σ' → human_approved Σ k → human_approved Σ' k.
Proof.
  intros [Hlog Hth] (rq & reason & h & base & x & Hin & Hs & Hp & Hi & Hph & Hb & Hk).
  destruct (Hth _ Hin) as (th' & Hin' & Hl). inversion Hl; subst.
  exists rq, reason, h', base, x. split_and!; try done; [by eapply gseen_mono|by apply Hlog].
Qed.

Lemma policy_mono Σ Σ' k : grows Σ Σ' → policy_passed Σ k → policy_passed Σ' k.
Proof.
  intros [_ Hth] (req & live & h & Hin & Hp). destruct (Hth _ Hin) as (th' & Hin' & Hl). inversion Hl; subst.
  exists req, live', h'. split; [done|]. by eapply passed_in_mono.
Qed.

Lemma justified_mono Σ Σ' k : grows Σ Σ' → justified Σ k → justified Σ' k.
Proof. intros Hg [H|H]; [left; by eapply human_mono|right; by eapply policy_mono]. Qed.

Lemma doomed_mono Σ Σ' k : grows Σ Σ' → doomed (sy_cluster Σ) k → doomed (sy_cluster Σ') k.
Proof. intros [Hlog _] (u & Hu & Hx). exists u. split; [by apply Hlog|done]. Qed.

Lemma version_mono Σ Σ' v : grows Σ Σ' → version_ok Σ v → version_ok Σ' v.
Proof.
  intros Hg [Ha Hc Hp Ht]. split; [|intros H|intros H|done].
  - intros ha H1 H2. eapply human_mono; [done|by eapply Ha].
  - destruct (Hc H); [left; by eapply justified_mono|right; by eapply doomed_mono].
  - eapply justified_mono; [done|by apply Hp].
Qed.

(** *** What is true of a process stays true *)

Lemma answered_mono σ σ' ops : cl_log σ ⊆ cl_log σ' → answered σ ops → answered σ' ops.
Proof. intros Hs H o a Ho Ha. by apply Hs, (H o). Qed.

Lemma up_to_date_quiet σ σ' req h :
  answered σ (ctl_view <$> h) → unused σ req ∨ quiet_at σ σ' req → up_to_date σ req h → up_to_date σ' req h.
Proof.
  intros Hans Hq Hu a Hr. destruct (Hu a Hr) as [Hk Hcur]. split; [done|]. intros cur' Hc'.
  destruct Hq as [Hq|Hq].
  - exfalso. apply (Hq a); [|done]. destruct Hr as (rd & nn & Hr).
    apply (Hans (RGet rd nn (Ok a))); [|done]. apply list_elem_of_fmap. by exists (Ev (S:=ctl) (CGetAR rd nn) (Ok a)).
  - destruct (Hq cur' Hc') as (cur & Hc & Hs & Ha & Hp). destruct (Hcur cur Hc) as (Hs' & Ha' & Hp').
    split; [by eapply same_request_trans|]. split; [congruence|]. intros Hun. rewrite Hp. auto.
Qed.

Lemma thread_quiet σ σ' th :
  cl_log σ ⊆ cl_log σ' →
  (∀ req h, th = TReconcile req true h → unused σ req ∨ quiet_at σ σ' req) →
  thread_ok σ th → thread_ok σ' th.
Proof.
  intros Hs Hq. destruct th as [req live h|op h|op h]; cbn.
  - intros (He & Hf & Ha & Hu). split_and!; try done; [by eapply answered_mono|]. intros ->.
    eapply up_to_date_quiet; [done| |by apply Hu]. by eapply Hq.
  - intros (He & Hf & Ha). split_and!; try done. by eapply answered_mono.
  - intros (He & Ha). split_and!; try done. by eapply answered_mono.
Qed.

Lemma answered_snoc σ ops o : answered σ ops → (∀ a, answer_of o = Some a → a ∈ cl_log σ) → answered σ (ops ++ [o]).
Proof. intros H Ho o' a [Hin| ->%list_elem_of_singleton]%elem_of_app Ha; [by eapply H|auto]. Qed.

(** *** Steps of the gateway *)

Lemma claims_nil : ~ claims [].
Proof. intros [H _]. by rewrite is_true_find, find_nil in H. Qed.

Lemma merge_approval_approved b n c ha :
  merge_approval b n c = Some ha → ha_Decision ha = "approved"%string →
  (∃ hc, c = Some hc ∧ ha_Decision hc = "approved"%string) ∨ (∃ hn, n = Some hn ∧ ha_Decision hn = "approved"%string).
Proof.
  unfold merge_approval. case_decide; [intros ->; eauto|]. destruct n as [n|]; [|done]. intros [= <-]. cbn.
  set (m := merge _ _ _). destruct (merge_either (default ""%string (ha_Decision <$> b)) (ha_Decision n)
    (default ""%string (ha_Decision <$> c))) as [E|E]; fold m in E; rewrite E; [|eauto].
  destruct c as [hc|]; [|done]. cbn. eauto.
Qed.

Lemma origin_version Σ Σ' o v :
  (∀ u, u ∈ cl_log (sy_cluster Σ) → version_ok Σ u) → grows Σ Σ' → op_ok (sy_cluster Σ) o →
  (∀ base new x hn, o = RPatch base new x → approval new = Some hn → ha_Decision hn = "approved"%string →
     human_approved Σ' (key base)) →
  origin (sy_cluster Σ) o v → version_ok Σ' v.
Proof.
  intros Hv Hg Ho Hd Hor.
  destruct Hor as [a x v Ha Hst|base new x cur v Hc Hk Hkb Han Hst Hap|base new x cur v Hc Hk Hkb Han Hap Hph Hcs].
  - unfold phase. split; unfold phase, conditions; rewrite ?Ha, ?Hst; cbn; try done.
    + by intros ?%claims_nil.
    + by intros [].
  - destruct (version_mono _ _ _ Hg (Hv cur Hc)) as [V1 V2 V3 V4]. rewrite <- Hk in V1, V2, V3.
    split; unfold phase, conditions, trusted; rewrite ?Hst, ?Han; try done.
    intros ha Hha Hdec. rewrite Hap in Hha.
    destruct (merge_approval_approved _ _ _ _ Hha Hdec) as [(hc & ? & ?)|(hn & ? & ?)]; [by eapply V1|].
    rewrite Hkb. by eapply Hd.
  - destruct (version_mono _ _ _ Hg (Hv cur Hc)) as [V1 V2 V3 V4]. rewrite <- Hk in V1, V2, V3.
    destruct Ho as (Hb & _ & _ & _ & Hr). destruct (version_mono _ _ _ Hg (Hv base Hb)) as [_ B2 _ _]. rewrite <- Hkb in B2.
    split; unfold trusted; rewrite ?Hph, ?Han, ?Hap; try done.
    intros Hcl. destruct Hcs as [E|E]; rewrite E in Hcl; [by apply V2|]. apply B2.
    destruct Hr as [Hr|Hr]; [by rewrite <- Hr|by eapply marked_claims].
Qed.

Lemma in_history {S} (view : event S → request_op) (h : list (event S)) e : e ∈ h → view e ∈ view <$> h.
Proof. intros He. apply list_elem_of_fmap. by exists e. Qed.

Lemma gateway_op_ok σ op h c (x : gresp c) :
  answered σ (gw_view <$> h) → gateway_write cfg op h c → op_ok σ (gw_view (Ev (S:=gw) c x)).
Proof.
  intros Hans Hw.
  assert (∀ a, obtained h a → a ∈ cl_log σ) as Hob.
  { intros a [(rd & nn & Hin)|(a' & Hin)]; apply (in_history gw_view) in Hin; by eapply Hans. }
  destruct c; try done; cbn in *.
  - destruct Hw as [Hb (rq & reason & decision & _ & _ & _ & _ & ->)]. by split_and!; auto.
  - destruct Hw as [Hb Hr]. split; [auto|done].
Qed.

Lemma mcp_op_ok σ h c (x : mresp c) :
  answered σ (ms_view <$> h) → mcp_write h c → op_ok σ (ms_view (Ev (S:=ms) c x)).
Proof.
  intros Hans Hw. destruct c as [g| | | | | | | | | | | | | | |]; try done. destruct g; try done; cbn in *.
  destruct Hw as [(rd & nn & Hin) Hr]. split; [|done]. apply (in_history ms_view) in Hin. by eapply Hans.
Qed.

(** Any step that is not a reconcile's. *)
Lemma inv_served Σ o σ' i th th' :
  inv Σ → op_ok (sy_cluster Σ) o → serves o (sy_cluster Σ) σ' →
  sy_threads Σ !! i = Some th → later th th' → (∀ req h, th' ≠ TReconcile req true h) →
  (cluster_ok σ' → cl_log (sy_cluster Σ) ⊆ cl_log σ' → (∀ a, answer_of o = Some a → a ∈ cl_log σ') → thread_ok σ' th') →
  (∀ base new x hn, o = RPatch base new x → approval new = Some hn → ha_Decision hn = "approved"%string →
     human_approved (mkSystem σ' (<[i := th']> (sy_threads Σ))) (key base)) →
  inv (mkSystem σ' (<[i := th']> (sy_threads Σ))).
Proof.
  intros [Hc Ht Ha Hv] Ho Hs Hi Hl Hn Hth Hd. destruct (serves_report _ _ _ Hc Ho Hs) as [Hok Hlog Hans Hq Hor].
  assert (grows Σ (mkSystem σ' (<[i := th']> (sy_threads Σ)))) as Hg by (by eapply update_grows).
  split; cbn.
  - done.
  - intros u [j Hj]%list_elem_of_lookup_1. apply list_lookup_insert_Some in Hj as [(_ & <- & _)|[_ Hj]]; [auto|].
    eapply thread_quiet; [done|by auto|]. apply Ht. by eapply list_elem_of_lookup_2.
  - intros j j' req h h' Hj Hj'.
    apply list_lookup_insert_Some in Hj as [(_ & E & _)|[_ Hj]]; [by destruct (Hn req h)|].
    apply list_lookup_insert_Some in Hj' as [(_ & E & _)|[_ Hj']]; [by destruct (Hn req h')|]. by eapply Ha.
  - intros v Hin. destruct (Hor v Hin) as [Hold|Hnew]; [eapply version_mono; eauto|].
    eapply (origin_version Σ); eauto.
Qed.

(** *** Steps of a reconcile *)

Context (Hlive : APIReader r = true).

Lemma reconcile_first req c (x : resp c) : emits (Reconcile r req) [Ev (S:=ctl) c x] → c = CGetAR (reader_of r) req.
Proof.
  intros [H|(y & t & Heq & _)]; [done|].
  apply (f_equal (λ l, ev_call (S:=ctl) <$> head l)) in Heq. by injection Heq.
Qed.

Lemma read_snoc h e a : read (h ++ [e]) a → read h a ∨ answer_of (ctl_view e) = Some a.
Proof.
  intros (rd & nn & [Hin|Hin%list_elem_of_singleton]%elem_of_app); [left; by exists rd, nn|].
  right. by rewrite <- Hin.
Qed.

Lemma unmoved_prefix h e : unmoved (h ++ [e]) → unmoved h.
Proof. intros Hu b n x Hin. apply (Hu b n x). set_solver. Qed.

(** The general shape: the reconcile of [req] may change only what is stored
    under [req]. *)
Lemma inv_reconcile Σ i req h e σ' :
  inv Σ → sy_threads Σ !! i = Some (TReconcile req true h) →
  let Σ' := mkSystem σ' (<[i := TReconcile req true (h ++ [e])]> (sy_threads Σ)) in
  cluster_ok σ' → cl_log (sy_cluster Σ) ⊆ cl_log σ' → (∀ k, k ≠ req → quiet_at (sy_cluster Σ) σ' k) →
  thread_ok σ' (TReconcile req true (h ++ [e])) →
  (grows Σ Σ' → ∀ v, v ∈ cl_log σ' → v ∈ cl_log (sy_cluster Σ) ∨ version_ok Σ' v) →
  inv Σ'.
Proof.
  intros [Hc Ht Ha Hv] Hi Σ' Hok Hlog Hq Hth Hnew.
  assert (grows Σ Σ') as Hg by (eapply update_grows; [done|constructor; set_solver|done]).
  split; cbn.
  - done.
  - intros u [j Hj]%list_elem_of_lookup_1. apply list_lookup_insert_Some in Hj as [(_ & <- & _)|[Hne Hj]]; [done|].
    eapply thread_quiet; [done| |by eapply Ht, list_elem_of_lookup_2].
    intros req' h' ->. right. apply Hq. intros ->. by apply Hne, (Ha i j req h h').
  - intros j j' req' h1 h2 Hj Hj'.
    assert (∀ j h1, <[i:=TReconcile req true (h ++ [e])]> (sy_threads Σ) !! j = Some (TReconcile req' true h1) →
      ∃ h2, sy_threads Σ !! j = Some (TReconcile req' true h2)) as Hback.
    { intros j0 h0 [(-> & [= -> <-] & _)|[_ Hj0]]%list_lookup_insert_Some; eauto. }
    destruct (Hback _ _ Hj) as [h3 H3], (Hback _ _ Hj') as [h4 H4]. by eapply Ha.
  - intros v Hin. destruct (Hnew Hg v Hin) as [Hold|H]; [eapply version_mono; eauto|done].
Qed.

(** A call that leaves the objects alone. *)
Lemma inv_reconcile_same Σ i req h c (x : resp c) :
  inv Σ → sy_threads Σ !! i = Some (TReconcile req true h) →
  emits (Reconcile r req) (h ++ [Ev (S:=ctl) c x]) → faithful (Ev (S:=ctl) c x) →
  (∀ a, answer_of (ctl_view (Ev (S:=ctl) c x)) = Some a → cl_store (sy_cluster Σ) !! req = Some a) →
  inv (mkSystem (sy_cluster Σ) (<[i := TReconcile req true (h ++ [Ev (S:=ctl) c x])]> (sy_threads Σ))).
Proof.
  intros Hinv Hi He Hf Hans. pose proof Hinv as [Hc Ht _ _].
  destruct (Ht _ (list_elem_of_lookup_2 _ _ _ Hi)) as (_ & Hfs & Ha & Hu). specialize (Hu eq_refl).
  eapply inv_reconcile; try done; [intros; apply quiet_refl| |by left]. cbn. split_and!.
  - done.
  - by apply Forall_app_2; [|apply Forall_singleton].
  - rewrite fmap_app. apply answered_snoc; [done|]. intros a Hx. by eapply (ok_key _ Hc), Hans.
  - intros _ a Hr. apply read_snoc in Hr as [Hr|Hx].
    + destruct (Hu a Hr) as [Hk Hcur]. split; [done|]. intros cur Hl. destruct (Hcur cur Hl) as (? & ? & Hp).
      split_and!; try done. by intros ?%unmoved_prefix%Hp.
    + apply Hans in Hx. destruct (ok_key _ Hc _ _ Hx) as [Hk _]. split; [done|]. intros cur Hl. by simplify_eq.
Qed.

(** What a patch of the status finds. *)
Lemma patch_current Σ i req h base new (x : res AgentRequest) cur :
  inv Σ → sy_threads Σ !! i = Some (TReconcile req true h) →
  emits (Reconcile r req) (h ++ [Ev (S:=ctl) (CPatchARStatus base new) x]) →
  cl_store (sy_cluster Σ) !! key new = Some cur →
  status_write r h base new ∧ key new = req ∧ same_request cur new ∧ phase cur = phase base ∧
  ∀ a, read h a → same_request cur a ∧ anns cur = anns a ∧ phase cur = phase a.
Proof.
  intros [Hc Ht _ _] Hi He Hl. destruct (Ht _ (list_elem_of_lookup_2 _ _ _ Hi)) as (_ & Hf & Ha & Hu).
  specialize (Hu eq_refl).
  assert (reaches r req h (CPatchARStatus base new)) as Hre by (split; [done|]; by exists x, []).
  pose proof (reaches_allowed r req h _ Hre) as Hw. pose proof (one_phase_change r req h base new Hre) as Hun.
  cbn in Hw. destruct (status_write_based r h base new Hw) as ((a & Hr & Hsa & Hpa) & Hsn & _).
  destruct (Hu a Hr) as [Hk Hcur].
  assert (same_request new a) as Hna by (by eapply same_request_trans).
  assert (key new = req) as Hkn by (destruct Hna as [E _]; unfold key in *; congruence).
  rewrite Hkn in Hl. destruct (Hcur cur Hl) as (Hs & Han & Hp). split_and!; try done.
  - unfold same_request in *. intuition congruence.
  - rewrite Hpa. auto.
  - intros a' Hr'. destruct (Hu a' Hr') as [_ Hcur']. destruct (Hcur' cur Hl) as (? & ? & ?). auto.
Qed.

(** What a reconcile saw is evidence. *)
Lemma given_logged σ h a : answered σ (ctl_view <$> h) → given h a → a ∈ cl_log σ.
Proof. intros Hans [(rd & nn & Hin)|(b & n & Hin)]; apply (in_history ctl_view) in Hin; by eapply Hans. Qed.

Lemma evidence Σ i req live h k :
  inv Σ → sy_threads Σ !! i = Some (TReconcile req live h) →
  (approved_in h k → human_approved Σ k) ∧ (passed_in r h k → policy_passed Σ k) ∧
  (claimed_in h k → justified Σ k ∨ doomed (sy_cluster Σ) k).
Proof.
  intros [Hc Ht _ Hv] Hi. destruct (Ht _ (list_elem_of_lookup_2 _ _ _ Hi)) as (_ & _ & Hans & _). split_and!.
  - intros (a & ha & Hr & <- & Hha & Hd). eapply (vo_approval _ _ (Hv a _)); [done..].
    Unshelve. eapply given_logged; [done|by left].
  - intros Hp. exists req, live, h. split; [by eapply list_elem_of_lookup_2|done].
  - intros (a & Hg & <- & Hcl). apply (vo_claims _ _ (Hv a (given_logged _ _ _ Hans Hg)) Hcl).
Qed.

(** The version that a patch of the status stores is accounted for. *)
Lemma patched_version Σ Σ' i req h base new (x : res AgentRequest) cur cur' :
  inv Σ → sy_threads Σ !! i = Some (TReconcile req true h) →
  emits (Reconcile r req) (h ++ [Ev (S:=ctl) (CPatchARStatus base new) x]) →
  cl_store (sy_cluster Σ) !! key new = Some cur → status_patched base new cur cur' →
  grows Σ Σ' → cur' ∈ cl_log (sy_cluster Σ') → version_ok Σ' cur'.
Proof.
  intros Hinv Hi He Hl (Hk & Han & Hsp & Hph & Hcs) Hg Hin'.
  destruct (patch_current _ _ _ _ _ _ _ _ Hinv Hi He Hl) as (Hw & Hkn & Hsr & Hpc & Hread).
  pose proof Hinv as [Hc Ht _ Hv]. destruct (Ht _ (list_elem_of_lookup_2 _ _ _ Hi)) as (_ & _ & Hans & _).
  destruct (ok_key _ Hc _ _ Hl) as [Hkc Hin].
  assert (phase cur' = phase new) as Hpn by (rewrite Hph; unfold merge; case_decide; congruence).
  assert (key cur' = key new) as Hk' by congruence.
  assert (~ doomed (sy_cluster Σ) (key new)) as Hnd.
  { intros Hd. pose proof (ok_doomed _ Hc _ _ Hl Hd) as Hpd.
    pose proof (lifecycle_nonterminal _ _ (status_write_lifecycle r _ _ _ Hw)) as Hnt. by rewrite <- Hpc, Hpd in Hnt. }
  destruct (evidence Σ i req true h (key new) Hinv Hi) as (Eap & Epa & Ecl).
  assert (claimed_in h (key new) ∨ approved_in h (key new) ∨ passed_in r h (key new) → justified Σ' (key cur')) as Hj.
  { rewrite Hk'. intros Hx. eapply justified_mono; [done|]. destruct Hx as [Hx|[Hx|Hx]].
    - by destruct (Ecl Hx).
    - left. auto.
    - right. auto. }
  destruct (version_mono _ _ _ Hg (Hv cur Hin)) as [V1 V2 V3 V4]. rewrite <- Hk in V1, V2, V3.
  split.
  - unfold approval. rewrite Hsp. exact V1.
  - rewrite Hcs. intros Hcl. destruct (merge_either (conditions base) (conditions new) (conditions cur)) as [E|E];
      rewrite E in Hcl; [by apply V2|].
    destruct (status_write_claims r h base new Hw Hcl) as [[Hd _]|Hx]; [|left; auto].
    right. exists cur'. split_and!; [done|done|congruence].
  - rewrite Hpn. intros Hp. destruct (decide (phase base = phase new)) as [E|E].
    + apply V3. by rewrite Hpc, E.
    + destruct (status_write_enters r h base new Hw Hp E) as [(a & Hr & Hka & Hpa & [Hap|Hcl])|Hx]; [| |auto].
      * apply V3. left. congruence.
      * apply Hj. left. exists a. split; [by left|done].
  - unfold trusted. rewrite Hpn, Han. intros Hex.
    destruct (status_write_executable r h base new Hw Hex) as [Hb|[Hr [T1 T2]]]; [apply V4; congruence|].
    destruct (Hread base Hr) as (_ & -> & _). done.
Qed.

Lemma inv_patch Σ i req h base new (x : res AgentRequest) cur cur' :
  inv Σ → sy_threads Σ !! i = Some (TReconcile req true h) →
  emits (Reconcile r req) (h ++ [Ev (S:=ctl) (CPatchARStatus base new) x]) →
  answers x cur' → cl_store (sy_cluster Σ) !! key new = Some cur → status_patched base new cur cur' →
  inv (mkSystem (put cur' (sy_cluster Σ))
         (<[i := TReconcile req true (h ++ [Ev (S:=ctl) (CPatchARStatus base new) x])]> (sy_threads Σ))).
Proof.
  intros Hinv Hi He Hx Hl Hp. pose proof Hp as (Hk & Han & Hsp & Hph & _).
  destruct (patch_current _ _ _ _ _ _ _ _ Hinv Hi He Hl) as (Hw & Hkn & Hsr & Hpc & Hread).
  pose proof Hinv as [Hc Ht _ _]. destruct (Ht _ (list_elem_of_lookup_2 _ _ _ Hi)) as (_ & Hf & Hans & Hu).
  destruct (ok_key _ Hc _ _ Hl) as [Hkc _].
  assert (phase cur' = phase new) as Hpn by (rewrite Hph; unfold merge; case_decide; congruence).
  assert (same_request cur' cur) as Hcc by (unfold same_request; by rewrite Hsp).
  assert (key cur' = req) as Hkr by congruence.
  eapply inv_reconcile; try done.
  - eapply put_ok; try done; [by rewrite Hkr, <- Hkn|]. intros Hd.
    pose proof (lifecycle_nonterminal _ _ (status_write_lifecycle r _ _ _ Hw)) as Hnt. by rewrite <- Hpc, Hd in Hnt.
  - set_solver.
  - intros k Hne. apply put_other. congruence.
  - cbn. split_and!.
    + done.
    + apply Forall_app_2; [done|]. apply Forall_singleton. destruct Hx as [->|[e ->]]; [|exact I].
      split; [done|]. by eapply same_request_trans.
    + rewrite fmap_app. apply answered_snoc; [eapply answered_mono; [|done]; set_solver|].
      intros a Ha. rewrite (answers_answer x a cur' Hx Ha). set_solver.
    + intros _ a Hr. assert (read h a) as Hra.
      { destruct Hr as (rd & nn & [Hr|Hr%list_elem_of_singleton]%elem_of_app); [by exists rd, nn|].
        apply (f_equal (ev_call (S:=ctl))) in Hr. done. }
      destruct (Hu eq_refl a Hra) as [Hka _]. split; [done|].
      intros c2 [[_ ->]|[Hne _]]%lookup_put; [|congruence].
      destruct (Hread a Hra) as (Hs1 & Ha1 & Hp1). split_and!; [by eapply same_request_trans|congruence|].
      intros Hun. assert (phase base = phase new) by (apply (Hun base new x); set_solver). congruence.
  - intros Hg v [->|Hv]%elem_of_cons; [right|by left].
    eapply (patched_version Σ); [done..|]. cbn. set_solver.
Qed.

(** A reconcile reads its own request, from the server. *)
Lemma reconcile_reads Σ i req h rd nn (x : res AgentRequest) :
  inv Σ → sy_threads Σ !! i = Some (TReconcile req true h) →
  emits (Reconcile r req) (h ++ [Ev (S:=ctl) (CGetAR rd nn) x]) → rd = Live ∧ nn = req.
Proof.
  intros [_ Ht _ _] Hi He. destruct (Ht _ (list_elem_of_lookup_2 _ _ _ Hi)) as (_ & Hf & _ & Hu).
  assert (reaches r req h (CGetAR rd nn)) as Hre by (split; [done|]; by exists x, []).
  assert (reader_of r = Live) as Hrd by (unfold reader_of; by rewrite Hlive).
  destruct (reaches_allowed r req h _ Hre) as [[-> ->]|[-> (a & Hr & ->)]].
  - apply reconcile_first in He. injection He as ->. done.
  - split; [done|]. by destruct (Hu eq_refl a Hr).
Qed.

Lemma inv_initial : inv initial.
Proof. split; cbn; [split; cbn|..]; first [done|set_solver]. Qed.

Lemma inv_spawn Σ th :
  inv Σ → thread_ok (sy_cluster Σ) th →
  (∀ req h, th = TReconcile req true h → ~ reconciling Σ req) → inv (spawn th Σ).
Proof.
  intros [Hc Ht Ha Hv] Hth Hn. split; cbn.
  - done.
  - intros u [Hu| ->%list_elem_of_singleton]%elem_of_app; [by apply Ht|done].
  - assert (∀ i req h, (sy_threads Σ ++ [th]) !! i = Some (TReconcile req true h) →
      sy_threads Σ !! i = Some (TReconcile req true h) ∨ (i = length (sy_threads Σ) ∧ th = TReconcile req true h)) as Hl.
    { intros i req h [Hl|[Hge Hl]]%lookup_app_Some; [by left|right].
      apply list_lookup_singleton_Some in Hl as [? <-]. split; [lia|done]. }
    intros i j req h h' [Hi|[-> Hi]]%Hl [Hj|[-> Hj]]%Hl; [by eapply Ha| | |done].
    + destruct (Hn _ _ Hj). exists h. by eapply list_elem_of_lookup_2.
    + destruct (Hn _ _ Hi). exists h'. by eapply list_elem_of_lookup_2.
  - intros v Hin. eapply version_mono; [apply spawn_grows|auto].
Qed.

Lemma emits_nil {S A} (p : prog S A) : emits p [].
Proof. destruct p; by left. Qed.

Lemma inv_ends Σ i req h :
  inv Σ → sy_threads Σ !! i = Some (TReconcile req true h) →
  inv (mkSystem (sy_cluster Σ) (<[i := TReconcile req false h]> (sy_threads Σ))).
Proof.
  intros [Hc Ht Ha Hv] Hi.
  assert (∀ j req' h', <[i:=TReconcile req false h]> (sy_threads Σ) !! j = Some (TReconcile req' true h') →
    sy_threads Σ !! j = Some (TReconcile req' true h')) as Hb.
  { by intros j req' h' [(_ & ? & _)|[_ Hj]]%list_lookup_insert_Some. }
  split; cbn; [done| |by intros j j' req' h1 h2 Hj%Hb Hj'%Hb; eapply Ha|].
  - intros u [j Hj]%list_elem_of_lookup_1. apply list_lookup_insert_Some in Hj as [(_ & <- & _)|[_ Hj]].
    + destruct (Ht _ (list_elem_of_lookup_2 _ _ _ Hi)) as (? & ? & ? & _). by split_and!.
    + by eapply Ht, list_elem_of_lookup_2.
  - intros v Hin. eapply version_mono; [|by apply Hv]. by eapply update_grows; [|constructor|].
Qed.

Lemma inv_reconcile_step Σ i req h c (x : resp c) σ' :
  inv Σ → sy_threads Σ !! i = Some (TReconcile req true h) →
  emits (Reconcile r req) (h ++ [Ev (S:=ctl) c x]) →
  serves (ctl_view (Ev (S:=ctl) c x)) (sy_cluster Σ) σ' →
  inv (mkSystem σ' (<[i := TReconcile req true (h ++ [Ev (S:=ctl) c x])]> (sy_threads Σ))).
Proof.
  intros Hinv Hi He Hs. destruct c as [| | |rd nn|base new| | | | | | | | | | |]; cbn in Hs;
    try (inversion Hs; subst; eapply inv_reconcile_same; done).
  - destruct (reconcile_reads _ _ _ _ _ _ _ Hinv Hi He) as [-> ->].
    inversion Hs as [o s Hf|n a s Hl|n a s Hl Hk| | | |]; subst; eapply inv_reconcile_same; try done; cbn.
    + by destruct Hf as [e ->].
    + by intros ? [= <-].
  - inversion Hs as [o s Hf| | | | | |b n y cur cur' s Hx Hl Hp]; subst.
    + destruct Hf as [e ->]. by eapply inv_reconcile_same.
    + by eapply inv_patch.
Qed.

Lemma inv_gateway_step Σ i op h c (x : gresp c) σ' :
  inv Σ → sy_threads Σ !! i = Some (TGateway op h) →
  emits (gateway_program cfg fuel op) (h ++ [Ev (S:=gw) c x]) → cache_answer (Ev (S:=gw) c x) →
  serves (gw_view (Ev (S:=gw) c x)) (sy_cluster Σ) σ' →
  inv (mkSystem σ' (<[i := TGateway op (h ++ [Ev (S:=gw) c x])]> (sy_threads Σ))).
Proof.
  intros Hinv Hi He Hca Hs. pose proof Hinv as [_ Ht _ _].
  destruct (Ht _ (list_elem_of_lookup_2 _ _ _ Hi)) as (_ & Hfs & Hans).
  pose proof (gateway_writes cfg fuel op h c x [] Hfs He) as Hw. eapply inv_served; try done.
  - by eapply gateway_op_ok.
  - constructor. set_solver.
  - intros _ Hlog Hx. split_and!; [done|by apply Forall_app_2; [|apply Forall_singleton]|].
    rewrite fmap_app. apply answered_snoc; [by eapply answered_mono|done].
  - intros base new y hn Eo Hap Hd. destruct c; try discriminate. injection Eo as -> -> ->.
    destruct Hw as [Hob (rq & reason & decision & Hdec & Hp & Hne & Hph & ->)].
    injection Hap as <-. cbn in Hd. subst decision. destruct op; try discriminate. injection Hdec as -> ->.
    exists rq, reason, (h ++ [Ev (S:=gw) (GPatchAR base (decided rq reason "approved" base)) y]), base, y.
    split_and!; try done.
    + apply (list_elem_of_lookup_2 _ i), list_lookup_insert_eq. by eapply lookup_lt_Some.
    + unfold gseen. set_solver.
    + assert (base ∈ cl_log (sy_cluster Σ)) as Hb.
      { destruct Hob as [(rd & nn & Hin)|(a' & Hin)]; apply (in_history gw_view) in Hin; by eapply Hans. }
      cbn. inversion Hs; subst; set_solver.
Qed.

Lemma inv_mcp_step Σ i op h c (x : mresp c) σ' :
  inv Σ → sy_threads Σ !! i = Some (TMcp op h) →
  emits (mcp_program cfg oidcTokenRequired fuel op) (h ++ [Ev (S:=ms) c x]) →
  serves (ms_view (Ev (S:=ms) c x)) (sy_cluster Σ) σ' →
  inv (mkSystem σ' (<[i := TMcp op (h ++ [Ev (S:=ms) c x])]> (sy_threads Σ))).
Proof.
  intros Hinv Hi He Hs. pose proof Hinv as [_ Ht _ _].
  destruct (Ht _ (list_elem_of_lookup_2 _ _ _ Hi)) as (_ & Hans).
  pose proof (mcp_writes cfg oidcTokenRequired fuel op h c x [] He) as Hw. eapply inv_served; try done.
  - by eapply mcp_op_ok.
  - constructor. set_solver.
  - intros _ Hlog Hx. split; [done|]. rewrite fmap_app. apply answered_snoc; [by eapply answered_mono|done].
  - intros base new y hn Eo. destruct c as [g| | | | | | | | | | | | | | |]; try discriminate. by destruct g.
Qed.

Lemma inv_deleted Σ k : inv Σ → inv (mkSystem (forget k (sy_cluster Σ)) (sy_threads Σ)).
Proof.
  intros [Hc Ht Ha Hv]. split; cbn; [by apply forget_ok| |done|].
  - intros th Hin. apply (thread_quiet (sy_cluster Σ)); [done| |by apply Ht]. intros. right. apply forget_quiet.
  - intros v Hin. destruct (Hv v Hin) as [V1 V2 V3 V4]. by split.
Qed.

Lemma inv_step Σ Σ' : inv Σ → step Σ Σ' → inv Σ'.
Proof.
  intros Hinv Hst. destruct Hst.
  - apply inv_spawn; [done| |by intros ? ? [= <- _]]. split_and!; [apply emits_nil|done|intros ? ?; set_solver|].
    intros _ a (rd & nn & Hr). unfold seen in Hr. set_solver.
  - by apply inv_ends.
  - apply inv_spawn; [done| |done]. split_and!; [apply emits_nil|done|intros ? ?; set_solver].
  - apply inv_spawn; [done| |done]. split; [apply emits_nil|intros ? ?; set_solver].
  - by apply inv_reconcile_step.
  - by apply inv_gateway_step.
  - by apply inv_mcp_step.
  - by apply inv_deleted.
Qed.

Lemma reachable_inv Σ : reachable Σ → inv Σ.
Proof. apply rtc_ind_r; [apply inv_initial|]. intros Σ1 Σ2 _ Hs Hi. by eapply inv_step. Qed.

(** *** One step, seen from the stored object *)

(** The request is still the same, and its phase stayed or moved along the
    lifecycle. *)
Definition moved cur cur' : Prop :=
  same_request cur' cur ∧ anns cur' = anns cur ∧
  (phase cur' = phase cur ∨ lifecycle (phase cur) (phase cur')).

Lemma quiet_moved σ σ' k cur cur' :
  cluster_ok σ → unused σ k ∨ quiet_at σ σ' k →
  cl_store σ !! k = Some cur → cl_store σ' !! k = Some cur' → moved cur cur'.
Proof.
  intros Hc Hq Hl Hl'. destruct (ok_key _ Hc _ _ Hl) as [Hk Hin]. destruct Hq as [Hu|Hq]; [by destruct (Hu cur Hin)|].
  destruct (Hq cur' Hl') as (c & Hc' & ? & ? & ?). simplify_eq. split_and!; auto.
Qed.

Lemma reconcile_moved Σ i req h c (x : resp c) σ' k cur cur' :
  inv Σ → sy_threads Σ !! i = Some (TReconcile req true h) →
  emits (Reconcile r req) (h ++ [Ev (S:=ctl) c x]) →
  serves (ctl_view (Ev (S:=ctl) c x)) (sy_cluster Σ) σ' →
  cl_store (sy_cluster Σ) !! k = Some cur → cl_store σ' !! k = Some cur' → moved cur cur'.
Proof.
  intros Hinv Hi He Hs Hl Hl'. pose proof (inv_cluster _ Hinv) as Hc.
  assert (σ' = sy_cluster Σ → moved cur cur') as Hsame by (intros ->; eapply quiet_moved; [done|right; apply quiet_refl|done|done]).
  destruct c as [| | |rd nn|base new| | | | | | | | | | |]; cbn in Hs; try (inversion Hs; subst; by apply Hsame).
  inversion Hs as [o s Hf| | | | | |b n y cur0 cur1 s Hx Hl0 Hp]; subst; [by apply Hsame|].
  destruct (patch_current _ _ _ _ _ _ _ _ Hinv Hi He Hl0) as (Hw & Hkn & Hsr & Hpc & _).
  destruct Hp as (Hk & Han & Hsp & Hph & _). destruct (ok_key _ Hc _ _ Hl0) as [Hk0 _].
  apply lookup_put in Hl' as [[-> ->]|[Hne Hl']].
  - rewrite Hk, Hk0, Hl0 in Hl. injection Hl as <-. split_and!; [unfold same_request; by rewrite Hsp|done|].
    apply (status_write_lifecycle r) in Hw. rewrite Hph, Hpc. unfold merge. case_decide; auto.
  - simplify_eq. split_and!; [done|done|by left].
Qed.

Lemma step_moved Σ Σ' k cur cur' :
  inv Σ → step Σ Σ' →
  cl_store (sy_cluster Σ) !! k = Some cur → cl_store (sy_cluster Σ') !! k = Some cur' → moved cur cur'.
Proof.
  intros Hinv Hst Hl Hl'. pose proof Hinv as [Hc Ht _ _].
  assert (sy_cluster Σ' = sy_cluster Σ → moved cur cur') as Hsame
    by (intros E; rewrite E in Hl'; eapply quiet_moved; [done|right; apply quiet_refl|done|done]).
  destruct Hst as [| | | |i req h c x σ' Hi He Hs|i op h c x σ' Hi He Hca Hs|i op h c x σ' Hi He Hs|k'];
    try (by apply Hsame); cbn in Hl'.
  - by eapply reconcile_moved.
  - destruct (Ht _ (list_elem_of_lookup_2 _ _ _ Hi)) as (_ & Hfs & Hans).
    pose proof (gateway_writes cfg fuel op h c x [] Hfs He) as Hw.
    eapply quiet_moved; [done| |done|done]. apply (gateway_op_ok (sy_cluster Σ) op h c x Hans) in Hw.
    apply (sv_quiet _ _ _ (serves_report _ _ _ Hc Hw Hs)).
  - destruct (Ht _ (list_elem_of_lookup_2 _ _ _ Hi)) as (_ & Hans).
    pose proof (mcp_writes cfg oidcTokenRequired fuel op h c x [] He) as Hw.
    eapply quiet_moved; [done| |done|done]. apply (mcp_op_ok (sy_cluster Σ) h c x Hans) in Hw.
    apply (sv_quiet _ _ _ (serves_report _ _ _ Hc Hw Hs)).
  - apply (quiet_moved (sy_cluster Σ) (forget k' (sy_cluster Σ)) k); [done|right; apply forget_quiet|done|done].
Qed.

End facts.

(** ** Properties *)

Section properties.
Context `{GL : GlobLib, MC : MetaConditions, RLg : RetryLib gw, ML : McpLib, EV : Evaluator, KL : KubeLib}.
Context (r : AgentRequestReconciler) (cfg : mcp_config) (oidcTokenRequired : error → bool) (fuel : nat).

(** A reviewer with the reviewer role, other than the agent of [v], approved
    the request while it was read as Pending. *)
Definition approved_by_reviewer (Σ : system) (v : AgentRequest) : Prop :=
  ∃ rq reason h base x,
    TGateway (OpApprove rq reason) h ∈ sy_threads Σ ∧
    gseen h (GPatchAR base (decided rq reason "approved" base)) x ∧
    has_passed (mc_server cfg) roleReviewer rq ∧ sub_of rq ≠ agent v ∧
    phase base = PhasePending ∧ same_request base v.

(** A reconcile evaluated the request, on the policies and the context it had
    read, and the result did not stand in the way. *)
Definition passed_by_policy (Σ : system) (v : AgentRequest) : Prop :=
  ∃ req live h base result,
    TReconcile req live h ∈ sy_threads Σ ∧ judged r h base result ∧ passes base result ∧ same_request base v.

Lemma justified_version Σ v :
  inv r cfg oidcTokenRequired fuel Σ → v ∈ cl_log (sy_cluster Σ) → justified r cfg Σ (key v) →
  approved_by_reviewer Σ v ∨ passed_by_policy Σ v.
Proof.
  intros [Hc Ht _ _] Hin [(rq & reason & h & base & x & Hth & Hs & Hp & Hne & Hph & Hb & Hk)|(req & live & h & Hth & base & result & Hj & Hk & Hp)].
  - left. destruct (ok_same _ Hc base v Hb Hin Hk) as [Hsr _]. exists rq, reason, h, base, x.
    split_and!; try done. destruct Hsr as (_ & E & _). unfold agent in *. congruence.
  - right. exists req, live, h, base, result. split_and!; try done.
    destruct (Ht _ Hth) as (_ & _ & Hans & _). destruct (based_judged r h base result Hj) as (a & Hr & Hsa & _).
    eapply same_request_trans; [exact Hsa|]. apply (ok_same _ Hc); [|done|].
    + eapply given_logged; [done|by left].
    + destruct Hsa as [E _]. unfold key in *. congruence.
Qed.

(** C1: Every interleaving of reconciles, gateway operations, tool calls and
    deletions, with caches as stale as they may be: a request that is Approved
    or Executing was let pass by an evaluation on the policies as listed, or
    approved by a reviewer who is not its agent; and a request that the
    admission denied, or that the agent's trust level does not let execute, is
    never Pending, Approved or Executing. *)
Theorem execution_authorised Σ v :
  APIReader r = true → reachable r cfg oidcTokenRequired fuel Σ → v ∈ cl_log (sy_cluster Σ) →
  (phase v = PhaseApproved ∨ phase v = PhaseExecuting → approved_by_reviewer Σ v ∨ passed_by_policy Σ v) ∧
  (executable (phase v) = true → trusted v).
Proof.
  intros Hlive Hr Hin. pose proof (reachable_inv r cfg oidcTokenRequired fuel Hlive Σ Hr) as Hinv.
  destruct (inv_versions _ _ _ _ _ Hinv v Hin) as [_ _ Hp Ht]. split; [|done].
  intros H%Hp. by eapply justified_version.
Qed.

(** C10: In the same system, an approval that is stored was written by a reviewer
    who is not the agent, whatever merge patches were interleaved. *)
Theorem four_eyes Σ v ha :
  APIReader r = true → reachable r cfg oidcTokenRequired fuel Σ → v ∈ cl_log (sy_cluster Σ) →
  approval v = Some ha → ha_Decision ha = "approved"%string → approved_by_reviewer Σ v.
Proof.
  intros Hlive Hr Hin Ha Hd. pose proof (reachable_inv r cfg oidcTokenRequired fuel Hlive Σ Hr) as Hinv.
  pose proof (vo_approval _ _ _ _ (inv_versions _ _ _ _ _ Hinv v Hin) ha Ha Hd)
    as (rq & reason & h & base & x & Hth & Hs & Hp & Hne & Hph & Hb & Hk).
  destruct (ok_same _ (inv_cluster _ _ _ _ _ Hinv) base v Hb Hin Hk) as [Hsr _].
  exists rq, reason, h, base, x. split_and!; try done. destruct Hsr as (_ & E & _). unfold agent in *. congruence.
Qed.

(** C2: In the same system no process ever leaves a terminal phase: what is stored
    under a name keeps its identity, target and annotations from step to step,
    and its phase stays or moves along the lifecycle.  The reconciles see
    patch answers as the theorems about one reconcile assume them. *)
Theorem system_lifecycle Σ Σ' k cur cur' :
  APIReader r = true → reachable r cfg oidcTokenRequired fuel Σ → step r cfg oidcTokenRequired fuel Σ Σ' →
  cl_store (sy_cluster Σ) !! k = Some cur → cl_store (sy_cluster Σ') !! k = Some cur' →
  (same_request cur' cur ∧ anns cur' = anns cur ∧
   (phase cur' = phase cur ∨ (lifecycle (phase cur) (phase cur') ∧ terminal (phase cur) = false))) ∧
  ∀ req live h, TReconcile req live h ∈ sy_threads Σ → Forall faithful h.
Proof.
  intros Hlive Hr Hst Hl Hl'. pose proof (reachable_inv r cfg oidcTokenRequired fuel Hlive Σ Hr) as Hinv. split.
  - destruct (step_moved r cfg oidcTokenRequired fuel Σ Σ' k cur cur' Hinv Hst Hl Hl') as (? & ? & [?|Hlc]); split_and!; auto.
    right. split; [done|]. by eapply lifecycle_nonterminal.
  - intros req live h Hin. by destruct (inv_threads _ _ _ _ _ Hinv _ Hin) as (_ & ? & _).
Qed.

End properties.
