(* ===== verification/SystemRuns.v ===== *)
(** * Executions of the whole system

    A request from submission to completion, through both processes: the
    gateway creates it for its agent, the controller evaluates it and asks for
    approval, a reviewer approves it through the gateway, the controller takes
    the lock, the agent reports that it started and that it is done.  The run
    is a path of [System.step]; it witnesses the theorems of [SystemFacts]. *)

From S2P Require Import Prelude GoStd GoStrings Types Prog Retry Kube Conditions Evaluation Naming Registration.
From S2P Require Import TargetURI AgentRequestController ControllerSpec ControllerRefines Cluster LifecycleFacts AuditTrail SinglePhase.
From S2P Require Import LifecycleExamples GatewayAuth Gateway GatewayCreate GatewayMatch GatewayHandlers Mcp McpFacts GatewayFacts CreateFacts.
From S2P Require Import GatewayExamples McpRuns GatewayWrites System SystemFacts.

(** ** Running a program *)

Definition responder (S : sig) : Type := ∀ c : op S, cluster → ans S c * cluster.

(** The first [n] calls of a program. *)
Fixpoint drive_prog {S A} (f : responder S) (n : nat) (p : prog S A) (σ : cluster) : list (event S) * cluster :=
  match n, p with
  | Datatypes.S n, Vis c k =>
      let y := f c σ in
      let d := drive_prog f n (k y.1) y.2 in
      (Ev c y.1 :: d.1, d.2)
  | _, _ => ([], σ)
  end.

Section run.
Context `{GL : GlobLib, MC : MetaConditions, RLg : RetryLib gw, ML : McpLib, EV : Evaluator, KL : KubeLib}.
Context (r : AgentRequestReconciler) (cfg : mcp_config) (oidcTokenRequired : error → bool) (fuel : nat).

Abbreviation one := (step r cfg oidcTokenRequired fuel).
Abbreviation steps := (rtc one).

(** A process [mk h] that may make any call of [p0] that the server answers. *)
Section process.
Context {S : sig} {A : Type} (f : responder S) (p0 : prog S A) (mk : list (event S) → thread).
Context (advance : ∀ Σ i h c σ,
  σ = sy_cluster Σ → sy_threads Σ !! i = Some (mk h) → emits p0 (h ++ [Ev c (f c σ).1]) →
  one Σ (mkSystem (f c σ).2 (<[i := mk (h ++ [Ev c (f c σ).1])]> (sy_threads Σ)))).

Definition partway (ths : list thread) (σ : cluster) (h : list (event S)) (p : prog S A) (n : nat) : system :=
  mkSystem (drive_prog f n p σ).2 (ths ++ [mk (h ++ (drive_prog f n p σ).1)]).

Lemma partway_step ths σ h p n :
  (∀ t, emits p t → emits p0 (h ++ t)) →
  partway ths σ h p n = partway ths σ h p (Datatypes.S n) ∨ one (partway ths σ h p n) (partway ths σ h p (Datatypes.S n)).
Proof.
  revert σ h p. induction n as [|n IH]; intros σ h p He; (destruct p as [a|c k]; [by left|]); unfold partway in *.
  - right. cbn [drive_prog fst snd]. rewrite app_nil_r.
    pose proof (advance (mkSystem σ (ths ++ [mk h])) (length ths) h c σ eq_refl) as Ha. cbn [sy_threads] in Ha.
    rewrite lookup_app_r, Nat.sub_diag, insert_app_r_alt, Nat.sub_diag in Ha by done. apply Ha; [done|].
    apply He. right. eexists _, []. split; [done|]. apply emits_nil.
  - specialize (IH (f c σ).2 (h ++ [Ev c (f c σ).1]) (k (f c σ).1)). rewrite <- !app_assoc in IH. apply IH.
    intros t Ht. rewrite <- app_assoc. apply He. right. by eexists _, t.
Qed.

Lemma partway_steps ths σ n :
  steps (mkSystem σ (ths ++ [mk []])) (partway ths σ [] p0 n).
Proof.
  induction n as [|n IH].
  - by destruct p0.
  - destruct (partway_step ths σ [] p0 n) as [<-|Hs]; [done|done|]. by eapply rtc_r.
Qed.

End process.

Context (fc : responder ctl) (fg : responder gw).
Context (fc_serves : ∀ c σ, serves (ctl_view (Ev (S:=ctl) c (fc c σ).1)) σ (fc c σ).2).
Context (fg_serves : ∀ c σ, serves (gw_view (Ev (S:=gw) c (fg c σ).1)) σ (fg c σ).2).
Context (fg_caches : ∀ c σ, cache_answer (Ev (S:=gw) c (fg c σ).1)).

(** No run below makes more calls. *)
Definition enough : nat := 200.

Definition run_gateway (o : gateway_op) (Σ : system) : system :=
  partway fg (TGateway o) (sy_threads Σ) (sy_cluster Σ) [] (gateway_program cfg fuel o) enough.

(** A reconcile in progress, after [n] calls, and one that has ended. *)
Definition reconcile_at (req : NamespacedName) (Σ : system) (n : nat) : system :=
  partway fc (TReconcile req true) (sy_threads Σ) (sy_cluster Σ) [] (Reconcile r req) n.
Definition reconcile_ended (req : NamespacedName) (Σ : system) (n : nat) : system :=
  let d := drive_prog fc n (Reconcile r req) (sy_cluster Σ) in
  mkSystem d.2 (sy_threads Σ ++ [TReconcile req false d.1]).
Definition run_reconcile (req : NamespacedName) (Σ : system) : system := reconcile_ended req Σ enough.

(** No reconcile is in progress. *)
Definition idle (Σ : system) : Prop := ∀ req h, TReconcile req true h ∉ sy_threads Σ.

Lemma run_gateway_steps o Σ : steps Σ (run_gateway o Σ).
Proof.
  eapply rtc_l; [apply (S_gateway_starts _ _ _ _ Σ o)|]. apply partway_steps.
  intros Σ' i h c σ -> Hi He. by apply S_gateway.
Qed.

Lemma reconcile_advances req Σ i h c σ :
  σ = sy_cluster Σ → sy_threads Σ !! i = Some (TReconcile req true h) →
  emits (Reconcile r req) (h ++ [Ev (S:=ctl) c (fc c σ).1]) →
  one Σ (mkSystem (fc c σ).2 (<[i := TReconcile req true (h ++ [Ev (S:=ctl) c (fc c σ).1])]> (sy_threads Σ))).
Proof. intros -> Hi He. by apply S_reconcile. Qed.

Lemma reconcile_at_steps req Σ n : idle Σ → steps Σ (reconcile_at req Σ n).
Proof.
  intros Hi. eapply rtc_l; [apply (S_reconcile_starts _ _ _ _ Σ req); intros [h Hh]; by destruct (Hi req h)|].
  apply partway_steps, reconcile_advances.
Qed.

Lemma reconcile_at_step req Σ n :
  reconcile_at req Σ n = reconcile_at req Σ (S n) ∨ one (reconcile_at req Σ n) (reconcile_at req Σ (S n)).
Proof. by apply (partway_step fc (Reconcile r req)); [apply reconcile_advances|]. Qed.

Lemma reconcile_ended_steps req Σ n : idle Σ → steps Σ (reconcile_ended req Σ n).
Proof.
  intros Hi. eapply rtc_r; [by apply (reconcile_at_steps req Σ n)|].
  unfold reconcile_at, partway, reconcile_ended. generalize (drive_prog fc n (Reconcile r req) (sy_cluster Σ)). intros d.
  pose proof (S_reconcile_ends r cfg oidcTokenRequired fuel (mkSystem d.2 (sy_threads Σ ++ [TReconcile req true d.1]))
    (length (sy_threads Σ)) req d.1) as Hst.
  cbn [sy_threads sy_cluster] in Hst. rewrite lookup_app_r, Nat.sub_diag, insert_app_r_alt, Nat.sub_diag in Hst by done.
  by apply Hst.
Qed.

(** A schedule: operations and reconciles, one after the other. *)
Definition turn : Type := gateway_op + NamespacedName.
Definition run_turn (Σ : system) (t : turn) : system :=
  match t with inl o => run_gateway o Σ | inr req => run_reconcile req Σ end.
Definition run_all (ts : list turn) : system := fold_left run_turn ts initial.

Lemma run_all_reachable ts : reachable r cfg oidcTokenRequired fuel (run_all ts) ∧ idle (run_all ts).
Proof.
  unfold run_all, reachable. assert (idle initial) as Hi by (intros req h; cbn; set_solver). revert Hi.
  generalize initial. induction ts as [|[o|req] ts IH]; intros Σ Hi; cbn [fold_left run_turn]; [done| |].
  - destruct (IH (run_gateway o Σ)) as [H1 H2].
    { intros req h [Hin|Hin%list_elem_of_singleton]%elem_of_app; [by apply (Hi req h)|done]. }
    split; [|done]. etrans; [apply (run_gateway_steps o Σ)|done].
  - destruct (IH (run_reconcile req Σ)) as [H1 H2].
    { intros req' h [Hin|Hin%list_elem_of_singleton]%elem_of_app; [by apply (Hi req' h)|done]. }
    split; [|done]. etrans; [by apply (reconcile_ended_steps req Σ enough)|done].
Qed.

End run.

(** ** A server *)

#[local] Existing Instance prefix_globs.
#[local] Existing Instance list_conditions.
#[local] Existing Instance five_tries.
#[local] Existing Instance toy_mcp.
#[local] Existing Instance toy_evaluator.
#[local] Existing Instance toy_lib.

Definition not_found : error := EApi NotFound.

(** The server stores what a patch makes of the stored object. *)
Definition patch_status_at (base new : AgentRequest) (σ : cluster) : res AgentRequest * cluster :=
  match cl_store σ !! key new with
  | None => (Err not_found, σ)
  | Some cur =>
      let cur' := set_ar_Status (merge_status (ar_Status base) (ar_Status new) (ar_Status cur)) cur in
      (Ok cur', put cur' σ)
  end.

Definition approve_at (base new : AgentRequest) (σ : cluster) : res AgentRequest * cluster :=
  match cl_store σ !! key new with
  | None => (Err not_found, σ)
  | Some cur =>
      if decide (anns base = anns new ∧ agent base = agent new ∧ spec_Target (ar_Spec base) = spec_Target (ar_Spec new))
      then
        let cur' := set_ar_Spec (set_spec_HumanApproval (merge_approval (approval base) (approval new) (approval cur))
                                   (ar_Spec cur)) cur in
        (Ok cur', put cur' σ)
      else (Err not_found, σ)
  end.

Definition create_at (a : AgentRequest) (σ : cluster) : res AgentRequest * cluster :=
  let a' := if om_Name (ar_Meta a) ==? "" then set_name "r1" a else a in
  if decide (key a' ∈ key <$> cl_log σ) then (Err (EApi AlreadyExists), σ) else (Ok a', put a' σ).

Definition read_at (nn : NamespacedName) (σ : cluster) : res AgentRequest :=
  match cl_store σ !! nn with
  | None => Err not_found
  | Some a => if decide (a ∈ cl_log σ ∧ key a = nn) then Ok a else Err not_found
  end.

Definition scaling : GovernedResource := resource "scaling" "k8s://prod/" ["scale"; "delete"]%string [] None.

Definition ctl_server (c : op ctl) (σ : cluster) : ans ctl c * cluster :=
  match c return resp c * cluster with
  | CNow | CWallNow => (90 * Second, σ)
  | CMetric _ => (tt, σ)
  | CGetAR _ nn => (read_at nn σ, σ)
  | CPatchARStatus base new => patch_status_at base new σ
  | CGetGR _ _ => (Ok scaling, σ)
  | CListPolicies _ _ => (Ok [], σ)
  | CGetLease _ _ => (Err not_found, σ)
  | CCreateLease l | CPatchLease _ l => (Ok l, σ)
  | CDeleteLease _ => (Ok tt, σ)
  | CCreateAudit a | CPatchAudit _ a => (Ok a, σ)
  | CListAudits _ _ _ => (Ok [], σ)
  | CFetchTarget _ _ => ((Some TargetContext_zero, None), σ)
  | CFetchProvider _ _ => (Err (EMsg "no provider"), σ)
  end.

Definition gw_server (c : op gw) (σ : cluster) : ans gw c * cluster :=
  match c return gresp c * cluster with
  | GGetAR _ nn => (read_at nn σ, σ)
  | GCreateAR a => create_at a σ
  | GPatchAR base new => approve_at base new σ
  | GPatchARStatus _ base new => patch_status_at base new σ
  | GDeleteAR a => (Ok tt, forget (key a) σ)
  | GSelect => (TimedOut, σ)
  | c => (env "" [scaling] c, σ)
  end.

Lemma read_at_serves rd nn σ : serves (RGet rd nn (read_at nn σ)) σ σ.
Proof.
  unfold read_at. destruct (cl_store σ !! nn) as [a|] eqn:Hl; [|apply SV_failed; by eexists].
  case_decide as Hd; [|apply SV_failed; by eexists]. destruct Hd. destruct rd; [by apply SV_cached|by apply SV_live].
Qed.

Lemma patch_status_serves base new σ :
  serves (RStatus base new (patch_status_at base new σ).1) σ (patch_status_at base new σ).2.
Proof.
  unfold patch_status_at. destruct (cl_store σ !! key new) as [cur|] eqn:Hl; [|apply SV_failed; by eexists].
  eapply SV_status; [by left|done|]. by destruct cur as [? ? []].
Qed.

Lemma approve_serves base new σ : serves (RPatch base new (approve_at base new σ).1) σ (approve_at base new σ).2.
Proof.
  unfold approve_at. destruct (cl_store σ !! key new) as [cur|] eqn:Hl; [|apply SV_failed; by eexists].
  case_decide as Hd; [|apply SV_failed; by eexists]. destruct Hd as (H1 & H2 & H3).
  eapply SV_patched; [by left|done|]. unfold spec_patched. rewrite !merge_same by done. done.
Qed.

Lemma create_serves a σ : serves (RCreate a (create_at a σ).1) σ (create_at a σ).2.
Proof.
  unfold create_at. set (a' := if _ ==? _ then _ else _).
  case_decide as Hd; [apply SV_failed; by eexists|]. apply (SV_created a _ a'); [by left| |].
  - unfold a'. destruct (String.eqb_spec (om_Name (ar_Meta a)) ""); by repeat split.
  - intros v Hv E. apply Hd. rewrite <- E. apply list_elem_of_fmap. by exists v.
Qed.

Lemma ctl_server_serves c σ : serves (ctl_view (Ev (S:=ctl) c (ctl_server c σ).1)) σ (ctl_server c σ).2.
Proof. destruct c; try (by apply SV_failed); [apply read_at_serves|apply patch_status_serves]. Qed.

Lemma gw_server_serves c σ : serves (gw_view (Ev (S:=gw) c (gw_server c σ).1)) σ (gw_server c σ).2.
Proof.
  destruct c; try (by apply SV_failed);
    [apply read_at_serves|apply create_serves|apply SV_deleted|apply approve_serves|apply patch_status_serves].
Qed.

Lemma gw_server_caches c σ : cache_answer (Ev (S:=gw) c (gw_server c σ).1).
Proof. destruct c; try exact (env_cache_answer "" [scaling] _); done. Qed.

(** ** The run *)

Definition open_server : Server :=
  mkServer 0 (newRoleConfig "bot,svc-a" "alice" "" "" "" "") true true true true "strict".
Definition cfg0 : mcp_config := mkMcpConfig open_server true true [github].

Definition scale_body : createAgentRequestBody :=
  mkCreateBody "" "scale" "k8s://prod/default/deployment/api" "why" "" "" "" "" None None "" None None.

Definition schedule : list turn := [
  inl (OpSubmit (from "svc-a") (Some scale_body)); inr (nn "r1"); inr (nn "r1");
  inl (OpApprove (from "alice") "looks right"); inr (nn "r1");
  inl (OpExecuting (from "bot")); inr (nn "r1"); inl (OpCompleted (from "bot")); inr (nn "r1")].

Definition after (n : nat) : system := run_all rec0 cfg0 5 ctl_server gw_server (take n schedule).

Lemma after_reachable n : reachable rec0 cfg0 never 5 (after n) ∧ idle (after n).
Proof. apply run_all_reachable; [apply ctl_server_serves|apply gw_server_serves|apply gw_server_caches]. Qed.

Definition stored (n : nat) : option AgentRequest := cl_store (sy_cluster (after n)) !! nn "r1".

Example phases_of_the_run :
  (λ n, phase <$> stored n) <$> [1; 2; 3; 4; 5; 6; 7; 8; 9]%nat =
  Some <$> [""; PhasePending; PhasePending; PhasePending; PhaseApproved; PhaseApproved; PhaseExecuting;
            PhaseExecuting; PhaseCompleted]%string.
Proof. vm_compute. reflexivity. Qed.

(** ** Witnesses *)

Definition approved : AgentRequest := default (pending "r1" "scale") (stored 5).

Lemma approved_stored : approved ∈ cl_log (sy_cluster (after 5)).
Proof. apply (list_elem_of_lookup_2 _ 0). vm_compute. reflexivity. Qed.

Lemma approved_facts :
  phase approved = PhaseApproved ∧ agent approved = "bot"%string ∧
  (ha_Decision <$> approval approved) = Some "approved"%string.
Proof. split; [|split]; vm_compute; reflexivity. Qed.

Lemma execution_authorised_witness :
  ∃ v, v ∈ cl_log (sy_cluster (after 5)) ∧ phase v = PhaseApproved ∧
    (approved_by_reviewer cfg0 (after 5) v ∨ passed_by_policy rec0 (after 5) v) ∧ trusted v.
Proof.
  exists approved. pose proof approved_stored as Hin. destruct approved_facts as (Hp & _ & _). split; [exact Hin|]. split; [exact Hp|].
  destruct (execution_authorised rec0 cfg0 never 5 (after 5) approved eq_refl (proj1 (after_reachable 5)) Hin) as [H1 H2].
  split; [apply H1; by left|]. apply H2. by rewrite Hp.
Defined.

Lemma four_eyes_witness :
  ∃ v, v ∈ cl_log (sy_cluster (after 5)) ∧ agent v = "bot"%string ∧ approved_by_reviewer cfg0 (after 5) v.
Proof.
  exists approved. pose proof approved_stored as Hin. destruct approved_facts as (_ & Ha & Hd). split; [exact Hin|]. split; [exact Ha|].
  destruct (approval approved) as [ha|] eqn:E; [|discriminate]. injection Hd as Hd.
  exact (four_eyes rec0 cfg0 never 5 (after 5) approved ha eq_refl (proj1 (after_reachable 5)) Hin E Hd).
Defined.

(** The controller's patch that approves: the ninth call of that reconcile. *)
Definition before : system := reconcile_at rec0 ctl_server (nn "r1") (after 4) 8.
Definition behind : system := reconcile_at rec0 ctl_server (nn "r1") (after 4) 9.

Definition phase_in (Σ : system) : option string := phase <$> cl_store (sy_cluster Σ) !! nn "r1".

Lemma phase_in_stored Σ p :
  phase_in Σ = Some p → ∃ cur, cl_store (sy_cluster Σ) !! nn "r1" = Some cur ∧ phase cur = p.
Proof. intros (cur & E & ->)%fmap_Some_1. by exists cur. Qed.

Lemma before_phase : phase_in before = Some PhasePending.
Proof. vm_compute. reflexivity. Qed.
Lemma behind_phase : phase_in behind = Some PhaseApproved.
Proof. vm_compute. reflexivity. Qed.

Lemma before_reachable : reachable rec0 cfg0 never 5 before.
Proof.
  destruct (after_reachable 4) as [Hr Hi]. unfold reachable. etrans; [exact Hr|].
  by apply reconcile_at_steps; [apply ctl_server_serves|].
Qed.

Lemma before_behind : step rec0 cfg0 never 5 before behind.
Proof.
  assert (before = behind ∨ step rec0 cfg0 never 5 before behind) as [E|H]; [|  |exact H].
  - exact (reconcile_at_step rec0 cfg0 never 5 ctl_server ctl_server_serves (nn "r1") (after 4) 8).
  - pose proof (eq_trans (eq_sym before_phase) (eq_trans (f_equal phase_in E) behind_phase)) as X. discriminate X.
Qed.

Lemma system_lifecycle_witness :
  ∃ cur cur', cl_store (sy_cluster before) !! nn "r1" = Some cur ∧ cl_store (sy_cluster behind) !! nn "r1" = Some cur' ∧
    phase cur' = PhaseApproved ∧ same_request cur' cur ∧ lifecycle (phase cur) (phase cur').
Proof.
  destruct (phase_in_stored before _ before_phase) as (cur & E1 & H1).
  destruct (phase_in_stored behind _ behind_phase) as (cur' & E2 & H2). exists cur, cur'.
  destruct (system_lifecycle rec0 cfg0 never 5 before behind (nn "r1") cur cur' eq_refl before_reachable before_behind E1 E2)
    as [(Hs & _ & [Hp|[Hl _]]) _].
  - exfalso. pose proof (eq_trans (eq_sym H2) (eq_trans Hp H1)) as X. discriminate X.
  - exact (conj E1 (conj E2 (conj H2 (conj Hs Hl)))).
Defined.
